(* ===== verification/_CoqProject ===== *)
-Q . S2P
Prelude.v
Spillway.v
SpillwayConcurrent.v
Encoding.v
Connection.v
ConnectionSpec.v
CustomAllocator.v
RpcMessage.v
RpcServer.v
ExampleService.v
RpcServerSpec.v
RpcClient.v
RpcClientSpec.v
ConnectionPool.v
Codecs.v
Text.v
LevelRuntime.v
LevelThreads.v
Server.v
TlsListener.v
TextServers.v
ExampleProto.v
SpawnServices.v
ClientConnection.v
ServerConnection.v
ServiceContent.v
ExampleClients.v
SequentialClients.v
LoadMetrics.v
TlsClient.v
System.v
Progress.v
ServiceHistory.v
ServerAnswers.v
Answers.v
EndToEnd.v
EndToEndAnswers.v
MessagePackEcho.v
DecoderTwin.v
ProstEcho.v
Programs.v
ProstPrograms.v
UnitTests.v
