(* ===== verification/Prelude.v ===== *)
(** * A verification development for protosocket

    protosocket is a Rust library for message-oriented connections over byte
    streams, with an rpc layer, codecs, servers, an MPSC channel (spillway) and a
    multi-runtime executor (level-runtime) of its own.  This library translates
    the crates' logic into definitions that run and proves what makes it correct.

    ** How the program is put together

    Bytes come from a socket listener ([socket_listener.rs]) that a server
    ([connection_server.rs], [socket_server.rs]) polls.  Each accepted stream gets
    a [Connection] ([connection.rs]), a future that, when polled, reads bytes into
    its receive buffer, decodes messages and hands them to its message reactor;
    then it takes outbound messages from a spillway channel and from the reactor,
    encodes them into a bounded send queue and writes that queue to the stream.
    The rpc server's reactor ([rpc_submitter.rs]) starts an rpc for each request
    and polls all of them for responses; the rpc client's reactor
    ([completion_reactor.rs]) matches responses with the completions its callers
    wait on, and a connection pool ([connection_pool.rs]) shares clients.

    ** Files

    - [Prelude]: machine integers, results, polls, the [run] monad, and the lemmas
      and tactics that all files use.
    - [Spillway] ([spillway/src/*.rs]): the channel, one call at a time.  [Shared]
      is what the [Arc] points to, [Sender] and [Receiver] are the halves.  The
      file gives the invariant [channel_inv] and the abstract queue
      [pending_values] that [poll_next], [next_batch] and the sends refine; the
      section on channels without a capacity serves the client.
    - [SpillwayConcurrent] ([spillway/src/{shared,receiver,sender}.rs]): the same
      calls, one atomic access, critical section or waker operation at a time, as
      a step function on a [World] of sender threads and one receiver; [reachable]
      runs any schedule.
    - [Encoding] ([protosocket-connection/src/{encoding,pooled_encoder,error,
      send_budget,message_reactor}.rs]): the traits as type classes with laws, the
      buffers, the pooled encoder, the send budget.
    - [Connection], [ConnectionSpec] ([connection.rs], [lib.rs]): every method of a
      connection, and its specification: [frames] (the messages in a stream of
      bytes) and [deliver] (what a reactor is given) say what is received, [sends]
      (what is taken from the queue and the reactor) and [wire_all] what is sent.
    - [RpcMessage] ([protosocket-rpc/src/{message,error}.rs]), [RpcServer],
      [RpcServerSpec] ([protosocket-rpc/src/server/{rpc_stream,abortion_tracker,
      rpc_submitter,server_traits}.rs]): one rpc, the abort handles and the
      reactor that pools the rpcs.  The abort flags live in a store that an rpc and
      its handle share.
    - [CustomAllocator] ([protosocket-connection/examples/custom_allocator.rs]): a
      codec without a format, an echo reactor on the bare connection, and a stream
      over two channels.
    - [ExampleService] ([example-messagepack/src/{messages,server}.rs]): the echo
      service, the concrete instance of the rpc interfaces; [ExampleProto]
      ([example-proto], [example-proto-tls]): the same over prost, on TCP and TLS.
    - [RpcClient], [RpcClientSpec] ([protosocket-rpc/src/client/rpc_client.rs],
      [client/reactor/*.rs]): client, reactor, completions and guards over a store
      of channels; dropping a value is an operation of its own.
    - [ConnectionPool] ([client/connection_pool.rs]): slots, tasks, connection
      attempts and the deaths of connections, interleaved freely.
    - [Codecs] ([protosocket-messagepack/src], [protosocket-prost/src]): the two
      framings.
    - [Text]: what the programs use of Rust's strings.
    - [LevelRuntime] ([level-runtime/src]): load counters, the choice of a worker,
      thread names; [LevelThreads] (the same, and [server/spawn.rs]): the builder,
      the threads with their [LOCAL_RUNTIME], the process with its
      [GLOBAL_RUNTIME], and the spawners of the rpc server.
    - [Server] ([protosocket-server/src/connection_server.rs],
      [protosocket-rpc/src/server/socket_server.rs],
      [protosocket-connection/src/socket_listener.rs]): the accept loops, their
      configuration and the TCP listener; [TlsListener] (the same last file): the
      TLS listener over a join set, an instance of the same interface.
    - [TextServers] ([example-telnet], [example-pool]): two servers on the bare
      connection, with codecs, reactors and tasks of their own.
    - [SpawnServices] ([example-proto-spawn], [example-proto-spawn-stream]): rpc
      services that spawn their work, behind a semaphore or a bounded channel.
    - [ClientConnection] ([protosocket-rpc/src/client/{configuration,
      stream_connector}.rs]): [connect], and the client's reactor hosted by a
      [Connection]; [world_of] maps such a connection to the client of
      [RpcClientSpec].
    - [ServerConnection]: a [Connection] that hosts the rpc submitter; its polls
      are runs of the submitter of [RpcServerSpec].
    - [ServiceContent], [ExampleClients] ([example-messagepack/src/client.rs]):
      what the submitter says for any service, and the load generator whose
      assertions depend on it; [SequentialClients] ([example-proto],
      [example-proto-stream], [example-proto-spawn], [example-proto-spawn-stream])
      and [TlsClient] ([example-proto-tls]): the other load generators, any number
      of tasks with what they share.
    - [System]: a client, a submitter and the messages between them, as one step
      relation, with a log of the calls and of what the callers hear; [Progress]:
      how its messages run out; [ServiceHistory], [ServerAnswers], [Answers]: what
      a service may say and what it says in full, and that the callers of the
      system hear it, all of it when they wait; [EndToEnd], [EndToEndAnswers]: two
      connections and a network, whose runs are runs of that system, so that the
      same is said of bytes.
    - [LoadMetrics] (the same clients): the lines of metrics that they print, with
      their floating point numbers.
    - [MessagePackEcho]: the last for the echo service over the MessagePack codec;
      [DecoderTwin]: a pair of connections whose decoders are right on what is sent
      runs like the pair with decoders that are right everywhere; [ProstEcho]: by
      that, the same for the services over prost.
    - [Programs]: the main functions of the examples, which start such pairs, and
      [ProstPrograms]: those of [example-proto].
    - [UnitTests] (the [mod test] of [receiver.rs], [connection.rs] and
      [rpc_client.rs]): the repository's own tests, as runs of the model that meet
      their assertions.

    ** Interfaces

    The code's traits are type classes, and each has a class of laws that its
    users rely on and its implementations prove: [Buf]/[BufLaws],
    [Encoder]/[EncoderLaws], [Decoder]/[DecoderLaws], [CodecLaws],
    [MessageReactor]/[MessageReactorLaws] and [OutboundQueue]/[OutboundQueueLaws]
    are what a connection asks of its parts.  The spillway channel is an instance
    of the queue, the rpc submitter and the completion reactor of the reactor, the
    pooled encoder with a serializer of the encoder.  [ServiceHistory] is what the
    server promises to callers about its services, [LoadProgram]/[LoadProgramLaws]
    what the load generators have in common, [Spawn] the strategy of a server for
    its connections.  [ServiceAnswers] adds to [ServiceHistory] what a service says
    in full, [FuturesUnorderedAwake] to the pool of rpcs that a poll of it, when
    all its members are to be polled and never pend, has something ready.  The
    MessagePack decoder meets the laws of a decoder and is used through them.  The
    decoder of prost does not meet them on bytes that nobody sends (see the findings
    in [Codecs]); on what is sent it does what a lawful decoder does, its twin, and
    [twins] states what a client of the laws needs then.  The decoder of the custom
    allocator takes whatever is there for a message, and what it does is stated for
    it alone.  Library code that the crates call ([AtomicWaker], tokio's oneshot
    channel, [FuturesUnordered], tokio's streams and listeners, [rmp], [prost]) is a
    class with documented behaviour as its laws, and has a concrete instance that
    the witnesses run.

    ** What is shown

    - Channel: one call at a time it is a queue ([Spillway.Channel]); under every
      interleaving it is FIFO per sender, loses no wakeup, does not panic or
      deadlock, keeps its capacity up to one value and reports the end only when
      the senders are gone ([SpillwayConcurrent.Concurrent]).
    - Connection: it delivers exactly the messages framed in the bytes it reads,
      however they are cut; it writes exactly what it encoded, in order; a poll
      ends, and memory stays bounded; one poll seen whole
      ([ConnectionSpec.Connections]).
    - Codecs: pooling is transparent, a budget is respected ([Encoding.Codecs]);
      serialized messages survive fragmentation ([Codecs.Formats]).
    - Rpc server: one terminal event per rpc, an exact abort tracker, exact
      accounting of what is sent, cancellation, an echo answered end to end
      ([RpcServerSpec.RpcReactor]); the polls of its connection are runs of this
      submitter ([ServerConnection.ServerConnections]); every value it sends was
      given by its service for the request of that id ([ServiceContent.Contents]).
    - Rpc client: every wait has its completion, responses go to their requests, a
      dropped completion cancels once ([RpcClientSpec.RpcClients]); the polls of
      its connection are runs of this client, [connect] starts one, and a call goes
      over the wire and back ([ClientConnection.ClientConnections]).
    - Both together: at every moment of every run, a call that is open is on its
      way to the server, running there, or on its way back
      ([System.Systems.no_call_is_lost]); the two connections refine the system,
      and when they are idle nobody waits; a caller hears only what the service
      says to its own request, a stream's caller in order and from the start
      ([EndToEnd.EndToEnds.callers_hear_the_service]), a caller of the echo service
      its own words ([ServiceHistory.Histories]).  Messages run out
      ([Progress.Progresses]), and a caller that keeps its completion then has all
      that the service says to its call ([Answers.Answered]), over the wire too
      ([EndToEndAnswers.EndToEndAnswered]).  The codecs need only agree on the
      messages that fit them; [MessagePackEcho] shows that all that the echo service
      and its callers send fits MessagePack when the texts do, so that the answer
      of a call comes back over it
      ([MessagePackEcho.MessagePackEchoes.messagepack_calls_are_echoed]); over prost
      it comes back whatever the texts are
      ([ProstEcho.ProstEchoes.prost_calls_are_echoed]).
    - Pool, servers, level runtime: single flight, every asker of a pool served
      whatever fails and is dropped, one connection in order per
      accepted stream (TCP and TLS), exact load counters, tasks that stay on the
      worker of the task that spawned them ([LevelThreads.Levels]).
    - Programs: every ASCII character of a telnet client is answered, any other ends
      its connection, and texts stay UTF-8
      ([TextServers.Texts]); slots bound the rpcs and the bounded channel keeps
      its stream ([SpawnServices.Spawning]); the assertions of the load generator
      hold ([ExampleClients.LoadGenerator]); what the gauge of each load generator
      shows, the ids and the permits ([SequentialClients.Generators],
      [TlsClient.tls_calls_are_bounded]); every response is counted in exactly one
      line of metrics ([LoadMetrics.responses_are_printed_once]); the echo of the custom allocator example
      returns the bytes, but its stream loses them
      ([CustomAllocator.CustomAllocators]); the main functions of the echo example
      make a new pair of connections, from which the theorems about pairs start,
      and tasks that share a connection each have a sender
      ([Programs.ExamplePrograms]); those of the example over prost make pairs that
      a new pair reaches ([ProstPrograms]); the repository's tests pass
      ([UnitTests]).
    - Where the code does less than it says, a theorem with a concrete run says
      so: [closed_never_returned], [end_before_last_value], [empty_batch_panics],
      [capacity_overshoot], [full_buffer_wedges], [overconsumption_panics],
      [closing_drops_messages], [pieces_scramble_the_stream],
      [reused_id_loses_the_handle], [stranded_request_hangs],
      [late_failure_drops_the_connection], [cancel_overtakes_its_request],
      [slots_do_not_bound_tasks], [pool_codec_wants_whole_characters],
      [stream_mangles_other_text], [fake_io_hears_nothing],
      [tls_stream_math_is_wrong], and the examples of [Codecs], [LevelRuntime],
      [Server] and [RpcClientSpec].

    ** Conventions, bounds and fuel

    Integers are [N] at their width: sums and differences wrap as in a release
    build.  A panic is the value [Panic] of the [run] monad.  Loops that are not
    structural take fuel and give [OutOfFuel] when it is used up, and theorems say
    that it is not: [decode_loop] gets one more than the bytes to decode, the
    serialize and response loops one more than the room (and the pool) they work
    on; [poll_receive], [poll_writev_buffers] and [poll] need more than the
    [patience] of the stream, the number of times it is ready before it is
    pending.  [full_buffer_wedges] is the case where no fuel is enough.

    ** What is not modelled

    Weak memory orderings (atomics are sequentially consistent), logging and
    tracing, the capacities of vectors, the waking of tasks beyond the channel's
    and the rpcs' wakers, operating system sockets and TLS handshakes (the answers
    to the calls on them are parameters), the inside of tokio's runtimes (a task
    runs on the thread that blocks on its runtime), the histogram crate and the
    decimal digits of the lines of metrics, the builders of tokio's runtimes and the
    waits at the end of the [main] functions, the parsing of addresses, the
    benchmarks, the error enumerations of the server and prost crates, which nothing
    produces, and [rpc_drop_guard.rs], which no module names. *)

From stdpp Require Export base option list numbers gmap relations.
From Stdlib Require Export NArith Lia.

(** ** Machine integers

    [usize], [u64] and [u32] are [N]; every sum or difference the code lets
    overflow goes through the wrapping operations below (the release profile:
    the workspace does not switch overflow checks on). *)

Abbreviation usize := N (only parsing).
Abbreviation u64 := N (only parsing).
Abbreviation u32 := N (only parsing).
Abbreviation u8 := N (only parsing).

Definition wrap (w x : N) : N := (x mod 2 ^ w)%N.
Definition wadd (w a b : N) : N := wrap w (a + b).
Definition wsub (w a b : N) : N := wrap w (a + (2 ^ w - b)).

(** [usize] is 64 bits wide on the targets the library is built for. *)
Abbreviation usize_add := (wadd 64).
Abbreviation usize_sub := (wsub 64).
Abbreviation u64_add := (wadd 64).
Abbreviation u64_sub := (wsub 64).
Abbreviation u32_add := (wadd 32).
Abbreviation u32_sub := (wsub 32).

Definition max_u64 : N := 18446744073709551615.

Lemma wadd_small w a b : (a + b < 2 ^ w)%N → wadd w a b = (a + b)%N.
Proof. intros. unfold wadd, wrap. by apply N.mod_small. Qed.

Lemma wsub_small w a b : (b ≤ a)%N → (a < 2 ^ w)%N → wsub w a b = (a - b)%N.
Proof.
  intros Hle Hlt. unfold wsub, wrap.
  replace (a + (2 ^ w - b))%N with (a - b + 1 * 2 ^ w)%N by lia.
  rewrite N.Div0.mod_add. apply N.mod_small. lia.
Qed.

Lemma wadd_lt w a b : (wadd w a b < 2 ^ w)%N.
Proof. unfold wadd, wrap. apply N.mod_lt. apply N.pow_nonzero. lia. Qed.

Lemma wadd_wrap w a b : wadd w (wrap w a) b = wrap w (a + b).
Proof. unfold wadd, wrap. apply N.Div0.add_mod_idemp_l. Qed.

Lemma wsub_wrap w a b : (b ≤ a)%N → (b ≤ 2 ^ w)%N → wsub w (wrap w a) b = wrap w (a - b).
Proof.
  intros. unfold wsub, wrap. rewrite N.Div0.add_mod_idemp_l.
  replace (a + (2 ^ w - b))%N with (a - b + 1 * 2 ^ w)%N by lia.
  apply N.Div0.mod_add.
Qed.

(** Taking one away changes a number. *)
Lemma wsub_one_ne w a : (0 < w)%N → wsub w a 1 ≠ a.
Proof.
  intros Hw Heq. assert (2 ^ 1 ≤ 2 ^ w)%N as Hp by (apply N.pow_le_mono_r; lia). change (2 ^ 1)%N with 2%N in Hp.
  assert (a < 2 ^ w)%N as Ha by (rewrite <-Heq; apply N.mod_lt; lia).
  destruct (N.eq_dec a 0) as [->|Hz].
  - unfold wsub, wrap in Heq. rewrite N.mod_small in Heq; lia.
  - rewrite wsub_small in Heq; lia.
Qed.

Lemma wrap_small w a : (a < 2 ^ w)%N → wrap w a = a.
Proof. apply N.mod_small. Qed.

Lemma wrap_lt w a : (wrap w a < 2 ^ w)%N.
Proof. apply N.mod_lt. apply N.pow_nonzero. lia. Qed.

(** ** Results, polls and runs *)

Inductive result (A E : Type) : Type :=
| Ok (a : A)
| Err (e : E).
Arguments Ok {A E} _.
Arguments Err {A E} _.

(** [std::task::Poll]. *)
Inductive Poll (A : Type) : Type :=
| Ready (a : A)
| Pending.
Arguments Ready {A} _.
Arguments Pending {A}.

(** [std::ops::ControlFlow<()>]. *)
Inductive ControlFlow : Type := Continue | Break.

#[export] Instance ControlFlow_eq_dec : EqDecision ControlFlow.
Proof. solve_decision. Defined.

(** What running a piece of code does: it returns a value, it panics (a failed
    [expect], an index out of range, a remainder by zero), or the fuel given to
    one of its loops was not enough. *)
Inductive run (A : Type) : Type :=
| Return (a : A)
| Panic
| OutOfFuel.
Arguments Return {A} _.
Arguments Panic {A}.
Arguments OutOfFuel {A}.

Definition run_bind {A B} (m : run A) (k : A → run B) : run B :=
  match m with
  | Return a => k a
  | Panic => Panic
  | OutOfFuel => OutOfFuel
  end.

(** [Option::expect]. *)
Definition expect {A} (o : option A) : run A :=
  match o with
  | Some a => Return a
  | None => Panic
  end.

Declare Scope run_scope.
Delimit Scope run_scope with run.
Notation "'let*' x ':=' m 'in' k" := (run_bind m (λ x, k))
  (at level 10, x binder, m at level 100, k at level 200)
  : run_scope.

Lemma run_bind_Return {A B} (m : run A) (k : A → run B) b :
  run_bind m k = Return b ↔ ∃ a, m = Return a ∧ k a = Return b.
Proof.
  destruct m as [a| |]; simpl; split; intros H; try done.
  - by exists a.
  - by destruct H as (a' & [= ->] & H).
  - by destruct H as (? & ? & ?).
  - by destruct H as (? & ? & ?).
Qed.

Lemma expect_Return {A} (o : option A) a : expect o = Return a ↔ o = Some a.
Proof. destruct o; naive_solver. Qed.

(** ** Lists indexed and measured by machine integers *)

Definition len {A} (l : list A) : N := N.of_nat (length l).

Lemma len_nil {A} : len (@nil A) = 0%N.
Proof. done. Qed.

Lemma len_cons {A} (x : A) l : len (x :: l) = (1 + len l)%N.
Proof. unfold len. simpl. lia. Qed.

Lemma len_app {A} (l k : list A) : len (l ++ k) = (len l + len k)%N.
Proof. unfold len. rewrite length_app. lia. Qed.

Lemma len_zero {A} (l : list A) : len l = 0%N ↔ l = [].
Proof. unfold len. destruct l; simpl; split; intros; try done; lia. Qed.

Lemma len_insert {A} i (x : A) l : len (<[i:=x]> l) = len l.
Proof. unfold len. by rewrite length_insert. Qed.

(** Updating a list where a view of it does not look. *)
Lemma fmap_insert_same {A B} (f : A → B) (l : list A) i x y :
  l !! i = Some x → f y = f x → f <$> <[i:=y]> l = f <$> l.
Proof.
  intros Hi Hf. rewrite list_fmap_insert, Hf. apply list_insert_id.
  by rewrite list_lookup_fmap, Hi.
Qed.

(** Altering an entry that is there, and one that is not. *)
Lemma alter_insert {A} (f : A → A) (l : list A) i x :
  l !! i = Some x → alter f i l = <[i := f x]> l.
Proof.
  intros Hi. apply list_eq. intros j. destruct (decide (j = i)) as [->|Hne].
  - rewrite list_lookup_alter_eq, Hi, list_lookup_insert_eq; [done|]. by eapply lookup_lt_Some.
  - by rewrite list_lookup_alter_ne, list_lookup_insert_ne.
Qed.

Lemma alter_absent {A} (f : A → A) (l : list A) i : l !! i = None → alter f i l = l.
Proof.
  intros Hi. apply list_eq. intros j. destruct (decide (j = i)) as [->|Hne].
  - by rewrite list_lookup_alter_eq, Hi.
  - by rewrite list_lookup_alter_ne.
Qed.

(** ** Sums over lists, for counters kept by atomics *)

Definition sum_by {A} (f : A → N) (l : list A) : N :=
  foldr (λ x acc, f x + acc)%N 0%N l.

Lemma sum_by_app {A} (f : A → N) l k :
  sum_by f (l ++ k) = (sum_by f l + sum_by f k)%N.
Proof. induction l as [|x l IH]; simpl; [done|]. rewrite IH. lia. Qed.

Lemma sum_by_insert {A} (f : A → N) l i x y :
  l !! i = Some x →
  (sum_by f (<[i:=y]> l) + f x = sum_by f l + f y)%N.
Proof.
  revert i. induction l as [|z l IH]; intros [|i] Hi; simpl in *; simplify_eq.
  - lia.
  - specialize (IH _ Hi). lia.
Qed.

Lemma sum_by_lookup_le {A} (f : A → N) l i x :
  l !! i = Some x → (f x ≤ sum_by f l)%N.
Proof.
  revert i. induction l as [|z l IH]; intros [|i] Hi; simpl in *; simplify_eq.
  - lia.
  - specialize (IH _ Hi). lia.
Qed.

Lemma sum_by_zero {A} (f : A → N) l :
  sum_by f l = 0%N ↔ ∀ i x, l !! i = Some x → f x = 0%N.
Proof.
  split.
  - intros Hz i x Hi. pose proof (sum_by_lookup_le f l i x Hi). lia.
  - induction l as [|x l IH]; simpl; intros H; [done|].
    rewrite (H 0 x eq_refl), IH; [done|]. intros i y Hi. by apply (H (S i)).
Qed.

(** ** Executions of labelled machines *)

(** A machine given by a partial step function on labels; its runs are the
    finite sequences of enabled labels. *)
Section machine.
Context {St Lb : Type} (exec : Lb → St → option St).

Definition step (s s' : St) : Prop := ∃ l, exec l s = Some s'.

Fixpoint exec_all (ls : list Lb) (s : St) : option St :=
  match ls with
  | [] => Some s
  | l :: ls => s' ← exec l s; exec_all ls s'
  end.

Lemma exec_all_rtc ls s s' : exec_all ls s = Some s' → rtc step s s'.
Proof.
  revert s. induction ls as [|l ls IH]; simpl; intros s H; simplify_eq.
  { apply rtc_refl. }
  apply bind_Some in H as (s1 & Hl & H).
  eapply rtc_l; [by exists l|]. by apply IH.
Qed.

(** An invariant of every step is an invariant of every run. *)
Lemma rtc_invariant (P : St → Prop) :
  (∀ l s s', P s → exec l s = Some s' → P s') →
  ∀ s s', rtc step s s' → P s → P s'.
Proof. intros Hp s s' Hr. induction Hr as [|x y z [l Hl] _ IH]; eauto. Qed.

(** The same for runs that stay inside a set of states. *)
Lemma rtc_invariant_within (Q P : St → Prop) :
  (∀ l s s', P s → Q s' → exec l s = Some s' → P s') →
  ∀ s s', rtc (λ a b, step a b ∧ Q b) s s' → P s → P s'.
Proof.
  intros Hp s s' Hr. induction Hr as [|x y z [[l Hl] Hq] _ IH]; eauto.
Qed.
End machine.

(** A component that takes messages in and gives messages out: the runs of its
    steps, with all that went in and all that came out. *)
Section io.
Context {St In Out : Type} (io_step : St → list In → list Out → St → Prop).

Inductive io_run : St → list In → list Out → St → Prop :=
| io_refl s : io_run s [] [] s
| io_next s i o s1 i' o' s2 :
    io_step s i o s1 → io_run s1 i' o' s2 → io_run s (i ++ i') (o ++ o') s2.

Lemma io_once s i o s' : io_step s i o s' → io_run s i o s'.
Proof. intros Hs. rewrite <-(app_nil_r i), <-(app_nil_r o). by eapply io_next; [|apply io_refl]. Qed.

Lemma io_trans s i o s1 i' o' s2 :
  io_run s i o s1 → io_run s1 i' o' s2 → io_run s (i ++ i') (o ++ o') s2.
Proof.
  induction 1 as [s|s i1 o1 s2' i2 o2 s3 Hs _ IH]; [done|]. rewrite <-!app_assoc. eauto using io_next.
Qed.

Lemma io_invariant (P : St → Prop) :
  (∀ s i o s', io_step s i o s' → P s → P s') → ∀ s i o s', io_run s i o s' → P s → P s'.
Proof. intros Hp s i o s' Hr. induction Hr; eauto. Qed.
End io.

(** ** Automation *)

(** Case analysis on every [match] and [if] of the goal or of a hypothesis. *)
Ltac split_matches :=
  repeat (case_match || case_decide); simplify_eq/=.

(** Case analysis on the tests of the goal, innermost first. *)
Ltac if_cases :=
  repeat match goal with
  | |- context [if ?b then _ else _] => destruct b eqn:?; try done
  end.

Ltac inv_run :=
  repeat match goal with
  | H : run_bind _ _ = Return _ |- _ =>
      apply run_bind_Return in H as (? & ? & ?)
  | H : expect _ = Return _ |- _ => apply expect_Return in H
  | H : Return _ = Return _ |- _ => injection H as H
  | H : @Panic _ = Return _ |- _ => discriminate H
  | H : @OutOfFuel _ = Return _ |- _ => discriminate H
  end; simplify_eq/=.

Create HintDb protosocket.
Create Rewrite HintDb protosocket.
#[export] Hint Rewrite @len_nil @len_cons @len_app @len_insert : protosocket.
#[export] Hint Resolve wadd_lt : protosocket.
