(* ===== verification/Spillway.v ===== *)
(** * The spillway channel, one call at a time

    [spillway/src/{lib,error,sender,shared,receiver}.rs].  Every operation is a
    function of the shared store ([Shared], what the [Arc] points to) and of the
    half it is called on; this file runs each call without interruption, and
    [SpillwayConcurrent] splits the same calls into their atomic steps. *)

From S2P Require Import Prelude.
Local Open Scope N_scope.
Local Open Scope run_scope.

(** ** The waker cell

    [futures::task::AtomicWaker] is a library type.  What the channel relies on
    is its documentation: a [wake] wakes the last waker that was registered, and
    does nothing when none was. *)

Class AtomicWaker (W K : Type) := {
  aw_new : W;
  aw_register : W → K → W;
  aw_wake : W → W * option K;
}.

Class AtomicWakerLaws (W K : Type) `{AtomicWaker W K} := {
  aw_wake_new : (aw_wake aw_new).2 = None;
  aw_wake_register w k : (aw_wake (aw_register w k)).2 = Some k;
}.

(** An instance, for the executable examples: the cell holds the last waker and
    a wake takes it. *)
Module WakerCell.
#[export] Instance cell K : AtomicWaker (option K) K := {|
  aw_new := None;
  aw_register _ k := Some k;
  aw_wake w := (None, w);
|}.
#[export] Instance cell_laws K : AtomicWakerLaws (option K) K.
Proof. by split. Qed.
End WakerCell.

(** ** Data *)

(** [error.rs]: the unsent value comes back in the error. *)
Inductive Error (V : Type) : Type :=
| Full (v : V)
| Closed (v : V).
Arguments Full {V} _.
Arguments Closed {V} _.

(** [Chute<T>]: one lane, a queue behind a mutex and its dirty flag. *)
Record Chute (T : Type) := mkChute {
  queue : list T;
  clean : bool;
}.
Arguments mkChute {T} _ _.
Arguments queue {T} _.
Arguments clean {T} _.

(** [Shared<T>]. *)
Record Shared (W T : Type) := mkShared {
  chutes : list (Chute T);
  waker : W;
  senders : usize;
  chute_clock : usize;
  channel_size : u64;
  capacity : u64;
  dead : bool;
}.
Arguments mkShared {W T} _ _ _ _ _ _ _.
Arguments chutes {W T} _.
Arguments waker {W T} _.
Arguments senders {W T} _.
Arguments chute_clock {W T} _.
Arguments channel_size {W T} _.
Arguments capacity {W T} _.
Arguments dead {W T} _.

(** [Receiver<T>], without its handle on the shared store. *)
Record Receiver (T : Type) := mkReceiver {
  cursor : usize;
  buffer : list T;
}.
Arguments mkReceiver {T} _ _.
Arguments cursor {T} _.
Arguments buffer {T} _.

(** [Sender<T>], without its handle on the shared store. *)
Record Sender := mkSender { chute : usize }.

(** [BatchDrain<'_, T>]: it borrows the receiver's buffer, which is therefore
    passed to its operations; [drain_tracks] says whether the drain holds a
    reference to [channel_size]. *)
Record BatchDrain := mkBatchDrain {
  drain_tracks : bool;
  initial_len : usize;
}.

Section setters.
Context {W T : Type}.
Definition set_chutes (s : Shared W T) (x : list (Chute T)) : Shared W T :=
  mkShared x (waker s) (senders s) (chute_clock s) (channel_size s) (capacity s) (dead s).
Definition set_waker (s : Shared W T) x : Shared W T :=
  mkShared (chutes s) x (senders s) (chute_clock s) (channel_size s) (capacity s) (dead s).
Definition set_senders (s : Shared W T) x : Shared W T :=
  mkShared (chutes s) (waker s) x (chute_clock s) (channel_size s) (capacity s) (dead s).
Definition set_chute_clock (s : Shared W T) x : Shared W T :=
  mkShared (chutes s) (waker s) (senders s) x (channel_size s) (capacity s) (dead s).
Definition set_channel_size (s : Shared W T) x : Shared W T :=
  mkShared (chutes s) (waker s) (senders s) (chute_clock s) x (capacity s) (dead s).
End setters.

(** ** Chute operations ([impl Chute]) *)

Section chute.
Context {T : Type}.

Definition chute_default : Chute T := mkChute [] true.

(** [Chute::send_many]; the flag of the result says that [on_dirty] is called. *)
Definition chute_send_many (c : Chute T) (t : list T) : Chute T * bool :=
  if len (queue c) =? 0
  then (mkChute (queue c ++ t) false, true)
  else (mkChute (queue c ++ t) (clean c), false).

(** [Chute::swap]: the new queue goes in, the lane's contents come out. *)
Definition chute_swap (c : Chute T) (new_queue : list T) : Chute T * list T :=
  (mkChute new_queue true, queue c).
End chute.

(** ** Shared operations ([impl Shared]) *)

Section shared.
Context {W K T : Type} `{AtomicWaker W K}.
Implicit Types s : Shared W T.

(** [Shared::new]. *)
Definition shared_new (concurrency : usize) (cap : u64) : Shared W T :=
  mkShared (replicate (N.to_nat concurrency) chute_default) aw_new 0 0 0 cap false.

Definition add_sender s : Shared W T := set_senders s (usize_add (senders s) 1).

(** [Shared::drop_sender] returns the count before the decrement. *)
Definition drop_sender s : usize * Shared W T :=
  (senders s, set_senders s (usize_sub (senders s) 1)).

(** [Shared::choose_chute]: the remainder panics when there is no chute. *)
Definition choose_chute s : run (usize * Shared W T) :=
  if len (chutes s) =? 0 then Panic
  else Return (chute_clock s `mod` len (chutes s),
               set_chute_clock s (usize_add (chute_clock s) 1)).

(** [Shared::wake]; the wakers that are woken are part of the result. *)
Definition wake s : Shared W T * list K :=
  let '(w, k) := aw_wake (waker s) in (set_waker s w, option_list k).

(** [Shared::send_many_infallible]. *)
Definition send_many_infallible s (i : usize) (values : list T)
  : run (Shared W T * list K) :=
  match chutes s !! N.to_nat i with
  | None => Panic
  | Some c =>
      let '(c', on_dirty) := chute_send_many c values in
      let s' := set_chutes s (<[N.to_nat i := c']> (chutes s)) in
      Return (if on_dirty then wake s' else (s', []))
  end.

(** [Shared::send]. *)
Definition send s (i : usize) (value : T)
  : run (result unit (Error T) * Shared W T * list K) :=
  if dead s then Return (Err (Closed value), s, [])
  else if negb (capacity s =? max_u64) then
    let prev := channel_size s in
    let s1 := set_channel_size s (u64_add prev 1) in
    if capacity s <? u64_add prev 1
    then Return (Err (Full value),
                 set_channel_size s1 (u64_sub (channel_size s1) 1), [])
    else let* '(s2, ks) := send_many_infallible s1 i [value] in
         Return (Ok tt, s2, ks)
  else let* '(s2, ks) := send_many_infallible s i [value] in
       Return (Ok tt, s2, ks).

(** [Shared::send_many]. *)
Definition send_many s (i : usize) (iter : list T)
  : run (result unit (Error (list T)) * Shared W T * list K) :=
  if dead s then Return (Err (Closed iter), s, [])
  else if negb (capacity s =? max_u64) then
    let count := len iter in
    let prev := channel_size s in
    let s1 := set_channel_size s (u64_add prev count) in
    if capacity s <? u64_add prev count
    then Return (Err (Full iter),
                 set_channel_size s1 (u64_sub (channel_size s1) count), [])
    else let* '(s2, ks) := send_many_infallible s1 i iter in
         Return (Ok tt, s2, ks)
  else let* '(s2, ks) := send_many_infallible s i iter in
       Return (Ok tt, s2, ks).

(** [Shared::race_find_dirty]: the loop [for i in 0..chutes.len()], with [n]
    iterations left. *)
Fixpoint race_find_from s (starting_wrap_offset i : usize) (n : nat)
  : run (option usize) :=
  match n with
  | O => Return None
  | S n =>
      let j := usize_add starting_wrap_offset i `mod` len (chutes s) in
      match chutes s !! N.to_nat j with
      | None => Panic
      | Some c =>
          if clean c then race_find_from s starting_wrap_offset (i + 1) n
          else Return (Some j)
      end
  end.

Definition race_find_dirty s (starting_wrap_offset : usize) : run (option usize) :=
  race_find_from s starting_wrap_offset 0 (length (chutes s)).
End shared.

(** ** The sending half ([sender.rs]) *)

Section sender.
Context {W K T : Type} `{AtomicWaker W K}.
Implicit Types s : Shared W T.

Definition sender_new s : run (Sender * Shared W T) :=
  let* '(i, s') := choose_chute (add_sender s) in Return (mkSender i, s').

Definition sender_clone (_ : Sender) s : run (Sender * Shared W T) :=
  let* '(i, s') := choose_chute (add_sender s) in Return (mkSender i, s').

Definition sender_drop (_ : Sender) s : Shared W T * list K :=
  let '(was, s') := drop_sender s in
  if was =? 1 then wake s' else (s', []).

Definition sender_send (x : Sender) s (value : T) := send s (chute x) value.

Definition sender_send_many (x : Sender) s (values : list T) :=
  send_many s (chute x) values.
End sender.

(** ** The receiving half ([receiver.rs]) *)

Section receiver.
Context {W K T : Type} `{AtomicWaker W K}.
Implicit Types s : Shared W T.
Implicit Types r : Receiver T.

Definition receiver_new : Receiver T := mkReceiver 0 [].

Definition decrement_size s (count : usize) : Shared W T :=
  if negb (capacity s =? max_u64)
  then set_channel_size s (u64_sub (channel_size s) count)
  else s.

(** The second half of [poll_next], once a dirty chute is known. *)
Definition receive_from s r (dirty_index : usize)
  : run (Poll (option T) * Shared W T * Receiver T) :=
  match chutes s !! N.to_nat dirty_index with
  | None => Panic
  | Some c =>
      let '(c', buffer') := chute_swap c (buffer r) in
      let s' := set_chutes s (<[N.to_nat dirty_index := c']> (chutes s)) in
      let cursor' := usize_add dirty_index 1 `mod` len (chutes s') in
      match buffer' with
      | [] => Panic
      | next :: rest =>
          Return (Ready (Some next), decrement_size s' 1, mkReceiver cursor' rest)
      end
  end.

(** [Receiver::poll_next]. *)
Definition poll_next s r (k : K)
  : run (Poll (option T) * Shared W T * Receiver T) :=
  match buffer r with
  | next :: rest =>
      Return (Ready (Some next), decrement_size s 1, mkReceiver (cursor r) rest)
  | [] =>
      let* found := race_find_dirty s (cursor r) in
      match found with
      | Some dirty_index => receive_from s r dirty_index
      | None =>
          let s1 := set_waker s (aw_register (waker s) k) in
          let* found := race_find_dirty s1 (cursor r) in
          match found with
          | Some dirty_index => receive_from s1 r dirty_index
          | None =>
              if 0 =? senders s1 then Return (Ready None, s1, r)
              else Return (Pending, s1, r)
          end
      end
  end.

(** [Receiver::try_next], with the no-op waker [noop]. *)
Definition try_next (noop : K) s r : run (option T * Shared W T * Receiver T) :=
  let* '(p, s', r') := poll_next s r noop in
  Return (match p with Ready next => next | Pending => None end, s', r').

(** One poll of the future of [Receiver::next_batch]: the drain borrows the
    buffer of the receiver that comes back. *)
Definition next_batch_poll s r (k : K)
  : run (Poll (option BatchDrain) * Shared W T * Receiver T) :=
  let* '(p, s1, r1) := poll_next s r k in
  match p with
  | Ready (Some next) =>
      let buffer' := next :: buffer r1 in
      let s2 := if negb (capacity s1 =? max_u64)
                then set_channel_size s1 (u64_add (channel_size s1) 1) else s1 in
      Return (Ready (Some (mkBatchDrain (negb (capacity s2 =? max_u64)) (len buffer'))),
              s2, mkReceiver (cursor r1) buffer')
  | Ready None => Return (Ready None, s1, r1)
  | Pending => Return (Pending, s1, r1)
  end.

(** [Iterator::next] and [ExactSizeIterator::len] of [BatchDrain]. *)
Definition drain_next r : option T * Receiver T :=
  match buffer r with
  | [] => (None, r)
  | x :: rest => (Some x, mkReceiver (cursor r) rest)
  end.

Definition drain_len r : usize := len (buffer r).

(** [Drop for BatchDrain]. *)
Definition drain_drop (d : BatchDrain) s r : Shared W T :=
  if drain_tracks d then
    let consumed := usize_sub (initial_len d) (len (buffer r)) in
    if negb (consumed =? 0)
    then set_channel_size s (u64_sub (channel_size s) consumed) else s
  else s.
End receiver.

(** ** Constructors of a channel ([lib.rs]) *)

Section constructors.
Context {W K T : Type} `{AtomicWaker W K}.

Definition channel_with_capacity_and_concurrency (cap : u64) (concurrency : usize)
  : run (Sender * Receiver T * Shared W T) :=
  let* '(x, s) := sender_new (shared_new concurrency cap) in
  Return (x, receiver_new, s).

Definition channel_with_concurrency (concurrency : usize)
  : run (Sender * Receiver T * Shared W T) :=
  channel_with_capacity_and_concurrency max_u64 concurrency.

Definition channel : run (Sender * Receiver T * Shared W T) :=
  channel_with_concurrency 8.
End constructors.

(** ** Correctness of the sequential channel *)

(** The values that wait in the channel, in the order in which the receiver
    meets them: its buffer, then the lanes from the cursor on, wrapping around. *)
Definition pending_values {W T} (s : Shared W T) (r : Receiver T) : list T :=
  buffer r ++ concat (queue <$> drop (N.to_nat (cursor r)) (chutes s))
           ++ concat (queue <$> take (N.to_nat (cursor r)) (chutes s)).

(** A lane is flagged dirty exactly when it holds something. *)
Definition chute_ok {T} (c : Chute T) : Prop := clean c = true ↔ queue c = [].

(** The invariant of a channel between calls. *)
Record channel_ok {W T} (s : Shared W T) (r : Receiver T) : Prop := {
  ok_len : len (chutes s) < 2 ^ 63;
  ok_chutes i c : chutes s !! i = Some c → chute_ok c;
  ok_cursor : cursor r < len (chutes s);
}.

Section lanes.
Context {T : Type}.
Implicit Types cs : list (Chute T).

Lemma lanes_empty cs :
  (∀ i c, cs !! i = Some c → chute_ok c) →
  (∀ i c, cs !! i = Some c → clean c = true) →
  concat (queue <$> cs) = [].
Proof.
  induction cs as [|c cs IH]; intros Hok Hcl; [done|]. simpl.
  rewrite (proj1 (Hok 0%nat c eq_refl) (Hcl 0%nat c eq_refl)). simpl.
  apply IH; intros i c' Hi; [by apply (Hok (S i))|by apply (Hcl (S i))].
Qed.

Lemma lanes_split cs i c :
  cs !! i = Some c →
  concat (queue <$> cs)
  = concat (queue <$> take i cs) ++ queue c ++ concat (queue <$> drop (S i) cs).
Proof.
  intros Hi. rewrite <-(take_drop_middle _ _ _ Hi) at 1.
  by rewrite fmap_app, concat_app.
Qed.

(** The lanes in the receiver's order, from cursor [n] on. *)
Definition rotation (n : nat) cs : list (Chute T) := drop n cs ++ take n cs.

Lemma rotation_full cs : rotation (length cs) cs = rotation 0 cs.
Proof.
  unfold rotation. rewrite drop_ge, take_ge by lia.
  by rewrite drop_0, app_nil_r.
Qed.
End lanes.

Lemma pending_values_rotation {W T} (s : Shared W T) r :
  pending_values s r
  = buffer r ++ concat (queue <$> rotation (N.to_nat (cursor r)) (chutes s)).
Proof. unfold pending_values, rotation. by rewrite fmap_app, concat_app. Qed.

(** Taking the first non-empty lane out of a rotation and moving the cursor just
    past it leaves the rest of the values in place. *)
(** The lanes from behind lane [j] on, when [j] is replaced. *)
Lemma rotation_after {T} (cs : list (Chute T)) (j : nat) (c' : Chute T) :
  (j < length cs)%nat →
  rotation ((j + 1) `mod` length cs) (<[j:=c']> cs) = drop (S j) cs ++ take j cs ++ [c'].
Proof.
  intros Hlt.
  assert (Hr : rotation (S j) (<[j:=c']> cs) = drop (S j) cs ++ take j cs ++ [c']).
  { unfold rotation. rewrite drop_insert_lt by lia.
    f_equal. rewrite (take_S_r _ _ c') by (by rewrite list_lookup_insert_eq).
    by rewrite take_insert_ge by lia. }
  destruct (decide (S j = length cs)) as [Hl|Hl].
  - rewrite <-Hr. replace (j + 1)%nat with (length cs) by lia.
    rewrite Nat.Div0.mod_same. rewrite Hl at 1.
    rewrite <-(length_insert cs j c'). by rewrite rotation_full.
  - rewrite Nat.mod_small by lia. rewrite <-Hr. f_equal. lia.
Qed.

Lemma rotation_take {T} (cs : list (Chute T)) (n m : nat) (c c' : Chute T) :
  (n < length cs)%nat → (m < length cs)%nat →
  let j := ((n + m) `mod` length cs)%nat in
  cs !! j = Some c → queue c' = [] →
  (∀ i d, cs !! i = Some d → chute_ok d) →
  (∀ m' d, (m' < m)%nat → cs !! ((n + m') `mod` length cs)%nat = Some d → clean d = true) →
  concat (queue <$> rotation n cs)
  = queue c ++ concat (queue <$> rotation ((j + 1) `mod` length cs) (<[j:=c']> cs)).
Proof.
  intros Hn Hm j Hj Hc' Hok Hbefore.
  assert (Hlt : (j < length cs)%nat) by (by eapply lookup_lt_Some).
  rewrite rotation_after, !fmap_app, !concat_app by done. simpl. rewrite Hc', !app_nil_r.
  unfold rotation. rewrite fmap_app, concat_app.
  destruct (decide (n + m < length cs)%nat) as [Hw|Hw].
  - (* no wrap: the lane is at n + m *)
    assert (j = n + m)%nat as Hjm by (unfold j; rewrite Nat.mod_small by lia; lia).
    assert (Hpre : concat (queue <$> take m (drop n cs)) = []).
    { apply lanes_empty.
      - intros i d Hi. apply lookup_take_Some in Hi as [Hi _].
        rewrite lookup_drop in Hi. by eapply Hok.
      - intros i d Hi. apply lookup_take_Some in Hi as [Hi Him].
        rewrite lookup_drop in Hi. apply (Hbefore i d Him).
        by rewrite Nat.mod_small by lia. }
    rewrite (lanes_split (drop n cs) m c) by (by rewrite lookup_drop, <-Hjm).
    rewrite Hpre, drop_drop. simpl. replace (n + S m)%nat with (S j) by lia.
    rewrite Hjm, <-take_take_drop, fmap_app, concat_app, Hpre, app_nil_r.
    by rewrite <-!app_assoc.
  - assert (j = n + m - length cs)%nat as Hjm.
    { unfold j. replace (n + m)%nat with (n + m - length cs + 1 * length cs)%nat by lia.
      rewrite Nat.Div0.mod_add, Nat.mod_small by lia. lia. }
    assert (Hhigh : concat (queue <$> drop n cs) = []).
    { apply lanes_empty; intros i d Hi; rewrite lookup_drop in Hi.
      - by eapply Hok.
      - pose proof (lookup_lt_Some _ _ _ Hi).
        apply (Hbefore i d); [lia|]. by rewrite Nat.mod_small by lia. }
    assert (Hlow : concat (queue <$> take j cs) = []).
    { apply lanes_empty; intros i d Hi; apply lookup_take_Some in Hi as [Hi Him].
      - by eapply Hok.
      - apply (Hbefore (length cs - n + i)%nat d); [lia|].
        replace (n + (length cs - n + i))%nat with (i + 1 * length cs)%nat by lia.
        by rewrite Nat.Div0.mod_add, Nat.mod_small by lia. }
    rewrite Hhigh, Hlow, app_nil_r. simpl.
    rewrite (lanes_split (take n cs) j c) by (rewrite lookup_take_lt by lia; done).
    rewrite take_take, Nat.min_l, Hlow by lia. simpl. f_equal.
    by rewrite <-(drop_take_drop cs (S j) n), fmap_app, concat_app, Hhigh, app_nil_r by lia.
Qed.

Section receive.
Context {W K T : Type} `{AtomicWaker W K}.
Implicit Types s : Shared W T.
Implicit Types r : Receiver T.

Lemma to_nat_wrapped s (c i : N) :
  len (chutes s) < 2 ^ 63 → c < len (chutes s) → i < len (chutes s) →
  N.to_nat (usize_add c i `mod` len (chutes s))
  = ((N.to_nat c + N.to_nat i) `mod` length (chutes s))%nat.
Proof.
  intros. rewrite wadd_small by lia.
  unfold len in *. rewrite N2Nat.inj_mod, N2Nat.inj_add. by rewrite Nat2N.id.
Qed.

(** The scan stops at the first dirty lane, or passes over clean lanes only. *)
Lemma race_find_from_spec s c i n :
  len (chutes s) < 2 ^ 63 → c < len (chutes s) →
  (N.to_nat i + n)%nat = length (chutes s) →
  let clean_before m :=
    ∀ m' d, (N.to_nat i ≤ m' < m)%nat →
      chutes s !! ((N.to_nat c + m') `mod` length (chutes s))%nat = Some d →
      clean d = true in
  (race_find_from s c i n = Return None ∧ clean_before (length (chutes s)))
  ∨ (∃ m j d, (N.to_nat i ≤ m < length (chutes s))%nat ∧ clean_before m ∧
      N.to_nat j = ((N.to_nat c + m) `mod` length (chutes s))%nat ∧
      chutes s !! N.to_nat j = Some d ∧ clean d = false ∧
      race_find_from s c i n = Return (Some j)).
Proof.
  intros Hlen Hc. revert i. induction n as [|n IH]; simpl; intros i Hi.
  { left. split; [done|]. intros m' d ? _. lia. }
  assert (i < len (chutes s)) as Hilt by (unfold len; lia).
  pose proof (to_nat_wrapped s c i Hlen Hc Hilt) as Hj.
  assert (is_Some (chutes s !! N.to_nat (usize_add c i `mod` len (chutes s)))) as [d Hd].
  { apply lookup_lt_is_Some. rewrite Hj. apply Nat.mod_upper_bound. lia. }
  rewrite Hd. destruct (clean d) eqn:Hcl.
  - destruct (IH (i + 1)) as [(Hr & Hb)|(m & j & d' & Hm & Hb & Hrest)]; [lia| |].
    + left. split; [done|]. intros m' d' Hm' Hd'.
      destruct (decide (m' = N.to_nat i)) as [->|]; [|apply (Hb m' d'); [lia|done]].
      rewrite <-Hj in Hd'. by simplify_eq.
    + right. exists m, j, d'. split; [lia|]. split; [|done].
      intros m' d2 Hm' Hd2.
      destruct (decide (m' = N.to_nat i)) as [->|]; [|apply (Hb m' d2); [lia|done]].
      rewrite <-Hj in Hd2. by simplify_eq.
  - right. eexists (N.to_nat i), _, d. split; [lia|]. split; [|done].
    intros m' d' ? _. lia.
Qed.

Lemma lookup_rotated s (n i : nat) :
  (n < length (chutes s))%nat → (i < length (chutes s))%nat →
  ∃ m, (m < length (chutes s))%nat ∧ ((n + m) `mod` length (chutes s))%nat = i.
Proof.
  intros. destruct (decide (n ≤ i)%nat).
  - exists (i - n)%nat. split; [lia|]. rewrite Nat.mod_small by lia. lia.
  - exists (length (chutes s) - n + i)%nat. split; [lia|].
    replace (n + (length (chutes s) - n + i))%nat
      with (i + 1 * length (chutes s))%nat by lia.
    by rewrite Nat.Div0.mod_add, Nat.mod_small by lia.
Qed.

(** When the scan finds nothing, every lane is empty. *)
Lemma race_find_none s r :
  channel_ok s r → race_find_dirty s (cursor r) = Return None →
  concat (queue <$> rotation (N.to_nat (cursor r)) (chutes s)) = [].
Proof.
  intros [Hlen Hok Hcur] Hf.
  destruct (race_find_from_spec s (cursor r) 0 (length (chutes s)))
    as [(_ & Hb)|(m & j & d & _ & _ & _ & _ & _ & He)]; [done..| |].
  2: { unfold race_find_dirty in Hf. congruence. }
  assert (∀ i c, chutes s !! i = Some c → clean c = true) as Hall.
  { intros i c Hi. pose proof (lookup_lt_Some _ _ _ Hi).
    destruct (lookup_rotated s (N.to_nat (cursor r)) i) as (m & Hm & He);
      [unfold len in *; lia|done|].
    apply (Hb m c); [lia|]. by rewrite He. }
  unfold rotation. rewrite fmap_app, concat_app.
  rewrite !lanes_empty; [done|..]; intros i c Hi;
    first [apply lookup_take_Some in Hi as [Hi _] | rewrite lookup_drop in Hi];
    by eauto.
Qed.

(** When it finds a lane, that lane holds the next values. *)
Lemma race_find_some s r :
  channel_ok s r → (∀ j, race_find_dirty s (cursor r) = Return (Some j) →
  ∃ c, chutes s !! N.to_nat j = Some c ∧ queue c ≠ [] ∧
    ∀ c' : Chute T, queue c' = [] →
    concat (queue <$> rotation (N.to_nat (cursor r)) (chutes s))
    = queue c ++ concat (queue <$>
        rotation ((N.to_nat j + 1) `mod` length (chutes s))
          (<[N.to_nat j := c']> (chutes s)))).
Proof.
  intros [Hlen Hok Hcur] j Hf. assert (Hcur' : (N.to_nat (cursor r) < length (chutes s))%nat)
    by (unfold len in *; lia).
  destruct (race_find_from_spec s (cursor r) 0 (length (chutes s)))
    as [(He & _)|(m & j' & d & Hm & Hb & Hj & Hd & Hcl & He)]; [done..| |].
  { unfold race_find_dirty in Hf. congruence. }
  unfold race_find_dirty in Hf. assert (j' = j) as -> by congruence.
  exists d. split; [done|]. split.
  { intros Hq. apply (Hok _ _ Hd) in Hq. congruence. }
  intros c' Hc'. rewrite Hj in Hd |- *.
  apply (rotation_take (chutes s) (N.to_nat (cursor r)) m d c'); try done; try lia.
  intros m' d' Hm' Hd'. apply (Hb m' d'); [lia|done].
Qed.

Lemma race_find_total s r :
  channel_ok s r → ∃ o, race_find_dirty s (cursor r) = Return o.
Proof.
  intros [Hlen Hok Hcur].
  destruct (race_find_from_spec s (cursor r) 0 (length (chutes s)))
    as [(He & _)|(m & j' & d & _ & _ & _ & _ & _ & He)]; eauto.
Qed.
End receive.

Section receive_spec.
Context {W K T : Type} `{AtomicWaker W K}.
Implicit Types s : Shared W T.
Implicit Types r : Receiver T.

Definition size_after s (n : N) : u64 :=
  if capacity s =? max_u64 then channel_size s else u64_sub (channel_size s) n.

Lemma decrement_size_fields s n :
  chutes (decrement_size s n) = chutes s ∧ senders (decrement_size s n) = senders s ∧
  capacity (decrement_size s n) = capacity s ∧ dead (decrement_size s n) = dead s ∧
  channel_size (decrement_size s n) = size_after s n.
Proof. unfold decrement_size, size_after. by destruct (capacity s =? max_u64). Qed.

Lemma channel_ok_same s s' r r' :
  chutes s' = chutes s → cursor r' = cursor r → channel_ok s r → channel_ok s' r'.
Proof. intros Hc Hr []. split; rewrite ?Hc, ?Hr; done. Qed.

Lemma chutes_insert_ok s i (c : Chute T) :
  (∀ j d, chutes s !! j = Some d → chute_ok d) → chute_ok c →
  ∀ j d, <[i:=c]> (chutes s) !! j = Some d → chute_ok d.
Proof. intros Hok Hc j d [(_ & <- & _)|[_ Hj]]%list_lookup_insert_Some; eauto. Qed.

(** Taking a lane that the scan found. *)
Lemma receive_from_spec s r j :
  channel_ok s r → buffer r = [] → race_find_dirty s (cursor r) = Return (Some j) →
  ∃ x s' r', receive_from s r j = Return (Ready (Some x), s', r') ∧
    pending_values s r = x :: pending_values s' r' ∧ channel_ok s' r' ∧
    senders s' = senders s ∧ capacity s' = capacity s ∧ dead s' = dead s ∧
    channel_size s' = size_after s 1.
Proof.
  intros Hcok Hbuf Hf.
  destruct (race_find_some s r Hcok j Hf) as (c & Hj & Hq & Hrot).
  destruct (queue c) as [|x rest] eqn:Hqc; [done|].
  unfold receive_from, chute_swap. rewrite Hj, Hqc, Hbuf.
  set (s1 := set_chutes _ _).
  destruct (decrement_size_fields s1 1) as (Hch & Hse & Hca & Hde & Hsi).
  destruct Hcok as [Hlen Hok Hcur].
  pose proof (lookup_lt_Some _ _ _ Hj) as Hjlt.
  assert (N.to_nat (usize_add j 1 `mod` len (chutes s1))
          = ((N.to_nat j + 1) `mod` length (chutes s))%nat) as Hcursor.
  { unfold s1. simpl. rewrite len_insert, wadd_small by (unfold len in *; lia).
    unfold len. rewrite N2Nat.inj_mod, N2Nat.inj_add. by rewrite Nat2N.id. }
  do 3 eexists. split; [reflexivity|]. split; [|split; [|done]].
  - rewrite !pending_values_rotation, Hbuf, Hch. cbn [cursor buffer app].
    rewrite Hcursor.
    by rewrite (Hrot (mkChute [] true)).
  - split; rewrite ?Hch; simpl.
    + by rewrite len_insert.
    + apply chutes_insert_ok; [done|]. by split.
    + apply N.mod_lt. unfold s1. simpl. rewrite len_insert. unfold len. lia.
Qed.

(** What [poll_next] promises, over the abstract queue of waiting values. *)
Definition poll_next_post (k : K) s r (p : Poll (option T)) s' r' : Prop :=
  match pending_values s r with
  | x :: rest => p = Ready (Some x) ∧ pending_values s' r' = rest ∧
                 channel_size s' = size_after s 1
  | [] => p = (if 0 =? senders s then Ready None else Pending) ∧
          s' = set_waker s (aw_register (waker s) k) ∧ r' = r
  end.

Lemma poll_next_spec s r k :
  channel_ok s r →
  ∃ p s' r', poll_next s r k = Return (p, s', r') ∧ poll_next_post k s r p s' r' ∧
    channel_ok s' r' ∧ senders s' = senders s ∧ capacity s' = capacity s ∧
    dead s' = dead s.
Proof.
  intros Hcok. unfold poll_next, poll_next_post.
  destruct (buffer r) as [|x rest] eqn:Hbuf.
  - destruct (race_find_total s r Hcok) as [[j|] Hf]; rewrite Hf; simpl.
    + destruct (receive_from_spec s r j) as (x & s' & r' & He & Hp & Hrest); [done..|].
      do 3 eexists. split; [exact He|]. rewrite Hp. destruct_and! Hrest. by split_and!.
    + assert (race_find_dirty (set_waker s (aw_register (waker s) k)) (cursor r)
              = race_find_dirty s (cursor r)) as ->.
      { unfold race_find_dirty. simpl. generalize (length (chutes s)), 0.
        intros n. induction n as [|n IH]; intros i; simpl; [done|].
        by repeat case_match. }
      rewrite Hf. simpl. rewrite pending_values_rotation, Hbuf. simpl.
      rewrite (race_find_none s r) by done.
      exists (if 0 =? senders s then Ready None else Pending),
        (set_waker s (aw_register (waker s) k)), r.
      split; [by destruct (senders s)|].
      split; [done|]. split; [|done]. by apply (channel_ok_same s _ r).
  - do 3 eexists. split; [reflexivity|]. rewrite pending_values_rotation, Hbuf. simpl.
    destruct (decrement_size_fields s 1) as (Hch & Hse & Hca & Hde & Hsi).
    split_and!; try done; [|by apply (channel_ok_same s _ r)].
    by rewrite pending_values_rotation, Hch.
Qed.
End receive_spec.

(** ** Sending *)

Section send_spec.
Context {W K T : Type} `{AtomicWaker W K}.
Implicit Types s : Shared W T.
Implicit Types r : Receiver T.

Definition lane s (i : N) : list T := default [] (queue <$> chutes s !! N.to_nat i).

(** A send that is accepted puts the values at the end of the sender's lane,
    and wakes the receiver exactly when the lane was empty. *)
Lemma send_many_infallible_spec s r i (values : list T) :
  channel_ok s r → i < len (chutes s) → values ≠ [] →
  ∃ s' ks, send_many_infallible s i values = Return (s', ks) ∧ channel_ok s' r ∧
    lane s' i = lane s i ++ values ∧ (∀ j, j ≠ i → lane s' j = lane s j) ∧
    ks = (if len (lane s i) =? 0 then option_list (aw_wake (waker s)).2 else []) ∧
    senders s' = senders s ∧ capacity s' = capacity s ∧ dead s' = dead s ∧
    channel_size s' = channel_size s ∧
    len (pending_values s' r) = len (pending_values s r) + len values.
Proof.
  intros Hcok Hi Hne. unfold send_many_infallible.
  destruct (chutes s !! N.to_nat i) as [c|] eqn:Hc.
  2: { apply lookup_ge_None in Hc. unfold len in Hi. lia. }
  set (c' := mkChute (queue c ++ values) (if len (queue c) =? 0 then false else clean c)).
  set (s1 := set_chutes s (<[N.to_nat i := c']> (chutes s))).
  assert (Hlane : lane s i = queue c) by (unfold lane; by rewrite Hc).
  assert (Hc'ok : chute_ok c').
  { pose proof (ok_chutes s r Hcok _ _ Hc) as Hck.
    unfold chute_ok, c' in *. simpl. destruct (N.eqb_spec (len (queue c)) 0) as [Hz|Hz].
    - split; [done|]. intros [_ ?]%app_nil. done.
    - rewrite len_zero in Hz. split; [intros Hcl; by apply Hck in Hcl|].
      intros [? _]%app_nil. done. }
  assert (Hok1 : channel_ok s1 r).
  { destruct Hcok as [Hlen Hok Hcur]. split; simpl; rewrite ?len_insert; try done.
    by apply chutes_insert_ok. }
  assert (Hl1 : lane s1 i = lane s i ++ values).
  { rewrite Hlane. unfold lane, s1. simpl.
    by rewrite list_lookup_insert_eq by (by eapply lookup_lt_Some). }
  assert (Hl2 : ∀ j, j ≠ i → lane s1 j = lane s j).
  { intros j Hj. unfold lane, s1. simpl. rewrite list_lookup_insert_ne by lia. done. }
  assert (Hsz : len (pending_values s1 r) = len (pending_values s r) + len values).
  { assert (∀ l : list (Chute T),
      len (concat (queue <$> l)) = sum_by (λ c, len (queue c)) l) as Hsum.
    { induction l as [|a l IH]; [done|]. simpl. rewrite len_app. f_equal. exact IH. }
    unfold pending_values. rewrite !len_app.
    assert (∀ n (l : list (Chute T)), len (concat (queue <$> drop n l))
            + len (concat (queue <$> take n l)) = sum_by (λ c, len (queue c)) l) as Hdt.
    { intros n l. rewrite <-(take_drop n l) at 3. rewrite sum_by_app, !Hsum. lia. }
    rewrite !Hdt. pose proof (sum_by_insert (λ c, len (queue c)) _ _ _ c' Hc) as Hins.
    unfold s1. simpl in *. rewrite len_app in Hins. lia. }
  rewrite Hlane in Hl1 |- *.
  unfold chute_send_many. destruct (N.eqb_spec (len (queue c)) 0) as [Hz|Hz].
  - fold c' s1. unfold wake. destruct (aw_wake (waker s1)) as [w k] eqn:Hw.
    exists (set_waker s1 w), (option_list k). split; [done|].
    split_and!; try done; [by apply (channel_ok_same s1 _ r)|].
    change (waker s1) with (waker s) in Hw. by rewrite Hw.
  - exists s1, []. split; [done|]. split_and!; done.
Qed.

(** The invariant of a channel that has only been used through its handles:
    the counter of a bounded channel is the number of waiting values, and it
    never exceeds the capacity. *)
Record channel_inv s r : Prop := {
  inv_ok : channel_ok s r;
  inv_alive : dead s = false;
  inv_capacity : capacity s ≤ max_u64;
  inv_size : capacity s ≠ max_u64 →
    channel_size s = len (pending_values s r) ∧ channel_size s ≤ capacity s;
}.

Lemma channel_inv_size_lt s r :
  channel_inv s r → capacity s ≠ max_u64 → channel_size s < 2 ^ 64.
Proof.
  intros [_ _ Hc Hs] Hne. destruct (Hs Hne). unfold max_u64 in *.
  change (2 ^ 64) with 18446744073709551616. lia.
Qed.

(** The branches of [send_many]: nothing changes when it is refused. *)
Lemma send_many_spec s r i (values : list T) :
  channel_inv s r → i < len (chutes s) → values ≠ [] →
  channel_size s + len values < 2 ^ 64 →
  (capacity s ≠ max_u64 ∧ capacity s < channel_size s + len values ∧
   send_many s i values = Return (Err (Full values), s, []))
  ∨ (∃ s' ks, (capacity s ≠ max_u64 → channel_size s + len values ≤ capacity s) ∧
     send_many s i values = Return (Ok tt, s', ks) ∧ channel_inv s' r ∧
     lane s' i = lane s i ++ values ∧ (∀ j, j ≠ i → lane s' j = lane s j) ∧
     ks = (if len (lane s i) =? 0 then option_list (aw_wake (waker s)).2 else [])).
Proof.
  intros Hinv Hi Hne Hlt. pose proof (channel_inv_size_lt s r Hinv) as Hszlt.
  destruct Hinv as [Hcok Hdead Hcapb Hsize]. unfold send_many. rewrite Hdead. simpl.
  destruct (N.eqb_spec (capacity s) max_u64) as [Hcap|Hcap]; simpl.
  - right. destruct (send_many_infallible_spec s r i values)
      as (s' & ks & He & Hok' & Hl & Hl' & Hks & Hse & Hca & Hde & Hsi & Hp); [done..|].
    exists s', ks. rewrite He. split_and!; try done. split; [done|congruence..].
  - destruct (Hsize Hcap) as [Hsz Hle]. specialize (Hszlt Hcap).
    rewrite wadd_small by done.
    destruct (N.ltb_spec (capacity s) (channel_size s + len values)) as [Hfull|Hfit].
    + left. split_and!; try done. f_equal. f_equal. f_equal.
      rewrite wsub_small by lia. replace (_ + _ - _) with (channel_size s) by lia.
      by destruct s.
    + right. set (s1 := set_channel_size s (channel_size s + len values)).
      destruct (send_many_infallible_spec s1 r i values)
        as (s' & ks & He & Hok' & Hl & Hl' & Hks & Hse & Hca & Hde & Hsi & Hp);
        [by apply (channel_ok_same s _ r)|done..|].
      exists s', ks. rewrite He. split_and!; try done.
      split; [done|by rewrite Hde|by rewrite Hca|]. intros _.
      rewrite Hsi, Hp, Hca. simpl. unfold pending_values in *. simpl. lia.
Qed.
End send_spec.

(** ** Theorems *)

Section theorems.
Context {W K T : Type} `{AtomicWaker W K}.
Implicit Types s : Shared W T.
Implicit Types r : Receiver T.

(** A single send is a batch of one, up to the shape of the error. *)
Lemma send_as_send_many s i v :
  send s i v =
  (let* '(res, s', ks) := send_many s i [v] in
   Return (match res with
           | Ok tt => Ok tt
           | Err (Full _) => Err (Full v)
           | Err (Closed _) => Err (Closed v)
           end, s', ks)).
Proof.
  unfold send, send_many. change (len [v]) with 1. destruct (dead s); [done|].
  destruct (capacity s =? max_u64); simpl.
  - by destruct (send_many_infallible s i [v]) as [[]| |].
  - destruct (capacity s <? _); [done|].
    by destruct (send_many_infallible _ i [v]) as [[]| |].
Qed.

Lemma poll_next_inv s r k p s' r' :
  channel_inv s r → poll_next s r k = Return (p, s', r') →
  poll_next_post k s r p s' r' ∧ channel_inv s' r' ∧ senders s' = senders s.
Proof.
  intros Hinv He. pose proof (channel_inv_size_lt s r Hinv) as Hlt.
  destruct Hinv as [Hok Hdead Hcap Hsize].
  destruct (poll_next_spec s r k Hok)
    as (p0 & s0 & r0 & He0 & Hpost & Hok' & Hse & Hca & Hde).
  rewrite He in He0. injection He0 as <- <- <-.
  split_and!; try done. split; [done|by rewrite Hde|by rewrite Hca|].
  rewrite Hca. intros Hne. destruct (Hsize Hne) as [Hs Hle].
  unfold poll_next_post in Hpost.
  destruct (pending_values s r) as [|x rest] eqn:Hpv.
  - destruct Hpost as (_ & -> & ->). simpl. change (pending_values (set_waker s _) r)
      with (pending_values s r). by rewrite Hpv.
  - destruct Hpost as (_ & Hrest & Hsz). rewrite Hrest, Hsz. unfold size_after.
    destruct (N.eqb_spec (capacity s) max_u64); [done|].
    rewrite Hs. autorewrite with protosocket in *.
    rewrite wsub_small by (specialize (Hlt Hne); lia). lia.
Qed.

(** Polls until the channel has nothing more to give, at most [n] of them. *)
Fixpoint poll_all (n : nat) s r (k : K) : run (list T * Poll (option T) * Shared W T * Receiver T) :=
  match n with
  | O => OutOfFuel
  | S n =>
      let* '(p, s1, r1) := poll_next s r k in
      match p with
      | Ready (Some x) =>
          let* '(xs, q, s2, r2) := poll_all n s1 r1 k in Return (x :: xs, q, s2, r2)
      | _ => Return ([], p, s1, r1)
      end
  end.

Lemma poll_all_spec n s r k :
  channel_inv s r → (length (pending_values s r) < n)%nat →
  ∃ s' r', poll_all n s r k
           = Return (pending_values s r,
                     if 0 =? senders s then Ready None else Pending, s', r') ∧
    channel_inv s' r' ∧ pending_values s' r' = [].
Proof.
  revert s r. induction n as [|n IH]; intros s r Hinv Hn; [lia|]. simpl.
  destruct (poll_next_spec s r k (inv_ok _ _ Hinv)) as (p & s1 & r1 & He & _).
  destruct (poll_next_inv _ _ _ _ _ _ Hinv He) as (Hpost & Hinv1 & Hse).
  rewrite He. simpl. unfold poll_next_post in Hpost.
  destruct (pending_values s r) as [|x rest] eqn:Hpv.
  - destruct Hpost as (-> & -> & ->). exists (set_waker s (aw_register (waker s) k)), r.
    split; [by destruct (senders s)|]. by split.
  - destruct Hpost as (-> & Hrest & _). simpl in Hn.
    destruct (IH s1 r1 Hinv1) as (s2 & r2 & He2 & Hinv2); [rewrite Hrest; lia|].
    rewrite He2, Hrest, Hse. simpl. eauto.
Qed.

(** Draining [n] values of a batch and dropping the drain. *)
Fixpoint drain_many (n : nat) r : list T * Receiver T :=
  match n with
  | O => ([], r)
  | S n => match drain_next r with
           | (None, r') => ([], r')
           | (Some x, r') => let '(xs, r'') := drain_many n r' in (x :: xs, r'')
           end
  end.

Lemma drain_many_spec n r :
  drain_many n r = (take n (buffer r), mkReceiver (cursor r) (drop n (buffer r))).
Proof.
  revert r. induction n as [|n IH]; intros [c b]; simpl.
  { by rewrite drop_0. }
  unfold drain_next. simpl. destruct b as [|x b]; simpl; [done|]. by rewrite IH.
Qed.

(** The drop of a drain uncounts what was taken from it. *)
Lemma drain_drop_size d s r n (l : list T) :
  drain_tracks d = true → initial_len d = len l → buffer r = drop n l → len l < 2 ^ 64 →
  len l ≤ channel_size s < 2 ^ 64 →
  channel_size (drain_drop d s r) = channel_size s - len (take n l).
Proof.
  intros Htr Hi Hb Hlt [Hle Hs]. assert (len (take n l) + len (drop n l) = len l) as Hsum
    by (by rewrite <-len_app, take_drop).
  assert (usize_sub (initial_len d) (len (buffer r)) = len (take n l)) as Hcons
    by (rewrite Hi, Hb, wsub_small by lia; lia).
  unfold drain_drop. rewrite Htr, Hcons.
  destruct (N.eqb_spec (len (take n l)) 0) as [Hz|Hz]; simpl; [lia|]. rewrite wsub_small; lia.
Qed.

(** A poll for a batch, then draining and dropping it, has the effect of that
    many single polls: the values leave in order and the counter follows. *)
Lemma next_batch_spec s r k n x rest :
  channel_inv s r → pending_values s r = x :: rest →
  ∃ d s1 r1 b, next_batch_poll s r k = Return (Ready (Some d), s1, r1) ∧
    buffer r1 = x :: b ∧ drain_len r1 = 1 + len b ∧
    let '(out, r2) := drain_many n r1 in
    out = take n (x :: b) ∧
    channel_inv (drain_drop d s1 r2) r2 ∧
    pending_values s r = out ++ pending_values (drain_drop d s1 r2) r2.
Proof.
  intros Hinv Hpv. pose proof (channel_inv_size_lt s r Hinv) as Hlt.
  destruct (poll_next_spec s r k (inv_ok _ _ Hinv))
    as (p & s0 & r0 & He & _ & _ & _ & Hcap0 & _).
  destruct (poll_next_inv _ _ _ _ _ _ Hinv He) as (Hpost & [Hok0 Hd0 Hc0 Hs0] & _).
  pose proof (inv_size s r Hinv) as Hsize. rewrite Hpv, <-Hcap0, len_cons in Hsize.
  unfold poll_next_post in Hpost. rewrite Hpv in Hpost.
  destruct Hpost as (-> & Hrest & _).
  unfold next_batch_poll. rewrite He. simpl.
  set (s1 := if negb (capacity s0 =? max_u64) then _ else _).
  assert (chutes s1 = chutes s0 ∧ capacity s1 = capacity s0 ∧ dead s1 = dead s0) as (Hch & Hca & Hde)
    by (unfold s1; by destruct (capacity s0 =? max_u64)).
  do 4 eexists. split; [reflexivity|]. split; [reflexivity|].
  split; [unfold drain_len; simpl; by rewrite len_cons|].
  rewrite drain_many_spec. cbn [buffer cursor]. split; [done|].
  set (d := mkBatchDrain _ _). set (r2 := mkReceiver (cursor r0) (drop n (x :: buffer r0))).
  assert (Hdf : chutes (drain_drop d s1 r2) = chutes s0 ∧
                capacity (drain_drop d s1 r2) = capacity s0 ∧
                dead (drain_drop d s1 r2) = dead s0).
  { unfold drain_drop. repeat case_match; done. }
  destruct Hdf as (Hch2 & Hca2 & Hde2).
  assert (Hpv2 : x :: rest = take n (x :: buffer r0)
                               ++ pending_values (drain_drop d s1 r2) r2).
  { rewrite <-Hrest, !pending_values_rotation, Hch2. cbn [buffer cursor r2].
    rewrite app_assoc, take_drop. done. }
  split; [|by rewrite Hpv].
  split; [by apply (channel_ok_same s0 _ r0)|by rewrite Hde2|by rewrite Hca2|].
  rewrite Hca2. intros Hne. destruct (Hs0 Hne) as [Hsz Hle]. destruct (Hsize Hne) as [Hsz' Hle'].
  assert (Hl : len rest + 1 = len (take n (x :: buffer r0))
               + len (pending_values (drain_drop d s1 r2) r2)).
  { rewrite <-len_app, <-Hpv2, len_cons. lia. }
  assert (len (buffer r0) ≤ len rest) as Hbl.
  { rewrite <-Hrest, pending_values_rotation, len_app. lia. }
  rewrite Hrest in Hsz.
  assert (channel_size s1 = channel_size s0 + 1) as Hs1.
  { unfold s1. rewrite (proj2 (N.eqb_neq _ _) Hne). simpl. apply wadd_small. unfold max_u64 in *. lia. }
  assert (channel_size (drain_drop d s1 r2)
          = channel_size s1 - len (take n (x :: buffer r0))) as Hdd; [|split; lia].
  apply drain_drop_size; simpl; try done; [by rewrite Hca; apply N.eqb_neq in Hne as ->|..];
    rewrite ?len_cons; unfold max_u64 in *; lia.
Qed.
End theorems.

(** ** Deciding the invariant, for concrete channels *)

Section decide.
Context {W T : Type}.
Implicit Types s : Shared W T.

Definition chute_okb (c : Chute T) : bool := eqb (clean c) (len (queue c) =? 0).

Definition channel_invb s (r : Receiver T) : bool :=
  (len (chutes s) <? 2 ^ 63) && forallb chute_okb (chutes s)
  && (cursor r <? len (chutes s)) && negb (dead s) && (capacity s <=? max_u64)
  && ((capacity s =? max_u64)
      || ((channel_size s =? len (pending_values s r)) && (channel_size s <=? capacity s))).

Lemma chute_okb_sound c : chute_okb c = true → chute_ok c.
Proof.
  unfold chute_okb, chute_ok. rewrite <-len_zero.
  destruct (clean c), (N.eqb_spec (len (queue c)) 0); simpl; naive_solver.
Qed.

Lemma channel_invb_sound s r : channel_invb s r = true → channel_inv s r.
Proof.
  unfold channel_invb. rewrite !andb_true_iff.
  intros (((((Hl & Hf) & Hc) & Hd) & Hcap) & Hs).
  apply N.ltb_lt in Hl, Hc. apply N.leb_le in Hcap. apply negb_true_iff in Hd.
  split; try done.
  - split; try done. intros i c Hi. apply chute_okb_sound.
    rewrite forallb_forall in Hf. apply Hf. apply list_elem_of_In.
    by eapply list_elem_of_lookup_2.
  - intros Hne. apply orb_true_iff in Hs as [Hs|Hs]; [by apply N.eqb_eq in Hs|].
    apply andb_true_iff in Hs as [Hs1 Hs2].
    by rewrite <-N.eqb_eq, <-N.leb_le.
Qed.
End decide.

Section construct.
Context {W K T : Type} `{AtomicWaker W K}.

Lemma channel_new_inv (cap concurrency : N) :
  0 < concurrency < 2 ^ 63 → cap ≤ max_u64 →
  ∃ x r (s : Shared W T),
    channel_with_capacity_and_concurrency cap concurrency = Return (x, r, s) ∧
    channel_inv s r ∧ pending_values s r = [] ∧ senders s = 1 ∧
    capacity s = cap ∧ chute x = 0.
Proof.
  intros Hc Hcap. unfold channel_with_capacity_and_concurrency, sender_new, choose_chute.
  set (n := N.to_nat concurrency).
  assert (Hlen : len (chutes (add_sender (@shared_new W K T _ concurrency cap))) = concurrency).
  { unfold len. simpl. rewrite length_replicate. lia. }
  rewrite Hlen. destruct (N.eqb_spec concurrency 0); [lia|]. simpl run_bind.
  do 3 eexists. split; [reflexivity|].
  assert (Hpv : ∀ m, concat (queue <$> replicate m (@chute_default T)) = []).
  { induction m; done. }
  assert (Hpend : pending_values (set_chute_clock (add_sender
            (@shared_new W K T _ concurrency cap)) (usize_add 0 1)) receiver_new = []).
  { unfold pending_values. simpl. by rewrite drop_0, Hpv. }
  split_and!; try done.
  split; try done.
  - split; try done; cbn [cursor receiver_new].
    + change (len (chutes (add_sender (@shared_new W K T _ concurrency cap))) < 2 ^ 63). lia.
    + intros i c [-> _]%lookup_replicate. by split.
    + change (0 < len (chutes (add_sender (@shared_new W K T _ concurrency cap)))). lia.
  - intros _. rewrite Hpend. split; [done|]. simpl. lia.
Qed.
End construct.

(** ** Channels without a capacity *)

Section unbounded.
Context {W K T : Type} `{AtomicWaker W K}.
Implicit Types s : Shared W T.
Implicit Types r : Receiver T.

(** What waits in a channel, in any order. *)
Definition waiting s r : list T := buffer r ++ concat (queue <$> chutes s).

Lemma pending_waiting s r : pending_values s r ≡ₚ waiting s r.
Proof.
  unfold pending_values, waiting. apply Permutation_app_head.
  rewrite Permutation_app_comm, <-concat_app, <-fmap_app. by rewrite take_drop.
Qed.

(** An unbounded channel in order. *)
Definition unbounded s r : Prop := channel_inv s r ∧ capacity s = max_u64.

Lemma send_many_infallible_lane s i vs s' ks :
  send_many_infallible s i vs = Return (s', ks) →
  ∃ c c', chutes s !! N.to_nat i = Some c ∧ queue c' = queue c ++ vs ∧
          chutes s' = <[N.to_nat i := c']> (chutes s).
Proof.
  unfold send_many_infallible, chute_send_many, wake.
  destruct (chutes s !! N.to_nat i) as [c|]; [|done].
  destruct (len (queue c) =? 0); cbn zeta.
  - destruct (aw_wake _) as [w k]. intros [= <- _]. by exists c, (mkChute (queue c ++ vs) false).
  - intros [= <- _]. by exists c, (mkChute (queue c ++ vs) (clean c)).
Qed.

Lemma send_unbounded s r i v :
  unbounded s r → i < len (chutes s) →
  ∃ s' ks, send s i v = Return (Ok tt, s', ks) ∧ unbounded s' r ∧
    waiting s' r ≡ₚ v :: waiting s r ∧ senders s' = senders s ∧
    length (chutes s') = length (chutes s) ∧
    (length (chutes s) = 1%nat → pending_values s' r = pending_values s r ++ [v]).
Proof.
  intros [[Hok Hdead Hcap Hsize] Hunb] Hi.
  destruct (send_many_infallible_spec s r i [v] Hok Hi) as
    (s' & ks & He & Hok' & Hl & Hl' & Hks & Hse & Hca & Hde & Hsi & Hlen); [done|].
  exists s', ks. unfold send. rewrite Hdead, Hunb. simpl. rewrite He. split; [done|].
  assert (∃ c c', chutes s !! N.to_nat i = Some c ∧ queue c' = queue c ++ [v] ∧
            chutes s' = <[N.to_nat i := c']> (chutes s))
    as (c & c' & Hc & Hq & Hcs) by (by eapply send_many_infallible_lane).
  split; [split; [split; try congruence; done|congruence]|].
  split.
  { unfold waiting. rewrite Hcs. rewrite Permutation_app_comm. symmetry.
    rewrite Permutation_app_comm. rewrite (lanes_split _ _ _ Hc).
    assert ((<[N.to_nat i := c']> (chutes s)) !! N.to_nat i = Some c') as Hc'
      by (apply list_lookup_insert_eq; by eapply lookup_lt_Some).
    rewrite (lanes_split _ _ _ Hc'), Hq. rewrite take_insert_ge by lia. rewrite drop_insert_lt by lia.
    rewrite !(Permutation_app_comm _ (buffer r)). solve_Permutation. }
  split; [done|]. split; [by rewrite Hcs, length_insert|].
  intros H1. destruct (chutes s) as [|d [|]] eqn:Hch; try done.
  assert (N.to_nat i = 0%nat) as Hi0 by (unfold len in Hi; simpl in Hi; lia).
  rewrite Hi0 in Hc, Hcs. simpl in Hc, Hcs. injection Hc as ->.
  unfold pending_values. rewrite Hcs, Hch.
  assert (N.to_nat (cursor r) = 0%nat) as ->.
  { pose proof (ok_cursor _ _ Hok) as Hcur. rewrite Hch in Hcur. unfold len in Hcur. simpl in Hcur. lia. }
  simpl. rewrite Hq, !app_nil_r. by rewrite app_assoc.
Qed.

Lemma send_index s i v x : send s i v = Return x → i < len (chutes s) ∨ dead s = true ∨ capacity s ≠ max_u64.
Proof.
  unfold send. destruct (dead s); [by auto|]. destruct (N.eqb_spec (capacity s) max_u64); [|by auto].
  simpl. unfold send_many_infallible. destruct (chutes s !! N.to_nat i) eqn:Hc; [|done].
  intros _. left. apply lookup_lt_Some in Hc. unfold len. lia.
Qed.

(** A send that comes back has added its value. *)
Lemma unbounded_send s r i v res s' ks :
  unbounded s r → send s i v = Return (res, s', ks) →
  res = Ok tt ∧ unbounded s' r ∧ senders s' = senders s ∧
  length (chutes s') = length (chutes s) ∧ waiting s' r ≡ₚ v :: waiting s r.
Proof.
  intros Hun He.
  destruct (send_index _ _ _ _ He) as [Hi|[Hd|Hc]]; [|destruct Hun as [[]]; congruence..].
  destruct (send_unbounded s r i v Hun Hi) as (s2 & ks2 & He2 & Hun2 & Hw & Hse & Hlen & _).
  rewrite He in He2. by simplify_eq.
Qed.

(** Dropping a sender touches the count and the waker only. *)
Lemma sender_drop_spec (x : Sender) s r :
  unbounded s r →
  let s' := (sender_drop x s).1 in
  unbounded s' r ∧ chutes s' = chutes s ∧ senders s' = usize_sub (senders s) 1.
Proof.
  intros [[Hok Hdead Hcap Hsize] Hunb]. unfold sender_drop, drop_sender, wake. simpl.
  destruct (senders s =? 1); [destruct (aw_wake _) as [w k]|]; simpl;
    (split; [|done]); (split; [|done]); (split; try done); by apply (channel_ok_same s _ r).
Qed.

Lemma sender_clone_spec (x : Sender) s r y s' :
  unbounded s r → sender_clone x s = Return (y, s') →
  unbounded s' r ∧ chutes s' = chutes s ∧ senders s' = usize_add (senders s) 1 ∧
  chute y < len (chutes s).
Proof.
  intros [[Hok Hdead Hcap Hsize] Hunb] He. unfold sender_clone, choose_chute in He. simpl in He.
  destruct (N.eqb_spec (len (chutes s)) 0) as [|Hz]; [done|]. simpl in He. injection He as <- <-.
  split; [split; [|done]; split; try done; by apply (channel_ok_same s _ r)|].
  split_and!; [done..|]. simpl. by apply N.mod_lt.
Qed.

Lemma receive_from_lanes s r j p s' r' :
  receive_from s r j = Return (p, s', r') → length (chutes s') = length (chutes s).
Proof.
  unfold receive_from. destruct (chutes s !! N.to_nat j) as [c|]; [|done]. simpl.
  destruct (queue c) as [|x l]; [done|]. intros [= _ <- _]. unfold decrement_size.
  destruct (negb _); simpl; by rewrite length_insert.
Qed.

Lemma poll_next_lanes s r k p s' r' :
  poll_next s r k = Return (p, s', r') → length (chutes s') = length (chutes s).
Proof.
  unfold poll_next. destruct (buffer r) as [|x l].
  - intros He. apply run_bind_Return in He as ([j|] & _ & He); [by eapply receive_from_lanes|].
    apply run_bind_Return in He as ([j|] & _ & He); [by apply receive_from_lanes in He|].
    destruct (0 =? _); by injection He as _ <- _.
  - intros [= _ <- _]. unfold decrement_size. by destruct (negb _).
Qed.

(** Sends and polls leave the count of senders alone. *)
Lemma send_senders s i v res s' ks : send s i v = Return (res, s', ks) → senders s' = senders s.
Proof.
  assert (∀ s1 s2 ks2, send_many_infallible s1 i [v] = Return (s2, ks2) → senders s2 = senders s1) as Hmany.
  { intros s1 s2 ks2 He. unfold send_many_infallible in He. destruct (chutes s1 !! N.to_nat i) as [c|]; [|done].
    destruct (chute_send_many c [v]) as [c' d]. injection He as He. destruct d; [|by injection He as <- _].
    unfold wake in He. destruct (aw_wake _) as [w k]. by injection He as <- _. }
  unfold send. destruct (dead s); [by intros [= _ <- _]|]. destruct (negb (capacity s =? max_u64)).
  - destruct (capacity s <? _); [by intros [= _ <- _]|]. intros He.
    apply run_bind_Return in He as ([s2 k2] & He & Heq). injection Heq as _ <- _. by apply Hmany in He.
  - intros He. apply run_bind_Return in He as ([s2 k2] & He & Heq). injection Heq as _ <- _. by apply Hmany in He.
Qed.

Lemma poll_next_senders s r k p s' r' : poll_next s r k = Return (p, s', r') → senders s' = senders s.
Proof.
  assert (∀ s1 n, senders (decrement_size s1 n) = senders s1) as Hdec
    by (intros s1 n; unfold decrement_size; by destruct (negb _)).
  assert (∀ s1 j, receive_from s1 r j = Return (p, s', r') → senders s' = senders s1) as Hfrom.
  { intros s1 j. unfold receive_from. destruct (chutes s1 !! N.to_nat j) as [c|]; [|done]. simpl.
    destruct (queue c) as [|x l]; [done|]. intros [= _ <- _]. by rewrite Hdec. }
  unfold poll_next. destruct (buffer r) as [|x l]; [|intros [= _ <- _]; by rewrite Hdec].
  intros He. apply run_bind_Return in He as ([j|] & _ & He); [by eapply Hfrom|].
  apply run_bind_Return in He as ([j|] & _ & He); [by apply Hfrom in He|].
  destruct (0 =? _); by injection He as _ <- _.
Qed.

(** A drop takes one away, modulo the width. *)
Lemma drop_senders (x : Sender) s : senders (sender_drop x s).1 = usize_sub (senders s) 1.
Proof.
  unfold sender_drop, drop_sender, wake. simpl. destruct (senders s =? 1); [|done].
  by destruct (aw_wake _).
Qed.

(** A poll takes the first value that waits. *)
Lemma poll_unbounded s r k p s' r' :
  unbounded s r → poll_next s r k = Return (p, s', r') →
  unbounded s' r' ∧ senders s' = senders s ∧ length (chutes s') = length (chutes s) ∧
  match p with
  | Ready (Some x) => pending_values s r = x :: pending_values s' r'
  | Ready None => pending_values s r = [] ∧ pending_values s' r' = [] ∧ senders s = 0
  | Pending => pending_values s r = [] ∧ pending_values s' r' = [] ∧ senders s ≠ 0
  end.
Proof.
  intros [Hinv Hunb] He.
  destruct (poll_next_inv _ _ _ _ _ _ Hinv He) as (Hpost & Hinv' & Hse).
  destruct (poll_next_spec s r k (inv_ok _ _ Hinv)) as (p0 & s0 & r0 & He0 & _ & _ & _ & Hca & _).
  rewrite He in He0. injection He0 as <- <- <-.
  split; [split; [done|congruence]|]. split; [done|]. split; [by eapply poll_next_lanes|].
  unfold poll_next_post in Hpost. destruct (pending_values s r) as [|x rest] eqn:Hpv.
  - destruct Hpost as (-> & -> & ->). rewrite N.eqb_sym.
    destruct (N.eqb_spec (senders s) 0); split_and!; done.
  - destruct Hpost as (-> & -> & _). done.
Qed.
End unbounded.

(** ** The theorems about a channel used one call at a time *)

Module Channel.
Import WakerCell.

(** A small concrete channel: two lanes, capacity five, three values sent. *)
Definition demo : Shared (option nat) nat :=
  mkShared [mkChute [3%nat] false; mkChute [] true] None 1 1 3 5 false.
Definition demo_receiver : Receiver nat := mkReceiver 1 [1%nat; 2%nat].

Section claims.
Context {W K T : Type} `{AtomicWaker W K}.

(** [poll_next] refines the pop of an abstract queue.  On a channel in
    its invariant it never panics; when values wait it returns the next one
    in lane order and leaves exactly the others waiting; when none waits it
    registers the waker and reports the end precisely when no sender is
    left; the invariant (flags, cursor, size counter) is kept. *)
Theorem poll_next_refines_queue (s : Shared W T) (r : Receiver T) (k : K)
  (Hinv : channel_inv s r) :
  ∃ p s' r', poll_next s r k = Return (p, s', r') ∧ channel_inv s' r' ∧
    senders s' = senders s ∧
    match pending_values s r with
    | x :: rest => p = Ready (Some x) ∧ pending_values s' r' = rest
    | [] => p = (if 0 =? senders s then Ready None else Pending) ∧
            s' = set_waker s (aw_register (waker s) k) ∧ r' = r
    end.
Proof.
  destruct (poll_next_spec s r k (inv_ok _ _ Hinv)) as (p & s' & r' & He & _).
  destruct (poll_next_inv _ _ _ _ _ _ Hinv He) as (Hpost & Hinv' & Hse).
  exists p, s', r'. split_and!; try done. unfold poll_next_post in Hpost.
  destruct (pending_values s r); naive_solver.
Qed.
(** [send_many] on every branch: above the capacity the whole batch comes
    back and nothing changes; otherwise the batch is appended to the sender's
    own lane and to no other, and the receiver is woken exactly when the lane
    was empty. *)
Theorem send_many_all_or_nothing (s : Shared W T) (r : Receiver T) (i : usize) (values : list T)
  (Hinv : channel_inv s r) (Hi : i < len (chutes s)) (Hne : values ≠ [])
  (Hfits : channel_size s + len values < 2 ^ 64) :
  if negb (capacity s =? max_u64) && (capacity s <? channel_size s + len values)
  then send_many s i values = Return (Err (Full values), s, [])
  else ∃ s' ks, send_many s i values = Return (Ok tt, s', ks) ∧ channel_inv s' r ∧
         lane s' i = lane s i ++ values ∧ (∀ j, j ≠ i → lane s' j = lane s j) ∧
         ks = (if len (lane s i) =? 0 then option_list (aw_wake (waker s)).2 else []).
Proof.
  destruct (send_many_spec s r i values Hinv Hi Hne Hfits)
    as [(Hc & Hf & He)|(s' & ks & Hf & Hrest)].
  - apply N.eqb_neq in Hc as ->. by apply N.ltb_lt in Hf as ->.
  - destruct (N.eqb_spec (capacity s) max_u64) as [|Hc]; [by exists s', ks|].
    specialize (Hf Hc). simpl. destruct (N.ltb_spec (capacity s) (channel_size s + len values));
      [lia|by exists s', ks].
Qed.

(** Polling for a batch, taking [n] values of it and dropping the drain has
    the effect of that many single polls: the values leave in order, the others
    keep waiting, and the size counter follows. *)
Theorem next_batch_refines_polls (s : Shared W T) (r : Receiver T) (k : K) (n : nat) x rest
  (Hinv : channel_inv s r) (Hpv : pending_values s r = x :: rest) :
  ∃ d s1 r1, next_batch_poll s r k = Return (Ready (Some d), s1, r1) ∧
    hd_error (buffer r1) = Some x ∧
    let '(out, r2) := drain_many n r1 in
    let s2 := drain_drop d s1 r2 in
    out = take n (buffer r1) ∧ channel_inv s2 r2 ∧
    pending_values s r = out ++ pending_values s2 r2.
Proof.
  destruct (next_batch_spec s r k n x rest Hinv Hpv) as (d & s1 & r1 & b & He & Hb & _ & Hd).
  exists d, s1, r1. split; [done|]. rewrite Hb. split; [done|].
  destruct (drain_many n r1). done.
Qed.
End claims.

Lemma poll_next_refines_queue_witness :
  channel_invb demo demo_receiver = true ∧
  ∃ p s' r', poll_next demo demo_receiver 0%nat = Return (p, s', r') ∧
    p = Ready (Some 1%nat) ∧ pending_values s' r' = [2%nat; 3%nat].
Proof.
  split; [vm_compute; reflexivity|].
  destruct (poll_next_refines_queue demo demo_receiver 0%nat) as (p & s' & r' & He & _ & _ & Hp).
  { apply channel_invb_sound. vm_compute. reflexivity. }
  exists p, s', r'. split; [exact He|exact Hp].
Defined.
Lemma send_many_all_or_nothing_witness :
  channel_invb demo demo_receiver = true ∧
  send_many demo 1 [7%nat; 8%nat; 9%nat] = Return (Err (Full [7%nat; 8%nat; 9%nat]), demo, []) ∧
  ∃ s' ks, send_many demo 1 [7%nat; 8%nat] = Return (Ok tt, s', ks) ∧
    lane s' 1 = [7%nat; 8%nat].
Proof.
  assert (channel_inv demo demo_receiver) as Hinv
    by (apply channel_invb_sound; vm_compute; reflexivity).
  split; [vm_compute; reflexivity|]. split.
  - apply (send_many_all_or_nothing demo demo_receiver 1 [7%nat; 8%nat; 9%nat]); done.
  - destruct (send_many_all_or_nothing demo demo_receiver 1 [7%nat; 8%nat])
      as (s' & ks & He & _ & Hl & _); [done..|].
    exists s', ks. split; [exact He|exact Hl].
Defined.

Lemma next_batch_refines_polls_witness :
  ∃ d s1 r1, next_batch_poll demo demo_receiver 0%nat = Return (Ready (Some d), s1, r1) ∧
    let '(out, r2) := drain_many 5 r1 in
    channel_size (drain_drop d s1 r2) = 1 ∧ out = [1%nat; 2%nat].
Proof.
  destruct (next_batch_refines_polls demo demo_receiver 0%nat 5 1%nat [2%nat; 3%nat])
    as (d & s1 & r1 & He & _ & Hd).
  { apply channel_invb_sound. vm_compute. reflexivity. }
  { reflexivity. }
  exists d, s1, r1. split; [exact He|].
  vm_compute in He. injection He as <- <- <-. split; reflexivity.
Defined.

(** The order of the repository's README: one lane at a time, in rotation. *)
Definition readme_order : run (list (Poll (option nat))) :=
  let* '(s1, r, s) := channel (W:=option nat) (K:=nat) in
  let* '(_, s, _) := sender_send s1 s 1%nat in
  let* '(s2, s) := sender_clone s1 s in
  let* '(_, s, _) := sender_send s2 s 2%nat in
  let* '(_, s, _) := sender_send s1 s 3%nat in
  let* '(_, s, _) := sender_send s2 s 4%nat in
  let* '(p1, s, r) := poll_next s r 0%nat in
  let* '(_, s, _) := sender_send s1 s 5%nat in
  let* '(p2, s, r) := poll_next s r 0%nat in
  let* '(p3, s, r) := poll_next s r 0%nat in
  let* '(p4, s, r) := poll_next s r 0%nat in
  let* '(s3, s) := sender_clone s1 s in
  let* '(_, s, _) := sender_send s3 s 6%nat in
  let* '(p5, s, r) := poll_next s r 0%nat in
  let* '(p6, s, r) := poll_next s r 0%nat in
  Return [p1; p2; p3; p4; p5; p6].

Example readme_order_is :
  readme_order = Return (Ready ∘ Some <$> [1%nat; 3%nat; 2%nat; 4%nat; 6%nat; 5%nat]).
Proof. vm_compute. reflexivity. Qed.
End Channel.
