(* ===== verification/SpillwayConcurrent.v ===== *)
(** * The spillway channel under interleaving

    The calls of [Spillway] cut into the atomic steps of the code: every atomic
    access, every critical section of a lane's mutex and every use of the waker
    cell is one step, and a schedule is any sequence of steps of any number of
    sender threads and the one receiver.  Atomics are sequentially consistent
    here: the orderings [Relaxed]/[AcqRel] of the source are not weakened.

    A sender thread stands for one [Sender] handle used by one thread at a time.
    The values in the queues carry the index of the thread that sent them. *)

From S2P Require Import Prelude Spillway.
Local Open Scope N_scope.

(** ** States *)

(** Where a sender thread stands.  The comments give the line the thread is
    about to run in [shared.rs] or [sender.rs]. *)
Inductive SenderPc (T : Type) : Type :=
| SIdle                              (* between calls *)
| SLoadDead (vs : list T)            (* self.dead.load *)
| SReserve (vs : list T)             (* channel_size.fetch_add *)
| SUndo (vs : list T)                (* channel_size.fetch_sub, then Err(Full) *)
| SLock (vs : list T)                (* queue.lock, queue.extend *)
| SDirty                             (* clean.swap(false), lock held *)
| SWake                              (* waker.wake, lock held *)
| SUnlock                            (* the guard is dropped *)
| SCloneCount                        (* add_sender of Clone::clone *)
| SCloneChute                        (* choose_chute of Clone::clone *)
| SDropCount                         (* drop_sender of Drop::drop *)
| SDropWake                          (* wake of Drop::drop *)
| SDropped.
Arguments SIdle {T}.
Arguments SLoadDead {T} _.
Arguments SReserve {T} _.
Arguments SUndo {T} _.
Arguments SLock {T} _.
Arguments SDirty {T}.
Arguments SWake {T}.
Arguments SUnlock {T}.
Arguments SCloneCount {T}.
Arguments SCloneChute {T}.
Arguments SDropCount {T}.
Arguments SDropWake {T}.
Arguments SDropped {T}.

(** A sender thread: its lane, its program counter, the results its calls
    returned (newest first) and, as a ghost, the values it got accepted. *)
Record Thread (T : Type) := mkThread {
  th_chute : usize;
  th_pc : SenderPc T;
  th_results : list (result unit (Error (list T)));
  th_sent : list T;
}.
Arguments mkThread {T} _ _ _ _.
Arguments th_chute {T} _.
Arguments th_pc {T} _.
Arguments th_results {T} _.
Arguments th_sent {T} _.

(** Where the receiver stands in [poll_next] ([batch = false]) or in the poll of
    [next_batch] and the life of its drain ([batch = true]). *)
Inductive ReceiverPc (T : Type) : Type :=
| RIdle                              (* not polled *)
| RScan (second : bool) (i : N)      (* iteration i of race_find_dirty *)
| RRegister                          (* waker.register *)
| RSenders                           (* senders.load *)
| RSwap (j : usize)                  (* lock, mem::swap *)
| RClean (j : usize)                 (* clean.store(true), lock held *)
| RUnlock (j : usize)                (* guard dropped; cursor moved *)
| RPop                               (* pop_front().expect *)
| RCount (v : nat * T)               (* decrement_size(1) *)
| RRestore (v : nat * T)             (* next_batch: push_front, fetch_add *)
| RDraining (d : BatchDrain)         (* the caller holds the drain *)
| RPanicked.                         (* the expect failed *)
Arguments RIdle {T}.
Arguments RScan {T} _ _.
Arguments RRegister {T}.
Arguments RSenders {T}.
Arguments RSwap {T} _.
Arguments RClean {T} _.
Arguments RUnlock {T} _.
Arguments RPop {T}.
Arguments RCount {T} _.
Arguments RRestore {T} _.
Arguments RDraining {T} _.
Arguments RPanicked {T}.

(** Who holds the mutex of a lane. *)
Inductive Holder := HSender (i : nat) | HReceiver.

(** The whole system.  [w_notified] is set when the waker of the receiver's task
    is woken and cleared when the task is polled; [w_last] is what the last
    finished poll returned; [w_received] is a ghost, the values handed out. *)
Record World (W K T : Type) := mkWorld {
  w_shared : Shared W (nat * T);
  w_locks : list (option Holder);
  w_threads : list (Thread T);
  w_receiver : Receiver (nat * T);
  w_pc : ReceiverPc T;
  w_batch : bool;
  w_waker : K;
  w_notified : bool;
  w_last : option (Poll (option (nat * T)));
  w_received : list (nat * T);
}.
Arguments mkWorld {W K T} _ _ _ _ _ _ _ _ _ _.
Arguments w_shared {W K T} _.
Arguments w_locks {W K T} _.
Arguments w_threads {W K T} _.
Arguments w_receiver {W K T} _.
Arguments w_pc {W K T} _.
Arguments w_batch {W K T} _.
Arguments w_waker {W K T} _.
Arguments w_notified {W K T} _.
Arguments w_last {W K T} _.
Arguments w_received {W K T} _.

(** What the environment decides. *)
Inductive Label (K T : Type) : Type :=
| LSend (i : nat) (vs : list T)      (* thread i calls send / send_many *)
| LClone (i : nat)                   (* thread i clones its handle *)
| LDrop (i : nat)                    (* thread i drops its handle *)
| LSender (i : nat)                  (* thread i takes its next step *)
| LPoll (batch : bool) (k : K)       (* the receiver is polled with waker k *)
| LReceiver                          (* the receiver takes its next step *)
| LDrain                             (* the holder of the drain takes a value *)
| LDrainDrop.                        (* the drain is dropped *)
Arguments LSend {K T} _ _.
Arguments LClone {K T} _.
Arguments LDrop {K T} _.
Arguments LSender {K T} _.
Arguments LPoll {K T} _ _.
Arguments LReceiver {K T}.
Arguments LDrain {K T}.
Arguments LDrainDrop {K T}.

(** ** Steps *)

Section steps.
Context {W K T : Type} `{AtomicWaker W K} `{EqDecision K}.
Implicit Types w : World W K T.

Definition with_shared w s : World W K T :=
  mkWorld s (w_locks w) (w_threads w) (w_receiver w) (w_pc w) (w_batch w)
    (w_waker w) (w_notified w) (w_last w) (w_received w).
Definition with_lock w (j : N) o : World W K T :=
  mkWorld (w_shared w) (<[N.to_nat j := o]> (w_locks w)) (w_threads w) (w_receiver w)
    (w_pc w) (w_batch w) (w_waker w) (w_notified w) (w_last w) (w_received w).
Definition with_threads w ts : World W K T :=
  mkWorld (w_shared w) (w_locks w) ts (w_receiver w) (w_pc w) (w_batch w)
    (w_waker w) (w_notified w) (w_last w) (w_received w).
Definition with_receiver w r pc : World W K T :=
  mkWorld (w_shared w) (w_locks w) (w_threads w) r pc (w_batch w)
    (w_waker w) (w_notified w) (w_last w) (w_received w).
Definition with_pc w pc : World W K T := with_receiver w (w_receiver w) pc.
Definition with_notified w b : World W K T :=
  mkWorld (w_shared w) (w_locks w) (w_threads w) (w_receiver w) (w_pc w) (w_batch w)
    (w_waker w) b (w_last w) (w_received w).

(** A poll returns. *)
Definition poll_returns w p : World W K T :=
  mkWorld (w_shared w) (w_locks w) (w_threads w) (w_receiver w) RIdle (w_batch w)
    (w_waker w) (w_notified w) (Some p) (w_received w).

(** A value reaches the user of the receiver. *)
Definition hand_out w v : World W K T :=
  mkWorld (w_shared w) (w_locks w) (w_threads w) (w_receiver w) (w_pc w) (w_batch w)
    (w_waker w) (w_notified w) (w_last w) (w_received w ++ [v]).

Definition set_pc (t : Thread T) pc : Thread T := mkThread (th_chute t) pc (th_results t) (th_sent t).
Definition with_thread w (i : nat) t : World W K T := with_threads w (<[i := t]> (w_threads w)).

(** [waker.wake()]: the receiver's task is notified when the woken waker is the
    one it was polled with. *)
Definition wake_world w : World W K T :=
  let '(s, ks) := wake (w_shared w) in
  with_notified (with_shared w s) (w_notified w || bool_decide (w_waker w ∈ ks)).

(** The call returns; [acquired] are the values that were accepted. *)
Definition send_returns (t : Thread T) (res : result unit (Error (list T))) : Thread T :=
  mkThread (th_chute t) SIdle (res :: th_results t) (th_sent t).

Definition sender_step (i : nat) (t : Thread T) w : option (World W K T) :=
  let s := w_shared w in
  match th_pc t with
  | SIdle | SDropped => None
  | SLoadDead vs =>
      Some (with_thread w i
        (if dead s then send_returns t (Err (Closed vs))
         else set_pc t (if capacity s =? max_u64 then SLock vs else SReserve vs)))
  | SReserve vs =>
      let prev := channel_size s in
      let next := u64_add prev (len vs) in
      Some (with_shared (with_thread w i
              (set_pc t (if capacity s <? next then SUndo vs else SLock vs)))
              (set_channel_size s next))
  | SUndo vs =>
      Some (with_shared (with_thread w i (send_returns t (Err (Full vs))))
              (set_channel_size s (u64_sub (channel_size s) (len vs))))
  | SLock vs =>
      c ← chutes s !! N.to_nat (th_chute t);
      match w_locks w !! N.to_nat (th_chute t) with
      | Some None =>
          let dirty := len (queue c) =? 0 in
          let c' := mkChute (queue c ++ (pair i <$> vs)) (clean c) in
          let t' := mkThread (th_chute t) (if dirty then SDirty else SUnlock)
                      (th_results t) (th_sent t ++ vs) in
          Some (with_lock (with_shared (with_thread w i t')
                  (set_chutes s (<[N.to_nat (th_chute t) := c']> (chutes s))))
                  (th_chute t) (Some (HSender i)))
      | _ => None
      end
  | SDirty =>
      c ← chutes s !! N.to_nat (th_chute t);
      Some (with_shared (with_thread w i (set_pc t SWake))
              (set_chutes s (<[N.to_nat (th_chute t) := mkChute (queue c) false]> (chutes s))))
  | SWake => Some (wake_world (with_thread w i (set_pc t SUnlock)))
  | SUnlock =>
      Some (with_lock (with_thread w i (send_returns t (Ok tt))) (th_chute t) None)
  | SCloneCount =>
      Some (with_shared (with_thread w i (set_pc t SCloneChute)) (add_sender s))
  | SCloneChute =>
      match choose_chute s with
      | Return (j, s') =>
          let w' := with_shared (with_thread w i (set_pc t SIdle)) s' in
          Some (with_threads w' (w_threads w' ++ [mkThread j SIdle [] []]))
      | _ => None
      end
  | SDropCount =>
      let '(was, s') := drop_sender s in
      Some (with_shared (with_thread w i
              (set_pc t (if was =? 1 then SDropWake else SDropped))) s')
  | SDropWake => Some (wake_world (with_thread w i (set_pc t SDropped)))
  end.

(** The value in hand is returned, or put back for a batch. *)
Definition poll_value w v : World W K T :=
  if w_batch w then with_pc w (RRestore v)
  else hand_out (poll_returns w (Ready (Some v))) v.

Definition receiver_step w : option (World W K T) :=
  let s := w_shared w in
  let r := w_receiver w in
  match w_pc w with
  | RIdle | RDraining _ | RPanicked => None
  | RScan second i =>
      if i =? len (chutes s)
      then Some (with_pc w (if second then RSenders else RRegister))
      else
        let j := usize_add (cursor r) i `mod` len (chutes s) in
        c ← chutes s !! N.to_nat j;
        Some (with_pc w (if clean c then RScan second (i + 1) else RSwap j))
  | RRegister =>
      Some (with_pc (with_shared w (set_waker s (aw_register (waker s) (w_waker w))))
              (RScan true 0))
  | RSenders =>
      Some (poll_returns w (if 0 =? senders s then Ready None else Pending))
  | RSwap j =>
      c ← chutes s !! N.to_nat j;
      match w_locks w !! N.to_nat j with
      | Some None =>
          Some (with_receiver (with_lock (with_shared w
                  (set_chutes s (<[N.to_nat j := mkChute (buffer r) (clean c)]> (chutes s))))
                  j (Some HReceiver))
                  (mkReceiver (cursor r) (queue c)) (RClean j))
      | _ => None
      end
  | RClean j =>
      c ← chutes s !! N.to_nat j;
      Some (with_pc (with_shared w
              (set_chutes s (<[N.to_nat j := mkChute (queue c) true]> (chutes s))))
              (RUnlock j))
  | RUnlock j =>
      Some (with_receiver (with_lock w j None)
              (mkReceiver (usize_add j 1 `mod` len (chutes s)) (buffer r)) RPop)
  | RPop =>
      match buffer r with
      | [] => Some (with_pc w RPanicked)
      | v :: rest => Some (with_receiver w (mkReceiver (cursor r) rest) (RCount v))
      end
  | RCount v => Some (poll_value (with_shared w (decrement_size s 1)) v)
  | RRestore v =>
      let s' := if capacity s =? max_u64 then s
                else set_channel_size s (u64_add (channel_size s) 1) in
      let buffer' := v :: buffer r in
      Some (with_receiver (poll_returns (with_shared w s') (Ready (Some v)))
              (mkReceiver (cursor r) buffer')
              (RDraining (mkBatchDrain (negb (capacity s =? max_u64)) (len buffer'))))
  end.

(** The receiver is polled: [poll_next] starts with the buffer. *)
Definition start_poll w (batch : bool) (k : K) : World W K T :=
  let w' := mkWorld (w_shared w) (w_locks w) (w_threads w) (w_receiver w) (w_pc w)
              batch k false (w_last w) (w_received w) in
  match buffer (w_receiver w) with
  | v :: rest => with_receiver w' (mkReceiver (cursor (w_receiver w)) rest) (RCount v)
  | [] => with_pc w' (RScan false 0)
  end.

Definition exec (l : Label K T) w : option (World W K T) :=
  match l with
  | LSend i vs =>
      t ← w_threads w !! i;
      match th_pc t with
      | SIdle => Some (with_thread w i (set_pc t (SLoadDead vs)))
      | _ => None
      end
  | LClone i =>
      t ← w_threads w !! i;
      match th_pc t with
      | SIdle => Some (with_thread w i (set_pc t SCloneCount))
      | _ => None
      end
  | LDrop i =>
      t ← w_threads w !! i;
      match th_pc t with
      | SIdle => Some (with_thread w i (set_pc t SDropCount))
      | _ => None
      end
  | LSender i => t ← w_threads w !! i; sender_step i t w
  | LPoll batch k =>
      match w_pc w with RIdle => Some (start_poll w batch k) | _ => None end
  | LReceiver => receiver_step w
  | LDrain =>
      match w_pc w, buffer (w_receiver w) with
      | RDraining d, v :: rest =>
          Some (hand_out (with_receiver w (mkReceiver (cursor (w_receiver w)) rest)
                            (RDraining d)) v)
      | _, _ => None
      end
  | LDrainDrop =>
      match w_pc w with
      | RDraining d =>
          Some (with_pc (with_shared w (drain_drop d (w_shared w) (w_receiver w))) RIdle)
      | _ => None
      end
  end.

(** A fresh channel: one sender thread on lane 0. *)
Definition start (cap concurrency : N) (k : K) : option (World W K T) :=
  match channel_with_capacity_and_concurrency cap concurrency with
  | Return (x, r, s) =>
      Some (mkWorld s (replicate (length (chutes s)) None) [mkThread (chute x) SIdle [] []]
              r RIdle false k false None [])
  | _ => None
  end.
End steps.

(** The cases of a sender's step, with what its lane, lock and counters must be. *)
Ltac sender_cases He :=
  unfold sender_step in He;
  match type of He with match th_pc ?t with _ => _ end = _ => destruct (th_pc t) eqn:Hpc end; simplify_eq;
  try (apply bind_Some in He as (c & Hc & He));
  try match type of He with
  | context [w_locks ?w !! ?j] => destruct (w_locks w !! j) as [[h|]|] eqn:Hl
  | context [choose_chute] =>
      unfold choose_chute in He;
      match type of He with context [?n =? 0] => destruct (N.eqb_spec n 0) as [|Hn] end
  | context [drop_sender] => unfold drop_sender in He
  end; simplify_eq.

(** ** The lanes machine, an abstract specification

    What the channel does when locks, flags, counters and wakes are forgotten:
    a sender appends a batch to its own lane at once, the receiver takes a whole
    lane at once behind what it already has, and handles are created.  [a_flow]
    is everything the receiver has taken, delivered or not. *)

Record Lanes (T : Type) := mkLanes {
  a_threads : list (usize * list T);
  a_lanes : list (list (nat * T));
  a_flow : list (nat * T);
}.
Arguments mkLanes {T} _ _ _.
Arguments a_threads {T} _.
Arguments a_lanes {T} _.
Arguments a_flow {T} _.

Inductive LanesLabel (T : Type) : Type :=
| APush (i : nat) (vs : list T)
| ATake (j : nat)
| ASpawn (j : usize).
Arguments APush {T} _ _.
Arguments ATake {T} _.
Arguments ASpawn {T} _.

Definition lanes_exec {T} (l : LanesLabel T) (a : Lanes T) : option (Lanes T) :=
  match l with
  | APush i vs =>
      '(j, sent) ← a_threads a !! i;
      q ← a_lanes a !! N.to_nat j;
      Some (mkLanes (<[i := (j, sent ++ vs)]> (a_threads a))
              (<[N.to_nat j := q ++ (pair i <$> vs)]> (a_lanes a)) (a_flow a))
  | ATake j =>
      q ← a_lanes a !! j;
      Some (mkLanes (a_threads a) (<[j := []]> (a_lanes a)) (a_flow a ++ q))
  | ASpawn j => Some (mkLanes (a_threads a ++ [(j, [])]) (a_lanes a) (a_flow a))
  end.

(** The values of the log that thread [i] sent. *)
Definition from_sender {T} (i : nat) (l : list (nat * T)) : list T :=
  snd <$> filter (λ p, p.1 = i) l.

Section lanes_machine.
Context {T : Type}.
Implicit Types a : Lanes T.

Lemma from_sender_app i (l k : list (nat * T)) :
  from_sender i (l ++ k) = from_sender i l ++ from_sender i k.
Proof. unfold from_sender. by rewrite filter_app, fmap_app. Qed.

Lemma from_sender_own i (vs : list T) : from_sender i (pair i <$> vs) = vs.
Proof.
  unfold from_sender. induction vs as [|v vs IH]; [done|].
  simpl. rewrite filter_cons_True by done. simpl. by f_equal.
Qed.

Lemma from_sender_none i (l : list (nat * T)) :
  Forall (λ p, p.1 ≠ i) l → from_sender i l = [].
Proof.
  unfold from_sender. induction 1 as [|p l Hp _ IH]; [done|].
  by rewrite filter_cons_False.
Qed.

Lemma from_sender_other i j (vs : list T) : j ≠ i → from_sender i (pair j <$> vs) = [].
Proof. intros. apply from_sender_none. by apply Forall_fmap, Forall_true. Qed.

(** Every value in a lane was put there by a thread of that lane, and what a
    thread sent is, in order, in the flow and then in its lane. *)
Record lanes_ok a : Prop := {
  lo_tags j q : a_lanes a !! j = Some q →
    Forall (λ p, ∃ sent, a_threads a !! p.1 = Some (N.of_nat j, sent)) q;
  lo_flow : Forall (λ p, is_Some (a_threads a !! p.1)) (a_flow a);
  lo_sent i j sent : a_threads a !! i = Some (j, sent) →
    ∃ q, a_lanes a !! N.to_nat j = Some q ∧
         sent = from_sender i (a_flow a) ++ from_sender i q;
}.

(** A lane holds nothing of a thread that is not there, or is on another lane. *)
Lemma lane_fresh a j q i :
  lanes_ok a → a_lanes a !! j = Some q → a_threads a !! i = None → from_sender i q = [].
Proof.
  intros Hok Hq Hi. apply from_sender_none. eapply Forall_impl; [by eapply lo_tags|].
  intros p [sent Hp] <-. congruence.
Qed.

Lemma lane_other a j q i j' sent :
  lanes_ok a → a_lanes a !! j = Some q → a_threads a !! i = Some (j', sent) → N.to_nat j' ≠ j →
  from_sender i q = [].
Proof.
  intros Hok Hq Hi Hne. apply from_sender_none. eapply Forall_impl; [by eapply lo_tags|].
  intros p [sent' Hp] <-. simplify_eq. lia.
Qed.

Lemma lanes_push_ok a i j sent q (vs : list T) :
  lanes_ok a → a_threads a !! i = Some (j, sent) → a_lanes a !! N.to_nat j = Some q →
  lanes_ok (mkLanes (<[i := (j, sent ++ vs)]> (a_threads a))
    (<[N.to_nat j := q ++ (pair i <$> vs)]> (a_lanes a)) (a_flow a)).
Proof.
  intros [Htags Hflow Hsent] Hi Hq.
  assert (Hdom : ∀ p j' s', a_threads a !! p = Some (j', s') →
            ∃ s'', <[i:=(j, sent ++ vs)]> (a_threads a) !! p = Some (j', s'')).
  { intros p j' s' Hp. destruct (decide (p = i)) as [->|].
    - simplify_eq. rewrite list_lookup_insert_eq by (by eapply lookup_lt_Some). eauto.
    - rewrite list_lookup_insert_ne by done. eauto. }
  split; simpl.
  - intros j' q' Hq'. apply list_lookup_insert_Some in Hq' as [(<- & <- & _)|[Hne Hq']].
    + apply Forall_app. split.
      { eapply Forall_impl; [by eapply Htags|]. intros p [s' Hp]. by eapply Hdom. }
      apply Forall_fmap, Forall_true. intros v. simpl.
      destruct (Hdom _ _ _ Hi) as [s'' Hs]. exists s''. by rewrite N2Nat.id.
    + eapply Forall_impl; [by eapply Htags|]. intros p [s' Hp]. by eapply Hdom.
  - eapply Forall_impl; [done|]. intros p [[j' s'] Hp]. destruct (Hdom _ _ _ Hp). eauto.
  - intros i' j' s' Hi'. apply list_lookup_insert_Some in Hi' as [(<- & [= <- <-] & _)|[Hne Hi']].
    + eexists. rewrite list_lookup_insert_eq by (by eapply lookup_lt_Some).
      split; [done|]. destruct (Hsent _ _ _ Hi) as (q0 & Hq0 & ->). simplify_eq.
      by rewrite from_sender_app, from_sender_own, app_assoc.
    + destruct (Hsent _ _ _ Hi') as (q0 & Hq0 & ->).
      destruct (decide (N.to_nat j = N.to_nat j')) as [Hj|Hj].
      { rewrite <-Hj in Hq0 |- *. simplify_eq.
        eexists. rewrite list_lookup_insert_eq by (by eapply lookup_lt_Some).
        split; [done|]. by rewrite from_sender_app, from_sender_other, app_nil_r. }
      { exists q0. rewrite list_lookup_insert_ne by done. done. }
Qed.

Lemma lanes_take_ok a j q :
  lanes_ok a → a_lanes a !! j = Some q →
  lanes_ok (mkLanes (a_threads a) (<[j := []]> (a_lanes a)) (a_flow a ++ q)).
Proof.
  intros Hok Hq. pose proof Hok as [Htags Hflow Hsent]. split; simpl.
  - intros j' q' [(<- & <- & _)|[Hne Hq']]%list_lookup_insert_Some; [done|by eapply Htags].
  - apply Forall_app. split; [done|]. eapply Forall_impl; [by eapply Htags|].
    intros p [s Hp]. eauto.
  - intros i j' s Hi. destruct (Hsent _ _ _ Hi) as (q0 & Hq0 & ->).
    rewrite from_sender_app. destruct (decide (N.to_nat j' = j)) as [<-|Hne].
    + exists []. rewrite list_lookup_insert_eq by (by eapply lookup_lt_Some). simplify_eq.
      by rewrite !app_nil_r.
    + exists q0. rewrite list_lookup_insert_ne by done. split; [done|].
      by rewrite (lane_other _ _ _ _ _ _ Hok Hq Hi Hne), app_nil_r.
Qed.

Lemma lanes_spawn_ok a j :
  lanes_ok a → (N.to_nat j < length (a_lanes a))%nat →
  lanes_ok (mkLanes (a_threads a ++ [(j, [])]) (a_lanes a) (a_flow a)).
Proof.
  intros Hok Hl. pose proof Hok as [Htags Hflow Hsent]. split; simpl.
  - intros j' q' Hq'. eapply Forall_impl; [by eapply Htags|]. intros p [s Hp]. exists s.
    by apply lookup_app_l_Some.
  - eapply Forall_impl; [done|]. intros p [x Hp]. exists x. by apply lookup_app_l_Some.
  - intros i j' s [Hi|[Hge Hi]]%lookup_app_Some; [by eapply Hsent|].
    apply list_lookup_singleton_Some in Hi as [Hi [= <- <-]].
    assert (a_threads a !! i = None) as Hnone by (apply lookup_ge_None; lia).
    apply lookup_lt_is_Some in Hl as [q Hq]. exists q. split; [done|].
    rewrite (lane_fresh _ _ _ _ Hok Hq Hnone), app_nil_r. symmetry. apply from_sender_none.
    eapply Forall_impl; [done|]. intros p [x Hp] <-. congruence.
Qed.

Lemma lanes_exec_ok l a a' :
  lanes_ok a → lanes_exec l a = Some a' →
  (match l with ASpawn j => (N.to_nat j < length (a_lanes a))%nat | _ => True end) →
  lanes_ok a'.
Proof.
  intros Hok He Hl. destruct l as [i vs|j|j]; simpl in He.
  - apply bind_Some in He as ([j sent] & Hi & He). apply bind_Some in He as (q & Hq & He).
    injection He as <-. by apply lanes_push_ok.
  - apply bind_Some in He as (q & Hq & He). injection He as <-. by apply lanes_take_ok.
  - injection He as <-. by apply lanes_spawn_ok.
Qed.
End lanes_machine.

(** ** The channel refines the lanes machine *)

Section refinement.
Context {W K T : Type} `{AtomicWaker W K} `{EqDecision K}.
Implicit Types w : World W K T.

(** The value a poll has taken but not yet returned. *)
Definition hand (pc : ReceiverPc T) : list (nat * T) :=
  match pc with RCount v | RRestore v => [v] | _ => [] end.

Definition thread_view (t : Thread T) : usize * list T := (th_chute t, th_sent t).

Definition abs w : Lanes T :=
  mkLanes (thread_view <$> w_threads w) (queue <$> chutes (w_shared w))
    (w_received w ++ hand (w_pc w) ++ buffer (w_receiver w)).

(** [poll_next] looks for a lane only when its buffer is empty. *)
Definition buffer_ok w : Prop :=
  match w_pc w with
  | RScan _ _ | RRegister | RSenders | RSwap _ => buffer (w_receiver w) = []
  | _ => True
  end.

Lemma wake_world_fields w :
  ∃ wk nt, wake_world w = with_notified (with_shared w (set_waker (w_shared w) wk)) nt ∧
    (w_notified w = true → nt = true).
Proof.
  unfold wake_world, wake. destruct (aw_wake (waker (w_shared w))) as [wk k].
  do 2 eexists. split; [done|]. intros ->. done.
Qed.

Lemma abs_wake_world w : abs (wake_world w) = abs w.
Proof. by destruct (wake_world_fields w) as (wk & nt & -> & _). Qed.

Lemma abs_with_thread w i t t' :
  w_threads w !! i = Some t → thread_view t' = thread_view t →
  abs (with_thread w i t') = abs w.
Proof. intros Hi Ht. unfold abs. simpl. by erewrite fmap_insert_same. Qed.

Lemma abs_set_chute w j c c' (s : Shared W (nat * T)) :
  chutes (w_shared w) !! j = Some c → queue c' = queue c →
  chutes s = <[j := c']> (chutes (w_shared w)) →
  abs (with_shared w s) = abs w.
Proof. intros Hj Hc Hs. unfold abs. simpl. rewrite Hs. by erewrite fmap_insert_same. Qed.

Lemma abs_same_chutes w (s : Shared W (nat * T)) :
  chutes s = chutes (w_shared w) → abs (with_shared w s) = abs w.
Proof. intros Hs. unfold abs. simpl. by rewrite Hs. Qed.

(** A step of a sender thread is invisible, a push of its batch or a new handle. *)
Lemma sender_step_refines i t w w' :
  w_threads w !! i = Some t → sender_step i t w = Some w' →
  abs w' = abs w
  ∨ (∃ vs, lanes_exec (APush i vs) (abs w) = Some (abs w'))
  ∨ (∃ j, N.to_nat j < length (a_lanes (abs w)) ∧
          lanes_exec (ASpawn j) (abs w) = Some (abs w'))%nat.
Proof.
  intros Hi He. sender_cases He.
  - left. eapply abs_with_thread; [done|]. by destruct (dead _).
  - left. rewrite abs_same_chutes by done. eapply abs_with_thread; [done|]. by case_match.
  - left. rewrite abs_same_chutes by done. by eapply abs_with_thread.
  - right. left. exists vs. simpl. rewrite list_lookup_fmap, Hi. simpl.
    rewrite list_lookup_fmap, Hc. simpl. unfold abs. simpl.
    by rewrite !list_fmap_insert.
  - left. rewrite (abs_set_chute (with_thread w i (set_pc t SWake)) (N.to_nat (th_chute t)) c
               (mkChute (queue c) false)) by done.
    by eapply abs_with_thread.
  - left. rewrite abs_wake_world. by eapply abs_with_thread.
  - left. change (abs (with_lock ?w ?j ?o)) with (abs w). by eapply abs_with_thread.
  - left. rewrite abs_same_chutes by done. by eapply abs_with_thread.
  - right. right. eexists. split; cycle 1.
    + simpl. unfold abs. simpl. rewrite fmap_app, list_fmap_insert.
      rewrite (list_insert_id (thread_view <$> w_threads w)); [done|].
      by rewrite list_lookup_fmap, Hi.
    + simpl. rewrite length_fmap. pose proof (N.mod_lt (chute_clock (w_shared w)) _ Hn).
      unfold len in *. lia.
  - left. rewrite abs_same_chutes by done. eapply abs_with_thread; [done|]. by case_match.
  - left. rewrite abs_wake_world. by eapply abs_with_thread.
Qed.

(** A step of the receiver is invisible or takes a lane. *)
Lemma receiver_step_refines w w' :
  buffer_ok w → receiver_step w = Some w' →
  abs w' = abs w ∨ ∃ j, lanes_exec (ATake j) (abs w) = Some (abs w').
Proof.
  intros Hb He. unfold receiver_step, buffer_ok in *. destruct (w_pc w) eqn:Hpc; simplify_eq.
  - left. destruct (i =? len (chutes (w_shared w))); simplify_eq.
    { unfold abs. rewrite Hpc. by destruct second. }
    apply bind_Some in He as (c & Hc & He). simplify_eq. unfold abs. rewrite Hpc.
    by destruct (clean c).
  - left. unfold abs. simpl. by rewrite Hpc.
  - left. unfold abs. simpl. by rewrite Hpc.
  - apply bind_Some in He as (c & Hc & He).
    destruct (w_locks w !! N.to_nat j) as [[h|]|]; simplify_eq.
    right. exists (N.to_nat j). simpl. rewrite list_lookup_fmap, Hc. simpl.
    unfold abs. simpl. rewrite Hpc, Hb, list_fmap_insert. simpl. by rewrite app_nil_r.
  - apply bind_Some in He as (c & Hc & He). simplify_eq. left.
    unfold abs. simpl. rewrite Hpc. by erewrite fmap_insert_same.
  - left. unfold abs. simpl. by rewrite Hpc.
  - left. destruct (buffer (w_receiver w)) eqn:Hbuf; simplify_eq; unfold abs; simpl;
      by rewrite Hpc, Hbuf.
  - left. unfold poll_value. simpl. unfold abs.
    destruct (w_batch w); simpl; rewrite Hpc; simpl;
      destruct (decrement_size_fields (w_shared w) 1) as [-> _]; [done|].
    by rewrite <-app_assoc.
  - left. unfold abs. simpl. rewrite Hpc. by destruct (capacity (w_shared w) =? max_u64).
Qed.

Lemma exec_refines l w w' :
  buffer_ok w → exec l w = Some w' →
  abs w' = abs w ∨ ∃ al, lanes_exec al (abs w) = Some (abs w') ∧
    match al with ASpawn j => (N.to_nat j < length (a_lanes (abs w)))%nat | _ => True end.
Proof.
  intros Hb He. destruct l as [i vs|i|i|i|b k| | |]; simpl in He.
  1-3: apply bind_Some in He as (t & Hi & He); destruct (th_pc t); simplify_eq;
       left; by eapply abs_with_thread.
  - apply bind_Some in He as (t & Hi & He).
    destruct (sender_step_refines _ _ _ _ Hi He) as [|[[vs]|(j & ? & ?)]]; [by left| |].
    + right. by exists (APush i vs).
    + right. by exists (ASpawn j).
  - destruct (w_pc w) eqn:Hpc; simplify_eq. left. unfold start_poll, abs.
    destruct (buffer (w_receiver w)) eqn:Hbuf; simpl; by rewrite ?Hpc, ?Hbuf.
  - destruct (receiver_step_refines _ _ Hb He) as [|[j ?]]; [by left|].
    right. by exists (ATake j).
  - left. destruct (w_pc w) eqn:Hpc; simplify_eq.
    destruct (buffer (w_receiver w)) eqn:Hbuf; simplify_eq. unfold abs. simpl.
    by rewrite Hpc, Hbuf, <-app_assoc.
  - left. destruct (w_pc w) eqn:Hpc; simplify_eq. unfold abs. simpl. rewrite Hpc.
    unfold drain_drop. by repeat case_match.
Qed.
End refinement.

(** ** Locks, flags and contents of the lanes *)

Section lanes_invariant.
Context {T : Type}.
Implicit Types cs : list (Chute (nat * T)).
Implicit Types ts : list (Thread T).
Implicit Types pc : ReceiverPc T.

(** The steps a sender thread makes with its lane locked. *)
Definition critical (p : SenderPc T) : bool :=
  match p with SDirty | SWake | SUnlock => true | _ => false end.

(** What a lane looks like while a sender thread is at [p] in it. *)
Definition phase_ok (p : SenderPc T) (c : Chute (nat * T)) : Prop :=
  match p with
  | SDirty => queue c ≠ [] ∧ clean c = true
  | SWake | SUnlock => queue c ≠ [] ∧ clean c = false
  | _ => False
  end.

(** What a lane looks like while the receiver is at [pc] in it. *)
Definition receiver_phase_ok pc (j : nat) (c : Chute (nat * T)) : Prop :=
  match pc with
  | RClean j' => N.to_nat j' = j ∧ queue c = [] ∧ clean c = false
  | RUnlock j' => N.to_nat j' = j ∧ queue c = [] ∧ clean c = true
  | _ => False
  end.

(** Lane [j]: flag and contents agree when it is free, and are in the known
    intermediate states while somebody holds it. *)
Definition lane_ok (locks : list (option Holder)) ts pc (j : nat) (c : Chute (nat * T)) : Prop :=
  match locks !! j with
  | Some None => chute_ok c
  | Some (Some (HSender i)) =>
      ∃ t, ts !! i = Some t ∧ N.to_nat (th_chute t) = j ∧ phase_ok (th_pc t) c
  | Some (Some HReceiver) => receiver_phase_ok pc j c
  | None => False
  end.

(** No batch in flight is empty. *)
Definition batch_ok (p : SenderPc T) : Prop :=
  match p with
  | SLoadDead vs | SReserve vs | SUndo vs | SLock vs => vs ≠ []
  | _ => True
  end.

(** What the program counter of the receiver implies about lanes and buffer. *)
Definition receiver_ok cs (locks : list (option Holder)) pc (buf : list (nat * T)) : Prop :=
  match pc with
  | RSwap j => ∃ c, cs !! N.to_nat j = Some c ∧ clean c = false
  | RClean j | RUnlock j => locks !! N.to_nat j = Some (Some HReceiver) ∧ buf ≠ []
  | RPop => buf ≠ []
  | RPanicked => False
  | _ => True
  end.

Record lanes_inv cs locks ts pc (buf : list (nat * T)) : Prop := {
  li_len : length locks = length cs;
  li_chute i t : ts !! i = Some t → (N.to_nat (th_chute t) < length cs)%nat;
  li_batch i t : ts !! i = Some t → batch_ok (th_pc t);
  li_lane j c : cs !! j = Some c → lane_ok locks ts pc j c;
  li_holder i t : ts !! i = Some t → critical (th_pc t) = true →
    locks !! N.to_nat (th_chute t) = Some (Some (HSender i));
  li_receiver : receiver_ok cs locks pc buf;
}.

Lemma phase_critical p c : phase_ok p c → critical p = true.
Proof. by destruct p. Qed.

Definition receiver_critical pc : bool :=
  match pc with RClean _ | RUnlock _ => true | _ => false end.

(** A thread moves outside its critical section. *)
Lemma lanes_inv_thread cs locks ts pc buf i t t' :
  lanes_inv cs locks ts pc buf → ts !! i = Some t → th_chute t' = th_chute t →
  critical (th_pc t) = false → critical (th_pc t') = false → batch_ok (th_pc t') →
  lanes_inv cs locks (<[i := t']> ts) pc buf.
Proof.
  intros [Hlen Hch Hba Hlane Hho Hre] Hi Hc Hcr Hcr' Hb. split; try done.
  - intros i' t2 [(<- & <- & _)|[_ Hi']]%list_lookup_insert_Some; [|by eauto].
    rewrite Hc. by eapply Hch.
  - intros i' t2 [(<- & <- & _)|[_ Hi']]%list_lookup_insert_Some; by eauto.
  - intros j c Hj. specialize (Hlane _ _ Hj). unfold lane_ok in *.
    destruct (locks !! j) as [[[i'|]|]|]; try done.
    destruct Hlane as (t2 & Hi2 & Hj2 & Hph). exists t2. split; [|done].
    destruct (decide (i' = i)) as [->|]; [|by rewrite list_lookup_insert_ne].
    simplify_eq. apply phase_critical in Hph. congruence.
  - intros i' t2 [(<- & <- & _)|[_ Hi']]%list_lookup_insert_Some; [congruence|by eauto].
Qed.

(** A new thread appears, outside any lane. *)
Lemma lanes_inv_spawn cs locks ts pc buf t :
  lanes_inv cs locks ts pc buf → (N.to_nat (th_chute t) < length cs)%nat →
  th_pc t = SIdle → lanes_inv cs locks (ts ++ [t]) pc buf.
Proof.
  intros [Hlen Hch Hba Hlane Hho Hre] Hc Hpc. split; try done.
  - intros i' t2 [Hi'|[_ [_ <-]%list_lookup_singleton_Some]]%lookup_app_Some; [by eauto|done].
  - intros i' t2 [Hi'|[_ [_ <-]%list_lookup_singleton_Some]]%lookup_app_Some; [by eauto|].
    by rewrite Hpc.
  - intros j c Hj. specialize (Hlane _ _ Hj). unfold lane_ok in *.
    destruct (locks !! j) as [[[i'|]|]|]; try done.
    destruct Hlane as (t2 & Hi2 & ?). exists t2. split; [|done]. by apply lookup_app_l_Some.
  - intros i' t2 [Hi'|[_ [_ <-]%list_lookup_singleton_Some]]%lookup_app_Some Hcr; [by eauto|].
    by rewrite Hpc in Hcr.
Qed.

(** A thread enters, moves in, or leaves the lane it holds: the lane and its lock
    change together. *)
Lemma lanes_inv_hold cs locks ts pc buf i t t' c c' o :
  lanes_inv cs locks ts pc buf → ts !! i = Some t → th_chute t' = th_chute t →
  let j := N.to_nat (th_chute t) in
  cs !! j = Some c →
  (locks !! j = Some None ∨ locks !! j = Some (Some (HSender i))) →
  (clean c' = true → clean c = true) →
  (o = Some (HSender i) ∧ phase_ok (th_pc t') c'
   ∨ o = None ∧ critical (th_pc t') = false ∧ chute_ok c') →
  batch_ok (th_pc t') →
  lanes_inv (<[j := c']> cs) (<[j := o]> locks) (<[i := t']> ts) pc buf.
Proof.
  intros [Hlen Hch Hba Hlane Hho Hre] Hi Hc j Hj Hl Hcl Ho Hb.
  assert (Hjlt : (j < length cs)%nat) by (by eapply lookup_lt_Some).
  assert (Hilt : (i < length ts)%nat) by (by eapply lookup_lt_Some).
  split.
  - by rewrite !length_insert.
  - intros i' t2. rewrite length_insert.
    intros [(<- & <- & _)|[_ Hi']]%list_lookup_insert_Some; [by rewrite Hc|by eapply Hch].
  - intros i' t2 [(<- & <- & _)|[_ Hi']]%list_lookup_insert_Some; by eauto.
  - intros j' d [(<- & <- & _)|[Hne Hj']]%list_lookup_insert_Some; unfold lane_ok.
    + rewrite list_lookup_insert_eq by lia.
      destruct Ho as [[-> Hph]|(-> & _ & Hok)]; [|done].
      exists t'. rewrite list_lookup_insert_eq by done. by rewrite Hc.
    + rewrite list_lookup_insert_ne by done. specialize (Hlane _ _ Hj'). unfold lane_ok in Hlane.
      destruct (locks !! j') as [[[i'|]|]|]; try done.
      destruct Hlane as (t2 & Hi2 & Hj2 & Hph). exists t2. split; [|done].
      destruct (decide (i' = i)) as [->|]; [|by rewrite list_lookup_insert_ne].
      by simplify_eq.
  - intros i' t2 [(<- & <- & _)|[Hne Hi']]%list_lookup_insert_Some Hcr.
    + rewrite Hc, list_lookup_insert_eq by (unfold j in *; lia).
      destruct Ho as [[-> _]|(-> & Hn & _)]; [done|congruence].
    + pose proof (Hho _ _ Hi' Hcr) as Hhold.
      destruct (decide (j = N.to_nat (th_chute t2))) as [Heq|Hneq].
      * rewrite <-Heq in Hhold. destruct Hl as [Hl|Hl]; rewrite Hl in Hhold; simplify_eq.
      * by rewrite list_lookup_insert_ne.
  - destruct pc; simpl in Hre |- *; try done.
    + destruct Hre as (d & Hd & Hdc). destruct (decide (j = N.to_nat j0)) as [Heq|Hneq].
      * rewrite <-Heq in *. exists c'. rewrite list_lookup_insert_eq by done. split; [done|].
        simplify_eq. destruct (clean c'); [|done]. by rewrite Hcl in Hdc.
      * exists d. by rewrite list_lookup_insert_ne.
    + destruct Hre as [Hr ?]. split; [|done]. destruct (decide (j = N.to_nat j0)) as [Heq|Hneq].
      * rewrite <-Heq in Hr. destruct Hl as [Hl|Hl]; rewrite Hl in Hr; simplify_eq.
      * by rewrite list_lookup_insert_ne.
    + destruct Hre as [Hr ?]. split; [|done]. destruct (decide (j = N.to_nat j0)) as [Heq|Hneq].
      * rewrite <-Heq in Hr. destruct Hl as [Hl|Hl]; rewrite Hl in Hr; simplify_eq.
      * by rewrite list_lookup_insert_ne.
Qed.

(** The receiver moves outside its critical section. *)
Lemma lanes_inv_receiver cs locks ts pc buf pc' buf' :
  lanes_inv cs locks ts pc buf →
  receiver_critical pc = false → receiver_critical pc' = false →
  receiver_ok cs locks pc' buf' → lanes_inv cs locks ts pc' buf'.
Proof.
  intros [Hlen Hch Hba Hlane Hho Hre] Hcr Hcr' Hok. split; try done.
  intros j c Hj. specialize (Hlane _ _ Hj). unfold lane_ok in *.
  destruct (locks !! j) as [[[i'|]|]|]; try done. by destruct pc.
Qed.

(** The receiver enters, moves in, or leaves the lane it holds. *)
Lemma lanes_inv_swap cs locks ts pc buf j c c' o pc' buf' :
  lanes_inv cs locks ts pc buf → cs !! j = Some c →
  (locks !! j = Some None ∧ receiver_critical pc = false
   ∨ locks !! j = Some (Some HReceiver)) →
  (o = Some HReceiver ∧ receiver_phase_ok pc' j c'
   ∨ o = None ∧ chute_ok c' ∧ receiver_critical pc' = false) →
  receiver_ok (<[j := c']> cs) (<[j := o]> locks) pc' buf' →
  lanes_inv (<[j := c']> cs) (<[j := o]> locks) ts pc' buf'.
Proof.
  intros [Hlen Hch Hba Hlane Hho Hre] Hj Hl Ho Hok.
  assert (Hjlt : (j < length cs)%nat) by (by eapply lookup_lt_Some).
  (* every other lane is not the receiver's *)
  assert (Hothers : ∀ j', j ≠ j' → locks !! j' ≠ Some (Some HReceiver) ∨ (length cs ≤ j')%nat).
  { intros j' Hne. destruct (decide (length cs ≤ j')%nat) as [|Hlt]; [by right|]. left.
    intros Hr. destruct (lookup_lt_is_Some_2 cs j') as [d Hd]; [lia|].
    pose proof (Hlane _ _ Hd) as Hd'. unfold lane_ok in Hd'. rewrite Hr in Hd'.
    destruct Hl as [[_ Hcr]|Hl].
    - by destruct pc.
    - pose proof (Hlane _ _ Hj) as Hj'. unfold lane_ok in Hj'. rewrite Hl in Hj'.
      destruct pc; simpl in *; try done; intros; destruct_and!; congruence. }
  split; try done.
  - by rewrite !length_insert.
  - intros i t Hi. rewrite length_insert. by eapply Hch.
  - intros j' d [(<- & <- & _)|[Hne Hj']]%list_lookup_insert_Some; unfold lane_ok.
    + rewrite list_lookup_insert_eq by lia. destruct Ho as [[-> ?]|(-> & ? & ?)]; done.
    + rewrite list_lookup_insert_ne by done. specialize (Hlane _ _ Hj'). unfold lane_ok in Hlane.
      destruct (locks !! j') as [[[i'|]|]|] eqn:Hlj; try done.
      destruct (Hothers j' Hne) as [Hn|Hn]; [by rewrite Hlj in Hn|].
      apply lookup_lt_Some in Hj'. lia.
  - intros i t Hi Hcr. pose proof (Hho _ _ Hi Hcr) as Hhold.
    destruct (decide (j = N.to_nat (th_chute t))) as [->|Hne].
    + destruct Hl as [[Hl _]|Hl]; rewrite Hl in Hhold; simplify_eq.
    + by rewrite list_lookup_insert_ne.
Qed.
End lanes_invariant.

Section world_invariant.
Context {W K T : Type} `{AtomicWaker W K} `{EqDecision K}.
Implicit Types w : World W K T.

(** The batches an environment sends are not empty. *)
Definition nonempty_batch (l : Label K T) : Prop :=
  match l with LSend _ vs => vs ≠ [] | _ => True end.

Record world_ok w : Prop := {
  wo_lanes : lanes_inv (chutes (w_shared w)) (w_locks w) (w_threads w) (w_pc w)
               (buffer (w_receiver w));
  wo_buffer : buffer_ok w;
  wo_count : 0 < len (chutes (w_shared w)) < 2 ^ 63;
  wo_cursor : cursor (w_receiver w) < len (chutes (w_shared w));
}.

Lemma wake_world_lanes w :
  chutes (w_shared (wake_world w)) = chutes (w_shared w) ∧ w_locks (wake_world w) = w_locks w ∧
  w_threads (wake_world w) = w_threads w ∧ w_pc (wake_world w) = w_pc w ∧
  w_receiver (wake_world w) = w_receiver w.
Proof. by destruct (wake_world_fields w) as (wk & nt & -> & _). Qed.

(** Only lanes, locks, threads, position and buffer matter to [world_ok]. *)
Lemma world_ok_same w w' :
  chutes (w_shared w') = chutes (w_shared w) → w_locks w' = w_locks w →
  w_threads w' = w_threads w → w_pc w' = w_pc w → w_receiver w' = w_receiver w →
  world_ok w → world_ok w'.
Proof.
  intros Hc Hl Ht Hp Hr [Ha Hb Hn Hcu].
  split; unfold buffer_ok in *; by rewrite ?Hc, ?Hl, ?Ht, ?Hp, ?Hr.
Qed.

Lemma world_ok_thread w i t t' :
  world_ok w → w_threads w !! i = Some t → th_chute t' = th_chute t →
  critical (th_pc t) = false → critical (th_pc t') = false → batch_ok (th_pc t') →
  world_ok (with_thread w i t').
Proof.
  intros [Ha Hb Hn Hcu] Hi Hc H1 H2 H3. split; try done. by eapply lanes_inv_thread.
Qed.

Lemma world_ok_hold w i t t' c c' o :
  world_ok w → w_threads w !! i = Some t → th_chute t' = th_chute t →
  chutes (w_shared w) !! N.to_nat (th_chute t) = Some c →
  (w_locks w !! N.to_nat (th_chute t) = Some None
   ∨ w_locks w !! N.to_nat (th_chute t) = Some (Some (HSender i))) →
  (clean c' = true → clean c = true) →
  (o = Some (HSender i) ∧ phase_ok (th_pc t') c'
   ∨ o = None ∧ critical (th_pc t') = false ∧ chute_ok c') →
  batch_ok (th_pc t') →
  world_ok (with_lock (with_shared (with_thread w i t')
     (set_chutes (w_shared w) (<[N.to_nat (th_chute t) := c']> (chutes (w_shared w)))))
     (th_chute t) o).
Proof.
  intros [Ha Hb Hn Hcu] Hi Hc Hj Hl Hcl Ho Hba. split; simpl; rewrite ?len_insert; try done.
  by eapply lanes_inv_hold.
Qed.

(** A lane whose holder is a sender thread, seen from that thread. *)
Lemma world_ok_held w i t :
  world_ok w → w_threads w !! i = Some t → critical (th_pc t) = true →
  w_locks w !! N.to_nat (th_chute t) = Some (Some (HSender i)) ∧
  ∃ c, chutes (w_shared w) !! N.to_nat (th_chute t) = Some c ∧ phase_ok (th_pc t) c.
Proof.
  intros [[Hlen Hch Hba Hlane Hho Hre] _ _ _] Hi Hcr.
  pose proof (Hho _ _ Hi Hcr) as Hl. split; [done|].
  destruct (lookup_lt_is_Some_2 (chutes (w_shared w)) (N.to_nat (th_chute t))) as [c Hc];
    [by eauto|].
  exists c. split; [done|]. specialize (Hlane _ _ Hc). unfold lane_ok in Hlane.
  rewrite Hl in Hlane. destruct Hlane as (t2 & Hi2 & _ & Hph). by simplify_eq.
Qed.

(** Writing back the lane and the lock that are there. *)
Lemma with_lock_id w (j : N) o :
  w_locks w !! N.to_nat j = Some o → with_lock w j o = w.
Proof. intros Hj. unfold with_lock. rewrite list_insert_id by done. by destruct w. Qed.

Lemma set_chutes_id (s : Shared W (nat * T)) j c :
  chutes s !! j = Some c → set_chutes s (<[j := c]> (chutes s)) = s.
Proof. intros Hj. unfold set_chutes. rewrite list_insert_id by done. by destruct s. Qed.

Lemma wake_world_ok w : world_ok w → world_ok (wake_world w).
Proof. destruct (wake_world_lanes w) as (E1 & E2 & E3 & E4 & E5). by apply world_ok_same. Qed.

(** A thread moves in, or leaves, the lane it holds, which stays as it is. *)
Lemma world_ok_hold_same w i t t' c o :
  world_ok w → w_threads w !! i = Some t → th_chute t' = th_chute t →
  chutes (w_shared w) !! N.to_nat (th_chute t) = Some c →
  w_locks w !! N.to_nat (th_chute t) = Some (Some (HSender i)) →
  (o = Some (HSender i) ∧ phase_ok (th_pc t') c
   ∨ o = None ∧ critical (th_pc t') = false ∧ chute_ok c) →
  batch_ok (th_pc t') → world_ok (with_lock (with_thread w i t') (th_chute t) o).
Proof.
  intros Hok Hi Ht Hc Hl Ho Hb.
  pose proof (world_ok_hold w i t t' c c o Hok Hi Ht Hc (or_intror Hl) id Ho Hb) as Hw.
  rewrite set_chutes_id in Hw by done. by refine (world_ok_same _ _ _ _ _ _ _ Hw).
Qed.

Lemma sender_step_world_ok i t w w' :
  world_ok w → w_threads w !! i = Some t → sender_step i t w = Some w' → world_ok w'.
Proof.
  intros Hok Hi He. pose proof (li_batch _ _ _ _ _ (wo_lanes _ Hok) _ _ Hi) as Hba.
  sender_cases He;
    try (try (eapply (world_ok_same (with_thread w i _)); [done..|]);
         eapply world_ok_thread; rewrite ?Hpc; try done; simpl; by repeat case_match).
  - pose proof (li_lane _ _ _ _ _ (wo_lanes _ Hok) _ _ Hc) as Hlane.
    unfold lane_ok in Hlane. rewrite Hl in Hlane. unfold chute_ok in Hlane.
    assert (queue c ++ (pair i <$> vs) ≠ []) as Hne.
    { intros [_ Hn]%app_nil. by apply fmap_nil_inv in Hn. }
    eapply world_ok_hold; try done; [by left|left; split; [done|]|simpl; by case_match].
    simpl. destruct (N.eqb_spec (len (queue c)) 0) as [Hz|Hz]; rewrite len_zero in Hz; simpl.
    + split; [done|]. by apply Hlane.
    + split; [done|]. destruct (clean c); [|done]. exfalso. by apply Hz, Hlane.
  - destruct (world_ok_held w i t Hok Hi) as [Hl (c0 & Hc0 & Hph)]; [by rewrite Hpc|].
    simplify_eq. rewrite Hpc in Hph. simpl in Hph. destruct Hph as [Hq Hcl].
    rewrite <-(with_lock_id (with_shared _ _) (th_chute t) (Some (HSender i))) by done.
    eapply world_ok_hold; try done; [by right|]. by left.
  - destruct (world_ok_held w i t Hok Hi) as [Hl (c0 & Hc0 & Hph)]; [by rewrite Hpc|].
    rewrite Hpc in Hph. apply wake_world_ok. rewrite <-(with_lock_id (with_thread _ _ _) (th_chute t) (Some (HSender i))) by done.
    eapply world_ok_hold_same; try done; by left.
  - destruct (world_ok_held w i t Hok Hi) as [Hl (c0 & Hc0 & Hph)]; [by rewrite Hpc|].
    rewrite Hpc in Hph. destruct Hph as [Hq Hcl].
    eapply world_ok_hold_same; try done. right. split_and!; try done.
    unfold chute_ok. rewrite Hcl. by split.
  - assert (world_ok (with_thread w i (set_pc t SIdle))) as [Ha Hb Hn' Hcu]
      by (eapply world_ok_thread; try done; by rewrite ?Hpc).
    split; try done. apply lanes_inv_spawn; [exact Ha| |done].
    simpl. pose proof (N.mod_lt (chute_clock (w_shared w)) _ Hn). unfold len in *. lia.
  - apply wake_world_ok. eapply world_ok_thread; try done; by rewrite ?Hpc.
Qed.

(** The receiver moves outside its critical section, lanes untouched. *)
Lemma world_ok_receiver w w' :
  world_ok w → chutes (w_shared w') = chutes (w_shared w) → w_locks w' = w_locks w →
  w_threads w' = w_threads w → cursor (w_receiver w') = cursor (w_receiver w) →
  receiver_critical (w_pc w) = false → receiver_critical (w_pc w') = false →
  receiver_ok (chutes (w_shared w)) (w_locks w) (w_pc w') (buffer (w_receiver w')) →
  buffer_ok w' → world_ok w'.
Proof.
  intros [Ha Hb Hn Hcu] Hc Hl Ht Hr H1 H2 H3 H4.
  split; rewrite ?Hc, ?Hl, ?Ht, ?Hr; try done. by eapply lanes_inv_receiver.
Qed.

(** A lane that the receiver holds. *)
Lemma world_ok_taken w j :
  world_ok w → w_locks w !! N.to_nat j = Some (Some HReceiver) →
  ∃ c, chutes (w_shared w) !! N.to_nat j = Some c ∧ receiver_phase_ok (w_pc w) (N.to_nat j) c.
Proof.
  intros [Ha _ _ _] Hl. destruct (lookup_lt_is_Some_2 (chutes (w_shared w)) (N.to_nat j)) as [c Hc].
  { rewrite <-(li_len _ _ _ _ _ Ha). by eapply lookup_lt_Some. }
  exists c. split; [done|]. pose proof (li_lane _ _ _ _ _ Ha _ _ Hc) as Hlane.
  unfold lane_ok in Hlane. by rewrite Hl in Hlane.
Qed.

(** The receiver enters, moves in, or leaves the lane it holds. *)
Lemma world_ok_swap w j c c' o r pc :
  world_ok w → chutes (w_shared w) !! N.to_nat j = Some c →
  (w_locks w !! N.to_nat j = Some None ∧ receiver_critical (w_pc w) = false
   ∨ w_locks w !! N.to_nat j = Some (Some HReceiver)) →
  (o = Some HReceiver ∧ receiver_phase_ok pc (N.to_nat j) c'
   ∨ o = None ∧ chute_ok c' ∧ receiver_critical pc = false) →
  receiver_ok (<[N.to_nat j := c']> (chutes (w_shared w))) (<[N.to_nat j := o]> (w_locks w)) pc (buffer r) →
  cursor r < len (chutes (w_shared w)) →
  match pc with RScan _ _ | RRegister | RSenders | RSwap _ | RIdle => False | _ => True end →
  world_ok (with_receiver (with_lock (with_shared w
    (set_chutes (w_shared w) (<[N.to_nat j := c']> (chutes (w_shared w))))) j o) r pc).
Proof.
  intros [Ha Hb Hn Hcu] Hc Hl Ho Hr Hcur Hpc. split; unfold buffer_ok; simpl; rewrite ?len_insert; try done.
  - by eapply lanes_inv_swap.
  - by destruct pc.
Qed.

Lemma receiver_step_world_ok w w' :
  world_ok w → receiver_step w = Some w' → world_ok w'.
Proof.
  intros Hok He. pose proof Hok as [Ha Hb Hn Hcu].
  pose proof (li_receiver _ _ _ _ _ Ha) as Hre.
  unfold receiver_step in He. destruct (w_pc w) eqn:Hpc; simplify_eq;
    try (eapply (world_ok_receiver w); rewrite ?Hpc; try done; unfold buffer_ok in *; by rewrite ?Hpc in * ).
  - destruct (i =? len (chutes (w_shared w))); simplify_eq.
    { eapply (world_ok_receiver w); rewrite ?Hpc; try done; unfold buffer_ok in *; rewrite ?Hpc in *; by destruct second. }
    apply bind_Some in He as (c & Hc & He). simplify_eq.
    eapply (world_ok_receiver w); rewrite ?Hpc; try done; unfold buffer_ok in *; rewrite ?Hpc in *;
      simpl; destruct (clean c) eqn:Hcl; try done. by exists c.
  - apply bind_Some in He as (c & Hc & He).
    destruct (w_locks w !! N.to_nat j) as [[h|]|] eqn:Hl; simplify_eq.
    destruct Hre as (c0 & Hc0 & Hcl). simplify_eq.
    pose proof (li_lane _ _ _ _ _ Ha _ _ Hc) as Hlane.
    unfold lane_ok in Hlane. rewrite Hl in Hlane.
    assert (queue c ≠ []) as Hq.
    { intros Hq. apply Hlane in Hq. congruence. }
    unfold buffer_ok in Hb. rewrite Hpc in Hb.
    eapply (world_ok_swap w); rewrite ?Hpc; try done; [by left|by left; rewrite Hb|].
    simpl. rewrite list_lookup_insert_eq; [done|by eapply lookup_lt_Some].
  - destruct Hre as [Hl Hbuf]. destruct (world_ok_taken w j Hok Hl) as (c0 & Hc0 & Hph).
    apply bind_Some in He as (c & Hc & He). simplify_eq. rewrite Hpc in Hph. destruct Hph as (_ & Hq & Hcl).
    rewrite <-(with_lock_id (with_shared _ _) j (Some HReceiver)) by done.
    eapply (world_ok_swap w); rewrite ?Hpc; try done; [by right|by left|].
    simpl. rewrite list_lookup_insert_eq; [done|by eapply lookup_lt_Some].
  - destruct Hre as [Hl Hbuf]. destruct (world_ok_taken w j Hok Hl) as (c & Hc & Hph).
    rewrite Hpc in Hph. destruct Hph as (_ & Hq & Hcl).
    assert (with_shared w (set_chutes (w_shared w) (<[N.to_nat j := c]> (chutes (w_shared w)))) = w) as Hid
      by (rewrite set_chutes_id by done; by destruct w).
    pose proof (world_ok_swap w j c c None (mkReceiver (usize_add j 1 `mod` len (chutes (w_shared w)))
      (buffer (w_receiver w))) RPop Hok Hc) as Hs. rewrite Hid in Hs.
    apply Hs; try done; [by right|right; by split|by apply N.mod_lt; lia].
  - unfold buffer_ok in Hb. rewrite Hpc in Hb. destruct (buffer (w_receiver w)) as [|v rest] eqn:Hbuf; simplify_eq; [done|].
    eapply (world_ok_receiver w); by rewrite ?Hpc.
  - destruct (decrement_size_fields (w_shared w) 1) as (Hch & _).
    unfold poll_value. simpl. destruct (w_batch w);
      eapply (world_ok_receiver w); by rewrite ?Hpc.
  - eapply (world_ok_receiver w); rewrite ?Hpc; try done.
    simpl. by destruct (capacity (w_shared w) =? max_u64).
Qed.

(** Every step keeps the lanes, their locks and their flags in order. *)
Lemma exec_world_ok l w w' :
  nonempty_batch l → world_ok w → exec l w = Some w' → world_ok w'.
Proof.
  intros Hl Hok He. destruct l as [i vs|i|i|i|b k| | |]; simpl in He.
  1-3: apply bind_Some in He as (t & Hi & He); destruct (th_pc t) eqn:Hpc; simplify_eq;
    eapply world_ok_thread; try done; by rewrite ?Hpc.
  - apply bind_Some in He as (t & Hi & He). by eapply sender_step_world_ok.
  - destruct (w_pc w) eqn:Hpc; simplify_eq. unfold start_poll.
    destruct (buffer (w_receiver w)) eqn:Hbuf; eapply (world_ok_receiver w); by rewrite ?Hpc.
  - by eapply receiver_step_world_ok.
  - destruct (w_pc w) eqn:Hpc; simplify_eq. destruct (buffer (w_receiver w)) eqn:Hbuf;
      simplify_eq. eapply (world_ok_receiver w); by rewrite ?Hpc.
  - destruct (w_pc w) eqn:Hpc; simplify_eq. eapply (world_ok_receiver w); rewrite ?Hpc; try done.
    simpl. unfold drain_drop. by repeat case_match.
Qed.
End world_invariant.

(** ** Counting the senders *)

Section sender_count.
Context {W K T : Type} `{AtomicWaker W K} `{EqDecision K}.
Implicit Types w : World W K T.

(** How many handles a thread accounts for: a clone is counted before the new
    handle exists, a dropped handle is uncounted before its last wake. *)
Definition weight (t : Thread T) : N :=
  match th_pc t with
  | SDropWake | SDropped => 0
  | SCloneChute => 2
  | _ => 1
  end.

Definition handles w : N := sum_by weight (w_threads w).

(** [senders] is the number of handles, and the end of the channel has only been
    reported when there is none. *)
Record count_ok w : Prop := {
  co_senders : senders (w_shared w) = wrap 64 (handles w);
  co_end : w_last w = Some (Ready None) → handles w = 0;
}.

Lemma weight_le_2 (t : Thread T) : weight t ≤ 2.
Proof. unfold weight. destruct (th_pc t); lia. Qed.

Lemma handles_le w : handles w ≤ 2 * len (w_threads w).
Proof.
  unfold handles. induction (w_threads w) as [|t ts IH]; [done|].
  simpl. rewrite len_cons. pose proof (weight_le_2 t). lia.
Qed.

Lemma handles_with_thread w i t t' :
  w_threads w !! i = Some t → handles (with_thread w i t') + weight t = handles w + weight t'.
Proof. apply sum_by_insert. Qed.

Lemma count_ok_same w w' :
  senders (w_shared w') = senders (w_shared w) → w_threads w' = w_threads w →
  (w_last w' = Some (Ready None) → w_last w = Some (Ready None)) → count_ok w → count_ok w'.
Proof. intros Hs Ht Hl [H1 H2]. split; unfold handles in *; rewrite ?Hs, ?Ht; eauto. Qed.

(** A thread moves without changing what it accounts for. *)
Lemma count_ok_thread w i t t' :
  w_threads w !! i = Some t → weight t' = weight t → count_ok w → count_ok (with_thread w i t').
Proof.
  intros Hi Hw [H1 H2]. pose proof (handles_with_thread w i t t' Hi) as Hh.
  assert (handles (with_thread w i t') = handles w) as He by lia.
  split; rewrite He; done.
Qed.

Lemma wake_world_count w :
  senders (w_shared (wake_world w)) = senders (w_shared w) ∧
  w_threads (wake_world w) = w_threads w ∧ w_last (wake_world w) = w_last w.
Proof. by destruct (wake_world_fields w) as (wk & nt & -> & _). Qed.

(** The steps that leave the handles alone. *)
Local Ltac count_thread w :=
  try match goal with
  | |- count_ok (wake_world ?w0) =>
      destruct (wake_world_count w0) as (E1 & E2 & E3); eapply (count_ok_same w0); rewrite ?E3; try done
  | |- count_ok (with_shared _ _) => eapply (count_ok_same (w _)); try done
  | |- count_ok (with_lock _ _ _) => eapply (count_ok_same (w _)); try done
  end;
  eapply count_ok_thread; try done; unfold weight; repeat match goal with E : th_pc _ = _ |- _ => rewrite E end; simpl; by if_cases.

Lemma sender_step_count i t w w' :
  w_threads w !! i = Some t → sender_step i t w = Some w' → count_ok w → count_ok w'.
Proof.
  intros Hi He Hok. pose proof (sum_by_lookup_le weight _ _ _ Hi) as Hle.
  change (sum_by weight (w_threads w)) with (handles w) in Hle.
  sender_cases He; try (by count_thread (with_thread w i)).
  - destruct Hok as [H1 H2]. pose proof (handles_with_thread w i t (set_pc t SCloneChute) Hi) as Hh.
    unfold weight at 1 2 in Hh. simpl in Hh. unfold weight in Hle. rewrite Hpc in Hh, Hle.
    split; simpl; change (handles (with_shared ?w ?s)) with (handles w).
    + rewrite H1, wadd_wrap. f_equal. lia.
    + intros Hl. specialize (H2 Hl). lia.
  - destruct Hok as [H1 H2]. pose proof (handles_with_thread w i t (set_pc t SIdle) Hi) as Hh.
    unfold weight at 1 2 in Hh. simpl in Hh. unfold weight in Hle. rewrite Hpc in Hh, Hle.
    unfold handles in *. simpl in *. split; unfold handles; simpl; rewrite sum_by_app; simpl;
      unfold weight at 2; simpl.
    + rewrite H1. f_equal. lia.
    + intros Hl. specialize (H2 Hl). lia.
  - destruct Hok as [H1 H2].
    set (t' := set_pc t _). pose proof (handles_with_thread w i t t' Hi) as Hh.
    assert (weight t' = 0) as Ht' by (unfold t', weight; simpl; by if_cases).
    unfold weight at 1 in Hh. unfold weight in Hle. rewrite Hpc in Hh, Hle.
    split; simpl; change (handles (with_shared ?w ?s)) with (handles w).
    + rewrite H1, wsub_wrap by lia. f_equal. lia.
    + intros Hl. specialize (H2 Hl). lia.
Qed.

Lemma receiver_step_count w w' :
  len (w_threads w) < 2 ^ 63 → receiver_step w = Some w' → count_ok w → count_ok w'.
Proof.
  intros Hb He Hok. pose proof (handles_le w) as Hle.
  unfold receiver_step in He. destruct (w_pc w) eqn:Hpc; simplify_eq.
  - destruct (i =? len (chutes (w_shared w))); simplify_eq.
    { by eapply (count_ok_same w). }
    apply bind_Some in He as (c & Hc & He). simplify_eq. by eapply (count_ok_same w).
  - by eapply (count_ok_same w).
  - destruct Hok as [H1 H2]. split; [done|]. cbn [w_last poll_returns].
    destruct (N.eqb_spec 0 (senders (w_shared w))) as [Hz|Hz]; [|done]. intros _.
    rewrite H1, wrap_small in Hz; [done|]. lia.
  - apply bind_Some in He as (c & Hc & He).
    destruct (w_locks w !! N.to_nat j) as [[h|]|]; simplify_eq. by eapply (count_ok_same w).
  - apply bind_Some in He as (c & Hc & He). simplify_eq. by eapply (count_ok_same w).
  - by eapply (count_ok_same w).
  - destruct (buffer (w_receiver w)); simplify_eq; by eapply (count_ok_same w).
  - destruct (decrement_size_fields (w_shared w) 1) as (_ & Hs & _).
    unfold poll_value. simpl. destruct (w_batch w); by eapply (count_ok_same w).
  - eapply (count_ok_same w); try done. simpl. by destruct (capacity (w_shared w) =? max_u64).
Qed.

Lemma exec_count l w w' :
  len (w_threads w) < 2 ^ 63 → exec l w = Some w' → count_ok w → count_ok w'.
Proof.
  intros Hb He Hok. destruct l as [i vs|i|i|i|b k| | |]; simpl in He.
  1-3: apply bind_Some in He as (t & Hi & He); destruct (th_pc t) eqn:Hpc; simplify_eq;
    eapply count_ok_thread; try done; unfold weight; by rewrite Hpc.
  - apply bind_Some in He as (t & Hi & He). by eapply sender_step_count.
  - destruct (w_pc w); simplify_eq. unfold start_poll.
    destruct (buffer (w_receiver w)); by eapply (count_ok_same w).
  - by eapply receiver_step_count.
  - destruct (w_pc w); simplify_eq. destruct (buffer (w_receiver w)); simplify_eq.
    by eapply (count_ok_same w).
  - destruct (w_pc w); simplify_eq. eapply (count_ok_same w); try done. simpl.
    unfold drain_drop. by repeat case_match.
Qed.

(** Threads are never forgotten. *)
Lemma exec_threads_grow l w w' : exec l w = Some w' → len (w_threads w) ≤ len (w_threads w').
Proof.
  assert (∀ i t, len (w_threads (with_thread w i t)) = len (w_threads w)) as Hins.
  { intros i t. simpl. apply len_insert. }
  intros He. destruct l as [i vs|i|i|i|b k| | |]; simpl in He.
  1-3: apply bind_Some in He as (t & Hi & He); destruct (th_pc t); simplify_eq; by rewrite Hins.
  - apply bind_Some in He as (t & Hi & He). unfold sender_step in He.
    destruct (th_pc t); simplify_eq; try (simpl; rewrite len_insert; lia).
    + apply bind_Some in He as (c & Hc & He).
      destruct (w_locks w !! N.to_nat (th_chute t)) as [[h|]|]; simplify_eq.
      simpl. rewrite len_insert. lia.
    + apply bind_Some in He as (c & Hc & He). simplify_eq. simpl. rewrite len_insert. lia.
    + destruct (wake_world_count (with_thread w i (set_pc t SUnlock))) as (_ & -> & _).
      by rewrite Hins.
    + destruct (choose_chute (w_shared w)) as [[j s']| |]; simplify_eq. simpl.
      rewrite len_app, len_insert. lia.
    + destruct (drop_sender (w_shared w)). simplify_eq. simpl. rewrite len_insert. lia.
    + destruct (wake_world_count (with_thread w i (set_pc t SDropped))) as (_ & -> & _).
      by rewrite Hins.
  - destruct (w_pc w); simplify_eq. unfold start_poll. by destruct (buffer (w_receiver w)).
  - unfold receiver_step in He. destruct (w_pc w); simplify_eq; try done.
    + destruct (i =? _); simplify_eq; [done|]. apply bind_Some in He as (c & Hc & He).
      by simplify_eq.
    + apply bind_Some in He as (c & Hc & He).
      destruct (w_locks w !! N.to_nat j) as [[h|]|]; by simplify_eq.
    + apply bind_Some in He as (c & Hc & He). by simplify_eq.
    + destruct (buffer (w_receiver w)); by simplify_eq.
    + unfold poll_value. simpl. by destruct (w_batch w).
  - destruct (w_pc w); simplify_eq. by destruct (buffer (w_receiver w)); simplify_eq.
  - by destruct (w_pc w); simplify_eq.
Qed.
End sender_count.

(** ** Wakes *)

Section wakes.
Context {W K T : Type} `{AtomicWakerLaws W K} `{EqDecision K}.
Implicit Types w : World W K T.

Definition about_to_wake (p : SenderPc T) : bool :=
  match p with SWake | SDropWake => true | _ => false end.

(** The receiver's task has been woken, or a thread is at a wake. *)
Definition wake_coming w : Prop :=
  w_notified w = true ∨ ∃ i t, w_threads w !! i = Some t ∧ about_to_wake (th_pc t) = true.

(** The waker of the current poll is the one the cell would wake. *)
Definition registered w : Prop := (aw_wake (waker (w_shared w))).2 = Some (w_waker w).

(** The lanes at the first [n] positions from the cursor are flagged clean. *)
Definition scanned w (n : N) : Prop :=
  ∀ m c, m < n →
    chutes (w_shared w) !! N.to_nat (usize_add (cursor (w_receiver w)) m
                                       `mod` len (chutes (w_shared w))) = Some c →
    clean c = true.

(** The receiver is parked: its last poll returned [Pending]. *)
Definition parked w : Prop := w_pc w = RIdle ∧ w_last w = Some Pending.

Definition scan_so_far w : option N :=
  match w_pc w with
  | RScan true i => Some i
  | RSenders => Some (len (chutes (w_shared w)))
  | RIdle => match w_last w with Some Pending => Some (len (chutes (w_shared w))) | _ => None end
  | _ => None
  end.

(** After registering, whatever becomes dirty behind the scan comes with a wake,
    and so does the last handle going away once the receiver is parked. *)
Record wake_ok w : Prop := {
  wk_registered n : scan_so_far w = Some n → w_notified w = true ∨ registered w;
  wk_scanned n : scan_so_far w = Some n → wake_coming w ∨ scanned w n;
  wk_senders : parked w → wake_coming w ∨ senders (w_shared w) ≠ 0;
}.

Lemma wake_world_wakes w :
  (w_notified w = true ∨ registered w) → w_notified (wake_world w) = true.
Proof.
  unfold wake_world, wake, registered. destruct (aw_wake (waker (w_shared w))) as [wk k].
  simpl. intros [->| ->]; [done|]. simpl.
  rewrite (bool_decide_eq_true_2 (w_waker w ∈ [w_waker w])) by set_solver.
  by destruct (w_notified w).
Qed.

Lemma wake_world_rest w :
  scan_so_far (wake_world w) = scan_so_far w ∧ (parked (wake_world w) ↔ parked w).
Proof. by destruct (wake_world_fields w) as (wk & nt & -> & _). Qed.

Lemma wake_coming_thread w i t t' :
  w_threads w !! i = Some t →
  (about_to_wake (th_pc t) = true → about_to_wake (th_pc t') = true) →
  wake_coming w → wake_coming (with_thread w i t').
Proof.
  intros Hi Hp [Hn|(i2 & t2 & Hi2 & Hp2)]; [by left|]. right.
  destruct (decide (i2 = i)) as [->|Hne].
  - exists i, t'. simplify_eq. simpl. rewrite list_lookup_insert_eq; [eauto|].
    by eapply lookup_lt_Some.
  - exists i2, t2. simpl. by rewrite list_lookup_insert_ne.
Qed.

(** A thread moves, none of its wakes being due. *)
Lemma wake_ok_thread w i t t' :
  w_threads w !! i = Some t →
  (about_to_wake (th_pc t) = true → about_to_wake (th_pc t') = true) →
  wake_ok w → wake_ok (with_thread w i t').
Proof.
  intros Hi Hp [H1 H2 H3]. pose proof (wake_coming_thread w i t t' Hi Hp).
  split; [exact H1|..].
  - intros n Hn. destruct (H2 n Hn); [left|right]; eauto.
  - intros Hpk. destruct (H3 Hpk); [left|right]; eauto.
Qed.

(** Changes that the wake invariant does not see. *)
Lemma wake_ok_same w w' :
  scan_so_far w' = scan_so_far w → w_notified w' = w_notified w →
  waker (w_shared w') = waker (w_shared w) → w_waker w' = w_waker w →
  w_threads w' = w_threads w →
  (clean <$> chutes (w_shared w') = clean <$> chutes (w_shared w)) →
  cursor (w_receiver w') = cursor (w_receiver w) →
  (parked w' → parked w ∧ (senders (w_shared w) ≠ 0 → senders (w_shared w') ≠ 0)) →
  wake_ok w → wake_ok w'.
Proof.
  intros Hs Hn Hk Hk' Ht Hc Hr Hp [H1 H2 H3].
  assert (Hlen : len (chutes (w_shared w')) = len (chutes (w_shared w))).
  { unfold len. f_equal. rewrite <-(length_fmap clean), Hc. by rewrite length_fmap. }
  split; rewrite ?Hs.
  - unfold registered. rewrite Hn, Hk, Hk'. exact H1.
  - intros n Hsn. unfold wake_coming. rewrite Hn, Ht.
    destruct (H2 n Hsn) as [|Hsc]; [by left|]. right.
    intros m c Hm Hcm. rewrite Hr, Hlen in Hcm.
    assert ((clean <$> chutes (w_shared w)) !! N.to_nat (usize_add (cursor (w_receiver w)) m
              `mod` len (chutes (w_shared w))) = Some (clean c)) as Hcl.
    { by rewrite <-Hc, list_lookup_fmap, Hcm. }
    rewrite list_lookup_fmap in Hcl. apply fmap_Some in Hcl as (d & Hd & ->). by eapply Hsc.
  - intros Hpk. destruct (Hp Hpk) as [Hpk' Hse]. unfold wake_coming. rewrite Hn, Ht.
    destruct (H3 Hpk') as [|]; [by left|right; by apply Hse].
Qed.

(** No scan is in progress and the receiver is not parked. *)
Lemma wake_ok_other w : scan_so_far w = None → wake_ok w.
Proof.
  intros Hn. split; [congruence..|]. intros [Hp Hl]. unfold scan_so_far in Hn.
  rewrite Hp, Hl in Hn. done.
Qed.

Lemma wake_ok_waked w i t t' :
  w_threads w !! i = Some t → wake_ok w → wake_ok (wake_world (with_thread w i t')).
Proof.
  intros Hi [H1 H2 H3].
  destruct (wake_world_rest (with_thread w i t')) as [Hs Hp].
  assert (∀ n, scan_so_far w = Some n → w_notified (wake_world (with_thread w i t')) = true) as Hn.
  { intros n Hn. apply wake_world_wakes. by destruct (H1 n Hn); [left|right]. }
  assert (∀ n, scan_so_far (wake_world (with_thread w i t')) = Some n →
               w_notified (wake_world (with_thread w i t')) = true) as Hn'.
  { intros n Hsn. eapply Hn. by rewrite Hs in Hsn. }
  split.
  - intros n Hsn. left. by eapply Hn'.
  - intros n Hsn. left. left. by eapply Hn'.
  - intros Hpk. left. left. apply Hp in Hpk as [Hp1 Hp2]. simpl in Hp1, Hp2.
    eapply Hn. unfold scan_so_far. by rewrite Hp1, Hp2.
Qed.

(** A thread comes to its wake, and changes what cannot matter any more. *)
Lemma wake_ok_about_to_wake w w' i t t' :
  w_threads w !! i = Some t → w_threads w' = <[i := t']> (w_threads w) → about_to_wake (th_pc t') = true →
  scan_so_far w' = scan_so_far w → w_notified w' = w_notified w → waker (w_shared w') = waker (w_shared w) →
  w_waker w' = w_waker w → wake_ok w → wake_ok w'.
Proof.
  intros Hi Ht Hp Hs Hn Hk Hk' [H1 _ _].
  assert (wake_coming w') as Hwc.
  { right. exists i, t'. split; [|done]. rewrite Ht.
    by eapply list_lookup_insert_eq, lookup_lt_Some. }
  split; [|by left..]. intros n Hsn. rewrite Hs in Hsn. destruct (H1 n Hsn) as [|Hr]; [left; by rewrite Hn|right].
  unfold registered in *. by rewrite Hk, Hk'.
Qed.

Lemma wake_ok_dirty w i t c :
  w_threads w !! i = Some t → wake_ok w →
  wake_ok (with_shared (with_thread w i (set_pc t SWake))
    (set_chutes (w_shared w) (<[N.to_nat (th_chute t) := mkChute (queue c) false]> (chutes (w_shared w))))).
Proof.
  intros Hi Hok. eapply (wake_ok_about_to_wake w); try done.
  unfold scan_so_far. simpl. by rewrite len_insert.
Qed.

Lemma wake_ok_spawn w t : wake_ok w → wake_ok (with_threads w (w_threads w ++ [t])).
Proof.
  intros [H1 H2 H3].
  assert (wake_coming w → wake_coming (with_threads w (w_threads w ++ [t]))) as Hmono.
  { intros [Hnt|(i2 & t2 & Hi2 & Hp2)]; [by left|right]. exists i2, t2.
    split; [|done]. by apply lookup_app_l_Some. }
  split; [exact H1|..].
  - intros n Hsn. destruct (H2 n Hsn); [left|by right]. by apply Hmono.
  - intros Hpk. destruct (H3 Hpk); [left|by right]. by apply Hmono.
Qed.

Lemma sender_step_wakes i t w w' :
  len (w_threads w) < 2 ^ 63 → count_ok w →
  w_threads w !! i = Some t → sender_step i t w = Some w' → wake_ok w → wake_ok w'.
Proof.
  intros Hb Hcount Hi He Hok. pose proof (handles_le w) as Hle.
  pose proof (sum_by_lookup_le weight _ _ _ Hi) as Hwt.
  change (sum_by weight (w_threads w)) with (handles w) in Hwt.
  assert (th_pc t = SDropCount → senders (w_shared w) = handles w) as Hse.
  { intros Hpc. rewrite (co_senders _ Hcount), wrap_small; [done|]. lia. }
  sender_cases He;
    try (try (eapply (wake_ok_same (with_thread w i _)); [done..|]);
         eapply wake_ok_thread; [exact Hi|by rewrite Hpc|done]).
  - eapply (wake_ok_same (with_thread w i _)); try done.
    + unfold scan_so_far. simpl. by rewrite len_insert.
    + simpl. by eapply fmap_insert_same.
    + eapply wake_ok_thread; try done. by rewrite Hpc.
  - by eapply wake_ok_dirty.
  - by eapply wake_ok_waked.
  - eapply (wake_ok_same (with_thread w i (set_pc t SCloneChute))); try done.
    { intros Hpk. split; [done|]. intros _. simpl. unfold weight in Hwt. rewrite Hpc in Hwt.
      rewrite (co_senders _ Hcount), wadd_wrap, wrap_small; lia. }
    eapply wake_ok_thread; try done. by rewrite Hpc.
  - apply wake_ok_spawn, (wake_ok_same (with_thread w i (set_pc t SIdle))); try done.
    eapply wake_ok_thread; try done. by rewrite Hpc.
  - unfold weight in Hwt. rewrite Hpc in Hwt. specialize (Hse eq_refl).
    destruct (N.eqb_spec (senders (w_shared w)) 1) as [H1s|H1s].
    + by eapply (wake_ok_about_to_wake w).
    + eapply (wake_ok_same (with_thread w i (set_pc t SDropped))); try done.
      { intros Hpk. split; [done|]. intros _. simpl. rewrite wsub_small by lia. lia. }
      eapply wake_ok_thread; try done. by rewrite Hpc.
  - by eapply wake_ok_waked.
Qed.

Lemma receiver_step_wakes w w' :
  receiver_step w = Some w' → wake_ok w → wake_ok w'.
Proof.
  intros He Hok. unfold receiver_step in He. destruct (w_pc w) eqn:Hpc; simplify_eq.
  - destruct Hok as [H1 H2 H3]. unfold scan_so_far in *. rewrite Hpc in *.
    destruct (N.eqb_spec i (len (chutes (w_shared w)))) as [->|Hi]; simplify_eq.
    + destruct second; [|by apply wake_ok_other].
      split; [|exact H2|by intros []].
      intros n Hn. by apply (H1 n).
    + apply bind_Some in He as (c & Hc & He). simplify_eq.
      destruct (clean c) eqn:Hcl; [|by apply wake_ok_other].
      destruct second; [|by apply wake_ok_other]. split; [..|by intros []].
      * intros n _. by apply (H1 i).
      * intros n [= <-]. destruct (H2 i eq_refl) as [|Hsc]; [by left|right].
        intros m d Hm Hd. destruct (decide (m = i)) as [->|Hne].
        { simpl in Hd. by simplify_eq. }
        apply (Hsc m d); [lia|done].
  - split; [..|by intros []].
    + intros n _. right. apply aw_wake_register.
    + intros n [= <-]. right. intros m c Hm. lia.
  - destruct Hok as [H1 H2 H3]. unfold scan_so_far in *. rewrite Hpc in *.
    destruct (N.eqb_spec 0 (senders (w_shared w))) as [Hz|Hz]; [by apply wake_ok_other|].
    split; [exact H1|exact H2|]. intros _. right. simpl. congruence.
  - apply bind_Some in He as (c & Hc & He).
    destruct (w_locks w !! N.to_nat j) as [[h|]|]; simplify_eq. by apply wake_ok_other.
  - apply bind_Some in He as (c & Hc & He). simplify_eq. by apply wake_ok_other.
  - by apply wake_ok_other.
  - destruct (buffer (w_receiver w)); simplify_eq; by apply wake_ok_other.
  - unfold poll_value. simpl. destruct (w_batch w); by apply wake_ok_other.
  - by apply wake_ok_other.
Qed.

(** A drain exists only after its poll returned a value. *)
Definition drain_ok w : Prop :=
  match w_pc w with RDraining _ => w_last w ≠ Some Pending | _ => True end.

Lemma exec_drain_ok l w w' : exec l w = Some w' → drain_ok w → drain_ok w'.
Proof.
  assert (∀ w, drain_ok w → drain_ok (wake_world w)) as Hwake.
  { intros w0 Hw0. by destruct (wake_world_fields w0) as (wk & nt & -> & _). }
  intros He Hok. destruct l as [i vs|i|i|i|b k| | |]; simpl in He.
  1-3: apply bind_Some in He as (t & Hi & He); destruct (th_pc t); by simplify_eq.
  - apply bind_Some in He as (t & Hi & He). unfold sender_step in He.
    destruct (th_pc t); simplify_eq; try done.
    + apply bind_Some in He as (c & Hc & He).
      destruct (w_locks w !! N.to_nat (th_chute t)) as [[h|]|]; by simplify_eq.
    + apply bind_Some in He as (c & Hc & He). by simplify_eq.
    + by apply Hwake.
    + destruct (choose_chute (w_shared w)) as [[j s']| |]; by simplify_eq.
    + destruct (drop_sender (w_shared w)). by simplify_eq.
    + by apply Hwake.
  - destruct (w_pc w); simplify_eq. unfold start_poll. by destruct (buffer (w_receiver w)).
  - unfold receiver_step in He. destruct (w_pc w); simplify_eq; try done.
    + destruct (i =? _); simplify_eq; [by destruct second|].
      apply bind_Some in He as (c & Hc & He). simplify_eq.
      unfold drain_ok. simpl. by destruct (clean c).
    + apply bind_Some in He as (c & Hc & He).
      destruct (w_locks w !! N.to_nat j) as [[h|]|]; by simplify_eq.
    + apply bind_Some in He as (c & Hc & He). by simplify_eq.
    + destruct (buffer (w_receiver w)); by simplify_eq.
    + unfold poll_value. simpl. by destruct (w_batch w).
  - unfold drain_ok in *. destruct (w_pc w); simplify_eq.
    destruct (buffer (w_receiver w)); by simplify_eq.
  - by destruct (w_pc w); simplify_eq.
Qed.

Lemma exec_wakes l w w' :
  len (w_threads w) < 2 ^ 63 → count_ok w → drain_ok w →
  exec l w = Some w' → wake_ok w → wake_ok w'.
Proof.
  intros Hb Hcount Hdrain He Hok. destruct l as [i vs|i|i|i|b k| | |]; simpl in He.
  1-3: apply bind_Some in He as (t & Hi & He); destruct (th_pc t) eqn:Hpc; simplify_eq;
    eapply wake_ok_thread; try done; by rewrite Hpc.
  - apply bind_Some in He as (t & Hi & He). by eapply sender_step_wakes.
  - destruct (w_pc w); simplify_eq. unfold start_poll.
    destruct (buffer (w_receiver w)); by apply wake_ok_other.
  - by eapply receiver_step_wakes.
  - destruct (w_pc w); simplify_eq. destruct (buffer (w_receiver w)); simplify_eq.
    by apply wake_ok_other.
  - destruct (w_pc w) eqn:Hpc; simplify_eq.
    apply wake_ok_other. unfold drain_ok in Hdrain. rewrite Hpc in Hdrain.
    unfold scan_so_far. simpl. by destruct (w_last w) as [[]|].
Qed.
End wakes.

(** ** The size counter of a bounded channel *)

Section size_counter.
Context {W K T : Type} `{AtomicWaker W K} `{EqDecision K}.
Implicit Types w : World W K T.

(** Values a thread has reserved room for and will push. *)
Definition committed (t : Thread T) : N :=
  match th_pc t with SLock vs => len vs | _ => 0 end.

(** Values a thread has counted but will uncount: its send is being refused. *)
Definition refused (t : Thread T) : N :=
  match th_pc t with SUndo vs => len vs | _ => 0 end.

(** The batches being sent. *)
Definition sending (t : Thread T) : N :=
  match th_pc t with SReserve vs | SUndo vs | SLock vs => len vs | _ => 0 end.

(** Values taken out of the queues but still counted. *)
Definition uncounted (pc : ReceiverPc T) (buf : list (nat * T)) : N :=
  match pc with
  | RCount _ => 1
  | RDraining d => initial_len d - len buf
  | _ => 0
  end.

Definition queued w : N := sum_by (λ c, len (queue c)) (chutes (w_shared w)).

Definition occupied w : N :=
  queued w + len (buffer (w_receiver w)) + sum_by committed (w_threads w)
  + uncounted (w_pc w) (buffer (w_receiver w)).

Definition refusing w : N := sum_by refused (w_threads w).

(** Values that are in the channel: accepted and not yet handed out. *)
Definition in_flight w : N :=
  queued w + len (buffer (w_receiver w)) + len (hand (w_pc w)).

(** The counter cannot wrap: the capacity and all batches being sent fit. *)
Definition unwrapped w : Prop :=
  capacity (w_shared w) + sum_by sending (w_threads w) + 2 < 2 ^ 64.

Definition single_polls (l : Label K T) : Prop :=
  match l with LPoll true _ => False | _ => True end.

(** [slack] is 0 when batches are never polled for and 1 otherwise. *)
Record size_ok (slack : N) w : Prop := {
  so_counter : channel_size (w_shared w) = wrap 64 (occupied w + refusing w);
  so_bound : occupied w ≤ capacity (w_shared w) + slack;
  so_restore : match w_pc w with
               | RRestore _ => occupied w ≤ capacity (w_shared w)
               | RDraining d => drain_tracks d = true ∧ len (buffer (w_receiver w)) ≤ initial_len d
               | _ => True
               end;
  so_single : slack = 0 →
    w_batch w = false ∧ match w_pc w with RRestore _ | RDraining _ => False | _ => True end;
}.

Lemma sum_by_le {A} (f g : A → N) l : (∀ x, f x ≤ g x) → sum_by f l ≤ sum_by g l.
Proof. intros Hle. induction l as [|x l IH]; simpl; [done|]. specialize (Hle x). lia. Qed.

Lemma refusing_le_sending w : refusing w ≤ sum_by sending (w_threads w).
Proof. apply sum_by_le. intros t. unfold refused, sending. destruct (th_pc t); lia. Qed.

Lemma size_ok_same slack w w' :
  capacity (w_shared w') = capacity (w_shared w) →
  channel_size (w_shared w') = channel_size (w_shared w) →
  queued w' = queued w → refusing w' = refusing w →
  sum_by committed (w_threads w') = sum_by committed (w_threads w) →
  w_receiver w' = w_receiver w → w_pc w' = w_pc w → w_batch w' = w_batch w →
  size_ok slack w → size_ok slack w'.
Proof.
  intros E1 E2 E3 E4 E5 E6 E7 E8 [H1 H2 H3 H4].
  split; unfold occupied; by rewrite ?E1, ?E2, ?E3, ?E4, ?E5, ?E6, ?E7, ?E8.
Qed.

(** The sums after one thread has moved. *)
Lemma sums_with_thread w i t t' :
  w_threads w !! i = Some t →
  sum_by committed (<[i:=t']> (w_threads w)) + committed t
    = sum_by committed (w_threads w) + committed t' ∧
  sum_by refused (<[i:=t']> (w_threads w)) + refused t
    = sum_by refused (w_threads w) + refused t' ∧
  sending t ≤ sum_by sending (w_threads w) ∧ refused t ≤ sum_by refused (w_threads w) ∧
  committed t ≤ sum_by committed (w_threads w).
Proof.
  intros Hi. split_and!; [by apply sum_by_insert..| | |]; by eapply sum_by_lookup_le.
Qed.

Lemma size_ok_thread slack w i t t' :
  w_threads w !! i = Some t → committed t' = committed t → refused t' = refused t →
  size_ok slack w → size_ok slack (with_thread w i t').
Proof.
  intros Hi Hc Hr. destruct (sums_with_thread w i t t' Hi) as (S1 & S2 & _).
  apply size_ok_same; try done; unfold refusing; simpl; lia.
Qed.

Lemma wake_world_size slack w : size_ok slack w → size_ok slack (wake_world w).
Proof. by destruct (wake_world_fields w) as (wk & nt & -> & _); apply size_ok_same. Qed.

Lemma queued_insert w (s : Shared W (nat * T)) j c c' :
  chutes (w_shared w) !! j = Some c → chutes s = <[j:=c']> (chutes (w_shared w)) →
  queued (with_shared w s) + len (queue c) = queued w + len (queue c').
Proof. intros Hj Hs. unfold queued. simpl. rewrite Hs. by apply (sum_by_insert (λ c, len (queue c))). Qed.

Lemma queued_insert_same w (s : Shared W (nat * T)) j c c' :
  chutes (w_shared w) !! j = Some c → chutes s = <[j:=c']> (chutes (w_shared w)) →
  queue c' = queue c → queued (with_shared w s) = queued w.
Proof. intros Hj Hs Hc. pose proof (queued_insert w s j c c' Hj Hs) as Hq. rewrite Hc in Hq. lia. Qed.

(** A thread moves and the counter with it: what it commits to must fit. *)
Lemma size_ok_move slack w i t t' (s : Shared W (nat * T)) :
  w_threads w !! i = Some t → chutes s = chutes (w_shared w) →
  capacity s = capacity (w_shared w) →
  channel_size s = wrap 64 (occupied w + committed t' - committed t
                            + (refusing w + refused t' - refused t)) →
  (occupied w + committed t' ≤ capacity s ∨ committed t' ≤ committed t) →
  size_ok slack w → size_ok slack (with_shared (with_thread w i t') s).
Proof.
  intros Hi Hch Hca Hsz Hfit [H1 H2 H3 H4].
  destruct (sums_with_thread w i t t' Hi) as (S1 & S2 & _ & S4 & S5).
  assert (occupied (with_shared (with_thread w i t') s) = occupied w + committed t' - committed t)
    as Hocc.
  { unfold occupied, queued in *. simpl. rewrite Hch. lia. }
  assert (refusing (with_shared (with_thread w i t') s) = refusing w + refused t' - refused t)
    as Href by (unfold refusing in *; simpl; lia).
  rewrite Hca in Hfit.
  split; rewrite ?Hocc, ?Href; simpl; rewrite ?Hca; try done; try lia.
  destruct (w_pc w); try done. lia.
Qed.

(** Room for what a thread reserves: the counter, with all that is being refused. *)
Lemma reserve_room w i t vs :
  w_threads w !! i = Some t → th_pc t = SReserve vs →
  refusing w + len vs ≤ sum_by sending (w_threads w).
Proof.
  intros Hi Hpc. unfold refusing.
  pose proof (sum_by_insert refused _ _ _ (set_pc t (SUndo vs)) Hi) as R1.
  pose proof (sum_by_insert sending _ _ _ (set_pc t (SUndo vs)) Hi) as R2.
  pose proof (refusing_le_sending (with_thread w i (set_pc t (SUndo vs)))) as R3.
  assert (sending t = len vs ∧ refused t = 0) as [E1 E2]
    by (unfold sending, refused; by rewrite Hpc).
  unfold refusing in *. simpl in *. rewrite E1 in R2. rewrite E2 in R1.
  change (refused (set_pc t (SUndo vs))) with (len vs) in R1.
  change (sending (set_pc t (SUndo vs))) with (len vs) in R2. lia.
Qed.

Lemma size_ok_reserve slack w i t vs :
  slack ≤ 1 → unwrapped w → w_threads w !! i = Some t → th_pc t = SReserve vs → size_ok slack w →
  let next := u64_add (channel_size (w_shared w)) (len vs) in
  size_ok slack (with_shared (with_thread w i
    (set_pc t (if capacity (w_shared w) <? next then SUndo vs else SLock vs))) (set_channel_size (w_shared w) next)).
Proof.
  intros Hsl Hun Hi Hpc Hok. pose proof Hok as [H1 H2 _ _]. pose proof (reserve_room w i t vs Hi Hpc) as Hrv.
  unfold unwrapped in Hun.
  assert (committed t = 0 ∧ refused t = 0) as [E1 E2]
    by (unfold committed, refused; by rewrite Hpc).
  assert (u64_add (channel_size (w_shared w)) (len vs) = occupied w + refusing w + len vs) as ->.
  { rewrite H1, wadd_wrap, wrap_small; [done|]. lia. }
  cbv zeta. destruct (N.ltb_spec (capacity (w_shared w)) (occupied w + refusing w + len vs));
    (eapply size_ok_move; try done); rewrite ?E1, ?E2;
    unfold committed, refused; simpl; rewrite ?wrap_small; lia.
Qed.

(** What a thread had reserved is now in its lane. *)
Lemma size_ok_enqueue slack w i t t' vs c b j o :
  w_threads w !! i = Some t → th_pc t = SLock vs → chutes (w_shared w) !! N.to_nat (th_chute t) = Some c →
  committed t' = 0 → refused t' = 0 → size_ok slack w →
  size_ok slack (with_lock (with_shared (with_thread w i t') (set_chutes (w_shared w)
    (<[N.to_nat (th_chute t) := mkChute (queue c ++ (pair i <$> vs)) b]> (chutes (w_shared w))))) j o).
Proof.
  intros Hi Hpc Hc E3 E4 [H1 H2 H3 H4].
  assert (committed t = len vs ∧ refused t = 0) as [E1 E2]
    by (unfold committed, refused; by rewrite Hpc).
  set (c' := mkChute _ _). set (s' := set_chutes _ _).
  destruct (sums_with_thread w i t t' Hi) as (S1 & S2 & _).
  pose proof (queued_insert w s' _ c c' Hc eq_refl) as Hq. unfold c' in Hq.
  cbn [queue] in Hq. rewrite len_app in Hq. unfold len at 3 in Hq. rewrite length_fmap in Hq.
  change (N.of_nat (length vs)) with (len vs) in Hq.
  set (w' := with_lock _ _ _).
  assert (occupied w' = occupied w) as Hocc.
  { unfold w', occupied in *. simpl in *. unfold queued in *. simpl in *. lia. }
  assert (refusing w' = refusing w) as Href by (unfold w', refusing in *; simpl in *; lia).
  split; rewrite ?Hocc, ?Href; try done.
Qed.

Lemma sender_step_size slack i t w w' :
  slack ≤ 1 → unwrapped w → capacity (w_shared w) ≠ max_u64 →
  w_threads w !! i = Some t → sender_step i t w = Some w' → size_ok slack w → size_ok slack w'.
Proof.
  intros Hsl Hun Hcap Hi He Hok. pose proof Hok as [H1 H2 _ _].
  destruct (sums_with_thread w i t t Hi) as (_ & _ & S3 & S4 & S5).
  change (sum_by refused (w_threads w)) with (refusing w) in S4.
  assert (sum_by committed (w_threads w) ≤ occupied w) as S6 by (unfold occupied; lia).
  pose proof (refusing_le_sending w) as Hrs. unfold unwrapped in Hun.
  sender_cases He;
    try (try apply wake_world_size; try (eapply (size_ok_same slack (with_thread w i _)); [done..|]);
         eapply size_ok_thread; try done; unfold committed, refused; rewrite Hpc; simpl; by if_cases).
  - eapply size_ok_thread; try done; unfold committed, refused; rewrite Hpc;
      apply N.eqb_neq in Hcap as ->; by destruct (dead _).
  - by eapply size_ok_reserve.
  - assert (committed t = 0 ∧ refused t = len vs) as [E1 E2]
      by (unfold committed, refused; by rewrite Hpc).
    eapply size_ok_move; try done; rewrite ?E1, ?E2 in *; unfold committed, refused; simpl.
    + rewrite H1, wsub_wrap by lia. f_equal. lia.
    + by right.
  - eapply size_ok_enqueue; try done; unfold committed, refused; simpl; by if_cases.
  - eapply (size_ok_same slack (with_thread w i _)); try done; last first.
    { eapply size_ok_thread; try done; unfold committed, refused; by rewrite Hpc. }
    by eapply (queued_insert_same (with_thread w i _)).
  - eapply (size_ok_same slack (with_thread w i (set_pc t SIdle))); try done.
    + unfold refusing. simpl. rewrite sum_by_app. simpl. unfold refused at 2. simpl. lia.
    + simpl. rewrite sum_by_app. simpl. unfold committed at 2. simpl. lia.
    + eapply size_ok_thread; try done; unfold committed, refused; by rewrite Hpc.
Qed.
(** The receiver moves, [k] values leaving the count. *)
Lemma size_ok_uncount slack w w' k :
  capacity (w_shared w') = capacity (w_shared w) → w_threads w' = w_threads w →
  w_batch w' = w_batch w → occupied w = occupied w' + k → k < 2 ^ 64 →
  channel_size (w_shared w') = u64_sub (channel_size (w_shared w)) k →
  (match w_pc w' with
   | RRestore _ => occupied w' ≤ capacity (w_shared w)
   | RDraining d => drain_tracks d = true ∧ len (buffer (w_receiver w')) ≤ initial_len d
   | _ => True
   end) →
  (slack = 0 → match w_pc w' with RRestore _ | RDraining _ => False | _ => True end) →
  size_ok slack w → size_ok slack w'.
Proof.
  intros Hca Ht Hb Hocc Hk Hsz Hre Hsi [H1 H2 H3 H4].
  assert (refusing w' = refusing w) as Href by (unfold refusing; by rewrite Ht).
  split; rewrite ?Hca, ?Hb, ?Href; try done; [|lia|].
  - rewrite Hsz, H1, wsub_wrap by lia. f_equal. lia.
  - intros Hz. split; [by apply H4|by apply Hsi].
Qed.

Lemma u64_sub_0 x : x < 2 ^ 64 → u64_sub x 0 = x.
Proof. intros. rewrite wsub_small; lia. Qed.

Lemma size_ok_counter_lt slack w : size_ok slack w → channel_size (w_shared w) < 2 ^ 64.
Proof. intros [-> _ _ _]. apply wrap_lt. Qed.

(** The receiver moves and the count stays. *)
Lemma size_ok_move_receiver slack w w' :
  capacity (w_shared w') = capacity (w_shared w) → w_threads w' = w_threads w →
  w_batch w' = w_batch w → occupied w' = occupied w →
  channel_size (w_shared w') = channel_size (w_shared w) →
  match w_pc w' with RRestore _ | RDraining _ => False | _ => True end →
  size_ok slack w → size_ok slack w'.
Proof.
  intros Hca Ht Hb Hocc Hsz Hpc Hok. pose proof (size_ok_counter_lt slack w Hok).
  eapply (size_ok_uncount slack w w' 0); try done; [lia|by rewrite u64_sub_0|].
  by destruct (w_pc w').
Qed.

(** The value in hand is uncounted, and put back into a batch. *)
Lemma size_ok_count slack w v :
  slack ≤ 1 →   capacity (w_shared w) ≠ max_u64 → w_pc w = RCount v → size_ok slack w →
  size_ok slack (poll_value (with_shared w (decrement_size (w_shared w) 1)) v).
Proof.
  intros Hsl Hcap Hpc Hok. assert (decrement_size (w_shared w) 1
          = set_channel_size (w_shared w) (u64_sub (channel_size (w_shared w)) 1)) as Hde.
  { unfold decrement_size. by rewrite (proj2 (N.eqb_neq _ _) Hcap). }
  pose proof (so_bound _ _ Hok) as Hbd.
  assert (occupied w = queued w + len (buffer (w_receiver w))
          + sum_by committed (w_threads w) + 1) as Hocc by (unfold occupied; by rewrite Hpc).
  unfold poll_value. rewrite Hde. simpl.
  destruct (w_batch w) eqn:Hb; (eapply (size_ok_uncount slack w _ 1); try done; simpl).
  - rewrite Hocc. unfold occupied, queued. simpl. lia.
  - rewrite Hocc in Hbd. unfold occupied, queued in *. simpl. lia.
  - intros Hz. destruct (so_single _ _ Hok Hz). congruence.
  - rewrite Hocc. unfold occupied, queued. simpl. lia.
Qed.

Lemma size_ok_restore slack w v :
  slack ≤ 1 → capacity (w_shared w) ≠ max_u64 → w_pc w = RRestore v → size_ok slack w →
  let s' := if capacity (w_shared w) =? max_u64 then w_shared w
            else set_channel_size (w_shared w) (u64_add (channel_size (w_shared w)) 1) in
  let buffer' := v :: buffer (w_receiver w) in
  size_ok slack (with_receiver (poll_returns (with_shared w s') (Ready (Some v)))
    (mkReceiver (cursor (w_receiver w)) buffer')
    (RDraining (mkBatchDrain (negb (capacity (w_shared w) =? max_u64)) (len buffer')))).
Proof.
  intros Hsl Hcap Hpc Hok. pose proof (so_restore _ _ Hok) as Hre. rewrite Hpc in Hre.
  assert (slack = 1) as ->.
  { destruct (decide (slack = 0)) as [Hz|]; [|lia].
    destruct (so_single _ _ Hok Hz) as [_ Hf]. by rewrite Hpc in Hf. }
  rewrite (proj2 (N.eqb_neq _ _) Hcap). cbv zeta. simpl.
  set (w2 := with_receiver _ _ _).
  assert (occupied w2 = occupied w + 1) as Hocc.
  { unfold w2, occupied, queued. simpl. rewrite Hpc. simpl. rewrite len_cons. lia. }
  assert (refusing w2 = refusing w) as Href by done.
  destruct Hok as [H1 H2 H3 H4].
  split; rewrite ?Hocc, ?Href; simpl; try done; try lia.
  rewrite H1, wadd_wrap. f_equal. lia.
Qed.

Lemma receiver_step_size slack w w' :
  slack ≤ 1 → unwrapped w → capacity (w_shared w) ≠ max_u64 →
  receiver_step w = Some w' → size_ok slack w → size_ok slack w'.
Proof.
  intros Hsl Hun Hcap He Hok. unfold unwrapped in Hun.
  unfold receiver_step in He. destruct (w_pc w) eqn:Hpc; simplify_eq.
  - destruct (i =? len (chutes (w_shared w))); simplify_eq.
    { eapply (size_ok_move_receiver slack w); try done; [|by destruct second].
      unfold occupied. rewrite Hpc. by destruct second. }
    apply bind_Some in He as (c & Hc & He). simplify_eq.
    eapply (size_ok_move_receiver slack w); try done; [|by destruct (clean c)].
    unfold occupied. rewrite Hpc. by destruct (clean c).
  - eapply (size_ok_move_receiver slack w); try done. unfold occupied. by rewrite Hpc.
  - eapply (size_ok_move_receiver slack w); try done. unfold occupied. by rewrite Hpc.
  - apply bind_Some in He as (c & Hc & He).
    destruct (w_locks w !! N.to_nat j) as [[h|]|]; simplify_eq.
    set (s' := set_chutes _ _). set (c' := mkChute _ _) in *.
    pose proof (queued_insert w s' _ c c' Hc eq_refl) as Hq.
    eapply (size_ok_move_receiver slack w); try done.
    unfold occupied. rewrite Hpc. unfold queued in *. simpl in *. lia.
  - apply bind_Some in He as (c & Hc & He). simplify_eq.
    set (s' := set_chutes _ _).
    pose proof (queued_insert_same w s' _ c (mkChute (queue c) true) Hc eq_refl eq_refl) as Hq.
    eapply (size_ok_move_receiver slack w); try done.
    unfold occupied. rewrite Hpc. unfold queued in *. simpl in *. lia.
  - eapply (size_ok_move_receiver slack w); try done. unfold occupied. by rewrite Hpc.
  - destruct (buffer (w_receiver w)) as [|v rest] eqn:Hbuf; simplify_eq;
      eapply (size_ok_move_receiver slack w); try done; unfold occupied; rewrite Hpc; simpl.
    + done.
    + rewrite Hbuf, len_cons. unfold queued. simpl. lia.
  - by eapply size_ok_count.
  - by eapply size_ok_restore.
Qed.

(** What was drained leaves the count with the drain. *)
Lemma size_ok_drain_drop slack w d :
  slack ≤ 1 → unwrapped w → w_pc w = RDraining d → size_ok slack w →
  size_ok slack (with_pc (with_shared w (drain_drop d (w_shared w) (w_receiver w))) RIdle).
Proof.
  intros Hsl Hun Hpc Hok. unfold unwrapped in Hun.
  pose proof (so_restore _ _ Hok) as Hre. rewrite Hpc in Hre. destruct Hre as [Htr Hle].
  pose proof (so_bound _ _ Hok) as Hbd.
  assert (occupied w = queued w + sum_by committed (w_threads w) + initial_len d) as Hocc.
  { unfold occupied. rewrite Hpc. simpl. lia. }
  assert (usize_sub (initial_len d) (len (buffer (w_receiver w)))
          = initial_len d - len (buffer (w_receiver w))) as Hco by (rewrite wsub_small; lia).
  pose proof (size_ok_counter_lt slack w Hok).
  assert (channel_size (drain_drop d (w_shared w) (w_receiver w))
          = u64_sub (channel_size (w_shared w))
              (initial_len d - len (buffer (w_receiver w))) ∧
          chutes (drain_drop d (w_shared w) (w_receiver w)) = chutes (w_shared w) ∧
          capacity (drain_drop d (w_shared w) (w_receiver w)) = capacity (w_shared w))
    as (E1 & E2 & E3).
  { unfold drain_drop. rewrite Htr, Hco.
    destruct (N.eqb_spec (initial_len d - len (buffer (w_receiver w))) 0) as [->|]; simpl;
      rewrite ?u64_sub_0; done. }
  eapply (size_ok_uncount slack w _ (initial_len d - len (buffer (w_receiver w)))); try done.
  - rewrite Hocc. unfold occupied, queued. simpl. rewrite E2. lia.
  - lia.
Qed.

Lemma exec_size slack l w w' :
  slack ≤ 1 → (slack = 0 → single_polls l) → unwrapped w → capacity (w_shared w) ≠ max_u64 →
  exec l w = Some w' → size_ok slack w → size_ok slack w'.
Proof.
  intros Hsl Hl Hun Hcap He Hok. destruct l as [i vs|i|i|i|b k| | |]; simpl in He.
  1-3: apply bind_Some in He as (t & Hi & He); destruct (th_pc t) eqn:Hpc; simplify_eq;
    eapply size_ok_thread; try done; unfold committed, refused; by rewrite Hpc.
  - apply bind_Some in He as (t & Hi & He). by eapply sender_step_size.
  - destruct (w_pc w) eqn:Hpc; simplify_eq. destruct Hok as [H1 H2 H3 H4].
    assert (occupied (start_poll w b k) = occupied w) as Hocc.
    { unfold start_poll, occupied. destruct (buffer (w_receiver w)) eqn:Hbuf; simpl;
        rewrite ?Hpc, ?Hbuf, ?len_cons; unfold queued; simpl; lia. }
    split; rewrite ?Hocc; unfold start_poll in *;
      destruct (buffer (w_receiver w)); simpl; try done;
      (intros Hz; split; [|done]); specialize (Hl Hz); by destruct b.
  - by eapply receiver_step_size.
  - destruct (w_pc w) eqn:Hpc; simplify_eq. destruct (buffer (w_receiver w)) as [|v rest] eqn:Hbuf;
      simplify_eq.
    destruct Hok as [H1 H2 H3 H4]. rewrite Hpc, Hbuf, len_cons in H3. rewrite Hpc in H4.
    destruct H3 as [Htr Hle].
    set (w2 := hand_out _ _).
    assert (occupied w2 = occupied w) as Hocc.
    { unfold w2, occupied, queued. simpl. rewrite Hpc, Hbuf. simpl. rewrite len_cons. lia. }
    split; rewrite ?Hocc; simpl; try done. split; [done|lia].
  - destruct (w_pc w) as [| | | | | | | | | |d|] eqn:Hpc; simplify_eq. by apply size_ok_drain_drop.
Qed.

(** What is in flight never exceeds the capacity, by more than the slack. *)
Lemma in_flight_le slack w : size_ok slack w → in_flight w ≤ capacity (w_shared w) + slack.
Proof.
  intros [_ H2 H3 H4]. unfold in_flight, occupied in *.
  assert (len (hand (w_pc w)) ≤ 1) as Hh by (by destruct (w_pc w)).
  destruct (decide (slack = 0)) as [Hz|Hz].
  - destruct (H4 Hz) as [_ Hpc]. destruct (w_pc w); simpl in *; try done;
      autorewrite with protosocket in *; lia.
  - destruct (w_pc w); simpl in *; autorewrite with protosocket in *; lia.
Qed.
End size_counter.

(** ** Reachable states *)

Section reachable.
Context {W K T : Type} `{AtomicWakerLaws W K} `{EqDecision K}.
Implicit Types w : World W K T.

(** The states of a channel whose environment only uses labels in [allowed],
    as long as the run stays [within] a set of states. *)
Inductive reachable (allowed : Label K T → Prop) (within : World W K T → Prop)
  : World W K T → Prop :=
| reachable_start cap concurrency k w :
    cap ≤ max_u64 → concurrency < 2 ^ 63 →
    start cap concurrency k = Some w → within w → reachable allowed within w
| reachable_step l w w' :
    reachable allowed within w → allowed l → exec l w = Some w' → within w' →
    reachable allowed within w'.

(** The number of sender threads stays below what the counters can hold. *)
Definition few_threads w : Prop := len (w_threads w) < 2 ^ 63.

(** A parked receiver has nothing in its buffer. *)
Definition parked_ok w : Prop := parked w → buffer (w_receiver w) = [].

Lemma start_spec cap concurrency k w :
  cap ≤ max_u64 → concurrency < 2 ^ 63 → start cap concurrency k = Some w →
  world_ok w ∧ lanes_ok (abs w) ∧ count_ok w ∧ drain_ok w ∧ wake_ok w ∧ parked_ok w ∧
  size_ok 0 w ∧ capacity (w_shared w) = cap.
Proof.
  intros Hcap Hlt He. unfold start, channel_with_capacity_and_concurrency, sender_new,
    choose_chute in He.
  assert (len (chutes (add_sender (@shared_new W K (nat * T) _ concurrency cap)))
          = concurrency) as Hlen by (unfold len; simpl; rewrite length_replicate; lia).
  rewrite Hlen in He. destruct (N.eqb_spec concurrency 0) as [|Hpos]; [done|].
  simpl in He. rewrite N.Div0.mod_0_l in He. simplify_eq.
  assert (∀ j c, replicate (N.to_nat concurrency) (@chute_default (nat * T)) !! j = Some c →
            c = chute_default) as Hrep by (intros j c Hj; by apply lookup_replicate_1 in Hj as [-> _]).
  split_and!; try done.
  - split; simpl; try done; [|change (0 < len (chutes (add_sender (@shared_new W K (nat * T) _ concurrency cap))) < 2 ^ 63); lia|].
    + split; simpl; rewrite ?length_replicate; try done.
      * intros i t [-> <-]%list_lookup_singleton_Some. simpl. lia.
      * by intros i t [-> <-]%list_lookup_singleton_Some.
      * intros j c Hj. unfold lane_ok.
        rewrite lookup_replicate_2 by (by apply lookup_lt_Some in Hj; rewrite length_replicate in Hj).
        by rewrite (Hrep _ _ Hj).
      * by intros i t [-> <-]%list_lookup_singleton_Some.
    + change (0 < len (chutes (add_sender (@shared_new W K (nat * T) _ concurrency cap)))). lia.
  - split; simpl; try done.
    + intros j q Hq. rewrite list_lookup_fmap in Hq. apply fmap_Some in Hq as (c & Hc & ->).
      by rewrite (Hrep _ _ Hc).
    + intros i j sent [-> [= <- <-]]%list_lookup_singleton_Some.
      exists []. split; [|done]. rewrite list_lookup_fmap, lookup_replicate_2 by lia. done.
  - by apply wake_ok_other.
  - assert (queued (mkWorld (set_chute_clock (add_sender (@shared_new W K (nat * T) _ concurrency cap))
       (usize_add 0 1)) (replicate (length (replicate (N.to_nat concurrency) (@chute_default (nat * T)))) None)
       [mkThread 0 (@SIdle T) [] []] receiver_new RIdle false k false None []) = 0) as Hq.
    { unfold queued. apply sum_by_zero. intros j c Hj. simpl in Hj. by rewrite (Hrep _ _ Hj). }
    split; simpl; try done; unfold occupied; simpl; rewrite ?Hq; try done; change (0 ≤ cap + 0); lia.
Qed.

Lemma exec_parked_ok l w w' :
  buffer_ok w → drain_ok w → exec l w = Some w' → parked_ok w → parked_ok w'.
Proof.
  intros Hb Hd He Hok.
  assert (∀ w0, w_pc w0 ≠ RIdle → parked_ok w0) as Hbusy by (by intros w0 Hpc [Hp _]).
  assert (∀ w0, parked_ok w0 → parked_ok (wake_world w0)) as Hwake.
  { intros w0 Hw0. by destruct (wake_world_fields w0) as (wk & nt & -> & _). }
  destruct l as [i vs|i|i|i|b k| | |]; simpl in He.
  1-3: apply bind_Some in He as (t & Hi & He); destruct (th_pc t); by simplify_eq.
  - apply bind_Some in He as (t & Hi & He). unfold sender_step in He.
    destruct (th_pc t); simplify_eq; try done.
    + apply bind_Some in He as (c & Hc & He).
      destruct (w_locks w !! N.to_nat (th_chute t)) as [[h|]|]; by simplify_eq.
    + apply bind_Some in He as (c & Hc & He). by simplify_eq.
    + by apply Hwake.
    + destruct (choose_chute (w_shared w)) as [[j s']| |]; by simplify_eq.
    + destruct (drop_sender (w_shared w)). by simplify_eq.
    + by apply Hwake.
  - destruct (w_pc w); simplify_eq. unfold start_poll.
    destruct (buffer (w_receiver w)); by apply Hbusy.
  - unfold receiver_step, buffer_ok in *. destruct (w_pc w); simplify_eq; try (by apply Hbusy).
    + destruct (i =? _); simplify_eq; [apply Hbusy; by destruct second|].
      apply bind_Some in He as (c & Hc & He). simplify_eq.
      apply Hbusy. simpl. by destruct (clean c).
    + intros _. done.
    + apply bind_Some in He as (c & Hc & He).
      destruct (w_locks w !! N.to_nat j) as [[h|]|]; simplify_eq. by apply Hbusy.
    + apply bind_Some in He as (c & Hc & He). simplify_eq. by apply Hbusy.
    + destruct (buffer (w_receiver w)); simplify_eq; by apply Hbusy.
    + unfold poll_value. simpl. destruct (w_batch w); [by apply Hbusy|]. by intros [_ Hl].
  - destruct (w_pc w) eqn:Hpc; simplify_eq.
    destruct (buffer (w_receiver w)); simplify_eq. by apply Hbusy.
  - unfold drain_ok in Hd. destruct (w_pc w); simplify_eq. by intros [_ Hl].
Qed.

(** Everything above, for every reachable state. *)
Record system_ok w : Prop := {
  sys_world : world_ok w;
  sys_lanes : lanes_ok (abs w);
  sys_count : count_ok w;
  sys_drain : drain_ok w;
  sys_wake : wake_ok w;
  sys_parked : parked_ok w;
}.

Lemma reachable_within allowed within w : reachable allowed within w → within w.
Proof. by destruct 1. Qed.

Lemma reachable_system_ok w :
  reachable nonempty_batch few_threads w → system_ok w.
Proof.
  induction 1 as [cap conc k w Hcap Hconc Hs _|l w w' Hr IH Hl He Hw'].
  { destruct (start_spec _ _ _ _ Hcap Hconc Hs) as (? & ? & ? & ? & ? & ? & _). by split. }
  apply reachable_within in Hr. destruct IH as [I1 I2 I3 I4 I5 I6].
  split; [by eapply exec_world_ok| |exact (exec_count _ _ _ Hr He I3)|exact (exec_drain_ok _ _ _ He I4)
         |exact (exec_wakes _ _ _ Hr I3 I4 He I5)|exact (exec_parked_ok _ _ _ (wo_buffer _ I1) I4 He I6)].
  destruct (exec_refines _ _ _ (wo_buffer _ I1) He) as [->|(al & Hal & Hsp)]; [done|].
  by eapply lanes_exec_ok.
Qed.

Lemma exec_capacity l w w' : exec l w = Some w' → capacity (w_shared w') = capacity (w_shared w).
Proof.
  assert (∀ w0, capacity (w_shared (wake_world w0)) = capacity (w_shared w0)) as Hwake.
  { intros w0. by destruct (wake_world_fields w0) as (wk & nt & -> & _). }
  intros He. destruct l as [i vs|i|i|i|b k| | |]; simpl in He.
  1-3: apply bind_Some in He as (t & Hi & He); destruct (th_pc t); by simplify_eq.
  - apply bind_Some in He as (t & Hi & He). unfold sender_step in He.
    destruct (th_pc t); simplify_eq; try done.
    + apply bind_Some in He as (c & Hc & He).
      destruct (w_locks w !! N.to_nat (th_chute t)) as [[h|]|]; by simplify_eq.
    + apply bind_Some in He as (c & Hc & He). by simplify_eq.
    + by rewrite Hwake.
    + unfold choose_chute in He. destruct (len (chutes (w_shared w)) =? 0); by simplify_eq.
    + unfold drop_sender in He. by simplify_eq.
    + by rewrite Hwake.
  - destruct (w_pc w); simplify_eq. unfold start_poll. by destruct (buffer (w_receiver w)).
  - unfold receiver_step in *. destruct (w_pc w); simplify_eq; try done.
    + destruct (i =? _); simplify_eq; [done|].
      apply bind_Some in He as (c & Hc & He). by simplify_eq.
    + apply bind_Some in He as (c & Hc & He).
      destruct (w_locks w !! N.to_nat j) as [[h|]|]; by simplify_eq.
    + apply bind_Some in He as (c & Hc & He). by simplify_eq.
    + destruct (buffer (w_receiver w)); by simplify_eq.
    + unfold poll_value, decrement_size. simpl.
      by destruct (w_batch w), (capacity (w_shared w) =? max_u64).
    + simpl. by destruct (capacity (w_shared w) =? max_u64).
  - destruct (w_pc w); simplify_eq. destruct (buffer (w_receiver w)); by simplify_eq.
  - destruct (w_pc w); simplify_eq. simpl. unfold drain_drop. by if_cases.
Qed.

Lemma size_ok_weaken slack w : size_ok 0 w → size_ok slack w.
Proof.
  intros [H1 H2 H3 H4]. destruct (H4 eq_refl) as [Hb Hpc].
  split; try done. lia.
Qed.

Lemma reachable_size_ok slack w :
  slack ≤ 1 →
  reachable (λ l, slack = 0 → single_polls l)
    (λ w, unwrapped w ∧ capacity (w_shared w) ≠ max_u64) w → size_ok slack w.
Proof.
  intros Hs. induction 1 as [cap conc k w Hcap Hconc Hst _|l w w' Hr IH Hl He Hw'].
  { destruct (start_spec _ _ _ _ Hcap Hconc Hst) as (_ & _ & _ & _ & _ & _ & Hok & _).
    by apply size_ok_weaken. }
  apply reachable_within in Hr as [Hun Hcap]. by eapply exec_size.
Qed.

(** The wrap-around scan meets every lane. *)
Lemma scan_covers (c n j : N) :
  c < n → n < 2 ^ 63 → j < n → ∃ m, m < n ∧ usize_add c m `mod` n = j.
Proof.
  intros Hc Hn Hj. destruct (decide (c ≤ j)) as [Hle|Hgt].
  - exists (j - c). split; [lia|]. rewrite wadd_small by lia.
    rewrite N.mod_small; lia.
  - exists (n - c + j). split; [lia|]. rewrite wadd_small by lia.
    replace (c + (n - c + j)) with (j + 1 * n) by lia.
    rewrite N.Div0.mod_add. apply N.mod_small. lia.
Qed.

(** No lock is held for ever: whoever is in a lane can take its next step. *)
Lemma holder_steps w j h :
  system_ok w → w_locks w !! j = Some (Some h) →
  match h with
  | HSender i => ∃ w', exec (LSender i) w = Some w'
  | HReceiver => ∃ w', exec LReceiver w = Some w'
  end.
Proof.
  intros [[Hl _ _ _] _ _ _ _ _] Hj.
  destruct (lookup_lt_is_Some_2 (chutes (w_shared w)) j) as [c Hc].
  { rewrite <-(li_len _ _ _ _ _ Hl). by eapply lookup_lt_Some. }
  pose proof (li_lane _ _ _ _ _ Hl _ _ Hc) as Hlane. unfold lane_ok in Hlane.
  rewrite Hj in Hlane. destruct h as [i|].
  - destruct Hlane as (t & Hi & <- & Hph). simpl. rewrite Hi. simpl. unfold sender_step.
    destruct (th_pc t); try done; simpl; rewrite ?Hc; simpl; eauto.
  - simpl. unfold receiver_step. destruct (w_pc w); try done; destruct Hlane as [<- _];
      rewrite ?Hc; simpl; eauto.
Qed.
(** A call in progress, and a poll in progress, can go on, or wait for such a holder. *)
Lemma sender_goes_on w i t :
  system_ok w → w_threads w !! i = Some t → th_pc t ≠ SIdle → th_pc t ≠ SDropped →
  is_Some (exec (LSender i) w) ∨
  ∃ h, w_locks w !! N.to_nat (th_chute t) = Some (Some h) ∧
    is_Some (exec (match h with HSender i' => LSender i' | HReceiver => LReceiver end) w).
Proof.
  intros Hsys Hi Hne1 Hne2. pose proof Hsys as [[Hl _ [Hn Hlt] Hcu] _ _ _ _ _].
  destruct (lookup_lt_is_Some_2 (chutes (w_shared w)) (N.to_nat (th_chute t))) as [c Hc];
    [by eapply li_chute|].
  destruct (w_locks w !! N.to_nat (th_chute t)) as [[h|]|] eqn:Hlk.
  - right. exists h. split; [done|]. pose proof (holder_steps _ _ _ Hsys Hlk) as Hh.
    destruct h; destruct Hh as [w' Hw']; rewrite Hw'; eauto.
  - left. simpl. rewrite Hi. simpl. unfold sender_step, choose_chute.
    destruct (th_pc t); try done; rewrite ?Hc; simpl; rewrite ?Hlk; try by eexists.
    destruct (N.eqb_spec (len (chutes (w_shared w))) 0); [lia|eauto].
  - exfalso. apply lookup_ge_None in Hlk. apply lookup_lt_Some in Hc.
    rewrite (li_len _ _ _ _ _ Hl) in Hlk. lia.
Qed.

Lemma receiver_goes_on w :
  system_ok w → w_pc w ≠ RIdle → (∀ d, w_pc w ≠ RDraining d) →
  is_Some (exec LReceiver w) ∨
  ∃ j i, w_locks w !! j = Some (Some (HSender i)) ∧ is_Some (exec (LSender i) w).
Proof.
  intros Hsys Hne1 Hne2. pose proof Hsys as [[Hl _ [Hn Hlt] Hcu] _ _ _ _ _].
  pose proof (li_receiver _ _ _ _ _ Hl) as Hre.
  assert (∀ j, (N.to_nat j < length (chutes (w_shared w)))%nat → is_Some (chutes (w_shared w) !! N.to_nat j))
    as Hlane by (intros j Hj; by apply lookup_lt_is_Some).
  simpl. unfold receiver_step. destruct (w_pc w) as [|second i| | |j|j|j| |v|v|d|] eqn:Hpc; simpl in Hre;
    try done; try (left; by eauto).
  - left. destruct (i =? len (chutes (w_shared w))); [eauto|].
    destruct (Hlane (usize_add (cursor (w_receiver w)) i `mod` len (chutes (w_shared w)))) as [c ->];
      [|simpl; eauto].
    pose proof (N.mod_lt (usize_add (cursor (w_receiver w)) i) (len (chutes (w_shared w)))).
    unfold len in *. lia.
  - destruct Hre as (c & Hc & _). rewrite Hc. simpl.
    destruct (w_locks w !! N.to_nat j) as [[h|]|] eqn:Hlk; [|left; eauto|].
    + pose proof (holder_steps _ _ _ Hsys Hlk) as Hh. right. destruct h as [i|].
      { destruct Hh as [w' Hw']. exists (N.to_nat j), i. split; [done|].
        simpl in Hw'. rewrite Hw'. eauto. }
      pose proof (li_lane _ _ _ _ _ Hl _ _ Hc) as Hlk'. unfold lane_ok in Hlk'.
      by rewrite Hlk in Hlk'.
    + exfalso. apply lookup_ge_None in Hlk. apply lookup_lt_Some in Hc.
      rewrite (li_len _ _ _ _ _ Hl) in Hlk. lia.
  - destruct Hre as [Hlk _]. left. destruct (Hlane j) as [c ->]; [|simpl; eauto].
    rewrite <-(li_len _ _ _ _ _ Hl). by eapply lookup_lt_Some.
  - left. destruct (buffer (w_receiver w)); eauto.
  - by destruct (Hne2 d).
Qed.
End reachable.

(** ** Runs that can be computed *)

Section runs.
Context {W K T : Type} `{AtomicWaker W K} `{EqDecision K}.
Implicit Types w : World W K T.

(** A schedule, with the labels and the states it meets checked on the way. *)
Fixpoint run_within (allowed : Label K T → bool) (within : World W K T → bool)
  (ls : list (Label K T)) w : option (World W K T) :=
  if within w then
    match ls with
    | [] => Some w
    | l :: ls =>
        if allowed l then w' ← exec l w; run_within allowed within ls w' else None
    end
  else None.

Definition run_from (allowed : Label K T → bool) (within : World W K T → bool)
  (cap concurrency : N) (k : K) (ls : list (Label K T)) : option (World W K T) :=
  w ← start cap concurrency k; run_within allowed within ls w.

Definition any_label (l : Label K T) : bool := true.
Definition nonempty_batchb (l : Label K T) : bool :=
  match l with LSend _ [] => false | _ => true end.
Definition single_pollsb (l : Label K T) : bool :=
  match l with LPoll b _ => negb b | _ => true end.
Definition few_threadsb w : bool := len (w_threads w) <? 2 ^ 63.
Definition boundedb w : bool :=
  (capacity (w_shared w) + sum_by sending (w_threads w) + 2 <? 2 ^ 64)
  && negb (capacity (w_shared w) =? max_u64).

Lemma run_within_sound allowed within allowedb withinb ls w w' :
  (∀ l, allowedb l = true → allowed l) → (∀ w, withinb w = true → within w) →
  run_within allowedb withinb ls w = Some w' →
  reachable allowed within w → reachable allowed within w'.
Proof.
  intros Ha Hw. revert w. induction ls as [|l ls IH]; simpl; intros w Hr Hreach.
  { by destruct (withinb w); simplify_eq. }
  destruct (withinb w); [|done]. destruct (allowedb l) eqn:Hl; [|done].
  apply bind_Some in Hr as (w1 & He & Hr). apply (IH w1 Hr).
  eapply reachable_step; [done|by apply Ha|done|].
  apply Hw. destruct ls; simpl in Hr; by destruct (withinb w1).
Qed.

Lemma run_from_reachable allowed within allowedb withinb cap conc k ls w' :
  (∀ l, allowedb l = true → allowed l) → (∀ w, withinb w = true → within w) →
  cap ≤ max_u64 → conc < 2 ^ 63 →
  run_from allowedb withinb cap conc k ls = Some w' → reachable allowed within w'.
Proof.
  intros Ha Hw Hcap Hconc Hr. apply bind_Some in Hr as (w & Hs & Hr).
  eapply run_within_sound; [done..|]. eapply reachable_start; [done..|].
  apply Hw. destruct ls; simpl in Hr; by destruct (withinb w).
Qed.

Lemma nonempty_batchb_sound l : nonempty_batchb l = true → nonempty_batch l.
Proof. by destruct l as [i []| | | | | | |]. Qed.

Lemma single_pollsb_sound l : single_pollsb l = true → single_polls l.
Proof. by destruct l as [| | | |[]| | |]. Qed.

Lemma few_threadsb_sound w : few_threadsb w = true → few_threads w.
Proof. apply N.ltb_lt. Qed.

Definition bounded w : Prop := unwrapped w ∧ capacity (w_shared w) ≠ max_u64.

Lemma boundedb_sound w : boundedb w = true → bounded w.
Proof.
  unfold boundedb, bounded. rewrite andb_true_iff, N.ltb_lt, negb_true_iff, N.eqb_neq. done.
Qed.

Lemma reachable_mono (allowed allowed' : Label K T → Prop) within w :
  (∀ l, allowed l → allowed' l) → reachable allowed within w → reachable allowed' within w.
Proof.
  intros Ha. induction 1; [by eapply reachable_start|eapply reachable_step; eauto].
Qed.
End runs.

(** ** [Closed] is never returned *)

Section never_closed.
Context {W K T : Type} `{AtomicWaker W K} `{EqDecision K}.
Implicit Types w : World W K T.

Definition not_closed (res : result unit (Error (list T))) : Prop :=
  match res with Err (Closed _) => False | _ => True end.

Record open_ok w : Prop := {
  op_dead : dead (w_shared w) = false;
  op_results i t : w_threads w !! i = Some t → Forall not_closed (th_results t);
}.

Lemma open_ok_same w w' :
  dead (w_shared w') = dead (w_shared w) → w_threads w' = w_threads w → open_ok w → open_ok w'.
Proof. intros Hd Ht [H1 H2]. split; rewrite ?Hd, ?Ht; eauto. Qed.

Lemma open_ok_thread w i t t' :
  w_threads w !! i = Some t →
  (th_results t' = th_results t
   ∨ ∃ res, not_closed res ∧ th_results t' = res :: th_results t) →
  open_ok w → open_ok (with_thread w i t').
Proof.
  intros Hi Ht [H1 H2]. split; [done|].
  intros i2 t2 [(<- & <- & _)|[_ Hi2]]%list_lookup_insert_Some; [|by eapply H2].
  destruct Ht as [->|(res & Hres & ->)]; [by eapply H2|].
  constructor; [done|by eapply H2].
Qed.

Lemma wake_world_open w : open_ok w → open_ok (wake_world w).
Proof. destruct (wake_world_fields w) as (wk & nt & -> & _). by apply open_ok_same. Qed.

Lemma sender_step_open_ok i t w w' :
  w_threads w !! i = Some t → sender_step i t w = Some w' → open_ok w → open_ok w'.
Proof.
  intros Hi He Hok. pose proof (op_dead w Hok) as Hdead. sender_cases He; rewrite ?Hdead;
    try apply wake_world_open; try (eapply (open_ok_same (with_thread w i _)); [done..|]);
    try (eapply open_ok_thread; [exact Hi| |done]; first [by left|right; eexists; by split; [|reflexivity]]).
  assert (open_ok (with_thread w i (set_pc t SIdle))) as [H1 H2]
    by (eapply open_ok_thread; [exact Hi| |done]; by left).
  split; [done|]. intros i2 t2 [Hi2|[_ [_ <-]%list_lookup_singleton_Some]]%lookup_app_Some;
    [by eapply H2|done].
Qed.

Lemma receiver_step_open_ok w w' : receiver_step w = Some w' → open_ok w → open_ok w'.
Proof.
  intros He Hok. unfold receiver_step in He. destruct (w_pc w); simplify_eq;
    try (by eapply (open_ok_same w)).
  - destruct (i =? _); simplify_eq; [by eapply (open_ok_same w)|].
    apply bind_Some in He as (c & Hc & He). simplify_eq. by eapply (open_ok_same w).
  - apply bind_Some in He as (c & Hc & He).
    destruct (w_locks w !! N.to_nat j) as [[h|]|]; simplify_eq; by eapply (open_ok_same w).
  - apply bind_Some in He as (c & Hc & He). simplify_eq; by eapply (open_ok_same w).
  - destruct (buffer (w_receiver w)); simplify_eq; by eapply (open_ok_same w).
  - eapply (open_ok_same w); try done; unfold poll_value, decrement_size; simpl;
      by destruct (w_batch w), (capacity (w_shared w) =? max_u64).
  - eapply (open_ok_same w); try done. simpl. by destruct (capacity (w_shared w) =? max_u64).
Qed.

Lemma exec_open_ok l w w' : exec l w = Some w' → open_ok w → open_ok w'.
Proof.
  intros He Hok. destruct l as [i vs|i|i|i|b k| | |]; simpl in He.
  1-3: apply bind_Some in He as (t & Hi & He); destruct (th_pc t); simplify_eq;
    eapply open_ok_thread; [exact Hi| |done]; by left.
  - apply bind_Some in He as (t & Hi & He). by eapply sender_step_open_ok.
  - destruct (w_pc w); simplify_eq. eapply (open_ok_same w); try done;
      unfold start_poll; by destruct (buffer (w_receiver w)).
  - by eapply receiver_step_open_ok.
  - destruct (w_pc w); simplify_eq. destruct (buffer (w_receiver w)); simplify_eq.
    by eapply (open_ok_same w).
  - destruct (w_pc w); simplify_eq. eapply (open_ok_same w); try done. simpl.
    unfold drain_drop. by if_cases.
Qed.

Lemma reachable_open_ok allowed within w : reachable allowed within w → open_ok w.
Proof.
  induction 1 as [cap conc k w _ _ Hs _|l w w' _ IH _ He _]; [|by eapply exec_open_ok].
  unfold start, channel_with_capacity_and_concurrency, sender_new, choose_chute in Hs.
  destruct (_ =? 0); simplify_eq. simpl in Hs. simplify_eq.
  split; [done|]. by intros i t [-> <-]%list_lookup_singleton_Some.
Qed.
End never_closed.

(** ** The theorems about the channel under interleaving *)

Module Concurrent.
Import WakerCell.

(** Schedules for the examples: a thread runs [n] of its steps, the receiver too. *)
Definition sender_runs (i : nat) (n : nat) : list (Label nat nat) := replicate n (LSender i).
Definition receiver_runs (n : nat) : list (Label nat nat) := replicate n LReceiver.

(** Two senders on two lanes: the receiver takes the first one's value, whose
    second value enters the lane right behind it, with the second one's batch
    in the other lane. *)
Definition two_senders : list (Label nat nat) :=
  [LSend 0 [1%nat]] ++ sender_runs 0 6 ++ [LClone 0] ++ sender_runs 0 2 ++
  [LSend 1 [10%nat; 11%nat]] ++ sender_runs 1 4 ++ [LPoll false 0%nat] ++
  receiver_runs 2 ++ [LSend 0 [2%nat]] ++ sender_runs 0 2 ++ receiver_runs 2 ++
  sender_runs 0 3 ++ receiver_runs 2.

(** A receiver that parks while a sender is between its push and its wake. *)
Definition parks : list (Label nat nat) :=
  [LPoll false 0%nat] ++ receiver_runs 3 ++ [LSend 0 [1%nat]] ++ sender_runs 0 3 ++
  receiver_runs 5.

(** The last handle goes away, with its value, between the receiver's scan of
    the lanes and its look at the number of senders. *)
Definition late_value : list (Label nat nat) :=
  [LPoll false 0%nat] ++ receiver_runs 7 ++ [LSend 0 [7%nat]] ++ sender_runs 0 6 ++
  [LDrop 0] ++ sender_runs 0 2 ++ receiver_runs 1.

(** A batch poll gives its first value back to the count after another sender
    has used the room. *)
Definition batch_overshoot : list (Label nat nat) :=
  [LSend 0 [1%nat]] ++ sender_runs 0 6 ++ [LPoll true 0%nat] ++ receiver_runs 6 ++
  [LSend 0 [2%nat]] ++ sender_runs 0 5 ++ receiver_runs 1.

(** An empty batch flags its lane dirty and leaves it empty. *)
Definition empty_batch : list (Label nat nat) :=
  [LSend 0 []] ++ sender_runs 0 6 ++ [LPoll false 0%nat] ++ receiver_runs 5.

(** A thread between its push and the end of its call, which may still wake. *)
Definition waking {T} (p : SenderPc T) : bool :=
  match p with SDirty | SWake | SDropWake => true | _ => false end.

Section claims.
Context {W K T : Type} `{AtomicWakerLaws W K} `{EqDecision K}.
Implicit Types w : World W K T.

(** C10: under every interleaving of senders and receiver, nothing is lost,
    duplicated or reordered within a sender: what a thread got accepted is, in
    order, what was handed out, what the receiver holds, and what is left in the
    thread's own lane; and everything handed out was sent by some thread. *)
Theorem fifo_per_sender w (Hr : reachable nonempty_batch few_threads w) :
  Forall (λ p, is_Some (w_threads w !! p.1)) (w_received w) ∧
  ∀ i t, w_threads w !! i = Some t →
    ∃ c, chutes (w_shared w) !! N.to_nat (th_chute t) = Some c ∧
      th_sent t = from_sender i (w_received w)
                  ++ from_sender i (hand (w_pc w) ++ buffer (w_receiver w))
                  ++ from_sender i (queue c).
Proof.
  destruct (sys_lanes _ (reachable_system_ok _ Hr)) as [_ Hflow Hsent]. simpl in *. split.
  - apply Forall_app in Hflow as [Hf _]. eapply Forall_impl; [exact Hf|].
    intros p Hp. simpl in Hp. by rewrite list_lookup_fmap, fmap_is_Some in Hp.
  - intros i t Hi. destruct (Hsent i (th_chute t) (th_sent t)) as (q & Hq & ->).
    { by rewrite list_lookup_fmap, Hi. }
    rewrite list_lookup_fmap in Hq. apply fmap_Some in Hq as (c & Hc & ->).
    exists c. split; [done|]. by rewrite from_sender_app, <-app_assoc.
Qed.

(** C14: no wakeup is lost: whenever the receiver's task is parked (its last poll
    returned [Pending]), either its task has been notified since, or a thread
    is at the steps that wake it and can run, or there is nothing to receive and
    a handle is still alive. *)
Theorem no_lost_wakeup w (Hr : reachable nonempty_batch few_threads w) (Hp : parked w) :
  w_notified w = true
  ∨ (∃ i t, w_threads w !! i = Some t ∧ waking (th_pc t) = true ∧
            is_Some (exec (LSender i) w))
  ∨ (buffer (w_receiver w) = [] ∧ 0 < handles w ∧
     ∀ j c, chutes (w_shared w) !! j = Some c → queue c = []).
Proof.
  destruct (reachable_system_ok _ Hr) as [[Hl _ [Hn Hlt] Hcu] _ Hco _ [_ Hsc Hse] Hpk].
  assert (∀ i t, w_threads w !! i = Some t → waking (th_pc t) = true →
            is_Some (exec (LSender i) w)) as Hrun.
  { intros i t Hi Hw. simpl. rewrite Hi. simpl. unfold sender_step.
    destruct (lookup_lt_is_Some_2 (chutes (w_shared w)) (N.to_nat (th_chute t))) as [c Hc];
      [by eapply li_chute|].
    destruct (th_pc t); try done; rewrite ?Hc; try by eexists. }
  assert (wake_coming w → w_notified w = true ∨
            ∃ i t, w_threads w !! i = Some t ∧ waking (th_pc t) = true ∧
                   is_Some (exec (LSender i) w)) as Hcoming.
  { intros [Hnt|(i & t & Hi & Ht)]; [by left|right]. exists i, t.
    assert (waking (th_pc t) = true) by (by destruct (th_pc t)). split_and!; eauto. }
  destruct (decide (Exists (λ t, waking (th_pc t) = true) (w_threads w))) as [Hex|Hnex].
  { right. left. apply Exists_exists in Hex as (t & Ht & Hw).
    apply list_elem_of_lookup_1 in Ht as [i Hi]. exists i, t. split_and!; eauto. }
  destruct (Hse Hp) as [Hc|Hs]; [by destruct (Hcoming Hc) as [|]; [left|right; left]|].
  destruct (Hsc (len (chutes (w_shared w)))) as [Hc|Hscan].
  { unfold scan_so_far. by destruct Hp as [-> ->]. }
  { by destruct (Hcoming Hc) as [|]; [left|right; left]. }
  right. right. split_and!; [by apply Hpk| |].
  { destruct (N.eq_dec (handles w) 0) as [Hz|]; [|lia].
    rewrite (co_senders _ Hco), Hz in Hs. done. }
  intros j c Hj.
  destruct (scan_covers (cursor (w_receiver w)) (len (chutes (w_shared w))) (N.of_nat j))
    as (m & Hm & Hmj); [done..|apply lookup_lt_Some in Hj; unfold len; lia|].
  assert (clean c = true) as Hcl.
  { apply (Hscan m c Hm). by rewrite Hmj, Nat2N.id. }
  pose proof (li_lane _ _ _ _ _ Hl _ _ Hj) as Hlane. unfold lane_ok in Hlane.
  destruct (w_locks w !! j) as [[[i|]|]|]; [| |by apply Hlane|done].
  - destruct Hlane as (t & Hi & _ & Hph). destruct (th_pc t) eqn:Hpc; try done.
    + destruct Hnex. apply Exists_exists. exists t. rewrite Hpc. split; [|done].
      by eapply list_elem_of_lookup_2.
    + destruct Hph as [_ ?]. congruence.
    + destruct Hph as [_ ?]. congruence.
  - destruct Hp as [Hp _]. by rewrite Hp in Hlane.
Qed.

(** C40: the capacity bounds what is in flight: never more than the capacity when
    values are taken one by one, never more than one above it when batches are
    taken too. *)
Theorem capacity_bound (batches : bool) w
  (Hr : reachable (λ l, if batches then True else single_polls l) bounded w) :
  in_flight w ≤ capacity (w_shared w) + (if batches then 1 else 0).
Proof.
  apply in_flight_le, reachable_size_ok; [by destruct batches|].
  eapply reachable_mono; [|exact Hr]. by destruct batches.
Qed.

(** C38: with non-empty batches the [expect] of the receiver never fails and
    nothing deadlocks: every call in progress can take its next step, or waits
    for a lane whose holder can take its next step. *)
Theorem no_panic_no_deadlock w (Hr : reachable nonempty_batch few_threads w) :
  w_pc w ≠ RPanicked ∧
  (∀ i t, w_threads w !! i = Some t → th_pc t ≠ SIdle → th_pc t ≠ SDropped →
     is_Some (exec (LSender i) w) ∨
     ∃ h, w_locks w !! N.to_nat (th_chute t) = Some (Some h) ∧
       is_Some (exec (match h with HSender i' => LSender i' | HReceiver => LReceiver end) w)) ∧
  (w_pc w ≠ RIdle → (∀ d, w_pc w ≠ RDraining d) →
     is_Some (exec LReceiver w) ∨
     ∃ j i, w_locks w !! j = Some (Some (HSender i)) ∧ is_Some (exec (LSender i) w)).
Proof.
  pose proof (reachable_system_ok _ Hr) as Hsys.
  pose proof Hsys as [[Hl _ [Hn Hlt] Hcu] _ _ _ _ _].
  pose proof (li_receiver _ _ _ _ _ Hl) as Hre. split_and!.
  - intros Hp. by rewrite Hp in Hre.
  - intros i t Hi Hne1 Hne2. by eapply sender_goes_on.
  - intros Hne1 Hne2. by apply receiver_goes_on.
Qed.

(** The end is only reported when no handle is left: after [Ready(None)]
    every sender thread has dropped its handle. *)
Theorem end_means_no_senders w (Hr : reachable nonempty_batch few_threads w)
  (He : w_last w = Some (Ready None)) :
  ∀ i t, w_threads w !! i = Some t → th_pc t = SDropWake ∨ th_pc t = SDropped.
Proof.
  intros i t Hi. pose proof (co_end _ (sys_count _ (reachable_system_ok _ Hr)) He) as Hz.
  pose proof (proj1 (sum_by_zero weight _) Hz _ _ Hi) as Ht.
  unfold weight in Ht. destruct (th_pc t); eauto; done.
Qed.

(** [Error::Closed] is never returned, dropped receiver or not: no operation
    of the code sets the [dead] flag that it depends on. *)
Theorem closed_never_returned w (allowed : Label K T → Prop) (within : World W K T → Prop)
  (Hr : reachable allowed within w) :
  dead (w_shared w) = false ∧
  ∀ i t vs, w_threads w !! i = Some t → Err (Closed vs) ∉ th_results t.
Proof.
  destruct (reachable_open_ok _ _ _ Hr) as [Hd Hres]. split; [done|].
  intros i t vs Hi Hin. pose proof (Hres _ _ Hi) as Hf. rewrite Forall_forall in Hf.
  exact (Hf _ Hin).
Qed.
End claims.

(** A value can outlive the end: the receiver may be told [Ready(None)]
    while a value that a sender got accepted is still in its lane, because the
    senders are counted after the lanes have been scanned. *)
Theorem end_before_last_value :
  ∃ w : World (option nat) nat nat, reachable nonempty_batch few_threads w ∧
    w_last w = Some (Ready None) ∧ w_received w = [] ∧ in_flight w = 1 ∧
    th_results <$> w_threads w = [[Ok tt]].
Proof.
  eexists. split.
  { eapply (run_from_reachable _ _ nonempty_batchb few_threadsb 8 2 0%nat late_value);
      [exact nonempty_batchb_sound|exact few_threadsb_sound|done|done|vm_compute; reflexivity]. }
  vm_compute. done.
Qed.

(** The one above the capacity is reached: with a batch poll in progress a
    channel of capacity 1 can hold two values. *)
Theorem capacity_overshoot :
  ∃ w : World (option nat) nat nat, reachable (λ _, True) bounded w ∧
    capacity (w_shared w) = 1 ∧ in_flight w = 2.
Proof.
  eexists. split.
  { eapply (run_from_reachable _ _ any_label boundedb 1 1 0%nat batch_overshoot);
      [done|exact boundedb_sound|done|done|vm_compute; reflexivity]. }
  vm_compute. done.
Qed.

(** Sending an empty batch to an empty lane makes the receiver's next poll
    panic. *)
Theorem empty_batch_panics :
  ∃ w : World (option nat) nat nat, reachable (λ _, True) few_threads w ∧
    w_pc w = RPanicked.
Proof.
  eexists. split.
  { eapply (run_from_reachable _ _ any_label few_threadsb 8 2 0%nat empty_batch);
      [done|exact few_threadsb_sound|done|done|vm_compute; reflexivity]. }
  vm_compute. done.
Qed.

(** ** Witnesses *)

Lemma fifo_per_sender_witness :
  ∃ w : World (option nat) nat nat,
    run_from nonempty_batchb few_threadsb 8 2 0%nat two_senders = Some w ∧
    w_received w = [(0%nat, 1%nat)] ∧ (th_sent <$> w_threads w !! 0%nat) = Some [1%nat; 2%nat] ∧
    ∀ i t, w_threads w !! i = Some t →
    ∃ c, chutes (w_shared w) !! N.to_nat (th_chute t) = Some c ∧
      th_sent t = from_sender i (w_received w)
                  ++ from_sender i (hand (w_pc w) ++ buffer (w_receiver w))
                  ++ from_sender i (queue c).
Proof.
  eexists. split; [vm_compute; reflexivity|]. split; [reflexivity|]. split; [reflexivity|].
  apply fifo_per_sender.
  eapply (run_from_reachable _ _ nonempty_batchb few_threadsb 8 2 0%nat two_senders);
    [exact nonempty_batchb_sound|exact few_threadsb_sound|done|done|vm_compute; reflexivity].
Defined.

Lemma no_lost_wakeup_witness :
  ∃ w : World (option nat) nat nat,
    run_from nonempty_batchb few_threadsb 8 2 0%nat parks = Some w ∧
    w_notified w = false ∧ in_flight w = 1 ∧
    (w_notified w = true
     ∨ (∃ i t, w_threads w !! i = Some t ∧ waking (th_pc t) = true ∧
               is_Some (exec (LSender i) w))
     ∨ (buffer (w_receiver w) = [] ∧ 0 < handles w ∧
        ∀ j c, chutes (w_shared w) !! j = Some c → queue c = [])).
Proof.
  eexists. split; [vm_compute; reflexivity|]. split; [reflexivity|]. split; [reflexivity|].
  apply no_lost_wakeup.
  - eapply (run_from_reachable _ _ nonempty_batchb few_threadsb 8 2 0%nat parks);
      [exact nonempty_batchb_sound|exact few_threadsb_sound|done|done|vm_compute; reflexivity].
  - split; reflexivity.
Defined.

Lemma capacity_bound_witness :
  ∃ w : World (option nat) nat nat,
    run_from single_pollsb boundedb 4 2 0%nat two_senders = Some w ∧
    in_flight w = 3 ∧ in_flight w ≤ 4 + 0.
Proof.
  eexists. split; [vm_compute; reflexivity|]. split; [reflexivity|].
  apply (capacity_bound false).
  eapply (run_from_reachable _ _ single_pollsb boundedb 4 2 0%nat two_senders);
    [exact single_pollsb_sound|exact boundedb_sound|done|done|vm_compute; reflexivity].
Defined.

Lemma no_panic_no_deadlock_witness :
  ∃ w : World (option nat) nat nat,
    run_from nonempty_batchb few_threadsb 8 2 0%nat (take 24 two_senders) = Some w ∧
    w_pc w ≠ RIdle ∧ (∀ d, w_pc w ≠ RDraining d) ∧
    (is_Some (exec LReceiver w) ∨
     ∃ j i, w_locks w !! j = Some (Some (HSender i)) ∧ is_Some (exec (LSender i) w)).
Proof.
  eexists. split; [vm_compute; reflexivity|]. split; [done|]. split; [done|].
  apply no_panic_no_deadlock; [|done..].
  eapply (run_from_reachable _ _ nonempty_batchb few_threadsb 8 2 0%nat (take 24 two_senders));
    [exact nonempty_batchb_sound|exact few_threadsb_sound|done|done|vm_compute; reflexivity].
Defined.

Lemma end_means_no_senders_witness :
  ∃ w : World (option nat) nat nat,
    run_from nonempty_batchb few_threadsb 8 2 0%nat late_value = Some w ∧
    w_last w = Some (Ready None) ∧
    ∀ i t, w_threads w !! i = Some t → th_pc t = SDropWake ∨ th_pc t = SDropped.
Proof.
  eexists. split; [vm_compute; reflexivity|]. split; [reflexivity|].
  apply end_means_no_senders; [|reflexivity].
  eapply (run_from_reachable _ _ nonempty_batchb few_threadsb 8 2 0%nat late_value);
    [exact nonempty_batchb_sound|exact few_threadsb_sound|done|done|vm_compute; reflexivity].
Defined.

Lemma closed_never_returned_witness :
  ∃ w : World (option nat) nat nat,
    run_from any_label boundedb 1 1 0%nat batch_overshoot = Some w ∧
    length (w_threads w) = 1%nat ∧
    ∀ i t vs, w_threads w !! i = Some t → Err (Closed vs) ∉ th_results t.
Proof.
  eexists. split; [vm_compute; reflexivity|]. split; [reflexivity|].
  apply (closed_never_returned _ (λ _, True) bounded).
  eapply (run_from_reachable _ _ any_label boundedb 1 1 0%nat batch_overshoot);
    [done|exact boundedb_sound|done|done|vm_compute; reflexivity].
Defined.
End Concurrent.
