(* ===== verification/Encoding.v ===== *)
(** * Codecs, buffers and the send budget

    [protosocket-connection/src/{encoding,pooled_encoder,error,send_budget,
    message_reactor}.rs].  The traits of the crate are type classes; the two
    buffer types and the pooled encoder are instances whose laws are proved
    here, and the connection is proved against the classes. *)

From S2P Require Import Prelude.
Local Open Scope N_scope.
Local Open Scope run_scope.

Abbreviation bytes := (list u8) (only parsing).

(** ** Buffers *)

(** [bytes::Buf], a library trait: what the crate uses of it. *)
Class Buf (B : Type) := {
  remaining : B → usize;
  chunk : B → bytes;
  advance : B → usize → run B;
  chunks_vectored : B → nat → list bytes;
}.

(** Its documentation, over the bytes [buf_unread] that are left to read:
    [advance] moves forward within them, and [chunks_vectored] fills at most
    the given number of slices from the current position, at least one when
    there is room for one and something to read. *)
Class BufLaws (B : Type) `{Buf B} := {
  buf_ok : B → Prop;
  buf_unread : B → bytes;
  buf_remaining b : buf_ok b → remaining b = len (buf_unread b);
  buf_len b : buf_ok b → len (buf_unread b) < 2 ^ 63;
  buf_advance b n : buf_ok b → n ≤ remaining b →
    ∃ b', advance b n = Return b' ∧ buf_ok b' ∧ buf_unread b' = drop (N.to_nat n) (buf_unread b);
  buf_chunks_le b k : buf_ok b → (length (chunks_vectored b k) ≤ k)%nat;
  buf_chunks_prefix b k : buf_ok b → concat (chunks_vectored b k) `prefix_of` buf_unread b;
  buf_chunks_some b k : buf_ok b → k ≠ 0%nat → buf_unread b ≠ [] →
    concat (chunks_vectored b k) ≠ [];
  buf_chunks_none b k : buf_ok b → buf_unread b = [] → chunks_vectored b k = [];
}.

(** Beyond the documentation: whenever [chunks_vectored] leaves slots unused, it
    has presented everything that is left to read. *)
Class BufWhole (B : Type) `{BufLaws B} : Prop :=
  buf_chunks_all b k : buf_ok b → (length (chunks_vectored b k) < k)%nat →
    concat (chunks_vectored b k) = buf_unread b.

(** [OwnedBuffer]. *)
Record OwnedBuffer := mkOwnedBuffer {
  owned_buffer : bytes;
  owned_cursor : usize;
}.

Definition owned_new (buffer : bytes) : OwnedBuffer := mkOwnedBuffer buffer 0.

Definition owned_remaining (b : OwnedBuffer) : usize :=
  usize_sub (len (owned_buffer b)) (owned_cursor b).

Definition owned_chunk (b : OwnedBuffer) : bytes :=
  drop (N.to_nat (owned_cursor b)) (owned_buffer b).

Definition owned_advance (b : OwnedBuffer) (cnt : usize) : run OwnedBuffer :=
  if usize_add (owned_cursor b) cnt <=? len (owned_buffer b)
  then Return (mkOwnedBuffer (owned_buffer b) (usize_add (owned_cursor b) cnt))
  else Panic.

(** The trait's default [chunks_vectored], for [OwnedBuffer]. *)
#[export] Instance owned_buf : Buf OwnedBuffer := {|
  remaining := owned_remaining;
  chunk := owned_chunk;
  advance := owned_advance;
  chunks_vectored b k :=
    match k with
    | O => []
    | S _ => if 0 <? owned_remaining b then [owned_chunk b] else []
    end;
|}.

(** [Reusable]. *)
Record Reusable := mkReusable {
  reusable_inner : bytes;
  reusable_cursor : usize;
}.

Definition reusable_new (buffer : bytes) : Reusable := mkReusable buffer 0.

Definition reusable_remaining (b : Reusable) : usize :=
  usize_sub (len (reusable_inner b)) (reusable_cursor b).

Definition reusable_chunk (b : Reusable) : bytes :=
  drop (N.to_nat (reusable_cursor b)) (reusable_inner b).

Definition reusable_advance (b : Reusable) (cnt : usize) : run Reusable :=
  if usize_add (reusable_cursor b) cnt <=? len (reusable_inner b)
  then Return (mkReusable (reusable_inner b) (usize_add (reusable_cursor b) cnt))
  else Panic.

Definition reusable_chunks_vectored (b : Reusable) (dst : nat) : list bytes :=
  if (dst =? 0)%nat || (reusable_cursor b =? len (reusable_inner b))
  then [] else [reusable_chunk b].

Definition reusable_has_remaining (b : Reusable) : bool :=
  negb (len (reusable_inner b) =? reusable_cursor b).

#[export] Instance reusable_buf : Buf Reusable := {|
  remaining := reusable_remaining;
  chunk := reusable_chunk;
  advance := reusable_advance;
  chunks_vectored := reusable_chunks_vectored;
|}.

(** ** Errors of a decoder ([error.rs]) *)

Inductive DeserializeError :=
| IncompleteBuffer (next_message_size : usize)
| InvalidBuffer
| SkipMessage (distance : usize).

(** ** Codecs *)

Class Encoder (E M B : Type) := {
  encode : E → M → B * E;
  return_buffer : E → B → E;
}.

Class Decoder (D M : Type) := {
  decode : D → bytes → result (usize * M) DeserializeError * D;
}.

Class Serialize (S M : Type) := {
  serialize_into_buffer : S → M → bytes → bytes * S;
}.

(** [impl<T: Serialize> Encoder for T]: a fresh vector for each message. *)
Definition raw_encode {S M} `{Serialize S M} (s : S) (message : M) : OwnedBuffer * S :=
  let '(buffer, s') := serialize_into_buffer s message [] in (owned_new buffer, s').

#[export] Instance serialize_encoder {S M} `{Serialize S M} : Encoder S M OwnedBuffer := {|
  encode := raw_encode;
  return_buffer s _ := s;
|}.

(** [impl Encoder for (E, D)] and [impl Decoder for (E, D)]. *)
#[export] Instance pair_encoder {E D M B} `{Encoder E M B} : Encoder (E * D) M B := {|
  encode ed message := let '(b, e) := encode ed.1 message in (b, (e, ed.2));
  return_buffer ed buffer := (return_buffer ed.1 buffer, ed.2);
|}.

#[export] Instance pair_decoder {E D M} `{Decoder D M} : Decoder (E * D) M := {|
  decode ed buffer := let '(res, d) := decode ed.2 buffer in (res, (ed.1, d));
|}.

(** ** The pooled encoder ([pooled_encoder.rs]) *)

Record PooledEncoder (S : Type) := mkPooledEncoder {
  pooled_serializer : S;
  buffer_pool : list bytes;
  max_pooled : usize;
}.
Arguments mkPooledEncoder {S} _ _ _.
Arguments pooled_serializer {S} _.
Arguments buffer_pool {S} _.
Arguments max_pooled {S} _.

Section pooled.
Context {S M : Type} `{Serialize S M}.
Implicit Types p : PooledEncoder S.

Definition new_with_pool_size (pool_size : usize) (serializer : S) : PooledEncoder S :=
  mkPooledEncoder serializer [] pool_size.

Definition pooled_new (serializer : S) : PooledEncoder S := new_with_pool_size 8 serializer.

(** [Vec::pop]: the last element. *)
Definition vec_pop {A} (l : list A) : option (A * list A) :=
  match reverse l with
  | [] => None
  | x :: rest => Some (x, reverse rest)
  end.

Definition pooled_encode p (message : M) : Reusable * PooledEncoder S :=
  let '(buffer, pool) := default ([], []) (vec_pop (buffer_pool p)) in
  let '(buffer, s') := serialize_into_buffer (pooled_serializer p) message buffer in
  (reusable_new buffer, mkPooledEncoder s' pool (max_pooled p)).

Definition pooled_return_buffer p (buffer : Reusable) : PooledEncoder S :=
  if len (buffer_pool p) <? max_pooled p
  then mkPooledEncoder (pooled_serializer p)
         (buffer_pool p ++ [take 0 (reusable_inner buffer)]) (max_pooled p)
  else p.

#[export] Instance pooled_encoder : Encoder (PooledEncoder S) M Reusable := {|
  encode := pooled_encode;
  return_buffer := pooled_return_buffer;
|}.
End pooled.

(** ** The send budget ([send_budget.rs]) *)

Record SendBudget (E B : Type) := mkSendBudget {
  budget_encoder : E;
  budget_send_buffer : list B;
  budget_remaining : usize;
}.
Arguments mkSendBudget {E B} _ _ _.
Arguments budget_encoder {E B} _.
Arguments budget_send_buffer {E B} _.
Arguments budget_remaining {E B} _.

(** A permit borrows the budget it came from. *)
Record SendPermit (E B : Type) := mkSendPermit { permit_budget : SendBudget E B }.
Arguments mkSendPermit {E B} _.
Arguments permit_budget {E B} _.

Section budget.
Context {E M B : Type} `{Encoder E M B}.

Definition reserve (b : SendBudget E B) : option (SendPermit E B) :=
  if budget_remaining b =? 0 then None else Some (mkSendPermit b).

(** [SendPermit::send]: the budget that the permit borrowed comes back. *)
Definition permit_send (p : SendPermit E B) (message : M) : SendBudget E B :=
  let b := permit_budget p in
  let remaining := usize_sub (budget_remaining b) 1 in
  let '(buffer, e) := encode (budget_encoder b) message in
  mkSendBudget e (budget_send_buffer b ++ [buffer]) remaining.

(** What a holder of a [&mut SendBudget] can do: its fields are private, so it
    can only reserve and send, here the messages [ms] in order. *)
Inductive budget_uses : SendBudget E B → list M → SendBudget E B → Prop :=
| uses_nothing b : budget_uses b [] b
| uses_permit b p m ms b' :
    reserve b = Some p → budget_uses (permit_send p m) ms b' →
    budget_uses b (m :: ms) b'.
End budget.

(** ** Reactors ([message_reactor.rs]) *)

Inductive ReactorStatus := StatusContinue | StatusDisconnect.

#[export] Instance ReactorStatus_eq_dec : EqDecision ReactorStatus.
Proof. solve_decision. Defined.

(** [MessageReactor]; [C] is its codec, [K] the waker of the context. *)
Class MessageReactor (R K C B In Out L : Type) := {
  on_inbound_message : R → In → ReactorStatus * R;
  reactor_poll : R → K → ControlFlow * R;
  on_outbound_message : R → L → Out * R;
  poll_outbound_many : R → K → SendBudget C B → Poll (option unit) * R * SendBudget C B;
}.

(** A reactor sees the budget through its methods only. *)
Class MessageReactorLaws (R K C B In Out L : Type)
  `{Encoder C Out B} `{MR : MessageReactor R K C B In Out L} := {
  poll_outbound_many_uses (r : R) (k : K) (b : SendBudget C B) :
    budget_remaining b < 2 ^ 64 → ∃ ms, budget_uses b ms (poll_outbound_many r k b).2;
}.

(** The provided methods of the trait. *)
Definition reactor_poll_default {R K} (r : R) (_ : K) : ControlFlow * R := (Continue, r).
Definition poll_outbound_many_default {R K C B} (r : R) (_ : K) (b : SendBudget C B)
  : Poll (option unit) * R * SendBudget C B := (Ready None, r, b).

(** ** Buffer laws *)

(** Both buffers are a vector and a cursor into it; a vector holds at most
    [isize::MAX] bytes. *)
Definition cursor_ok (inner : bytes) (cursor : usize) : Prop :=
  cursor ≤ len inner ∧ len inner < 2 ^ 63.

Lemma len_drop {A} (l : list A) n : len (drop (N.to_nat n) l) = len l - n.
Proof. unfold len. rewrite length_drop. lia. Qed.

Lemma len_take {A} (l : list A) n : len (take (N.to_nat n) l) = N.min n (len l).
Proof. unfold len. rewrite length_take. lia. Qed.

Lemma cursor_remaining inner cursor :
  cursor_ok inner cursor → usize_sub (len inner) cursor = len (drop (N.to_nat cursor) inner).
Proof. intros [Hc Hl]. rewrite len_drop, wsub_small; lia. Qed.

Lemma cursor_advance inner cursor n :
  cursor_ok inner cursor → n ≤ len (drop (N.to_nat cursor) inner) →
  usize_add cursor n = cursor + n ∧ cursor + n ≤ len inner ∧
  drop (N.to_nat (cursor + n)) inner = drop (N.to_nat n) (drop (N.to_nat cursor) inner).
Proof.
  intros [Hc Hl]. rewrite len_drop. intros Hn. rewrite wadd_small by lia.
  split_and!; [done|lia|]. rewrite drop_drop. f_equal. lia.
Qed.

Lemma cursor_empty inner cursor :
  cursor_ok inner cursor → drop (N.to_nat cursor) inner = [] ↔ cursor = len inner.
Proof.
  intros [Hc Hl]. rewrite <-len_zero, len_drop. lia.
Qed.

#[export] Instance owned_laws : BufLaws OwnedBuffer.
Proof.
  refine {| buf_ok b := cursor_ok (owned_buffer b) (owned_cursor b);
            buf_unread := owned_chunk |}; intros [inner c]; simpl.
  - apply cursor_remaining.
  - intros [Hc Hl]. unfold owned_chunk. rewrite len_drop. simpl. lia.
  - intros n Hok Hn. unfold owned_remaining in Hn. simpl in Hn.
    rewrite cursor_remaining in Hn by done.
    destruct (cursor_advance inner c n Hok Hn) as (He & Hle & Hd).
    unfold owned_advance. simpl. rewrite He, (proj2 (N.leb_le _ _) Hle).
    eexists. split_and!; [done| |done]. split; [done|]. apply Hok.
  - intros [|k] Hok; simpl; if_cases; simpl; lia.
  - intros [|k] Hok; simpl; if_cases; simpl; rewrite ?app_nil_r;
      first [apply prefix_nil|done].
  - intros [|k] Hok Hk Hne; [done|]. unfold owned_remaining. simpl.
    rewrite cursor_remaining by done. unfold owned_chunk in *. simpl in *.
    destruct (N.ltb_spec 0 (len (drop (N.to_nat c) inner))) as [|Hz].
    + simpl. by rewrite app_nil_r.
    + destruct Hne. apply len_zero. lia.
  - intros [|k] Hok He; [done|]. unfold owned_remaining. simpl.
    rewrite cursor_remaining by done. unfold owned_chunk in He. simpl in He. by rewrite He.
Defined.

#[export] Instance reusable_laws : BufLaws Reusable.
Proof.
  refine {| buf_ok b := cursor_ok (reusable_inner b) (reusable_cursor b);
            buf_unread := reusable_chunk |}; intros [inner c]; simpl.
  - apply cursor_remaining.
  - intros [Hc Hl]. unfold reusable_chunk. rewrite len_drop. simpl. lia.
  - intros n Hok Hn. unfold reusable_remaining in Hn. simpl in Hn.
    rewrite cursor_remaining in Hn by done.
    destruct (cursor_advance inner c n Hok Hn) as (He & Hle & Hd).
    unfold reusable_advance. simpl. rewrite He, (proj2 (N.leb_le _ _) Hle).
    eexists. split_and!; [done| |done]. split; [done|]. apply Hok.
  - intros k Hok. unfold reusable_chunks_vectored. simpl.
    destruct (Nat.eqb_spec k 0), (c =? len inner); simpl; lia.
  - intros k Hok. unfold reusable_chunks_vectored.
    case_match; simpl; rewrite ?app_nil_r; [apply prefix_nil|done].
  - intros k Hok Hk Hne. unfold reusable_chunks_vectored, reusable_chunk in *. simpl in *.
    apply Nat.eqb_neq in Hk as ->. simpl.
    destruct (N.eqb_spec c (len inner)) as [Hc|Hc]; simpl.
    + destruct Hne. by apply cursor_empty.
    + by rewrite app_nil_r.
  - intros k Hok He. unfold reusable_chunks_vectored, reusable_chunk in *. simpl in *.
    apply cursor_empty in He as ->; [|done]. rewrite N.eqb_refl. by rewrite orb_true_r.
Defined.

#[export] Instance owned_whole : BufWhole OwnedBuffer.
Proof.
  intros [inner c] [|k] Hok Hlt; simpl in *; [lia|]. unfold owned_remaining. simpl.
  rewrite cursor_remaining by done. unfold owned_chunk. simpl.
  destruct (N.ltb_spec 0 (len (drop (N.to_nat c) inner))) as [|Hz]; simpl.
  - by rewrite app_nil_r.
  - symmetry. apply len_zero. lia.
Qed.

#[export] Instance reusable_whole : BufWhole Reusable.
Proof.
  intros [inner c] k Hok Hlt. simpl in *. unfold reusable_chunks_vectored, reusable_chunk in *.
  simpl in *. destruct (Nat.eqb_spec k 0); [lia|].
  destruct (N.eqb_spec c (len inner)) as [Hc|]; simpl; [|by rewrite app_nil_r].
  symmetry. by apply cursor_empty.
Qed.

(** ** What codecs promise to the connection *)

(** A serializer writes a message's bytes into an empty vector, the same bytes
    whatever it wrote before. *)
Class SerializeLaws (S M : Type) `{Serialize S M} := {
  serialized : M → bytes;
  serialize_empty s m : (serialize_into_buffer s m []).1 = serialized m;
  serialized_len m : len (serialized m) < 2 ^ 63;
}.

(** An encoder presents a message's bytes on the wire in each buffer it makes,
    whatever buffers came back to it. *)
Class EncoderLaws (E M B : Type) `{Encoder E M B} `{BufLaws B} := {
  wire : M → bytes;
  enc_ok : E → Prop;
  encode_ok e m : enc_ok e →
    enc_ok (encode e m).2 ∧ buf_ok (encode e m).1 ∧ buf_unread (encode e m).1 = wire m;
  return_ok e b : enc_ok e → enc_ok (return_buffer e b);
}.

(** A decoder for connections whose buffer holds [limit] bytes: [frame] says what
    the bytes at the front of the stream are, and more bytes do not change a message
    or a skip, although they may complete what was incomplete or mend an error; [dec_ok d u] says that the decoder's own state fits
    the unread bytes [u]. *)
Class DecoderLaws (D M : Type) (limit : usize) `{Decoder D M} := {
  frame : bytes → result (usize * M) DeserializeError;
  dec_ok : D → bytes → Prop;
  dec_ok_extend d u v : dec_ok d u → dec_ok d (u ++ v);
  decode_frame d u : dec_ok d u → u ≠ [] → len u < 2 ^ 63 →
    (decode d u).1 = frame u ∧
    match frame u with
    | Ok (n, _) => dec_ok (decode d u).2 (drop (N.to_nat n) u)
    | Err (IncompleteBuffer _) => dec_ok (decode d u).2 u
    | Err (SkipMessage n) =>
        dec_ok (decode d u).2 u ∧ dec_ok (decode d u).2 (drop (N.to_nat n) u)
    | Err InvalidBuffer => True
    end;
  frame_message u n m : frame u = Ok (n, m) → 0 < n ≤ len u;
  frame_incomplete u n : frame u = Err (IncompleteBuffer n) → n ≤ limit → len u < n;
  frame_skip u n : frame u = Err (SkipMessage n) → 0 < n ≤ limit;
  frame_extend u v r : u ≠ [] → frame u = r →
    (∀ n, r ≠ Err (IncompleteBuffer n)) → r ≠ Err InvalidBuffer → frame (u ++ v) = r;
}.

(** The two halves of a codec do not disturb each other. *)
Class CodecLaws (C In Out B : Type) (limit : usize)
  `{EncoderLaws C Out B} `{!Decoder C In} `{!DecoderLaws C In limit} := {
  encode_dec_ok c m u : dec_ok c u → dec_ok (encode c m).2 u;
  return_dec_ok c b u : dec_ok c u → dec_ok (return_buffer c b) u;
  decode_enc_ok c u : enc_ok c → enc_ok (decode c u).2;
}.

#[export] Instance pair_encoder_laws {E D M B} `{EncoderLaws E M B}
  : EncoderLaws (E * D) M B.
Proof.
  refine {| wire := wire; enc_ok ed := enc_ok (ed.1 : E) |}; intros [e d]; simpl.
  - intros m He. pose proof (encode_ok e m He) as Hok. by destruct (encode e m).
  - intros b He. by apply return_ok.
Defined.

#[export] Instance pair_decoder_laws {E D M} limit `{DecoderLaws D M limit}
  : DecoderLaws (E * D) M limit.
Proof.
  refine {| frame := frame; dec_ok ed := dec_ok (ed.2 : D) |}.
  - intros [e d]. apply dec_ok_extend.
  - intros [e d] u Hok Hne Hl. simpl. pose proof (decode_frame d u Hok Hne Hl) as Hf.
    by destruct (decode d u).
  - apply frame_message.
  - apply frame_incomplete.
  - apply frame_skip.
  - apply frame_extend.
Defined.

#[export] Instance pair_codec_laws {E D In Out B} limit `{EncoderLaws E Out B}
  `{DecoderLaws D In limit} : CodecLaws (E * D) In Out B limit.
Proof.
  split; intros [e d]; simpl.
  - intros m u Hd. by destruct (encode e m).
  - done.
  - intros u He. by destruct (decode d u).
Qed.

(** ** Encoders keep their promise *)

Section encoders.
Context {S M : Type} `{SerializeLaws S M}.

#[export] Instance serialize_encoder_laws : EncoderLaws S M OwnedBuffer.
Proof.
  refine {| wire := serialized; enc_ok := λ _, True |}; [|done].
  intros e m _. simpl. unfold raw_encode. pose proof (serialize_empty e m) as He.
  destruct (serialize_into_buffer e m []) as [b e']. simpl in *. subst b.
  split; [done|]. split; [|done]. split; [simpl; lia|apply serialized_len].
Defined.

(** The pool holds at most [max_pooled] vectors, all empty. *)
Definition pool_ok (p : PooledEncoder S) : Prop :=
  Forall (λ b, b = []) (buffer_pool p) ∧ len (buffer_pool p) ≤ max_pooled p.

Lemma vec_pop_Some {A} (l : list A) x rest : vec_pop l = Some (x, rest) → l = rest ++ [x].
Proof.
  unfold vec_pop. intros Hp. destruct (reverse l) as [|y l'] eqn:Hr; simplify_eq.
  rewrite <-(reverse_involutive l), Hr. apply reverse_cons.
Qed.

Lemma pooled_encode_fresh (p : PooledEncoder S) m :
  pool_ok p →
  ∃ pool, pooled_encode p m =
    (let '(b, s) := serialize_into_buffer (pooled_serializer p) m [] in
     (reusable_new b, mkPooledEncoder s pool (max_pooled p))) ∧
    Forall (λ b, b = []) pool ∧ len pool ≤ len (buffer_pool p).
Proof.
  intros [Hf Hl]. unfold pooled_encode.
  destruct (vec_pop (buffer_pool p)) as [[b pool]|] eqn:Hp; simpl.
  - apply vec_pop_Some in Hp. rewrite Hp in *.
    apply Forall_app in Hf as [Hf [-> _]%Forall_cons_1].
    exists pool. rewrite len_app. split_and!; [by destruct (serialize_into_buffer _ _ _)|done|lia].
  - exists []. split_and!; [by destruct (serialize_into_buffer _ _ _)|done|].
    unfold len. simpl. lia.
Qed.

Lemma pooled_return_ok (p : PooledEncoder S) b : pool_ok p → pool_ok (pooled_return_buffer p b).
Proof.
  intros [Hf Hl]. unfold pooled_return_buffer.
  destruct (N.ltb_spec (len (buffer_pool p)) (max_pooled p)); [|done].
  split; simpl; [apply Forall_app; split; [done|by repeat constructor]|]. rewrite len_app, len_cons, len_nil. lia.
Qed.

Lemma pooled_encode_ok (p : PooledEncoder S) m : pool_ok p → pool_ok (pooled_encode p m).2.
Proof.
  intros Hok. destruct (pooled_encode_fresh p m Hok) as (pool & He & Hf & Hl).
  rewrite He. destruct Hok as [_ Hm]. destruct (serialize_into_buffer _ _ _).
  split; simpl; [done|lia].
Qed.

#[export] Instance pooled_encoder_laws : EncoderLaws (PooledEncoder S) M Reusable.
Proof.
  refine {| wire := serialized; enc_ok := pool_ok |}; [|apply pooled_return_ok].
  intros p m Hok. split; [by apply pooled_encode_ok|]. simpl.
  destruct (pooled_encode_fresh p m Hok) as (pool & -> & _ & _).
  pose proof (serialize_empty (pooled_serializer p) m) as He.
  destruct (serialize_into_buffer _ _ _) as [b s']. simpl in *. subst b.
  split; [|done]. split; [simpl; lia|apply serialized_len].
Defined.
End encoders.

(** ** Sequences of encoder calls *)

(** What a connection does with its encoder. *)
Inductive EncoderCall (M B : Type) : Type :=
| CallEncode (m : M)
| CallReturn (b : B).
Arguments CallEncode {M B} _.
Arguments CallReturn {M B} _.

(** The bytes of the buffers a pooled encoder makes along a sequence of calls. *)
Fixpoint pooled_calls {S M} `{Serialize S M} (p : PooledEncoder S)
  (calls : list (EncoderCall M Reusable)) : list bytes * PooledEncoder S :=
  match calls with
  | [] => ([], p)
  | CallEncode m :: calls =>
      let '(b, p1) := pooled_encode p m in
      let '(out, p2) := pooled_calls p1 calls in
      (reusable_chunk b :: out, p2)
  | CallReturn b :: calls => pooled_calls (pooled_return_buffer p b) calls
  end.

(** The same with the raw serializer and a fresh vector every time. *)
Fixpoint raw_calls {S M} `{Serialize S M} (s : S)
  (calls : list (EncoderCall M Reusable)) : list bytes * S :=
  match calls with
  | [] => ([], s)
  | CallEncode m :: calls =>
      let '(b, s1) := raw_encode s m in
      let '(out, s2) := raw_calls s1 calls in
      (owned_chunk b :: out, s2)
  | CallReturn _ :: calls => raw_calls s calls
  end.

Lemma pooled_calls_raw {S M} `{Serialize S M} calls (p : PooledEncoder S) :
  pool_ok p →
  (pooled_calls p calls).1 = (raw_calls (pooled_serializer p) calls).1 ∧
  pooled_serializer (pooled_calls p calls).2 = (raw_calls (pooled_serializer p) calls).2 ∧
  pool_ok (pooled_calls p calls).2 ∧
  max_pooled (pooled_calls p calls).2 = max_pooled p.
Proof.
  revert p. induction calls as [|[m|b] calls IH]; intros p Hok; simpl; [done| |].
  - pose proof (pooled_encode_ok p m Hok) as Hok'.
    destruct (pooled_encode_fresh p m Hok) as (pool & He & _ & _).
    rewrite He in Hok' |- *. unfold raw_encode.
    destruct (serialize_into_buffer (pooled_serializer p) m []) as [b s].
    destruct (IH _ Hok') as (E1 & E2 & E3 & E4). simpl in E1, E2, E4.
    destruct (pooled_calls _ calls) as [out p2], (raw_calls s calls) as [out' s2].
    simpl in *. by subst.
  - destruct (IH _ (pooled_return_ok p b Hok)) as (E1 & E2 & E3 & E4).
    assert (pooled_serializer (pooled_return_buffer p b) = pooled_serializer p ∧
            max_pooled (pooled_return_buffer p b) = max_pooled p) as [F1 F2]
      by (unfold pooled_return_buffer; by case_match).
    by rewrite F1 in E1, E2; rewrite F2 in E4.
Qed.

(** ** The budget *)

Section budget_spec.
Context {E M B : Type} `{Encoder E M B}.

(** Encoding a list of messages in order. *)
Fixpoint encode_all (e : E) (ms : list M) : list B * E :=
  match ms with
  | [] => ([], e)
  | m :: ms =>
      let '(b, e1) := encode e m in
      let '(bs, e2) := encode_all e1 ms in
      (b :: bs, e2)
  end.

Lemma encode_all_len ms e : len (encode_all e ms).1 = len ms.
Proof.
  revert e. induction ms as [|m ms IH]; intros e; [done|]. simpl.
  destruct (encode e m) as [b e1]. specialize (IH e1).
  destruct (encode_all e1 ms). simpl in *. rewrite !len_cons. lia.
Qed.

Lemma budget_uses_length (b b' : SendBudget E B) ms :
  budget_uses b ms b' →
  length (budget_send_buffer b') = (length (budget_send_buffer b) + length ms)%nat.
Proof.
  induction 1 as [b|b p m ms b' Hp Hu IH]; simpl; [lia|].
  unfold reserve in Hp. destruct (budget_remaining b =? 0); simplify_eq.
  unfold permit_send in *. simpl in *. destruct (encode (budget_encoder b) m).
  rewrite IH. simpl. rewrite length_app. simpl. lia.
Qed.

Lemma budget_uses_spec (b b' : SendBudget E B) ms :
  budget_remaining b < 2 ^ 64 → budget_uses b ms b' →
  len ms ≤ budget_remaining b ∧
  b' = mkSendBudget (encode_all (budget_encoder b) ms).2
         (budget_send_buffer b ++ (encode_all (budget_encoder b) ms).1)
         (budget_remaining b - len ms).
Proof.
  intros Hlt Hu. induction Hu as [b|b p m ms b' Hp Hu IH].
  { split; [rewrite len_nil; lia|]. simpl. rewrite app_nil_r, len_nil, N.sub_0_r. by destruct b. }
  unfold reserve in Hp. destruct (N.eqb_spec (budget_remaining b) 0); simplify_eq.
  unfold permit_send in *. simpl in *. destruct (encode (budget_encoder b) m) as [buf e].
  simpl in IH. rewrite wsub_small in IH by lia.
  destruct IH as [Hle ->]; [lia|]. rewrite len_cons. split; [lia|].
  destruct (encode_all e ms) as [bs e2]. simpl. rewrite <-app_assoc.
  f_equal. lia.
Qed.

Context `{!Buf B, !BufLaws B, !EncoderLaws E M B}.

Lemma encode_all_ok ms e :
  enc_ok e →
  enc_ok (encode_all e ms).2 ∧ Forall buf_ok (encode_all e ms).1 ∧
  concat (buf_unread <$> (encode_all e ms).1) = concat (wire <$> ms).
Proof.
  revert e. induction ms as [|m ms IH]; intros e He; [by repeat constructor|]. simpl.
  destruct (encode_ok e m He) as (He1 & Hb & Hw).
  destruct (encode e m) as [b e1]. simpl in *.
  destruct (IH e1 He1) as (He2 & Hbs & Hws).
  destruct (encode_all e1 ms) as [bs e2]. simpl in *.
  split_and!; [done|by constructor|]. rewrite Hw. f_equal. exact Hws.
Qed.
End budget_spec.

(** ** The theorems about codecs *)

Module Codecs.

(** Pooling is invisible and bounded: along any sequence of encodes and of
    returns (of any buffers, read to the end or not) a pooled encoder makes the
    bytes that the bare serializer makes into fresh vectors, leaves the
    serializer in the same state, and never keeps more than [max_pooled]
    vectors, all of them empty. *)
Theorem pooling_transparent {S M} `{Serialize S M} (pool_size : usize) (s : S)
  (calls : list (EncoderCall M Reusable)) :
  let '(out, p) := pooled_calls (new_with_pool_size pool_size s) calls in
  (out, pooled_serializer p) = raw_calls s calls ∧
  len (buffer_pool p) ≤ pool_size ∧ Forall (λ b, b = []) (buffer_pool p).
Proof.
  destruct (pooled_calls_raw calls (new_with_pool_size pool_size s)) as (E1 & E2 & [F1 F2] & E4).
  { split; simpl; [constructor|]. rewrite len_nil. lia. }
  destruct (pooled_calls _ calls) as [out p]. simpl in *. rewrite E4 in F2.
  split_and!; [|done..]. destruct (raw_calls s calls). simpl in *. by subst.
Qed.

(** The send budget is a bound: whatever its holder does with it, it encodes
    no more messages than the budget allowed, in the order they were sent, at
    the end of the send queue, and what is left of the budget is exact. *)
Theorem send_budget_bounds {E M B} `{Encoder E M B} (e : E) (queue : list B) (room : usize)
  (ms : list M) (b' : SendBudget E B)
  (Hroom : room < 2 ^ 64) (Hu : budget_uses (mkSendBudget e queue room) ms b') :
  len ms ≤ room ∧ budget_remaining b' = room - len ms ∧
  budget_send_buffer b' = queue ++ (encode_all e ms).1 ∧
  len (budget_send_buffer b') = len queue + len ms ∧
  (budget_remaining b' = 0 → reserve b' = None).
Proof.
  destruct (budget_uses_spec (mkSendBudget e queue room) b' ms Hroom Hu) as [Hle ->]. simpl in *.
  split_and!; [done..|by rewrite len_app, encode_all_len|].
  intros Hz. unfold reserve. simpl. by rewrite Hz.
Qed.

(** A serializer for the examples: one byte, the message. *)
#[local] Instance byte_serialize : Serialize unit u8 :=
  {| serialize_into_buffer s m buf := (buf ++ [m], s) |}.

Lemma send_budget_bounds_witness :
  ∃ b', budget_uses (M:=u8) (mkSendBudget tt [owned_new [1]] 2) [7; 8] b' ∧
    owned_buffer <$> budget_send_buffer b' = [[1]; [7]; [8]] ∧
    len [7; 8] ≤ 2 ∧ reserve b' = None.
Proof.
  assert (Hu : budget_uses (M:=u8) (mkSendBudget tt [owned_new [1]] 2) [7; 8]
    (mkSendBudget tt [owned_new [1]; owned_new [7]; owned_new [8]] 0)).
  { eapply uses_permit; [reflexivity|]. eapply uses_permit; [reflexivity|]. apply uses_nothing. }
  eexists. split; [exact Hu|].
  destruct (send_budget_bounds tt [owned_new [1]] 2 [7; 8] _ eq_refl Hu)
    as (Hle & Hr & _ & _ & Hn).
  split; [reflexivity|]. split; [exact Hle|]. apply Hn. exact Hr.
Defined.
End Codecs.
