(* ===== verification/Connection.v ===== *)
(** * The connection

    [protosocket-connection/src/connection.rs] and the two error tests of
    [lib.rs].  A connection is a record; each method is a function on it, with
    the stream, the codec, the reactor and the queue of outbound messages behind
    type classes.  The loops take fuel, and the theorems say how much is enough. *)

From S2P Require Import Prelude Spillway Encoding.
Local Open Scope N_scope.
Local Open Scope run_scope.

(** ** Streams *)

(** [std::io::Error], by its [kind()]. *)
Inductive IoError :=
| WouldBlock
| Interrupted
| OtherIo (code : N).

#[export] Instance IoError_eq_dec : EqDecision IoError.
Proof. solve_decision. Defined.

Definition would_block (err : IoError) : bool :=
  match err with WouldBlock => true | _ => false end.

Definition interrupted (err : IoError) : bool :=
  match err with Interrupted => true | _ => false end.

(** [tokio::io::{AsyncRead, AsyncWrite}], library traits: a read fills some of the
    room it is given, a write takes some of the bytes of the slices. *)
Class AsyncStream (S K : Type) := {
  poll_read : S → K → usize → Poll (result bytes IoError) * S;
  poll_write_vectored : S → K → list bytes → Poll (result usize IoError) * S;
  poll_flush : S → K → Poll (result unit IoError) * S;
}.

(** Their contract.  [inbound] and [outbound] are all the bytes that were read
    and written; [patience] bounds how often the stream can be ready before it
    is [Pending]: the loops of the connection only stop then. *)
Class AsyncStreamLaws (S K : Type) `{AsyncStream S K} := {
  inbound : S → bytes;
  outbound : S → bytes;
  patience : S → nat;
  read_law s k room :
    let '(p, s') := poll_read s k room in
    outbound s' = outbound s ∧
    match p with
    | Ready (Ok bs) =>
        len bs ≤ room ∧ inbound s' = inbound s ++ bs ∧ (patience s' < patience s)%nat
    | Ready (Err _) => inbound s' = inbound s ∧ (patience s' < patience s)%nat
    | Pending => inbound s' = inbound s ∧ (patience s' ≤ patience s)%nat
    end;
  write_law s k slices :
    let '(p, s') := poll_write_vectored s k slices in
    inbound s' = inbound s ∧
    match p with
    | Ready (Ok n) =>
        n ≤ len (concat slices) ∧ n < 2 ^ 64 ∧
        outbound s' = outbound s ++ take (N.to_nat n) (concat slices) ∧
        (patience s' < patience s)%nat
    | Ready (Err _) => outbound s' = outbound s ∧ (patience s' < patience s)%nat
    | Pending => outbound s' = outbound s ∧ (patience s' ≤ patience s)%nat
    end;
  flush_law s k :
    let '(p, s') := poll_flush s k in
    inbound s' = inbound s ∧ outbound s' = outbound s ∧ (patience s' ≤ patience s)%nat ∧
    (∀ e, p = Ready (Err e) → (patience s' < patience s)%nat);
}.

(** ** The queue of outbound messages *)

(** What the connection uses of [spillway::Receiver]. *)
Class OutboundQueue (Q K L : Type) := {
  queue_poll_next : Q → K → run (Poll (option L) * Q);
}.

(** What it promises: the waiting messages come out in order. *)
Class OutboundQueueLaws (Q K L : Type) `{OutboundQueue Q K L} := {
  queue_ok : Q → Prop;
  queue_waiting : Q → list L;
  queue_poll_law q k : queue_ok q →
    ∃ p q', queue_poll_next q k = Return (p, q') ∧ queue_ok q' ∧
      match queue_waiting q with
      | x :: rest => p = Ready (Some x) ∧ queue_waiting q' = rest
      | [] => (p = Ready None ∨ p = Pending) ∧ queue_waiting q' = []
      end;
}.

(** The channel of [Spillway] keeps the promise. *)
#[export] Instance spillway_queue {W K L} `{AtomicWaker W K}
  : OutboundQueue (Shared W L * Receiver L) K L := {|
  queue_poll_next q k :=
    let* '(p, s, r) := poll_next q.1 q.2 k in Return (p, (s, r));
|}.

#[export] Instance spillway_queue_laws {W K L} `{AtomicWaker W K}
  : OutboundQueueLaws (Shared W L * Receiver L) K L.
Proof.
  refine {| queue_ok q := channel_inv q.1 q.2;
            queue_waiting q := pending_values q.1 q.2 |}.
  intros [s r] k Hinv. simpl in *.
  destruct (poll_next_spec s r k (inv_ok _ _ Hinv)) as (p & s' & r' & He & _).
  destruct (poll_next_inv _ _ _ _ _ _ Hinv He) as (Hpost & Hinv' & _).
  rewrite He. exists p, (s', r'). split; [done|]. split; [done|].
  unfold poll_next_post in Hpost. destruct (pending_values s r) as [|x rest] eqn:Hpv.
  - destruct Hpost as (-> & -> & ->). split; [|exact Hpv].
    by destruct (0 =? senders s); [left|right].
  - by destruct Hpost as (-> & Hrest & _).
Defined.

(** ** The connection *)

(** [ReadBufferState]. *)
Inductive ReadBufferState :=
| RBPending
| MoreToRead
| Disconnected
| RBError (e : IoError).

#[export] Instance ReadBufferState_eq_dec : EqDecision ReadBufferState.
Proof. solve_decision. Defined.

(** [Connection<TStream, TReactor>]. *)
Record Connection (S Q C B R : Type) := mkConnection {
  stream : S;
  outbound_messages : Q;
  send_buffer : list B;
  receive_buffer_unread_index : usize;
  receive_buffer : bytes;
  max_buffer_length : usize;
  max_queued_send_messages : usize;
  buffer_allocation_increment : usize;
  codec : C;
  reactor : R;
}.
Arguments mkConnection {S Q C B R} _ _ _ _ _ _ _ _ _ _.
Arguments stream {S Q C B R} _.
Arguments outbound_messages {S Q C B R} _.
Arguments send_buffer {S Q C B R} _.
Arguments receive_buffer_unread_index {S Q C B R} _.
Arguments receive_buffer {S Q C B R} _.
Arguments max_buffer_length {S Q C B R} _.
Arguments max_queued_send_messages {S Q C B R} _.
Arguments buffer_allocation_increment {S Q C B R} _.
Arguments codec {S Q C B R} _.
Arguments reactor {S Q C B R} _.

(** [UIO_MAXIOV]. *)
Definition uio_maxiov : nat := 256.

(** [Vec::resize] with zeroes, [<[T]>::copy_within] to the front, and what a read
    leaves in the slice it is given. *)
Definition vec_resize (n : usize) (l : bytes) : bytes :=
  take (N.to_nat n) l ++ replicate (N.to_nat (n - len l)) 0.

Definition copy_to_front (first last : usize) (l : bytes) : run bytes :=
  if (last <? first) || (len l <? last) then Panic
  else let moved := drop (N.to_nat first) (take (N.to_nat last) l) in
       Return (moved ++ drop (length moved) l).

Definition fill_from (i : usize) (filled l : bytes) : bytes :=
  take (N.to_nat i) l ++ filled ++ drop (N.to_nat i + length filled) l.

Section connection.
Context {S Q C B R K In Out L : Type}.
Context `{AsyncStream S K} `{OutboundQueue Q K L}.
Context `{Buf B} `{!Encoder C Out B} `{!Decoder C In} `{!MessageReactor R K C B In Out L}.
Abbreviation Conn := (Connection S Q C B R).
Implicit Types c : Conn.

Definition set_stream c x : Conn :=
  mkConnection x (outbound_messages c) (send_buffer c) (receive_buffer_unread_index c)
    (receive_buffer c) (max_buffer_length c) (max_queued_send_messages c)
    (buffer_allocation_increment c) (codec c) (reactor c).
Definition set_outbound c q b co r : Conn :=
  mkConnection (stream c) q b (receive_buffer_unread_index c)
    (receive_buffer c) (max_buffer_length c) (max_queued_send_messages c)
    (buffer_allocation_increment c) co r.
Definition set_receive c i b : Conn :=
  mkConnection (stream c) (outbound_messages c) (send_buffer c) i b (max_buffer_length c)
    (max_queued_send_messages c) (buffer_allocation_increment c) (codec c) (reactor c).
Definition set_codec_reactor c co r : Conn :=
  set_outbound c (outbound_messages c) (send_buffer c) co r.
Definition set_reactor c r : Conn := set_codec_reactor c (codec c) r.
Definition set_send c b co : Conn := set_outbound c (outbound_messages c) b co (reactor c).

(** [Connection::new]. *)
Definition new (s : S) (co : C) (max_buffer increment max_queued : usize) (q : Q) (r : R) : Conn :=
  mkConnection s q [] 0 [] max_buffer max_queued increment co r.

(** [poll_read_from_stream]. *)
Definition poll_read_from_stream c (k : K) : run (ReadBufferState * Conn) :=
  let i := receive_buffer_unread_index c in
  if len (receive_buffer c) <? i then Panic else
  let '(p, s) := poll_read (stream c) k (len (receive_buffer c) - i) in
  let c := set_stream c s in
  Return match p with
  | Ready (Ok filled) =>
      let c := set_receive c i (fill_from i filled (receive_buffer c)) in
      let distance := len filled in
      if distance =? 0 then (Disconnected, c)
      else (MoreToRead, set_receive c (usize_add i distance) (receive_buffer c))
  | Ready (Err err) =>
      if would_block err then (RBPending, c)
      else if interrupted err then (MoreToRead, c)
      else (RBError err, c)
  | Pending => (RBPending, c)
  end.

(** [poll_read_inbound]. *)
Definition poll_read_inbound c (k : K) : run (ReadBufferState * Conn) :=
  let i := receive_buffer_unread_index c in
  let n := len (receive_buffer c) in
  let c :=
    if (n <? max_buffer_length c) && (usize_sub n i <? buffer_allocation_increment c)
    then set_receive c i
           (vec_resize (usize_add n (buffer_allocation_increment c)) (receive_buffer c))
    else c in
  if 0 <? usize_sub (len (receive_buffer c)) i
  then poll_read_from_stream c k
  else Return (MoreToRead, c).

(** The loop of [read_inbound_messages_and_react]; the result says whether the
    function returned from inside the loop or broke out of it with a state. *)
Inductive LoopExit := Returned (st : ReadBufferState) | Broke (st : ReadBufferState).

Definition invalid_data : IoError := OtherIo 0.

Fixpoint decode_loop (fuel : nat) c (cursor : usize) : run (LoopExit * Conn * usize) :=
  match fuel with
  | O => OutOfFuel
  | Datatypes.S fuel =>
      let unread := receive_buffer_unread_index c in
      if cursor =? unread then Return (Broke RBPending, c, cursor)
      else if unread <? cursor then Return (Broke (RBError invalid_data), c, cursor)
      else if len (receive_buffer c) <? unread then Panic
      else
        let buffer := drop (N.to_nat cursor) (take (N.to_nat unread) (receive_buffer c)) in
        let '(res, co) := decode (codec c) buffer in
        let c := set_codec_reactor c co (reactor c) in
        match res with
        | Ok (length, message) =>
            let cursor := usize_add cursor length in
            let '(status, r) := on_inbound_message (reactor c) message in
            let c := set_reactor c r in
            match status with
            | StatusDisconnect => Return (Returned Disconnected, c, cursor)
            | StatusContinue => decode_loop fuel c cursor
            end
        | Err (IncompleteBuffer next_message_size) =>
            if max_buffer_length c <? next_message_size
            then Return (Returned Disconnected, c, cursor)
            else Return (Broke RBPending, c, cursor)
        | Err InvalidBuffer => Return (Returned Disconnected, c, cursor)
        | Err (SkipMessage distance) =>
            if usize_sub unread cursor <? distance then Return (Broke RBPending, c, cursor)
            else decode_loop fuel c (usize_add cursor distance)
        end
  end.

(** The end of [read_inbound_messages_and_react]: consumed bytes leave the buffer. *)
Definition shift_consumed c (cursor : usize) : run Conn :=
  let unread := receive_buffer_unread_index c in
  if negb (cursor =? 0) && (cursor =? unread) then Return (set_receive c 0 (receive_buffer c))
  else if negb (cursor =? 0) then
    let* buffer := copy_to_front cursor unread (receive_buffer c) in
    Return (set_receive c (usize_sub unread cursor) buffer)
  else Return c.

(** [read_inbound_messages_and_react]. *)
Definition read_inbound_messages_and_react (fuel : nat) c : run (ReadBufferState * Conn) :=
  let* '(exit, c, cursor) := decode_loop fuel c 0 in
  match exit with
  | Returned st => Return (st, c)
  | Broke st => let* c := shift_consumed c cursor in Return (st, c)
  end.

(** [poll_receive]; [fuel] bounds its own loop, the inner one gets what its
    buffer needs. *)
Fixpoint poll_receive (fuel : nat) c (k : K) : run (Poll unit * Conn) :=
  match fuel with
  | O => OutOfFuel
  | Datatypes.S fuel =>
      let* '(st, c) := poll_read_inbound c k in
      match st with
      | RBPending => Return (Pending, c)
      | MoreToRead =>
          let* '(st, c) := read_inbound_messages_and_react
            (Datatypes.S (N.to_nat (receive_buffer_unread_index c))) c in
          match st with
          | RBPending | MoreToRead => poll_receive fuel c k
          | RBError _ | Disconnected => Return (Ready tt, c)
          end
      | Disconnected | RBError _ => Return (Ready tt, c)
      end
  end.

(** The [while] loop of [poll_serialize_outbound_messages]: it takes messages
    from the queue as long as there is room; the flag is [queue_closed]. *)
Fixpoint serialize_from_queue (fuel : nat) c (k : K) (start_len max_outbound : usize)
  : run (bool * Conn) :=
  match fuel with
  | O => OutOfFuel
  | Datatypes.S fuel =>
      if usize_sub (len (send_buffer c)) start_len <? max_outbound then
        let* '(p, q) := queue_poll_next (outbound_messages c) k in
        let c := set_outbound c q (send_buffer c) (codec c) (reactor c) in
        match p with
        | Ready (Some message) =>
            let '(message, r) := on_outbound_message (reactor c) message in
            let '(buffer, co) := encode (codec c) message in
            serialize_from_queue fuel
              (set_outbound c (outbound_messages c) (send_buffer c ++ [buffer]) co r)
              k start_len max_outbound
        | Ready None => Return (true, c)
        | Pending => Return (false, c)
        end
      else Return (false, c)
  end.

(** [poll_serialize_outbound_messages]. *)
Definition poll_serialize_outbound_messages c (k : K) : run (Poll unit * Conn) :=
  let max_outbound := usize_sub (max_queued_send_messages c) (len (send_buffer c)) in
  if max_outbound =? 0 then Return (Pending, c) else
  let start_len := len (send_buffer c) in
  let* '(queue_closed, c) :=
    serialize_from_queue (Datatypes.S (N.to_nat max_outbound)) c k start_len max_outbound in
  let remaining := usize_sub max_outbound (usize_sub (len (send_buffer c)) start_len) in
  if 0 <? remaining then
    let '(state, r, b) :=
      poll_outbound_many (reactor c) k (mkSendBudget (codec c) (send_buffer c) remaining) in
    let c := set_outbound c (outbound_messages c) (budget_send_buffer b) (budget_encoder b) r in
    match state with
    | Ready None => Return (if queue_closed then Ready tt else Pending, c)
    | _ => Return (Pending, c)
    end
  else Return (Pending, c).

(** The slices of one [writev]. *)
Fixpoint fill_slices (bufs : list B) (filled : nat) : list bytes :=
  match bufs with
  | [] => []
  | buf :: bufs =>
      if (uio_maxiov <=? filled)%nat then []
      else match chunks_vectored buf (uio_maxiov - filled) with
           | [] => []
           | slices => slices ++ fill_slices bufs (filled + length slices)
           end
  end.

(** [advance_send_buffers]. *)
Fixpoint advance_send_buffers (co : C) (bufs : list B) (written : usize) : run (C * list B) :=
  if 0 <? written then
    match bufs with
    | front :: rest =>
        let remaining := remaining front in
        if remaining <=? written
        then advance_send_buffers (return_buffer co front) rest (usize_sub written remaining)
        else let* front := advance front written in Return (co, front :: rest)
    | [] => Return (co, [])
    end
  else Return (co, bufs).

(** [poll_writev_buffers]. *)
Fixpoint poll_writev_buffers (fuel : nat) c (k : K) : run (result bool IoError * Conn) :=
  match fuel with
  | O => OutOfFuel
  | Datatypes.S fuel =>
      let* '(p, c) := poll_serialize_outbound_messages c k in
      match p with
      | Ready _ => Return (Ok true, c)
      | Pending =>
          match send_buffer c with
          | [] =>
              let '(p, s) := poll_flush (stream c) k in
              let c := set_stream c s in
              match p with
              | Ready (Ok _) | Pending => Return (Ok false, c)
              | Ready (Err e) =>
                  if would_block e || interrupted e then poll_writev_buffers fuel c k
                  else Return (Err e, c)
              end
          | bufs =>
              let '(p, s) := poll_write_vectored (stream c) k (fill_slices bufs 0) in
              let c := set_stream c s in
              match p with
              | Pending => Return (Ok false, c)
              | Ready (Ok written) =>
                  if written =? 0 then Return (Ok true, c)
                  else
                    let* '(co, bufs) := advance_send_buffers (codec c) (send_buffer c) written in
                    poll_writev_buffers fuel (set_send c bufs co) k
              | Ready (Err err) =>
                  if would_block err then poll_writev_buffers fuel c k
                  else if interrupted err then poll_writev_buffers fuel c k
                  else Return (Err err, c)
              end
          end
      end
  end.

(** [Future::poll]. *)
Definition poll (fuel : nat) c (k : K) : run (Poll unit * Conn) :=
  let* '(p, c) := poll_receive fuel c k in
  match p with
  | Ready _ => Return (Ready tt, c)
  | Pending =>
      let '(flow, r) := reactor_poll (reactor c) k in
      let c := set_reactor c r in
      match flow with
      | Break => Return (Ready tt, c)
      | Continue =>
          let* '(res, c) := poll_writev_buffers fuel c k in
          match res with
          | Ok false => Return (Pending, c)
          | Ok true => Return (Ready tt, c)
          | Err _ => Return (Ready tt, c)
          end
      end
  end.

(** The numbers [Display] shows: unread index, buffer length, queued buffers and
    the bytes in them. *)
Definition display c : usize * usize * usize * usize :=
  (receive_buffer_unread_index c, len (receive_buffer c), len (send_buffer c),
   foldr usize_add 0 (remaining <$> send_buffer c)).
End connection.
