(* ===== verification/ConnectionSpec.v ===== *)
(** * What the connection guarantees

    The abstract view of the bytes a connection reads ([frames]) and of the
    messages its reactor gets ([deliver]), the invariants of [Connection], the
    specification of each method and the theorems about whole polls. *)

From S2P Require Import Prelude Spillway Encoding Connection.
Local Open Scope N_scope.
Local Open Scope run_scope.

(** ** Frames: the messages in a stream of bytes *)

Section frames.
Context {D M : Type} {limit : usize} `{DecoderLaws D M limit}.
Implicit Types u v w : bytes.

(** The messages at the front of [u], the bytes left over, and whether the stream
    is still usable. *)
Fixpoint frames_fuel (fuel : nat) u : list M * bytes * bool :=
  match u, fuel with
  | [], _ => ([], [], true)
  | _, O => ([], u, true)
  | _, S fuel =>
      match frame u with
      | Ok (n, m) =>
          let '(ms, rest, live) := frames_fuel fuel (drop (N.to_nat n) u) in
          (m :: ms, rest, live)
      | Err (IncompleteBuffer n) => ([], u, negb (limit <? n))
      | Err InvalidBuffer => ([], u, false)
      | Err (SkipMessage n) =>
          if len u <? n then ([], u, true) else frames_fuel fuel (drop (N.to_nat n) u)
      end
  end.

Definition frames u : list M * bytes * bool := frames_fuel (length u) u.

Lemma length_drop_lt n u : 0 < n → u ≠ [] → (length (drop (N.to_nat n) u) < length u)%nat.
Proof. intros Hn Hu. rewrite length_drop. destruct u; [done|]. simpl. lia. Qed.

Lemma frames_fuel_enough n n' u :
  (length u ≤ n)%nat → (length u ≤ n')%nat → frames_fuel n u = frames_fuel n' u.
Proof.
  revert n' u. induction n as [|n IH]; intros n' [|b u] Hn Hn'.
  - by destruct n'.
  - simpl in Hn. lia.
  - by destruct n'.
  - destruct n' as [|n']; [simpl in Hn'; lia|].
    cbn [frames_fuel]. destruct (frame (b :: u)) as [[m x]|[m| |m]] eqn:Hf; try done.
    + apply frame_message in Hf as [Hf _].
      assert (length (drop (N.to_nat m) (b :: u)) < S (length u))%nat
        by (by apply (length_drop_lt m (b :: u))).
      rewrite (IH n'); [done|..]; simpl in Hn, Hn'; lia.
    + apply frame_skip in Hf as [Hf _].
      assert (length (drop (N.to_nat m) (b :: u)) < S (length u))%nat
        by (by apply (length_drop_lt m (b :: u))).
      destruct (len (b :: u) <? m); [done|]. apply IH; simpl in Hn, Hn'; lia.
Qed.

(** The equation of [frames]. *)
Lemma frames_eq u :
  u ≠ [] →
  frames u =
    match frame u with
    | Ok (n, m) => let '(ms, rest, live) := frames (drop (N.to_nat n) u) in (m :: ms, rest, live)
    | Err (IncompleteBuffer n) => ([], u, negb (limit <? n))
    | Err InvalidBuffer => ([], u, false)
    | Err (SkipMessage n) =>
        if len u <? n then ([], u, true) else frames (drop (N.to_nat n) u)
    end.
Proof.
  intros Hu. unfold frames at 1. destruct u as [|b u]; [done|].
  cbn [length frames_fuel]. unfold frames.
  destruct (frame (b :: u)) as [[m x]|[m| |m]] eqn:Hf; try done.
  - apply frame_message in Hf as [Hf _].
    assert (length (drop (N.to_nat m) (b :: u)) < S (length u))%nat
      by (by apply (length_drop_lt m (b :: u))).
    rewrite (frames_fuel_enough (length u) (length (drop (N.to_nat m) (b :: u)))); [done|lia|done].
  - apply frame_skip in Hf as [Hf _].
    assert (length (drop (N.to_nat m) (b :: u)) < S (length u))%nat
      by (by apply (length_drop_lt m (b :: u))).
    destruct (len (b :: u) <? m); [done|]. apply frames_fuel_enough; [lia|done].
Qed.

(** Induction over the frames of a stream. *)
Lemma frames_ind (P : bytes → Prop) :
  P [] →
  (∀ u, u ≠ [] → (∀ n, 0 < n → P (drop (N.to_nat n) u)) → P u) →
  ∀ u, P u.
Proof.
  intros Hnil Hstep u. remember (length u) as n eqn:Hn. revert u Hn.
  induction (lt_wf n) as [n _ IH]. intros u Hn. destruct u as [|b u]; [done|].
  apply Hstep; [done|]. intros m Hm. eapply IH; [|reflexivity].
  rewrite Hn. by apply length_drop_lt.
Qed.

Lemma drop_app_le_N {A} (u w : list A) n :
  n ≤ len u → drop (N.to_nat n) (u ++ w) = drop (N.to_nat n) u ++ w.
Proof. intros Hn. apply drop_app_le. unfold len in Hn. lia. Qed.

(** Framing does not depend on how the bytes were cut into reads. *)
Lemma frames_app v w ms rest :
  frames v = (ms, rest, true) →
  frames (v ++ w) = (let '(ms', rest', live) := frames (rest ++ w) in (ms ++ ms', rest', live)).
Proof.
  revert ms rest. induction v as [|v Hne IH] using frames_ind; intros ms rest Hv.
  { unfold frames in Hv. simpl in Hv. simplify_eq. simpl.
    by destruct (frames w) as [[ms' rest'] live]. }
  assert (v ++ w ≠ []) as Hne' by (by destruct v).
  rewrite frames_eq in Hv by done.
  destruct (frame v) as [[n m]|[n| |n]] eqn:Hf.
  - pose proof (frame_message _ _ _ Hf) as [Hn Hle].
    rewrite (frames_eq (v ++ w)) by done.
    rewrite (frame_extend v w _ Hne Hf), drop_app_le_N by done.
    destruct (frames (drop (N.to_nat n) v)) as [[ms1 rest1] live1] eqn:Hd. simplify_eq.
    rewrite (IH n Hn _ _ Hd). by destruct (frames (rest ++ w)) as [[ms' rest'] live].
  - simplify_eq. by destruct (frames (rest ++ w)) as [[ms' rest'] live].
  - done.
  - pose proof (frame_skip _ _ Hf) as [Hn _].
    destruct (N.ltb_spec (len v) n) as [Hlt|Hle].
    + simplify_eq. by destruct (frames (rest ++ w)) as [[ms' rest'] live].
    + rewrite (frames_eq (v ++ w)) by done.
      rewrite (frame_extend v w _ Hne Hf), drop_app_le_N by done.
      destruct (N.ltb_spec (len (v ++ w)) n) as [Hl|_]; [rewrite len_app in Hl; lia|].
      by rewrite (IH n Hn _ _ Hv).
Qed.

(** What is left over is the end of the stream and holds no further message. *)
Lemma frames_rest v ms rest live :
  frames v = (ms, rest, live) →
  (∃ read, v = read ++ rest) ∧ (live = true → frames rest = ([], rest, true)).
Proof.
  revert ms rest. induction v as [|v Hne IH] using frames_ind; intros ms rest Hv.
  { unfold frames in Hv. simpl in Hv. simplify_eq. split; [by exists []|done]. }
  assert (∀ n, ∃ read, v = read ++ drop (N.to_nat n) v) as Hcut.
  { intros n. exists (take (N.to_nat n) v). by rewrite take_drop. }
  pose proof Hv as Hv'. rewrite frames_eq in Hv by done.
  destruct (frame v) as [[n m]|[n| |n]] eqn:Hf.
  - pose proof (frame_message _ _ _ Hf) as [Hn Hle].
    destruct (frames (drop (N.to_nat n) v)) as [[ms1 rest1] live1] eqn:Hd. simplify_eq.
    destruct (IH n Hn _ _ Hd) as [[read Hr] Hs]. split; [|done].
    destruct (Hcut n) as [read' Hr']. exists (read' ++ read).
    by rewrite <-app_assoc, <-Hr.
  - simplify_eq. split; [by exists []|]. intros Hl. by rewrite Hl in Hv'.
  - simplify_eq. split; [by exists []|done].
  - pose proof (frame_skip _ _ Hf) as [Hn _].
    destruct (N.ltb_spec (len v) n) as [Hlt|Hle].
    + simplify_eq. split; [by exists []|done].
    + destruct (IH n Hn _ _ Hv) as [[read Hr] Hs]. split; [|done].
      destruct (Hcut n) as [read' Hr']. exists (read' ++ read).
      by rewrite <-app_assoc, <-Hr.
Qed.

(** A stuck front is shorter than the limit: it never fills a buffer of that size. *)
Lemma frames_stuck_short u :
  0 < limit → frames u = ([], u, true) → len u < limit.
Proof.
  intros Hl Hu. destruct u as [|b u]; [rewrite len_nil; lia|].
  rewrite frames_eq in Hu by done. destruct (frame (b :: u)) as [[n m]|[n| |n]] eqn:Hf.
  - by destruct (frames _) as [[? ?] ?].
  - simplify_eq. destruct (N.ltb_spec limit n); [done|].
    assert (n ≤ limit) as Hnl by lia. pose proof (frame_incomplete _ _ Hf Hnl). lia.
  - done.
  - pose proof (frame_skip _ _ Hf) as [Hn Hle]. destruct (N.ltb_spec (len (b :: u)) n); [lia|].
    apply frames_rest in Hu as [[read Hr] _].
    apply (f_equal length) in Hr. rewrite length_app in Hr.
    pose proof (length_drop_lt n (b :: u) Hn ltac:(done)). lia.
Qed.

(** Encoded messages, by whatever encodes them, are their frames. *)
Lemma frames_encoded (w : M → bytes) (fits : M → Prop) (ms : list M) v :
  (∀ m v, fits m → frame (w m ++ v) = Ok (len (w m), m)) → Forall fits ms →
  frames (concat (w <$> ms) ++ v) = (let '(ms', rest, live) := frames v in (ms ++ ms', rest, live)).
Proof.
  intros Hw. induction 1 as [|m ms Hm _ IH].
  { simpl. by destruct (frames v) as [[ms' rest] live]. }
  rewrite fmap_cons. cbn [concat]. rewrite <-app_assoc.
  pose proof (frame_message _ _ _ (Hw m (concat (w <$> ms) ++ v) Hm)) as [Hn _].
  rewrite frames_eq.
  - rewrite Hw, drop_app_length' by (done || (unfold len; lia)). rewrite IH.
    by destruct (frames v) as [[ms' rest] live].
  - intros Hnil%app_nil. destruct Hnil as [Hnil _]. by rewrite Hnil in Hn.
Qed.

(** What the front of an encoded stream frames to is the front of its messages,
    whatever encodes them. *)
Lemma frames_prefix (w : M → bytes) (fits : M → Prop) (ms : list M) v t ms1 rest live :
  (∀ m v, fits m → frame (w m ++ v) = Ok (len (w m), m)) → Forall fits ms →
  v ++ t = concat (w <$> ms) → frames v = (ms1, rest, live) →
  ∃ ms2, ms = ms1 ++ ms2 ∧ rest ++ t = concat (w <$> ms2).
Proof.
  intros Hw. revert v ms1 rest live. induction ms as [|m ms IH]; intros v ms1 rest live Hfit Hv Hf.
  { simpl in Hv. apply app_nil in Hv as [-> ->]. unfold frames in Hf. simpl in Hf. simplify_eq.
    by exists []. }
  destruct (decide (v = [])) as [->|Hne].
  { unfold frames in Hf. simpl in Hf. simplify_eq. by exists (m :: ms). }
  apply Forall_cons in Hfit as [Hm Hfit]. rewrite fmap_cons in Hv. cbn [concat] in Hv.
  pose proof (Hw m (concat (w <$> ms)) Hm) as Hwm. rewrite <-Hv in Hwm.
  rewrite frames_eq in Hf by done. destruct (frame v) as [[n x]|[n| |n]] eqn:Hfr;
    try (simplify_eq; by exists (m :: ms)).
  - pose proof (frame_message _ _ _ Hfr) as [_ Hle].
    rewrite (frame_extend v t _ Hne Hfr) in Hwm by done. injection Hwm as -> ->.
    assert (drop (N.to_nat (len (w m))) v ++ t = concat (w <$> ms)) as Hv'.
    { rewrite <-drop_app_le_N, Hv by done. apply drop_app_length'. unfold len. lia. }
    destruct (frames (drop _ v)) as [[ms' rest'] live'] eqn:Hfs. simplify_eq.
    destruct (IH _ _ _ _ Hfit Hv' Hfs) as (ms2 & -> & Hr). by exists ms2.
  - by rewrite (frame_extend v t _ Hne Hfr) in Hwm.
Qed.
End frames.

(** ** What the reactor gets *)

Section deliver.
Context {R K C B In Out L : Type} `{MR : !MessageReactor R K C B In Out L}.

(** Messages handed to the reactor in order, until it asks to disconnect. *)
Fixpoint deliver (r : R) (ms : list In) : R * bool :=
  match ms with
  | [] => (r, true)
  | m :: ms =>
      let '(status, r) := on_inbound_message r m in
      match status with StatusContinue => deliver r ms | StatusDisconnect => (r, false) end
  end.

Lemma deliver_app r ms ms' :
  deliver r (ms ++ ms') =
    (let '(r1, go) := deliver r ms in if go then deliver r1 ms' else (r1, false)).
Proof.
  revert r. induction ms as [|m ms IH]; intros r; [done|]. simpl.
  by destruct (on_inbound_message r m) as [[|] r1].
Qed.
End deliver.

(** ** The receiving half *)

Section receive.
Context {S Q C B R K In Out L : Type} {limit : usize}.
Context `{AsyncStreamLaws S K} `{OutboundQueue Q K L}.
Context `{CodecLaws C In Out B limit} `{MR : !MessageReactor R K C B In Out L}.
Abbreviation Conn := (Connection S Q C B R).
Implicit Types c : Conn.

Definition unread_bytes c : bytes :=
  take (N.to_nat (receive_buffer_unread_index c)) (receive_buffer c).

(** The parameters that the receive buffer depends on. *)
Record params_ok c : Prop := {
  pa_limit : max_buffer_length c = limit;
  pa_pos : 0 < limit;
  pa_increment : 0 < buffer_allocation_increment c;
  pa_width : limit + buffer_allocation_increment c < 2 ^ 63;
}.

Lemma params_ok_same c c' :
  max_buffer_length c' = max_buffer_length c →
  buffer_allocation_increment c' = buffer_allocation_increment c →
  params_ok c → params_ok c'.
Proof. intros E1 E2 [P1 P2 P3 P4]. split; by rewrite ?E1, ?E2. Qed.

(** The receive buffer: it is never longer than its limit and one increment, and
    the bytes that wait in it are the beginning of a message. *)
Record recv_ok c : Prop := {
  ro_params : params_ok c;
  ro_unread : receive_buffer_unread_index c ≤ len (receive_buffer c);
  ro_len : len (receive_buffer c) < limit + buffer_allocation_increment c;
  ro_stuck : frames (unread_bytes c) = ([], unread_bytes c, true);
  ro_dec : dec_ok (codec c) (unread_bytes c);
  ro_enc : enc_ok (codec c);
}.

Lemma len_unread c :
  receive_buffer_unread_index c ≤ len (receive_buffer c) →
  len (unread_bytes c) = receive_buffer_unread_index c.
Proof. intros Hle. unfold unread_bytes. rewrite len_take. lia. Qed.

Lemma take_fill_from i filled (l : bytes) :
  i ≤ len l → i + len filled ≤ len l →
  len (fill_from i filled l) = len l ∧
  take (N.to_nat (i + len filled)) (fill_from i filled l) = take (N.to_nat i) l ++ filled.
Proof.
  intros Hi Hf. unfold fill_from, len in *. split.
  - rewrite !length_app, length_take, length_drop. lia.
  - rewrite app_assoc, take_app_le by (rewrite length_app, length_take; lia).
    apply take_ge. rewrite length_app, length_take. lia.
Qed.

(** The allocation step of [poll_read_inbound]. *)
Definition grow c : Conn :=
  if (len (receive_buffer c) <? max_buffer_length c)
     && (usize_sub (len (receive_buffer c)) (receive_buffer_unread_index c)
         <? buffer_allocation_increment c)
  then set_receive c (receive_buffer_unread_index c)
         (vec_resize (usize_add (len (receive_buffer c)) (buffer_allocation_increment c))
            (receive_buffer c))
  else c.

Lemma len_replicate {A} n (x : A) : len (replicate n x) = N.of_nat n.
Proof. unfold len. by rewrite length_replicate. Qed.

Lemma vec_resize_grow (n : usize) (l : bytes) :
  len l ≤ n → vec_resize n l = l ++ replicate (N.to_nat (n - len l)) 0.
Proof. intros Hn. unfold vec_resize. rewrite take_ge; [done|]. unfold len in Hn. lia. Qed.

(** It makes room, within the bounds, and keeps the unread bytes. *)
Lemma grow_room c :
  0 < buffer_allocation_increment c → max_buffer_length c + buffer_allocation_increment c < 2 ^ 63 →
  receive_buffer_unread_index c < max_buffer_length c → receive_buffer_unread_index c ≤ len (receive_buffer c) →
  len (receive_buffer c) < max_buffer_length c + buffer_allocation_increment c →
  ∃ b, grow c = set_receive c (receive_buffer_unread_index c) b ∧
    receive_buffer_unread_index c < len b ∧
    len b < max_buffer_length c + buffer_allocation_increment c ∧ unread_bytes (grow c) = unread_bytes c.
Proof.
  intros Hinc Hw Hshort Hun Hlen. unfold grow. rewrite wsub_small by lia.
  destruct (N.ltb_spec (len (receive_buffer c)) (max_buffer_length c)) as [Hl|Hl]; simpl.
  - destruct (N.ltb_spec (len (receive_buffer c) - receive_buffer_unread_index c)
      (buffer_allocation_increment c)) as [Hr|Hr].
    + rewrite wadd_small by lia. eexists. split; [done|].
      rewrite vec_resize_grow by lia. unfold unread_bytes. simpl.
      rewrite len_app, len_replicate.
      split_and!; [lia|lia|]. apply take_app_le. unfold len in Hun. lia.
    + exists (receive_buffer c). split; [by destruct c|]. split_and!; [lia|lia|done].
  - exists (receive_buffer c). split; [by destruct c|]. split_and!; [lia|lia|done].
Qed.

(** What one read does when there is room: all it read is behind the unread bytes. *)
Lemma read_behind c k b :
  grow c = set_receive c (receive_buffer_unread_index c) b →
  receive_buffer_unread_index c < len b → len b < 2 ^ 63 → unread_bytes (grow c) = unread_bytes c →
  ∃ st s i b' read, poll_read_inbound c k = Return (st, set_receive (set_stream c s) i b') ∧
    i ≤ len b' ∧ len b' = len b ∧ take (N.to_nat i) b' = unread_bytes c ++ read ∧
    inbound s = inbound (stream c) ++ read ∧ outbound s = outbound (stream c) ∧
    (patience s ≤ patience (stream c))%nat ∧
    (st = MoreToRead → (patience s < patience (stream c))%nat) ∧
    (st ≠ MoreToRead → read = []).
Proof.
  intros Hg Hlt Hb Hu. unfold poll_read_inbound. fold (grow c). rewrite Hg in Hu |- *.
  cbn [receive_buffer set_receive]. rewrite wsub_small by lia.
  destruct (N.ltb_spec 0 (len b - receive_buffer_unread_index c)) as [_|]; [|lia].
  unfold poll_read_from_stream. cbn [receive_buffer receive_buffer_unread_index stream set_receive].
  destruct (N.ltb_spec (len b) (receive_buffer_unread_index c)); [lia|].
  pose proof (read_law (stream c) k (len b - receive_buffer_unread_index c)) as Hread.
  destruct (poll_read (stream c) k _) as [p s]. destruct Hread as [Hout Hread].
  unfold unread_bytes in Hu. cbn [receive_buffer receive_buffer_unread_index set_receive] in Hu.
  assert (∀ st, (st = MoreToRead → (patience s < patience (stream c))%nat) →
    inbound s = inbound (stream c) → (patience s ≤ patience (stream c))%nat →
    ∃ st' s' i b' read,
      Return (st, set_stream (set_receive c (receive_buffer_unread_index c) b) s)
        = Return (st', set_receive (set_stream c s') i b') ∧
      i ≤ len b' ∧ len b' = len b ∧
      take (N.to_nat i) b' = unread_bytes c ++ read ∧
      inbound s' = inbound (stream c) ++ read ∧ outbound s' = outbound (stream c) ∧
      (patience s' ≤ patience (stream c))%nat ∧
      (st' = MoreToRead → (patience s' < patience (stream c))%nat) ∧
      (st' ≠ MoreToRead → read = [])) as Hnothing.
  { intros st Hst Hin Hpa. exists st, s, (receive_buffer_unread_index c), b, [].
    rewrite !app_nil_r. split_and!; try done; lia. }
  destruct p as [[filled|err]|].
  - destruct Hread as (Hfl & Hin & Hpa).
    destruct (take_fill_from (receive_buffer_unread_index c) filled b) as [Hlb Htake]; [lia..|].
    destruct (N.eqb_spec (len filled) 0) as [Hz|Hz].
    + apply len_zero in Hz as ->. exists Disconnected, s, (receive_buffer_unread_index c).
      exists (fill_from (receive_buffer_unread_index c) [] b), [].
      split; [done|]. rewrite Hlb.
      rewrite len_nil, N.add_0_r in Htake. rewrite Htake, Hu. split_and!; try done; lia.
    + exists MoreToRead, s, (receive_buffer_unread_index c + len filled),
        (fill_from (receive_buffer_unread_index c) filled b), filled.
      split; [by rewrite wadd_small by lia|]. rewrite Hlb, Htake, Hu. split_and!; try done; lia.
  - destruct Hread as [Hin Hpa]. destruct err; simpl; apply Hnothing; try done; lia.
  - destruct Hread as [Hin Hpa]. by apply Hnothing.
Qed.

(** In particular when a partial message waits. *)
Lemma poll_read_inbound_spec c k :
  recv_ok c →
  ∃ st s i b read, poll_read_inbound c k = Return (st, set_receive (set_stream c s) i b) ∧
    i ≤ len b ∧ len b < limit + buffer_allocation_increment c ∧
    take (N.to_nat i) b = unread_bytes c ++ read ∧
    inbound s = inbound (stream c) ++ read ∧ outbound s = outbound (stream c) ∧
    (patience s ≤ patience (stream c))%nat ∧
    (st = MoreToRead → (patience s < patience (stream c))%nat) ∧
    (st ≠ MoreToRead → read = []).
Proof.
  intros [[Hlim Hpos Hinc Hw] Hun Hlen Hst _ _].
  pose proof (frames_stuck_short _ Hpos Hst) as Hshort. rewrite len_unread in Hshort by done.
  destruct (grow_room c) as (b & Hg & Hlt & Hb & Hu); [rewrite ?Hlim; lia..|]. rewrite Hlim in Hb.
  destruct (read_behind c k b Hg Hlt ltac:(lia) Hu) as (st & s & i & b' & read & He & Hi & Hl & Hrest).
  exists st, s, i, b', read. split_and!; [done|done|lia|apply Hrest..].
Qed.

(** What decoding [v] comes to: [frames] says what is in it, [deliver] what the
    reactor makes of it. *)
Definition decodes c (v : bytes) (res : run (LoopExit * Conn * usize)) : Prop :=
  let '(ms, rest, live) := frames v in
  let '(r, go) := deliver (reactor c) ms in
  ∃ exit co cursor', res = Return (exit, set_codec_reactor c co r, cursor') ∧ enc_ok co ∧
    if go && live
    then exit = Broke RBPending ∧ cursor' ≤ receive_buffer_unread_index c ∧
         drop (N.to_nat cursor') (unread_bytes c) = rest ∧ dec_ok co rest
    else exit = Returned Disconnected.

Lemma decodes_message c co n m v r1 res :
  frame v = Ok (n, m) → v ≠ [] → on_inbound_message (reactor c) m = (StatusContinue, r1) →
  decodes (set_codec_reactor c co r1) (drop (N.to_nat n) v) res → decodes c v res.
Proof.
  unfold decodes. intros Hf Hv Hm Hres. rewrite (frames_eq v Hv), Hf.
  destruct (frames (drop (N.to_nat n) v)) as [[ms rest] live]. cbn [deliver]. rewrite Hm.
  exact Hres.
Qed.

Lemma decodes_skip c co n v res :
  frame v = Err (SkipMessage n) → v ≠ [] → n ≤ len v →
  decodes (set_codec_reactor c co (reactor c)) (drop (N.to_nat n) v) res → decodes c v res.
Proof.
  unfold decodes. intros Hf Hv Hn Hres. rewrite (frames_eq v Hv), Hf.
  by rewrite (proj2 (N.ltb_ge _ _) Hn).
Qed.

(** The bytes behind the cursor, when it moves on. *)
Lemma cursor_moves c cursor n :
  cursor ≤ receive_buffer_unread_index c → receive_buffer_unread_index c ≤ len (receive_buffer c) →
  len (receive_buffer c) < 2 ^ 63 →
  let v := drop (N.to_nat cursor) (unread_bytes c) in
  n ≤ len v → len v = receive_buffer_unread_index c - cursor ∧ usize_add cursor n = cursor + n ∧
    drop (N.to_nat n) v = drop (N.to_nat (cursor + n)) (unread_bytes c) ∧ cursor + n ≤ receive_buffer_unread_index c.
Proof.
  intros Hcur Hun Hlen v Hn. assert (len v = receive_buffer_unread_index c - cursor) as Hlv.
  { unfold v. rewrite len_drop, len_unread by done. lia. }
  split_and!; [done|apply wadd_small; lia| |lia]. unfold v. rewrite drop_drop. f_equal. lia.
Qed.

(** The loop over the buffer is [frames] and [deliver]. *)
Lemma decode_loop_spec fuel c cursor :
  params_ok c → receive_buffer_unread_index c ≤ len (receive_buffer c) →
  len (receive_buffer c) < 2 ^ 63 → cursor ≤ receive_buffer_unread_index c →
  enc_ok (codec c) → dec_ok (codec c) (drop (N.to_nat cursor) (unread_bytes c)) →
  (length (drop (N.to_nat cursor) (unread_bytes c)) < fuel)%nat →
  decodes c (drop (N.to_nat cursor) (unread_bytes c)) (decode_loop fuel c cursor).
Proof.
  revert c cursor. induction fuel as [|fuel IH]; intros c cursor Hpar Hun Hlen Hcur Henc Hdec Hfuel;
    [lia|].
  pose proof (cursor_moves c cursor) as Hmove. set (v := drop (N.to_nat cursor) (unread_bytes c)) in *.
  cbv zeta in Hmove. destruct (Hmove 0) as [Hlv _]; [done..|lia|].
  cbn [decode_loop].
  destruct (N.eqb_spec cursor (receive_buffer_unread_index c)) as [Heq|Hneq].
  { assert (v = []) as Hv by (apply len_zero; lia). unfold decodes. rewrite Hv in Hdec |- *. simpl.
    exists (Broke RBPending), (codec c), cursor. split; [by destruct c|].
    split; [done|]. split_and!; done. }
  destruct (N.ltb_spec (receive_buffer_unread_index c) cursor); [lia|].
  destruct (N.ltb_spec (len (receive_buffer c)) (receive_buffer_unread_index c)); [lia|].
  assert (v ≠ []) as Hv by (rewrite <-len_zero; lia).
  fold (unread_bytes c). fold v.
  destruct (decode_frame (codec c) v Hdec Hv ltac:(lia)) as [Hf Hst].
  pose proof (decode_enc_ok (codec c) v Henc) as Henc'.
  destruct (decode (codec c) v) as [res co]. simpl in Hf, Hst, Henc'.
  subst res. destruct (frame v) as [[n m]|[n| |n]] eqn:Hfr.
  - pose proof (frame_message _ _ _ Hfr) as [Hn Hle].
    destruct (Hmove n) as (_ & -> & Hdrop & Hcn); [done..|].
    destruct (on_inbound_message (reactor (set_codec_reactor c co (reactor c))) m) as [[|] r1] eqn:Hm.
    + eapply (decodes_message c co); [exact Hfr|done|exact Hm|]. rewrite Hdrop in Hst |- *.
      pose proof (length_drop_lt n v Hn Hv) as Hlt. rewrite Hdrop in Hlt.
      apply (IH (set_codec_reactor c co r1)); try done; [by apply (params_ok_same c)|].
      change (unread_bytes (set_codec_reactor c co r1)) with (unread_bytes c). lia.
    + unfold decodes. rewrite (frames_eq v Hv), Hfr. destruct (frames _) as [[ms rest] live]. cbn [deliver].
      change (reactor (set_codec_reactor c co (reactor c))) with (reactor c) in Hm. rewrite Hm.
      by exists (Returned Disconnected), co, (cursor + n).
  - unfold decodes. rewrite (frames_eq v Hv), Hfr. simpl.
    change (max_buffer_length (set_codec_reactor c co (reactor c))) with (max_buffer_length c).
    rewrite (pa_limit _ Hpar). destruct (limit <? n); by eexists _, co, cursor.
  - unfold decodes. rewrite (frames_eq v Hv), Hfr. by eexists _, _, _.
  - pose proof (frame_skip _ _ Hfr) as [Hn Hle]. destruct Hst as [Hst1 Hst2].
    rewrite wsub_small by lia. rewrite <-Hlv. destruct (N.ltb_spec (len v) n) as [Hlt|Hge].
    + unfold decodes. rewrite (frames_eq v Hv), Hfr, (proj2 (N.ltb_lt _ _) Hlt). by eexists _, co, cursor.
    + destruct (Hmove n) as (_ & -> & Hdrop & Hcn); [done..|].
      eapply (decodes_skip c co); [exact Hfr|done|done|]. pose proof (length_drop_lt n v Hn Hv) as Hlt.
      rewrite Hdrop in *. apply (IH (set_codec_reactor c co (reactor c))); try done; [by apply (params_ok_same c)|].
      change (unread_bytes (set_codec_reactor c co (reactor c))) with (unread_bytes c). lia.
Qed.


(** What was consumed leaves the buffer, what was not is at its front. *)
Lemma shift_consumed_spec c cursor :
  cursor ≤ receive_buffer_unread_index c →
  receive_buffer_unread_index c ≤ len (receive_buffer c) → len (receive_buffer c) < 2 ^ 63 →
  ∃ i b, shift_consumed c cursor = Return (set_receive c i b) ∧
    len b = len (receive_buffer c) ∧ i ≤ len b ∧
    take (N.to_nat i) b = drop (N.to_nat cursor) (unread_bytes c).
Proof.
  intros Hcur Hun Hlen. unfold shift_consumed. pose proof (len_unread c Hun) as Hlu.
  destruct (N.eqb_spec cursor 0) as [->|Hne]; simpl.
  { exists (receive_buffer_unread_index c), (receive_buffer c). split_and!; [by destruct c|done..]. }
  destruct (N.eqb_spec cursor (receive_buffer_unread_index c)) as [->|Hne2].
  { exists 0, (receive_buffer c). split_and!; [done|done|lia|].
    symmetry. apply len_zero. rewrite len_drop. lia. }
  unfold copy_to_front. destruct (N.ltb_spec (receive_buffer_unread_index c) cursor); [lia|].
  destruct (N.ltb_spec (len (receive_buffer c)) (receive_buffer_unread_index c)); [lia|].
  simpl. rewrite wsub_small by lia. fold (unread_bytes c).
  set (moved := drop (N.to_nat cursor) (unread_bytes c)).
  assert (len moved = receive_buffer_unread_index c - cursor) as Hm
    by (unfold moved; rewrite len_drop; lia).
  do 2 eexists. split; [done|].
  assert (len (moved ++ drop (length moved) (receive_buffer c)) = len (receive_buffer c)) as ->.
  { rewrite len_app. unfold len in *. rewrite length_drop. lia. }
  split_and!; [done|lia|]. apply take_app_length'. unfold len in Hm. lia.
Qed.

Lemma read_react_spec c :
  params_ok c → receive_buffer_unread_index c ≤ len (receive_buffer c) →
  len (receive_buffer c) < 2 ^ 63 → enc_ok (codec c) → dec_ok (codec c) (unread_bytes c) →
  let '(ms, rest, live) := frames (unread_bytes c) in
  let '(r, go) := deliver (reactor c) ms in
  ∃ st co i b,
    read_inbound_messages_and_react (Datatypes.S (N.to_nat (receive_buffer_unread_index c))) c
      = Return (st, set_codec_reactor (set_receive c i b) co r) ∧
    enc_ok co ∧ len b = len (receive_buffer c) ∧
    if go && live
    then st = RBPending ∧ i ≤ len b ∧ take (N.to_nat i) b = rest ∧ dec_ok co rest
    else st = Disconnected.
Proof.
  intros Hpar Hun Hlen Henc Hdec.
  pose proof (decode_loop_spec (Datatypes.S (N.to_nat (receive_buffer_unread_index c))) c 0
    Hpar Hun Hlen) as Hloop.
  change (drop (N.to_nat 0) (unread_bytes c)) with (unread_bytes c) in Hloop. unfold decodes in Hloop.
  destruct (frames (unread_bytes c)) as [[ms rest] live].
  destruct (deliver (reactor c) ms) as [r go].
  destruct Hloop as (exit & co & cursor & He & Hco & Hexit); [lia|done|done| |].
  { pose proof (len_unread c Hun) as Hlu. unfold len in Hlu. lia. }
  unfold read_inbound_messages_and_react. rewrite He. simpl.
  destruct (go && live).
  - destruct Hexit as (-> & Hcur & Hrest & Hdo).
    set (c1 := set_codec_reactor c co r).
    destruct (shift_consumed_spec c1 cursor) as (i & b & Hs & Hb & Hi & Ht); [done..|].
    rewrite Hs. simpl. exists RBPending, co, i, b. split; [done|].
    split_and!; try done. rewrite Ht. exact Hrest.
  - subst exit. exists Disconnected, co, (receive_buffer_unread_index c), (receive_buffer c).
    split; [by destruct c|]. done.
Qed.

(** Bytes that were read behind a partial message, decoded together with it. *)
Lemma react_extended c s1 i1 b1 read1 :
  let c1 := set_receive (set_stream c s1) i1 b1 in
  recv_ok c → i1 ≤ len b1 → len b1 < limit + buffer_allocation_increment c →
  unread_bytes c1 = unread_bytes c ++ read1 →
  let '(ms, rest, live) := frames (unread_bytes c ++ read1) in
  let '(r, go) := deliver (reactor c) ms in
  ∃ st co i b, let c2 := set_codec_reactor (set_receive c1 i b) co r in
    read_inbound_messages_and_react (Datatypes.S (N.to_nat i1)) c1 = Return (st, c2) ∧
    enc_ok co ∧ len b = len b1 ∧
    if go && live then st = RBPending ∧ recv_ok c2 ∧ unread_bytes c2 = rest else st = Disconnected.
Proof.
  intros c1 [Hpar Hun Hlen Hst Hdec Henc] Hi1 Hb1 Hu1. pose proof (pa_width _ Hpar) as Hw.
  assert (params_ok c1) as Hpar1 by (by apply (params_ok_same c)).
  pose proof (read_react_spec c1 Hpar1 Hi1) as Hreact.
  rewrite Hu1 in Hreact. change (reactor c1) with (reactor c) in Hreact.
  change (codec c1) with (codec c) in Hreact.
  change (receive_buffer c1) with b1 in Hreact.
  pose proof (frames_rest (unread_bytes c ++ read1)) as Hrests.
  destruct (frames (unread_bytes c ++ read1)) as [[ms1 rest1] live1] eqn:Hfr1.
  destruct (deliver (reactor c) ms1) as [r1 go1] eqn:Hdl1.
  destruct Hreact as (st2 & co & i2 & b2 & He2 & Hco & Hb2 & Hcase);
    [lia|done|by apply dec_ok_extend|].
  exists st2, co, i2, b2. split; [exact He2|]. split; [done|]. split; [done|].
  destruct (go1 && live1) eqn:Hgl; [|done]. apply andb_true_iff in Hgl as [-> ->].
  destruct Hcase as (-> & Hi2 & Ht2 & Hdec2). split; [done|].
  set (c2 := set_codec_reactor _ _ _). assert (unread_bytes c2 = rest1) as Hu2 by exact Ht2. split; [|done].
  split; rewrite ?Hu2; try done; [by apply (params_ok_same c)|by simpl; lia|].
  by apply (Hrests ms1 rest1 true).
Qed.

(** A whole [poll_receive]: what was read in it, however the stream cut it, is
    framed behind what waited, and the reactor gets the messages. *)
Lemma poll_receive_spec fuel c k :
  recv_ok c → (patience (stream c) < fuel)%nat →
  ∃ p s i b co read,
    let '(ms, rest, live) := frames (unread_bytes c ++ read) in
    let '(r, go) := deliver (reactor c) ms in
    let c' := set_codec_reactor (set_receive (set_stream c s) i b) co r in
    poll_receive fuel c k = Return (p, c') ∧
    inbound s = inbound (stream c) ++ read ∧ outbound s = outbound (stream c) ∧
    (patience s ≤ patience (stream c))%nat ∧ enc_ok co ∧
    len b < limit + buffer_allocation_increment c ∧
    (p = Pending → go = true ∧ live = true ∧ recv_ok c' ∧ unread_bytes c' = rest).
Proof.
  revert c. induction fuel as [|fuel IH]; intros c Hok Hfuel; [lia|].
  destruct (poll_read_inbound_spec c k Hok)
    as (st & s1 & i1 & b1 & read1 & He1 & Hi1 & Hb1 & Ht1 & Hin1 & Hout1 & Hpa1 & Hmore & Hnone).
  pose proof Hok as [Hpar Hun Hlen Hst Hdec Henc]. pose proof (pa_width _ Hpar) as Hw.
  cbn [poll_receive]. rewrite He1. simpl run_bind.
  set (c1 := set_receive (set_stream c s1) i1 b1).
  assert (unread_bytes c1 = unread_bytes c ++ read1) as Hu1 by exact Ht1.
  assert (params_ok c1) as Hpar1 by (by apply (params_ok_same c)).
  destruct (decide (st = MoreToRead)) as [->|Hst1]; cycle 1.
  { (* nothing was read *)
    specialize (Hnone Hst1). subst read1.
    exists (match st with RBPending => Pending | _ => Ready tt end), s1, i1, b1, (codec c), [].
    rewrite !app_nil_r in *. rewrite Hst. cbn [deliver].
    change (set_codec_reactor _ (codec c) (reactor c)) with c1. cbv zeta.
    split_and!; try done; [by destruct st|].
    intros Hp. split_and!; try done. split; rewrite ?Hu1; try done. }
  specialize (Hmore eq_refl). pose proof (react_extended c s1 i1 b1 read1 Hok Hi1 Hb1 Hu1) as Hreact.
  destruct (frames (unread_bytes c ++ read1)) as [[ms1 rest1] live1] eqn:Hfr1.
  destruct (deliver (reactor c) ms1) as [r1 go1] eqn:Hdl1.
  destruct Hreact as (st2 & co & i2 & b2 & He2 & Hco & Hb2 & Hcase). fold c1 in He2, Hcase.
  change (receive_buffer_unread_index c1) with i1. rewrite He2. simpl run_bind.
  destruct (go1 && live1) eqn:Hgl; cycle 1.
  { (* the reactor or the decoder ended the connection *)
    subst st2. exists (Ready tt), s1, i2, b2, co, read1. rewrite Hfr1, Hdl1.
    split_and!; try done. lia. }
  apply andb_true_iff in Hgl as [-> ->].
  destruct Hcase as (-> & Hok2 & Hu2). set (c2 := set_codec_reactor (set_receive c1 i2 b2) co r1) in *.
  destruct (IH c2 Hok2) as (p & s & i & b & co' & read & Hrec); [simpl; lia|].
  rewrite Hu2 in Hrec. change (reactor c2) with r1 in Hrec.
  exists p, s, i, b, co', (read1 ++ read).
  rewrite app_assoc, (frames_app _ read _ _ Hfr1).
  destruct (frames (rest1 ++ read)) as [[ms2 rest2] live2]. rewrite deliver_app, Hdl1.
  destruct (deliver r1 ms2) as [r2 go2].
  destruct Hrec as (He & Hin & Hout & Hpa & Henc' & Hb & Hpend).
  split; [exact He|]. simpl in Hin, Hout, Hpa.
  split; [by rewrite Hin, Hin1, app_assoc|]. split; [by rewrite Hout, Hout1|].
  split; [lia|]. split; [done|]. split; [done|]. exact Hpend.
Qed.
End receive.

(** ** The sending half *)

Section send.
Context {S Q C B R K In Out L : Type} {limit : usize}.
Context `{AsyncStreamLaws S K} `{OutboundQueueLaws Q K L}.
Context `{CodecLaws C In Out B limit} `{!BufWhole B}.
Context `{MR : !MessageReactor R K C B In Out L} `{!MessageReactorLaws R K C B In Out L}.
Abbreviation Conn := (Connection S Q C B R).
Implicit Types c : Conn.

(** The bytes that wait in a queue of buffers. *)
Definition queued_bytes (bufs : list B) : bytes := concat (buf_unread <$> bufs).

(** The bytes of messages on the wire. *)
Definition wire_all (ms : list Out) : bytes := concat (wire <$> ms).

Lemma wire_all_app ms ms' : wire_all (ms ++ ms') = wire_all ms ++ wire_all ms'.
Proof. unfold wire_all. by rewrite fmap_app, concat_app. Qed.

(** The send queue is bounded and its buffers are in order. *)
Record send_ok c : Prop := {
  sd_width : max_queued_send_messages c < 2 ^ 63;
  sd_len : len (send_buffer c) ≤ max_queued_send_messages c;
  sd_bufs : Forall buf_ok (send_buffer c);
  sd_queue : queue_ok (outbound_messages c);
  sd_enc : enc_ok (codec c);
}.

Lemma encode_all_app (e : C) (ms ms' : list Out) :
  encode_all e (ms ++ ms') =
    (let '(bs, e1) := encode_all e ms in
     let '(bs', e2) := encode_all e1 ms' in (bs ++ bs', e2)).
Proof.
  revert e. induction ms as [|m ms IH]; intros e; simpl.
  { by destruct (encode_all e ms'). }
  destruct (encode e m) as [b e1]. rewrite IH. destruct (encode_all e1 ms) as [bs e2].
  by destruct (encode_all e2 ms').
Qed.

Lemma encode_all_dec_ok (e : C) (ms : list Out) u : dec_ok e u → dec_ok (encode_all e ms).2 u.
Proof.
  revert e. induction ms as [|m ms IH]; intros e He; [done|]. simpl.
  pose proof (encode_dec_ok e m u He) as He1. destruct (encode e m) as [b e1].
  specialize (IH e1 He1). by destruct (encode_all e1 ms).
Qed.

(** What goes into the send queue: each message of the queue as the reactor turns
    it out, in order, and between them the messages that the reactor sends of its
    own accord; the reactor and the queue are followed from call to call. *)
Inductive sends (k : K) : R → Q → list L → list Out → R → Q → Prop :=
| sends_nothing r q : sends k r q [] [] r q
| sends_queued r q l q1 m r1 ls ms r2 q2 :
    queue_poll_next q k = Return (Ready (Some l), q1) → on_outbound_message r l = (m, r1) →
    sends k r1 q1 ls ms r2 q2 → sends k r q (l :: ls) (m :: ms) r2 q2
| sends_idle r q p q1 ls ms r2 q2 :
    queue_poll_next q k = Return (p, q1) → p = Ready None ∨ p = Pending →
    sends k r q1 ls ms r2 q2 → sends k r q ls ms r2 q2
| sends_own r q (b b' : SendBudget C B) p r1 ms1 ls ms r2 q2 :
    poll_outbound_many r k b = (p, r1, b') → budget_uses b ms1 b' →
    enc_ok (budget_encoder b) → budget_remaining b < 2 ^ 64 → sends k r1 q ls ms r2 q2 →
    sends k r q ls (ms1 ++ ms) r2 q2.

Lemma sends_app k r q ls ms r1 q1 ls' ms' r2 q2 :
  sends k r q ls ms r1 q1 → sends k r1 q1 ls' ms' r2 q2 → sends k r q (ls ++ ls') (ms ++ ms') r2 q2.
Proof.
  induction 1; intros Hs2; simpl; rewrite <-?app_assoc; try done;
    [eapply sends_queued|eapply sends_idle|eapply sends_own]; eauto.
Qed.

(** Messages wait in the queue only behind a full send queue. *)
Definition all_taken c : Prop :=
  queue_waiting (outbound_messages c) = [] ∨ len (send_buffer c) = max_queued_send_messages c.

(** The loop over the queue: messages come out in order, each is handed to the
    reactor, encoded and put at the end of the send queue, as many as fit. *)
Lemma serialize_from_queue_spec fuel c k start_len max_outbound :
  queue_ok (outbound_messages c) → start_len ≤ len (send_buffer c) →
  len (send_buffer c) - start_len ≤ max_outbound → start_len + max_outbound < 2 ^ 64 →
  (N.to_nat (max_outbound - (len (send_buffer c) - start_len)) < fuel)%nat →
  ∃ closed q r ls ms,
    let '(bs, co) := encode_all (codec c) ms in
    serialize_from_queue fuel c k start_len max_outbound
      = Return (closed, set_outbound c q (send_buffer c ++ bs) co r) ∧
    sends k (reactor c) (outbound_messages c) ls ms r q ∧ len ms = len ls ∧ queue_ok q ∧ queue_waiting (outbound_messages c) = ls ++ queue_waiting q ∧
    len (send_buffer c) - start_len + len ls ≤ max_outbound ∧
    (closed = true → queue_waiting q = []) ∧
    (queue_waiting q = [] ∨ len (send_buffer c) - start_len + len ls = max_outbound).
Proof.
  revert c. induction fuel as [|fuel IH]; intros c Hq Hs Hroom Hw Hfuel; [lia|].
  cbn [serialize_from_queue]. rewrite wsub_small by lia.
  destruct (N.ltb_spec (len (send_buffer c) - start_len) max_outbound) as [Hlt|Hge]; cycle 1.
  { exists false, (outbound_messages c), (reactor c), [], []. simpl. rewrite app_nil_r, !len_nil.
    split; [by destruct c|]. split_and!; try done; [apply sends_nothing|unfold len in *; simpl; lia|right; unfold len in *; simpl; lia]. }
  destruct (queue_poll_law (outbound_messages c) k Hq) as (p & q & He & Hq' & Hp).
  rewrite He. simpl run_bind. destruct (queue_waiting (outbound_messages c)) as [|l ls] eqn:Hwait.
  { destruct Hp as [Hp Hnil].
    exists (match p with Ready None => true | _ => false end), q, (reactor c), [], [].
    simpl. rewrite app_nil_r, !len_nil. split; [by destruct Hp as [-> | ->]|].
    split; [eapply sends_idle; [done|done|apply sends_nothing]|].
    split_and!; [done|done|by rewrite Hnil|unfold len in *; simpl; lia|done|by left]. }
  destruct Hp as [-> Hrest].
  change (reactor (set_outbound c q (send_buffer c) (codec c) (reactor c))) with (reactor c).
  destruct (on_outbound_message (reactor c) l) as [m r1] eqn:Hm.
  change (codec (set_outbound c q (send_buffer c) (codec c) (reactor c))) with (codec c).
  destruct (encode (codec c) m) as [b co1] eqn:Hb.
  set (c1 := set_outbound _ _ _ co1 r1).
  assert (len (send_buffer c1) = len (send_buffer c) + 1) as Hl1.
  { unfold c1. simpl. by rewrite len_app, len_cons, len_nil. }
  destruct (IH c1) as (closed & q' & r2 & ls' & ms & Hrec); [done|lia|lia|lia|lia|].
  exists closed, q', r2, (l :: ls'), (m :: ms). simpl. rewrite Hb. change (codec c1) with co1 in Hrec.
  destruct (encode_all co1 ms) as [bs co2].
  destruct Hrec as (He2 & Hse2 & Hlm2 & Hq2 & Hw2 & Hl2 & Hc2 & Hd2). rewrite He2.
  change (queue_waiting (outbound_messages c1)) with (queue_waiting q) in Hw2.
  rewrite !len_cons. split_and!; try done; [|by eapply sends_queued|lia|congruence|lia
    |destruct Hd2; [by left|right; lia]].
  f_equal. f_equal. unfold c1, set_outbound. simpl. by rewrite <-app_assoc.
Qed.

(** The reactor's own messages, within the room it is given. *)
Lemma reactor_fills k r (co : C) (bs : list B) (room : usize) :
  enc_ok co → room < 2 ^ 64 →
  ∃ state r2 ms remaining,
    poll_outbound_many r k (mkSendBudget co bs room)
      = (state, r2, mkSendBudget (encode_all co ms).2 (bs ++ (encode_all co ms).1) remaining) ∧
    len ms ≤ room ∧ ∀ q, sends k r q [] ms r2 q.
Proof.
  intros Hco Hroom. destruct (poll_outbound_many_uses r k (mkSendBudget co bs room)) as [ms Hu]; [done|].
  destruct (poll_outbound_many r k _) as [[state r2] b] eqn:Hpo. simpl in Hu.
  pose proof Hu as Huses. apply budget_uses_spec in Hu as [Hlen ->]; [|done]. simpl in Hlen.
  eexists state, r2, ms, _. split; [reflexivity|].
  split; [done|]. intros q. rewrite <-(app_nil_r ms). eapply sends_own; [exact Hpo|done|done|done|apply sends_nothing].
Qed.

(** The send queue after more messages, as many as there is room for. *)
Lemma send_ok_grown c q ms r :
  send_ok c → queue_ok q → len (send_buffer c) + len ms ≤ max_queued_send_messages c →
  send_ok (set_outbound c q (send_buffer c ++ (encode_all (codec c) ms).1) (encode_all (codec c) ms).2 r).
Proof.
  intros [Hw Hl Hb Hq He] Hq' Hms. destruct (encode_all_ok ms (codec c) He) as (He' & Hb' & _).
  split; try done; simpl; [|by apply Forall_app]. by rewrite len_app, encode_all_len.
Qed.

(** [poll_serialize_outbound_messages]: from the queue first, then from the
    reactor, never past the room in the send queue. *)
Lemma poll_serialize_spec c k :
  send_ok c →
  ∃ p q r ls ms,
    let c' := set_outbound c q (send_buffer c ++ (encode_all (codec c) ms).1)
                (encode_all (codec c) ms).2 r in
    poll_serialize_outbound_messages c k = Return (p, c') ∧ send_ok c' ∧
    sends k (reactor c) (outbound_messages c) ls ms r q ∧
    queue_waiting (outbound_messages c) = ls ++ queue_waiting q ∧ all_taken c'.
Proof.
  intros Hok. pose proof Hok as [Hw Hl Hb Hq He]. unfold poll_serialize_outbound_messages.
  rewrite wsub_small by lia. set (room := max_queued_send_messages c - len (send_buffer c)).
  destruct (N.eqb_spec room 0) as [Hz|Hz].
  { exists Pending, (outbound_messages c), (reactor c), [], []. simpl. rewrite app_nil_r.
    assert (set_outbound c (outbound_messages c) (send_buffer c) (codec c) (reactor c) = c) as ->
      by (by destruct c).
    split_and!; try done; [apply sends_nothing|right; simpl; lia]. }
  destruct (serialize_from_queue_spec (Datatypes.S (N.to_nat room)) c k (len (send_buffer c)) room)
    as (closed & q & r1 & ls & ms1 & Hser); [done|lia|lia|lia|lia|].
  pose proof (send_ok_grown c q) as Hgrown. pose proof (encode_all_len ms1 (codec c)) as Hlb.
  pose proof (encode_all_ok ms1 (codec c) He) as [Hco1 _].
  destruct (encode_all (codec c) ms1) as [bs1 co1] eqn:Hea. cbn [fst snd] in Hlb, Hco1.
  destruct Hser as (Hse & Hs1 & Hlm & Hq' & Hwait & Hroom & _ & Htaken). rewrite Hse. simpl run_bind.
  assert (len (send_buffer c) - len (send_buffer c) = 0) as Hz0 by lia. rewrite Hz0 in Hroom, Htaken.
  cbn [send_buffer set_outbound codec reactor outbound_messages]. rewrite len_app, Hlb, Hlm.
  replace (usize_sub (len (send_buffer c) + len ls) (len (send_buffer c))) with (len ls)
    by (rewrite wsub_small; lia).
  rewrite wsub_small by lia. destruct (N.ltb_spec 0 (room - len ls)) as [Hpos|Hnone]; cycle 1.
  { exists Pending, q, r1, ls, ms1. simpl. rewrite Hea. split; [done|]. split_and!; try done.
    - specialize (Hgrown ms1 r1 Hok Hq'). rewrite Hea in Hgrown. apply Hgrown. lia.
    - right. simpl. rewrite len_app. lia. }
  destruct (reactor_fills k r1 co1 (send_buffer c ++ bs1) (room - len ls)) as (state & r2 & ms2 & left & Hpo & Hlen & Hown);
    [done|lia|]. rewrite Hpo.
  exists (match state with Ready None => if closed then Ready tt else Pending | _ => Pending end),
    q, r2, ls, (ms1 ++ ms2).
  specialize (Hgrown (ms1 ++ ms2) r2 Hok Hq'). rewrite len_app in Hgrown.
  rewrite encode_all_app, Hea in Hgrown |- *.
  destruct (encode_all co1 ms2) as [bs2 co2] eqn:Hea2. cbn [fst snd] in *.
  cbn [budget_encoder budget_send_buffer]. rewrite <-app_assoc. split; [by destruct state as [[[]|]|]|].
  split_and!; try done.
  - apply Hgrown. lia.
  - rewrite <-(app_nil_r ls). by eapply sends_app.
  - left. destruct Htaken as [|Hfull]; [done|]. simpl in *. lia.
Qed.

(** The slices of a [writev] are the front of the waiting bytes. *)
Lemma fill_slices_prefix (bufs : list B) filled :
  Forall buf_ok bufs → concat (fill_slices bufs filled) `prefix_of` queued_bytes bufs.
Proof.
  revert filled. induction bufs as [|b bufs IH]; intros filled Hb; [done|].
  apply Forall_cons in Hb as [Hb Hbs]. cbn [fill_slices].
  destruct (Nat.leb_spec uio_maxiov filled) as [|Hlt]; [apply prefix_nil|].
  pose proof (buf_chunks_le b (uio_maxiov - filled) Hb) as Hle.
  pose proof (buf_chunks_prefix b (uio_maxiov - filled) Hb) as Hpre.
  pose proof (buf_chunks_all b (uio_maxiov - filled) Hb) as Hall.
  destruct (chunks_vectored b (uio_maxiov - filled)) as [|sl slices] eqn:Hc; [apply prefix_nil|].
  rewrite <-Hc in *. rewrite concat_app. unfold queued_bytes. rewrite fmap_cons. cbn [concat].
  destruct (decide (length (chunks_vectored b (uio_maxiov - filled)) < uio_maxiov - filled)%nat)
    as [Hfew|Hmany].
  - rewrite (Hall Hfew). apply prefix_app. by apply IH.
  - assert (fill_slices bufs (filled + length (chunks_vectored b (uio_maxiov - filled))) = []) as ->.
    { destruct bufs; [done|]. cbn [fill_slices].
      destruct (Nat.leb_spec uio_maxiov
        (filled + length (chunks_vectored b (uio_maxiov - filled)))); [done|lia]. }
    rewrite app_nil_r. by apply prefix_app_r.
Qed.

(** [advance_send_buffers] drops exactly what was written. *)
Lemma advance_send_buffers_spec co (bufs : list B) written :
  Forall buf_ok bufs → enc_ok co → written < 2 ^ 64 → written ≤ len (queued_bytes bufs) →
  ∃ co' bufs', advance_send_buffers co bufs written = Return (co', bufs') ∧
    Forall buf_ok bufs' ∧ enc_ok co' ∧ (∀ u, dec_ok co u → dec_ok co' u) ∧
    len bufs' ≤ len bufs ∧
    queued_bytes bufs' = drop (N.to_nat written) (queued_bytes bufs).
Proof.
  revert co written. induction bufs as [|b bufs IH]; intros co written Hb Hco Hw Hle.
  { exists co, []. unfold queued_bytes in *. simpl in *. rewrite len_nil in Hle.
    replace written with 0 by lia. split_and!; done. }
  cbn [advance_send_buffers]. destruct (N.ltb_spec 0 written) as [Hpos|Hz]; cycle 1.
  { exists co, (b :: bufs). replace written with 0 by lia. split_and!; done. }
  apply Forall_cons in Hb as [Hb Hbs].
  assert (queued_bytes (b :: bufs) = buf_unread b ++ queued_bytes bufs) as Hqb by done.
  rewrite Hqb, len_app in Hle. rewrite Hqb, (buf_remaining b Hb) in *.
  destruct (N.leb_spec (len (buf_unread b)) written) as [Hall|Hpart].
  - rewrite wsub_small by lia.
    destruct (IH (return_buffer co b) (written - len (buf_unread b)))
      as (co' & bufs' & He & Hb' & Hco' & Hd & Hl & Hq);
      [done|by apply return_ok|lia|lia|].
    exists co', bufs'. rewrite He, len_cons. split_and!; try done; [|lia|].
    + intros u Hu. by apply Hd, return_dec_ok.
    + rewrite Hq, drop_app_ge by (unfold len in *; lia). f_equal. unfold len. lia.
  - destruct (buf_advance b written Hb) as (b' & He & Hb' & Hu);
      [rewrite (buf_remaining b Hb); lia|].
    rewrite He. simpl. exists co, (b' :: bufs). split; [done|].
    split; [by constructor|]. split_and!; try done.
    unfold queued_bytes. rewrite fmap_cons. simpl.
    rewrite Hu, drop_app_le; [done|]. unfold len in *. lia.
Qed.

(** The parts of a connection that sending leaves alone. *)
Definition same_receive c c' : Prop :=
  receive_buffer_unread_index c' = receive_buffer_unread_index c ∧
  receive_buffer c' = receive_buffer c ∧ max_buffer_length c' = max_buffer_length c ∧
  max_queued_send_messages c' = max_queued_send_messages c ∧
  buffer_allocation_increment c' = buffer_allocation_increment c.

(** What sending does to a connection, in one step of it or in many: nothing is
    lost, repeated or reordered between the queue, the reactor, the send queue and
    the stream. *)
Record wrote (k : K) c c' : Prop := {
  wr_ok : send_ok c';
  wr_same : same_receive c c';
  wr_dec u : dec_ok (codec c) u → dec_ok (codec c') u;
  wr_inbound : inbound (stream c') = inbound (stream c);
  wr_outbound : outbound (stream c) `prefix_of` outbound (stream c');
  wr_sent : ∃ ms ls,
    outbound (stream c') ++ queued_bytes (send_buffer c')
      = outbound (stream c) ++ queued_bytes (send_buffer c) ++ wire_all ms ∧
    queue_waiting (outbound_messages c) = ls ++ queue_waiting (outbound_messages c') ∧
    sends k (reactor c) (outbound_messages c) ls ms (reactor c') (outbound_messages c') ∧
    len (send_buffer c') ≤ len (send_buffer c) + len ms;
}.

Lemma wrote_trans k c1 c2 c3 : wrote k c1 c2 → wrote k c2 c3 → wrote k c1 c3.
Proof.
  intros [_ (E1 & E2 & E3 & E4 & E5) D1 I1 P1 (ms1 & ls1 & O1 & W1 & S1 & L1)]
    [Hok (F1 & F2 & F3 & F4 & F5) D2 I2 P2 (ms2 & ls2 & O2 & W2 & S2 & L2)].
  split; [done|split_and!; congruence|auto|congruence|by etrans|].
  exists (ms1 ++ ms2), (ls1 ++ ls2). rewrite wire_all_app, len_app. split_and!.
  - by rewrite O2, !app_assoc, O1, !app_assoc.
  - by rewrite W1, W2, app_assoc.
  - by eapply sends_app.
  - lia.
Qed.

(** The stream moves on and the bytes do not. *)
Lemma wrote_stream k c s :
  send_ok c → inbound s = inbound (stream c) → outbound s = outbound (stream c) → wrote k c (set_stream c s).
Proof.
  intros [O1 O2 O3 O4 O5] Hin Hout. split; try done; [by simpl; rewrite Hout|]. exists [], []. simpl.
  rewrite Hout, app_nil_r. split_and!; [done|done|apply sends_nothing|lia].
Qed.

Lemma wrote_serialized k c :
  send_ok c →
  ∃ p c1, poll_serialize_outbound_messages c k = Return (p, c1) ∧ wrote k c c1 ∧ all_taken c1 ∧
    stream c1 = stream c.
Proof.
  intros Hok. destruct (poll_serialize_spec c k Hok) as (p & q & r & ls & ms & Hser). cbv zeta in Hser.
  destruct (encode_all_ok ms (codec c) (sd_enc _ Hok)) as (_ & _ & Hwire).
  destruct Hser as (Hse & Hok1 & Hser & Hwait & Htaken). do 2 eexists. split; [exact Hse|].
  split; [|done]. split; [done|done|intros u; apply encode_all_dec_ok|done|done|].
  exists ms, ls. simpl. split_and!; try done; [|by rewrite len_app, encode_all_len].
  unfold queued_bytes, wire_all. by rewrite fmap_app, concat_app, Hwire.
Qed.

(** Some bytes of the send queue go to the stream. *)
Lemma wrote_written k c s written :
  send_ok c → inbound s = inbound (stream c) → written < 2 ^ 64 →
  written ≤ len (concat (fill_slices (send_buffer c) 0)) →
  outbound s = outbound (stream c) ++ take (N.to_nat written) (concat (fill_slices (send_buffer c) 0)) →
  ∃ co bufs, advance_send_buffers (codec c) (send_buffer c) written = Return (co, bufs) ∧
    wrote k c (set_send (set_stream c s) bufs co).
Proof.
  intros [O1 O2 O3 O4 O5] Hin Hn Hle Hout.
  destruct (fill_slices_prefix (send_buffer c) 0 O3) as [tail Htail].
  destruct (advance_send_buffers_spec (codec c) (send_buffer c) written)
    as (co & bufs & Ha & Hb & He & Hd & Hl & Hq); [done..|rewrite Htail, len_app; lia|].
  exists co, bufs. split; [done|].
  split; [split; try done; simpl; lia|done|done|done|simpl; rewrite Hout; by apply prefix_app_r|].
  exists [], []. simpl. split_and!; [|done|apply sends_nothing|rewrite len_nil; lia].
  rewrite Hout, Hq, app_nil_r, <-app_assoc. f_equal.
  rewrite <-(take_drop (N.to_nat written) (queued_bytes (send_buffer c))) at 2. f_equal.
  rewrite Htail, take_app_le; [done|]. unfold len in Hle. lia.
Qed.

(** A whole [poll_writev_buffers]. *)
Lemma poll_writev_spec fuel c k :
  send_ok c → (patience (stream c) < fuel)%nat →
  ∃ res c', poll_writev_buffers fuel c k = Return (res, c') ∧ wrote k c c' ∧ all_taken c'.
Proof.
  revert c. induction fuel as [|fuel IH]; intros c Hok Hfuel; [lia|]. cbn [poll_writev_buffers].
  destruct (wrote_serialized k c Hok) as (p & c1 & -> & Hw1 & Ht1 & Hstream). cbn [run_bind].
  pose proof (wr_ok _ _ _ Hw1) as Hok1.
  assert (∀ (res : result bool IoError) c2, wrote k c1 c2 → all_taken c2 →
    ∃ res' c', Return (res, c2) = Return (res', c') ∧ wrote k c c' ∧ all_taken c') as Hend.
  { intros res c2 Hw2 Ht2. exists res, c2. split; [done|]. split; [by eapply wrote_trans|done]. }
  assert (∀ c2, wrote k c1 c2 → (patience (stream c2) < patience (stream c))%nat →
    ∃ res c', poll_writev_buffers fuel c2 k = Return (res, c') ∧ wrote k c c' ∧ all_taken c') as Hloop.
  { intros c2 Hw2 Hpa. destruct (IH c2 (wr_ok _ _ _ Hw2)) as (res & c' & He & Hw & Ht); [lia|].
    exists res, c'. split; [done|]. split; [|done]. eapply wrote_trans; [exact Hw1|]. by eapply wrote_trans. }
  destruct p as [u|]; [by exists (Ok true), c1|]. rewrite <-Hstream in *.
  destruct (send_buffer c1) as [|b1 bs1] eqn:Hsb.
  - pose proof (flush_law (stream c1) k) as Hfl.
    destruct (poll_flush (stream c1) k) as [p s]. destruct Hfl as (Hin & Hout & Hpa & Herr).
    pose proof (wrote_stream k c1 s Hok1 Hin Hout) as Hw2.
    destruct p as [[u|e]|]; [by apply Hend| |by apply Hend].
    destruct (would_block e || interrupted e); [|by apply Hend]. apply Hloop; [done|by apply (Herr e)].
  - rewrite <-Hsb. pose proof (write_law (stream c1) k (fill_slices (send_buffer c1) 0)) as Hwr.
    destruct (poll_write_vectored (stream c1) k _) as [p s]. destruct Hwr as [Hin Hwr].
    destruct p as [[written|e]|].
    + destruct Hwr as (Hn & Hn64 & Hout & Hpa). destruct (N.eqb_spec written 0) as [->|Hne].
      { apply Hend; [|done]. apply wrote_stream; [done..|]. by rewrite Hout, app_nil_r. }
      destruct (wrote_written k c1 s written) as (co & bufs & Ha & Hw2); [done..|].
      change (codec (set_stream c1 s)) with (codec c1). change (send_buffer (set_stream c1 s)) with (send_buffer c1).
      rewrite Ha. cbn [run_bind]. by apply Hloop.
    + destruct Hwr as [Hout Hpa]. pose proof (wrote_stream k c1 s Hok1 Hin Hout) as Hw2.
      destruct e as [| |e]; simpl; [by apply Hloop..|by apply Hend].
    + destruct Hwr as [Hout Hpa]. apply Hend; [by apply wrote_stream|done].
Qed.
End send.

(** ** Whole polls *)

Section polls.
Context {S Q C B R K In Out L : Type} {limit : usize}.
Context `{AsyncStreamLaws S K} `{OutboundQueueLaws Q K L}.
Context `{CodecLaws C In Out B limit} `{!BufWhole B}.
Context `{MR : !MessageReactor R K C B In Out L} `{!MessageReactorLaws R K C B In Out L}.
Abbreviation Conn := (Connection S Q C B R).
Implicit Types c : Conn.

(** The invariant of a connection between polls. *)
Record conn_ok c : Prop := {
  cn_recv : recv_ok c;
  cn_send : send_ok c;
}.

Lemma recv_ok_same c c' :
  same_receive c c' → (dec_ok (codec c) (unread_bytes c) → dec_ok (codec c') (unread_bytes c)) →
  enc_ok (codec c') → recv_ok c → recv_ok c'.
Proof.
  intros (E1 & E2 & E3 & E4 & E5) Hd He [P1 P2 P3 P4 P5 P6].
  assert (unread_bytes c' = unread_bytes c) as Hu by (unfold unread_bytes; by rewrite E1, E2).
  split; rewrite ?Hu, ?E1, ?E2, ?E5; try done; [by apply (params_ok_same c)|by apply Hd].
Qed.

(** A poll always returns; it reads some bytes and the reactor gets what they
    frame; when the connection goes on it is in order, and what it took from the
    queue and from its reactor is on its way. *)
Lemma poll_spec fuel c k :
  conn_ok c → (patience (stream c) < fuel)%nat →
  ∃ p c' read, poll fuel c k = Return (p, c') ∧
    inbound (stream c') = inbound (stream c) ++ read ∧
    let '(ms, rest, live) := frames (unread_bytes c ++ read) in
    (∃ r ls out, (r = (deliver (reactor c) ms).1 ∨ r = (reactor_poll (deliver (reactor c) ms).1 k).2) ∧
       sends k r (outbound_messages c) ls out (reactor c') (outbound_messages c')) ∧
    (p = Pending → conn_ok c' ∧ live = true ∧ (deliver (reactor c) ms).2 = true ∧
       unread_bytes c' = rest ∧ all_taken c' ∧
       ∃ r ls out, reactor_poll (deliver (reactor c) ms).1 k = (Continue, r) ∧
         queue_waiting (outbound_messages c) = ls ++ queue_waiting (outbound_messages c') ∧
         sends k r (outbound_messages c) ls out (reactor c') (outbound_messages c') ∧
         outbound (stream c') ++ queued_bytes (send_buffer c')
           = outbound (stream c) ++ queued_bytes (send_buffer c) ++ wire_all out ∧
         len (send_buffer c') ≤ len (send_buffer c) + len out ∧
         max_queued_send_messages c' = max_queued_send_messages c ∧
         outbound (stream c) `prefix_of` outbound (stream c')).
Proof.
  intros [Hr Hs] Hfuel. unfold poll.
  destruct (poll_receive_spec fuel c k Hr Hfuel) as (p & s & i & b & co & read & Hrec).
  destruct (frames (unread_bytes c ++ read)) as [[ms rest] live] eqn:Hfr.
  destruct (deliver (reactor c) ms) as [r go] eqn:Hdl. cbv zeta in Hrec.
  set (c1 := set_codec_reactor _ co r) in *.
  destruct Hrec as (He & Hin1 & Hout1 & Hpa & Henc & _ & Hpend).
  assert (send_ok c1) as Hs1 by (by destruct Hs).
  assert (stream c1 = s ∧ reactor c1 = r ∧ send_buffer c1 = send_buffer c ∧
    outbound_messages c1 = outbound_messages c ∧
    max_queued_send_messages c1 = max_queued_send_messages c) as (Ec1 & Ec2 & Ec3 & Ec4 & Ec5) by done.
  clearbody c1. rewrite He. cbn [run_bind].
  destruct p as [u|].
  { exists (Ready tt), c1, read. rewrite Hfr, Hdl, Ec1, Ec2, Ec4. split; [done|]. split; [done|].
    split; [|done]. exists r, [], []. split; [by left|apply sends_nothing]. }
  destruct (Hpend eq_refl) as (-> & -> & Hr1 & Hrest).
  destruct (reactor_poll (reactor c1) k) as [[|] r2] eqn:Hrp; cycle 1.
  { exists (Ready tt), (set_reactor c1 r2), read. rewrite Hfr, Hdl. simpl. rewrite Ec1, Ec4.
    split; [done|]. split; [done|]. split; [|done]. exists r2, [], [].
    split; [right; by rewrite <-Ec2, Hrp|apply sends_nothing]. }
  assert (recv_ok (set_reactor c1 r2)) as Hr2 by (by apply (recv_ok_same c1); destruct Hr1).
  assert (send_ok (set_reactor c1 r2)) as Hs2 by (by destruct Hs1).
  destruct (poll_writev_spec fuel (set_reactor c1 r2) k Hs2)
    as (res & c2 & He2 & [Hs3 Hsame Hd Hin2 Hpre (ms2 & ls & Hout2 & Hw2 & Hse2 & Hn2)] & Htk);
    [simpl; rewrite Ec1; lia|].
  rewrite He2. cbn [run_bind].
  assert (recv_ok c2) as Hr3.
  { apply (recv_ok_same (set_reactor c1 r2)); [done|apply Hd|by apply sd_enc|done]. }
  simpl in Hin2, Hout2, Hw2, Hse2, Hn2. rewrite Ec3 in Hn2. rewrite Ec1 in Hin2, Hout2. rewrite Ec3 in Hout2. rewrite Ec4 in Hw2, Hse2.
  rewrite Hin1 in Hin2. rewrite Hout1 in Hout2. rewrite Ec2 in Hrp.
  assert (unread_bytes c2 = rest) as Hu2.
  { destruct Hsame as (F1 & F2 & _). unfold unread_bytes in *. by rewrite F1, F2. }
  assert (∃ q, match res with
    | Ok false => Return (Pending, c2) | Ok true => Return (Ready tt, c2) | Err _ => Return (Ready tt, c2)
    end = Return (q, c2)) as [q Hq] by (destruct res as [[|]|]; by eexists).
  exists q, c2, read. rewrite Hfr, Hdl. split; [exact Hq|]. split; [exact Hin2|].
  split; [exists r2, ls, ms2; split; [right; by simpl; rewrite Hrp|done]|].
  intros _. split; [by split|]. split_and!; try done.
  exists r2, ls, ms2. split_and!; try done; [destruct Hsame as (_ & _ & _ & -> & _); exact Ec5|].
  simpl in Hpre. by rewrite Ec1, Hout1 in Hpre.
Qed.

(** A new connection is in order. *)
Lemma new_ok s co (max_buffer increment max_queued : usize) q r :
  max_buffer = limit → 0 < limit → 0 < increment → limit + increment < 2 ^ 63 →
  max_queued < 2 ^ 63 → dec_ok co [] → enc_ok co → queue_ok q →
  conn_ok (new s co max_buffer increment max_queued q r).
Proof.
  intros -> Hl Hi Hw Hq Hd He Hqok. split; split; try done; simpl; rewrite ?len_nil; lia.
Qed.
End polls.

(** ** A concrete instance, for the examples *)

Module Demo.
Import WakerCell.

(** A stream that follows a script: what it gives to reads and takes from writes. *)
Record ScriptedStream := mkScriptedStream {
  sc_reads : list (result bytes IoError);
  sc_writes : list (result usize IoError);
  sc_inbound : bytes;
  sc_outbound : bytes;
}.

Definition scripted_read (s : ScriptedStream) (_ : nat) (room : usize)
  : Poll (result bytes IoError) * ScriptedStream :=
  if room =? 0 then (Pending, s) else
  match sc_reads s with
  | [] => (Pending, s)
  | Ok bs :: reads =>
      if len bs <=? room
      then (Ready (Ok bs), mkScriptedStream reads (sc_writes s) (sc_inbound s ++ bs) (sc_outbound s))
      else (Ready (Ok (take (N.to_nat room) bs)),
            mkScriptedStream (Ok (drop (N.to_nat room) bs) :: reads) (sc_writes s)
              (sc_inbound s ++ take (N.to_nat room) bs) (sc_outbound s))
  | Err e :: reads =>
      (Ready (Err e), mkScriptedStream reads (sc_writes s) (sc_inbound s) (sc_outbound s))
  end.

Definition scripted_write (s : ScriptedStream) (_ : nat) (slices : list bytes)
  : Poll (result usize IoError) * ScriptedStream :=
  match sc_writes s with
  | [] => (Pending, s)
  | Ok n :: writes =>
      let n := N.min (N.min n (len (concat slices))) (2 ^ 63) in
      (Ready (Ok n), mkScriptedStream (sc_reads s) writes (sc_inbound s)
                       (sc_outbound s ++ take (N.to_nat n) (concat slices)))
  | Err e :: writes =>
      (Ready (Err e), mkScriptedStream (sc_reads s) writes (sc_inbound s) (sc_outbound s))
  end.

#[export] Instance scripted_stream : AsyncStream ScriptedStream nat := {|
  poll_read := scripted_read;
  poll_write_vectored := scripted_write;
  poll_flush s _ := (Ready (Ok tt), s);
|}.

Definition read_patience (r : result bytes IoError) : nat :=
  match r with Ok bs => S (length bs) | Err _ => 1 end.

Fixpoint reads_patience (rs : list (result bytes IoError)) : nat :=
  match rs with [] => 0 | r :: rs => read_patience r + reads_patience rs end.

#[export] Instance scripted_stream_laws : AsyncStreamLaws ScriptedStream nat.
Proof.
  refine {| inbound := sc_inbound; outbound := sc_outbound;
            patience s := (reads_patience (sc_reads s) + length (sc_writes s))%nat |}.
  - intros [reads writes i o] k room. simpl. unfold scripted_read. simpl.
    destruct (N.eqb_spec room 0) as [|Hroom]; [done|].
    destruct reads as [|[bs|e] reads]; simpl;
      [split_and!; try done; lia| |split_and!; try done; lia].
    destruct (N.leb_spec (len bs) room); simpl;
      [split_and!; try done; lia|].
    split; [done|]. rewrite len_take, length_drop. split_and!; [lia|done|].
    unfold len in *. lia.
  - intros [reads writes i o] k slices. simpl. unfold scripted_write. simpl.
    destruct writes as [|[n|e] writes]; simpl;
      [split_and!; try done; lia| |split_and!; try done; lia].
    split; [done|]. split_and!; [lia|lia|done|lia].
  - intros s k. simpl. split_and!; done.
Defined.

(** A codec: the first byte of a frame is its length; a 0 is a byte to skip and
    a 1 is no frame.  The message is the second byte. *)
Definition frame_limit : usize := 16.

Definition byte_frame (u : bytes) : result (usize * u8) DeserializeError :=
  match u with
  | [] => Err (IncompleteBuffer 1)
  | t :: rest =>
      if t =? 0 then Err (SkipMessage 1)
      else if t =? 1 then Err InvalidBuffer
      else if len u <? t then Err (IncompleteBuffer t)
      else Ok (t, hd 0 rest)
  end.

#[export] Instance byte_serialize : Serialize unit u8 :=
  {| serialize_into_buffer s m buf := (buf ++ [2; m], s) |}.
#[export] Instance byte_serialize_laws : SerializeLaws unit u8.
Proof. by refine {| serialized m := [2; m] |}. Defined.

#[export] Instance byte_decoder : Decoder unit u8 := {| decode d u := (byte_frame u, d) |}.

#[export] Instance byte_decoder_laws : DecoderLaws unit u8 frame_limit.
Proof.
  refine {| frame := byte_frame; dec_ok _ _ := True |}; try done.
  - intros d u _ _ _. split; [done|]. by destruct (byte_frame u) as [[]|[]].
  - intros [|t u] n m; simpl; [done|]. unfold byte_frame. if_cases; intros; simplify_eq.
    apply N.ltb_ge in Heqb1. apply N.eqb_neq in Heqb. lia.
  - intros [|t u] n; unfold byte_frame; if_cases; intros; simplify_eq.
    + done.
    + by apply N.ltb_lt in Heqb1.
  - intros [|t u] n; unfold byte_frame; if_cases; intros; simplify_eq. by unfold frame_limit.
  - intros [|t u] v r Hu <- Hinc _; [done|]. unfold byte_frame in *. simpl.
    destruct (t =? 0) eqn:Ht0, (t =? 1) eqn:Ht1; try done.
    apply N.eqb_neq in Ht0, Ht1.
    destruct (N.ltb_spec (len (t :: u)) t) as [|Hle]; [by destruct (Hinc t)|].
    destruct (N.ltb_spec (len (t :: u ++ v)) t) as [Hl|].
    + rewrite len_cons, len_app in Hl. rewrite len_cons in Hle. lia.
    + destruct u; [|done]. rewrite len_cons, len_nil in Hle. lia.
Defined.

(** A reactor that keeps what it gets and echoes it; a 255 makes it disconnect. *)
Record EchoReactor := mkEchoReactor {
  echo_received : list u8;
  echo_pending : list u8;
}.

Section echo.
Context {C B : Type} `{Encoder C u8 B}.

Definition echo_inbound (r : EchoReactor) (m : u8) : ReactorStatus * EchoReactor :=
  if m =? 255 then (StatusDisconnect, r)
  else (StatusContinue, mkEchoReactor (echo_received r ++ [m]) (echo_pending r ++ [m])).

Fixpoint echo_send (pending : list u8) (b : SendBudget C B) : list u8 * SendBudget C B :=
  match pending with
  | [] => ([], b)
  | m :: rest =>
      match reserve b with
      | Some p => echo_send rest (permit_send p m)
      | None => (pending, b)
      end
  end.

#[export] Instance echo_reactor : MessageReactor EchoReactor nat C B u8 u8 u8 := {|
  on_inbound_message := echo_inbound;
  reactor_poll := reactor_poll_default;
  on_outbound_message r l := (l, r);
  poll_outbound_many r _ b :=
    let '(rest, b') := echo_send (echo_pending r) b in
    (match echo_pending r with [] => Ready None | _ => Ready (Some tt) end,
     mkEchoReactor (echo_received r) rest, b');
|}.

#[export] Instance echo_reactor_laws : MessageReactorLaws EchoReactor nat C B u8 u8 u8.
Proof.
  assert (∀ pending b, ∃ ms, budget_uses b ms (echo_send pending b).2) as Hsend.
  { induction pending as [|m rest IH]; intros b; simpl; [exists []; constructor|].
    destruct (reserve b) as [p|] eqn:Hp; [|exists []; constructor].
    destruct (IH (permit_send p m)) as [ms Hms]. exists (m :: ms). by econstructor. }
  split. intros r k b _. simpl. destruct (Hsend (echo_pending r) b) as [ms Hms].
  exists ms. by destruct (echo_send (echo_pending r) b).
Qed.
End echo.

Abbreviation DemoQueue := (Shared (option nat) u8 * Receiver u8)%type.
Abbreviation DemoConnection :=
  (Connection ScriptedStream DemoQueue (unit * unit) OwnedBuffer EchoReactor).

(** A channel to feed connections from, with two messages in it. *)
Definition demo_queue : DemoQueue :=
  (mkShared [mkChute [41; 42] false; mkChute [] true] None 1 1 2 8 false, mkReceiver 0 []).

Definition demo_connection (reads : list (result bytes IoError))
  (writes : list (result usize IoError)) : DemoConnection :=
  new (mkScriptedStream reads writes [] []) (tt, tt) frame_limit 5 4 demo_queue
    (mkEchoReactor [] []).

Lemma demo_connection_ok reads writes :
  conn_ok (K:=nat) (L:=u8) (In:=u8) (Out:=u8) (limit:=frame_limit) (demo_connection reads writes).
Proof. apply new_ok; try done. apply channel_invb_sound. vm_compute. reflexivity. Qed.

(** A message cut in the middle by the stream, a skip, then two messages. *)
Definition demo_reads : list (result bytes IoError) :=
  [Ok [2]; Ok [11; 0; 2; 12; 3]; Err Interrupted; Ok [13; 0; 2]].

Example demo_poll :
  (let* '(p, c) := poll (In:=u8) (Out:=u8) (L:=u8) 50 (demo_connection demo_reads [Ok 3; Ok 100]) 0%nat in
   Return (p, echo_received (reactor c), unread_bytes c, sc_outbound (stream c)))
  = Return (Pending, [11; 12; 13], [2], [2; 41; 2; 42; 2; 11; 2; 12; 2; 13]).
Proof. vm_compute. reflexivity. Qed.
End Demo.

(** The same for a call that is known to have read [read]. *)
Section receive_result.
Context {S Q C B R K In Out L : Type} {limit : usize}.
Context `{AsyncStreamLaws S K} `{OutboundQueue Q K L}.
Context `{CodecLaws C In Out B limit} `{MR : !MessageReactor R K C B In Out L}.

Lemma poll_receive_result fuel (c c' : Connection S Q C B R) k p read :
  recv_ok c → (patience (stream c) < fuel)%nat →
  poll_receive fuel c k = Return (p, c') →
  inbound (stream c') = inbound (stream c) ++ read →
  let '(ms, rest, _) := frames (unread_bytes c ++ read) in
  reactor c' = (deliver (reactor c) ms).1 ∧ (p = Pending → unread_bytes c' = rest).
Proof.
  intros Hok Hfuel Hpoll Hread.
  destruct (poll_receive_spec fuel c k Hok Hfuel) as (p' & s & i & b & co & read' & Hrec).
  destruct (frames (unread_bytes c ++ read')) as [[ms rest] live] eqn:Hfr.
  destruct (deliver (reactor c) ms) as [r go] eqn:Hdl. cbv zeta in Hrec.
  destruct Hrec as (He & Hin & _ & _ & _ & _ & Hpend).
  rewrite Hpoll in He. simplify_eq. simpl in Hread. rewrite Hread in Hin.
  apply app_inv_head in Hin as ->. rewrite Hfr, Hdl. split; [done|].
  intros Hp. by destruct (Hpend Hp) as (_ & _ & _ & ?).
Qed.
End receive_result.

(** ** The theorems about connections *)

Module Connections.
Import WakerCell Demo.

Section claims.
Context {S Q C B R K In Out L : Type} {limit : usize}.
Context `{AsyncStreamLaws S K} `{OutboundQueueLaws Q K L}.
Context `{CodecLaws C In Out B limit} `{!BufWhole B}.
Context `{MR : !MessageReactor R K C B In Out L} `{!MessageReactorLaws R K C B In Out L}.
Abbreviation Conn := (Connection S Q C B R).

(** C9: receiving is framing: one [poll_receive] reads some bytes, and the
    reactor is given exactly the messages framed in the unread bytes followed by
    those bytes, in order, until it or a broken stream ends the connection; when
    the connection goes on, every whole message has been delivered and only the
    beginning of the next one is kept. *)
Theorem receive_delivers (c : Conn) (fuel : nat) (k : K)
  (Hok : recv_ok c) (Hfuel : (patience (stream c) < fuel)%nat) :
  ∃ p c' read, poll_receive fuel c k = Return (p, c') ∧
    inbound (stream c') = inbound (stream c) ++ read ∧
    let '(ms, rest, live) := frames (unread_bytes c ++ read) in
    reactor c' = (deliver (reactor c) ms).1 ∧
    (p = Pending → live = true ∧ (deliver (reactor c) ms).2 = true ∧
                   unread_bytes c' = rest ∧ recv_ok c') ∧
    send_buffer c' = send_buffer c ∧ outbound (stream c') = outbound (stream c).
Proof.
  destruct (poll_receive_spec fuel c k Hok Hfuel) as (p & s & i & b & co & read & Hrec).
  destruct (frames (unread_bytes c ++ read)) as [[ms rest] live] eqn:Hfr.
  destruct (deliver (reactor c) ms) as [r go] eqn:Hdl. cbv zeta in Hrec.
  destruct Hrec as (He & Hin & Hout & _ & _ & _ & Hpend).
  do 2 eexists. exists read. rewrite Hfr, Hdl. split; [exact He|]. split; [done|].
  split; [done|]. split; [|done]. intros Hp. by destruct (Hpend Hp) as (-> & -> & Hr & Hu).
Qed.

(** C23: how the network cuts the stream does not matter: two connections that
    start with the same reactor and unread bytes and that read the same bytes,
    in whatever pieces, interruptions and buffer sizes, end with the same
    reactor and the same unread bytes. *)
Theorem chunking_irrelevant (c1 c2 c1' c2' : Conn) (fuel1 fuel2 : nat) (k1 k2 : K) (read : bytes)
  (Hok1 : recv_ok c1) (Hok2 : recv_ok c2)
  (Hfuel1 : (patience (stream c1) < fuel1)%nat) (Hfuel2 : (patience (stream c2) < fuel2)%nat)
  (Hreactor : reactor c1 = reactor c2) (Hunread : unread_bytes c1 = unread_bytes c2)
  (Hpoll1 : poll_receive fuel1 c1 k1 = Return (Pending, c1'))
  (Hpoll2 : poll_receive fuel2 c2 k2 = Return (Pending, c2'))
  (Hread1 : inbound (stream c1') = inbound (stream c1) ++ read)
  (Hread2 : inbound (stream c2') = inbound (stream c2) ++ read) :
  reactor c1' = reactor c2' ∧ unread_bytes c1' = unread_bytes c2'.
Proof.
  pose proof (poll_receive_result _ _ _ _ _ _ Hok1 Hfuel1 Hpoll1 Hread1) as Hr1.
  pose proof (poll_receive_result _ _ _ _ _ _ Hok2 Hfuel2 Hpoll2 Hread2) as Hr2.
  rewrite Hreactor, Hunread in Hr1. destruct (frames (unread_bytes c2 ++ read)) as [[ms rest] live].
  destruct Hr1 as [-> Hu1], Hr2 as [-> Hu2]. split; [done|]. by rewrite Hu1, Hu2.
Qed.

(** C11: sending is lossless and in order: whatever [poll_writev_buffers] does
    (partial writes, several rounds, errors), the bytes written to the stream
    followed by those still queued are what was written and queued before,
    followed by the wire bytes of the messages it took on; these are the messages
    it took from the front of the queue, each as the reactor turned it out, in
    order, and those the reactor sent itself; what was written stays, the send
    queue stays within its bound, and a message is left in the queue only when the
    send queue is full. *)
Theorem writes_in_order (c : Conn) (fuel : nat) (k : K)
  (Hok : send_ok c) (Hfuel : (patience (stream c) < fuel)%nat) :
  ∃ res c' ms ls, poll_writev_buffers fuel c k = Return (res, c') ∧ send_ok c' ∧
    outbound (stream c') ++ queued_bytes (send_buffer c')
      = outbound (stream c) ++ queued_bytes (send_buffer c) ++ wire_all ms ∧
    queue_waiting (outbound_messages c) = ls ++ queue_waiting (outbound_messages c') ∧
    sends k (reactor c) (outbound_messages c) ls ms (reactor c') (outbound_messages c') ∧ all_taken c' ∧
    len (send_buffer c') ≤ max_queued_send_messages c ∧ inbound (stream c') = inbound (stream c) ∧
    outbound (stream c) `prefix_of` outbound (stream c').
Proof.
  destruct (poll_writev_spec fuel c k Hok Hfuel)
    as (res & c' & He & [Hok' Hsame _ Hin Hpre (ms & ls & Hout & Hw & Hl & _)] & Ht).
  exists res, c', ms, ls. split_and!; try done.
  destruct Hsame as (_ & _ & _ & Hm & _). rewrite <-Hm. by apply sd_len.
Qed.

(** C15: a poll returns and memory stays bounded, under two conditions.  The decoder
    meets [DecoderLaws] for the limit of the connection: it waits only for more than
    it was shown, skips at most the limit and takes what it was given; and the stream
    is ready only so many times before it is pending, its [patience], which the fuel
    exceeds.  Then, from a connection in order, [poll] comes to an end; a connection
    that goes on is in order again, its receive buffer below the limit plus one
    increment and its send queue within its bound.  Without the first condition the
    receive loop need not end ([full_buffer_wedges]). *)
Theorem poll_total_and_bounded (c : Conn) (fuel : nat) (k : K)
  (Hok : conn_ok c) (Hfuel : (patience (stream c) < fuel)%nat) :
  ∃ p c', poll fuel c k = Return (p, c') ∧
    (p = Pending → conn_ok c' ∧
       len (receive_buffer c') < limit + buffer_allocation_increment c' ∧
       receive_buffer_unread_index c' < limit ∧
       len (send_buffer c') ≤ max_queued_send_messages c').
Proof.
  destruct (poll_spec fuel c k Hok Hfuel) as (p & c' & read & He & _ & Hp). exists p, c'.
  destruct (frames (unread_bytes c ++ read)) as [[ms rest] live].
  destruct Hp as [_ Hp].
  split; [done|]. intros Hpend. destruct (Hp Hpend) as [[Hr Hs] _]. split; [by split|].
  split_and!; [apply Hr| |apply Hs].
  rewrite <-len_unread by apply Hr.
  apply frames_stuck_short; [apply (ro_params _ Hr)|apply Hr].
Qed.

(** C16: one poll, seen whole: it reads some bytes and gives the reactor what they
    frame behind the bytes that waited; if the connection goes on, the rest of
    those bytes waits, the reactor has then been polled, and what the poll took
    from the front of the queue and from the reactor, and nothing else, follows on
    the stream and in the send queue; a message is left in the queue only behind a
    full send queue. *)
Theorem poll_exchanges (c : Conn) (fuel : nat) (k : K)
  (Hok : conn_ok c) (Hfuel : (patience (stream c) < fuel)%nat) :
  ∃ p c' read, poll fuel c k = Return (p, c') ∧
    inbound (stream c') = inbound (stream c) ++ read ∧
    let '(ms, rest, live) := frames (unread_bytes c ++ read) in
    (p = Pending → live = true ∧ unread_bytes c' = rest ∧ all_taken c' ∧
       ∃ r r1 ls out, deliver (reactor c) ms = (r, true) ∧ reactor_poll r k = (Continue, r1) ∧
         queue_waiting (outbound_messages c) = ls ++ queue_waiting (outbound_messages c') ∧
         sends k r1 (outbound_messages c) ls out (reactor c') (outbound_messages c') ∧
         outbound (stream c') ++ queued_bytes (send_buffer c')
           = outbound (stream c) ++ queued_bytes (send_buffer c) ++ wire_all out).
Proof.
  destruct (poll_spec fuel c k Hok Hfuel) as (p & c' & read & He & Hin & Hp).
  exists p, c', read. destruct (frames (unread_bytes c ++ read)) as [[ms rest] live].
  destruct Hp as [_ Hp]. split; [done|]. split; [done|]. intros Hpend.
  destruct (Hp Hpend) as (_ & Hl & Hgo & Hu & Ht & r & ls & out & Hrp & Hq & Hs & Hout & _).
  split_and!; try done. destruct (deliver (reactor c) ms) as [r0 go]. simpl in *. subst go.
  by exists r0, r, ls, out.
Qed.

(** A decoder that answers for the whole of a full receive buffer with a
    demand the buffer can never meet (skip more than it holds, or wait for no
    more than the limit) makes [poll_receive] spin for ever: no fuel is enough. *)
Theorem full_buffer_wedges (c : Conn) (fuel : nat) (k : K)
  (Hfull : receive_buffer_unread_index c = len (receive_buffer c))
  (Hmax : max_buffer_length c ≤ len (receive_buffer c)) (Hne : receive_buffer c ≠ [])
  (Hlen : len (receive_buffer c) < 2 ^ 63)
  (Hdecode : ∃ n, decode (codec c) (receive_buffer c) = (Err (SkipMessage n), codec c) ∧
                  len (receive_buffer c) < n
               ∨ decode (codec c) (receive_buffer c) = (Err (IncompleteBuffer n), codec c) ∧
                  n ≤ max_buffer_length c) :
  poll_receive fuel c k = OutOfFuel.
Proof.
  assert (0 < len (receive_buffer c)) as Hpos.
  { destruct (N.eq_dec (len (receive_buffer c)) 0) as [Hz|]; [|lia]. by apply len_zero in Hz. }
  assert (read_inbound_messages_and_react
    (Datatypes.S (N.to_nat (receive_buffer_unread_index c))) c = Return (RBPending, c)) as Hread.
  { unfold read_inbound_messages_and_react. cbn [decode_loop].
    rewrite Hfull, (proj2 (N.eqb_neq _ _)) by lia.
    rewrite (proj2 (N.ltb_ge _ 0)) by lia. rewrite N.ltb_irrefl.
    change (drop (N.to_nat 0) ?l) with l. rewrite take_ge by (unfold len; lia).
    assert (set_codec_reactor c (codec c) (reactor c) = c) as Hid by (by destruct c).
    destruct Hdecode as [n [[-> Hn]|[-> Hn]]]; rewrite Hid.
    - rewrite wsub_small, N.sub_0_r by lia.
      by rewrite (proj2 (N.ltb_lt _ _) Hn).
    - by rewrite (proj2 (N.ltb_ge _ _) Hn). }
  induction fuel as [|fuel IH]; [done|]. cbn [poll_receive]. unfold poll_read_inbound.
  rewrite (proj2 (N.ltb_ge _ _) Hmax). simpl andb. cbn match. rewrite Hfull.
  rewrite wsub_small, N.sub_diag by lia. cbn [N.ltb N.compare run_bind].
  rewrite Hread. exact IH.
Qed.

(** A decoder that claims to have consumed more than it was given makes the
    connection panic: the error that the loop prepares for this case is never
    reported, because the shift of the buffer is done first. *)
Theorem overconsumption_panics (c : Conn) (fuel : nat) (n : usize) (m : In) (co : C) (r : R)
  (Hun : receive_buffer_unread_index c ≤ len (receive_buffer c)) (Hne : unread_bytes c ≠ [])
  (Hdecode : decode (codec c) (unread_bytes c) = (Ok (n, m), co))
  (Hn : receive_buffer_unread_index c < n < 2 ^ 64)
  (Hreactor : on_inbound_message (reactor c) m = (StatusContinue, r)) :
  read_inbound_messages_and_react (Datatypes.S (Datatypes.S fuel)) c = Panic.
Proof.
  pose proof (len_unread c Hun) as Hlu.
  assert (receive_buffer_unread_index c ≠ 0) as Hz by (rewrite <-Hlu, len_zero; done).
  unfold read_inbound_messages_and_react. cbn [decode_loop].
  rewrite (proj2 (N.eqb_neq _ _)) by lia. rewrite (proj2 (N.ltb_ge _ 0)) by lia.
  rewrite (proj2 (N.ltb_ge _ _) Hun). change (drop (N.to_nat 0) ?l) with l.
  fold (unread_bytes c). rewrite Hdecode.
  change (reactor (set_codec_reactor c co (reactor c))) with (reactor c). rewrite Hreactor.
  rewrite wadd_small, N.add_0_l by lia.
  set (c1 := set_reactor _ r).
  change (receive_buffer_unread_index c1) with (receive_buffer_unread_index c).
  rewrite (proj2 (N.eqb_neq _ _)) by lia. rewrite (proj2 (N.ltb_lt _ _)) by lia.
  cbn [run_bind]. unfold shift_consumed.
  change (receive_buffer_unread_index c1) with (receive_buffer_unread_index c).
  rewrite (proj2 (N.eqb_neq n 0)) by lia. rewrite (proj2 (N.eqb_neq n _)) by lia. simpl.
  unfold copy_to_front. by rewrite (proj2 (N.ltb_lt _ n)) by lia.
Qed.
End claims.

(** Two ends of the same codec: what one side encodes, the other one frames. *)
Section roundtrip.
Context {S Q C B R K M L : Type} {limit : usize}.
Context `{AsyncStreamLaws S K} `{OutboundQueueLaws Q K L}.
Context `{CodecLaws C M M B limit}.
Context `{MR : !MessageReactor R K C B M M L}.
Abbreviation Conn := (Connection S Q C B R).

Lemma frames_wire (ms : list M) (v : bytes) :
  (∀ m v, frame (wire m ++ v) = Ok (len (wire m), m)) →
  frames (wire_all ms ++ v) = (let '(ms', rest, live) := frames v in (ms ++ ms', rest, live)).
Proof. intros Hw. apply (frames_encoded wire (λ _, True)); [auto|by apply Forall_true]. Qed.

(** C22: the round trip over a stream: when a peer's messages [ms], encoded, are
    what a connection with nothing unread reads, in whatever pieces, its reactor
    is given [ms], each once and in order, and nothing is left over. *)
Theorem messages_arrive (c c' : Conn) (fuel : nat) (k : K) (p : Poll unit) (ms : list M)
  (Hwire : ∀ m v, frame (wire m ++ v) = Ok (len (wire m), m))
  (Hok : recv_ok c) (Hfuel : (patience (stream c) < fuel)%nat) (Hempty : unread_bytes c = [])
  (Hpoll : poll_receive fuel c k = Return (p, c'))
  (Hread : inbound (stream c') = inbound (stream c) ++ wire_all ms) :
  reactor c' = (deliver (reactor c) ms).1 ∧ (p = Pending → unread_bytes c' = []).
Proof.
  pose proof (poll_receive_result _ _ _ _ _ _ Hok Hfuel Hpoll Hread) as Hr.
  pose proof (frames_wire ms [] Hwire) as Hfr. rewrite app_nil_r in Hfr.
  change (frames []) with (([] : list M), ([] : bytes), true) in Hfr. cbv beta iota in Hfr.
  rewrite app_nil_r in Hfr.
  rewrite Hempty in Hr. simpl in Hr. by rewrite Hfr in Hr.
Qed.
End roundtrip.

(** ** Closing, and buffers in pieces *)

(** A channel whose only sender sent a message and was dropped. *)
Definition closed_queue : DemoQueue :=
  (mkShared [mkChute [41] false; mkChute [] true] None 0 1 1 8 false, mkReceiver 0 []).

Definition closing_connection : DemoConnection :=
  new (mkScriptedStream [] [Ok 100] [] []) (tt, tt) frame_limit 5 4 closed_queue
    (mkEchoReactor [] []).

(** A message accepted by the channel is lost when its sender goes away
    before the connection is polled: the poll takes it from the queue, encodes
    it, sees the end of the queue and finishes without writing a byte, although
    the stream would take it. *)
Theorem closing_drops_messages :
  conn_ok (K:=nat) (L:=u8) (In:=u8) (Out:=u8) (limit:=frame_limit) closing_connection ∧
  ∃ c', poll (In:=u8) (Out:=u8) (L:=u8) 5 closing_connection 0%nat = Return (Ready tt, c') ∧
    queue_waiting (L:=u8) (outbound_messages closing_connection) = [41] ∧
    queue_waiting (L:=u8) (outbound_messages c') = [] ∧
    outbound (stream c') = [] ∧ queued_bytes (send_buffer c') = [2; 41].
Proof.
  split.
  - apply new_ok; try done. apply channel_invb_sound. vm_compute. reflexivity.
  - eexists. split; [vm_compute; reflexivity|]. vm_compute. done.
Qed.

(** A buffer in two pieces that does not override [chunks_vectored]: the default
    presents the first piece that is left. *)
Record TwoPieces := mkTwoPieces { piece1 : bytes; piece2 : bytes }.

Definition two_chunk (b : TwoPieces) : bytes :=
  match piece1 b with [] => piece2 b | _ => piece1 b end.

Definition two_remaining (b : TwoPieces) : usize := len (piece1 b) + len (piece2 b).

Definition two_advance (b : TwoPieces) (n : usize) : run TwoPieces :=
  if n <=? two_remaining b
  then Return (mkTwoPieces (drop (N.to_nat n) (piece1 b))
                 (drop (N.to_nat n - length (piece1 b)) (piece2 b)))
  else Panic.

#[local] Instance two_buf : Buf TwoPieces := {|
  remaining := two_remaining;
  chunk := two_chunk;
  advance := two_advance;
  chunks_vectored b k :=
    match k with O => [] | _ => if 0 <? two_remaining b then [two_chunk b] else [] end;
|}.

(** It keeps to the documentation of the trait. *)
#[local] Instance two_laws : BufLaws TwoPieces.
Proof.
  refine {| buf_ok b := len (piece1 b) + len (piece2 b) < 2 ^ 63;
            buf_unread b := piece1 b ++ piece2 b |}; intros [p1 p2]; simpl.
  - intros _. by rewrite len_app.
  - by rewrite len_app.
  - intros n Hok Hn. unfold two_advance. apply N.leb_le in Hn as ->. eexists.
    split; [done|]. simpl. rewrite !len_drop, drop_app. split; [|done].
    unfold len in *. rewrite length_drop. lia.
  - intros [|k] _; simpl; if_cases; simpl; lia.
  - intros [|k] _; [apply prefix_nil|]. unfold two_chunk, two_remaining. simpl.
    destruct (0 <? _); [|apply prefix_nil]. simpl. rewrite app_nil_r.
    destruct p1; [done|]. by exists p2.
  - intros [|k] _ Hk Hne; [done|]. unfold two_chunk, two_remaining. simpl.
    assert (0 < len p1 + len p2) as Hpos.
    { rewrite <-len_app. destruct (N.eq_dec (len (p1 ++ p2)) 0) as [Hz|]; [|lia].
      by apply len_zero in Hz. }
    apply N.ltb_lt in Hpos as ->. simpl. rewrite app_nil_r. by destruct p1.
  - intros [|k] _ Hne; [done|]. apply app_nil in Hne as [-> ->]. done.
Defined.

(** An encoder of such buffers, two bytes in each piece. *)
#[local] Instance two_encoder : Encoder (unit * unit) u8 TwoPieces := {|
  encode e m := (mkTwoPieces [2; m] [2; m], e);
  return_buffer e _ := e;
|}.

Definition pieces_connection
  : Connection ScriptedStream DemoQueue (unit * unit) TwoPieces EchoReactor :=
  new (mkScriptedStream [] [Ok 100; Ok 100; Ok 100] [] []) (tt, tt) frame_limit 5 4 demo_queue
    (mkEchoReactor [] []).

(** [writev] over buffers in pieces corrupts the stream: a [Buf] that follows
    the documentation but presents only its first piece has the other piece
    left out between two messages, so what is written is not a prefix of the
    encoded messages. *)
Theorem pieces_scramble_the_stream :
  ∃ c', poll (In:=u8) (Out:=u8) (L:=u8) 9 pieces_connection 0%nat = Return (Pending, c') ∧
    queue_waiting (L:=u8) (outbound_messages pieces_connection) = [41; 42] ∧
    ¬ outbound (stream c') `prefix_of`
        concat (buf_unread ∘ fst ∘ encode (tt, tt) <$> [41; 42]).
Proof.
  eexists. split; [vm_compute; reflexivity|]. split; [reflexivity|].
  vm_compute. intros [l Hl]. discriminate Hl.
Qed.

(** ** Witnesses *)

(** The bytes of [demo_reads], in one piece. *)
Definition demo_reads_joined : list (result bytes IoError) :=
  [Ok [2; 11; 0; 2; 12; 3; 13; 0; 2]].

(** A message longer than the receive buffer may get. *)
Definition oversized_reads : list (result bytes IoError) := [Ok [2; 11; 200; 1; 2]].

Lemma receive_delivers_witness :
  ∃ p c' read,
    poll_receive (In:=u8) 50 (demo_connection oversized_reads []) 0%nat = Return (p, c') ∧
    inbound (stream c') = read ∧
    let '(ms, rest, live) := frames (M:=u8) (D:=unit * unit) (limit:=frame_limit) read in
    reactor c' = (deliver (C:=unit * unit) (B:=OwnedBuffer) (mkEchoReactor [] []) ms).1 ∧ (p = Pending → live = true).
Proof.
  destruct (receive_delivers (In:=u8) (Out:=u8) (L:=u8) (limit:=frame_limit)
    (demo_connection oversized_reads []) 50 0%nat) as (p & c' & read & He & Hin & Hd).
  - apply demo_connection_ok.
  - vm_compute. lia.
  - exists p, c', read. split; [exact He|]. split; [exact Hin|].
    change (unread_bytes (demo_connection oversized_reads [])) with ([] : bytes) in Hd.
    simpl app in Hd.
    destruct (frames read) as [[ms rest] live]. destruct Hd as (Hr & Hp & _).
    split; [exact Hr|]. intros Hpe. apply (Hp Hpe).
Defined.

Lemma chunking_irrelevant_witness :
  ∃ c1' c2',
    poll_receive (In:=u8) 50 (demo_connection demo_reads []) 0%nat = Return (Pending, c1') ∧
    poll_receive (In:=u8) 50 (demo_connection demo_reads_joined []) 0%nat = Return (Pending, c2') ∧
    reactor c1' = reactor c2' ∧ unread_bytes c1' = unread_bytes c2'.
Proof.
  eexists _, _. split; [vm_compute; reflexivity|]. split; [vm_compute; reflexivity|].
  eapply (chunking_irrelevant (In:=u8) (Out:=u8) (L:=u8) (limit:=frame_limit)
    (demo_connection demo_reads []) (demo_connection demo_reads_joined []) _ _ 50 50 0%nat 0%nat
    [2; 11; 0; 2; 12; 3; 13; 0; 2]);
    [apply demo_connection_ok|apply demo_connection_ok|vm_compute; lia|vm_compute; lia
    |reflexivity|reflexivity|vm_compute; reflexivity|vm_compute; reflexivity
    |reflexivity|reflexivity].
Defined.

Lemma writes_in_order_witness :
  ∃ res c' ms ls,
    poll_writev_buffers (In:=u8) (Out:=u8) (L:=u8) 9 (demo_connection [] [Ok 3]) 0%nat
      = Return (res, c') ∧
    outbound (stream c') ++ queued_bytes (send_buffer c') = wire_all (C:=unit * unit) (B:=OwnedBuffer) ms ∧
    [41; 42] = ls ++ queue_waiting (L:=u8) (outbound_messages c').
Proof.
  destruct (writes_in_order (In:=u8) (Out:=u8) (L:=u8) (limit:=frame_limit)
    (demo_connection [] [Ok 3]) 9 0%nat) as (res & c' & ms & ls & He & _ & Hout & Hq & _).
  - apply demo_connection_ok.
  - vm_compute. lia.
  - exists res, c', ms, ls. split; [exact He|]. split; [exact Hout|exact Hq].
Defined.

Lemma poll_total_and_bounded_witness :
  ∃ c', poll (In:=u8) (Out:=u8) (L:=u8) 50 (demo_connection demo_reads [Ok 3; Ok 100]) 0%nat
          = Return (Pending, c') ∧
    len (receive_buffer c') < frame_limit + 5 ∧ len (send_buffer c') ≤ 4.
Proof.
  destruct (poll_total_and_bounded (In:=u8) (Out:=u8) (L:=u8) (limit:=frame_limit)
    (demo_connection demo_reads [Ok 3; Ok 100]) 50 0%nat) as (p & c' & He & Hp).
  - apply demo_connection_ok.
  - vm_compute. lia.
  - pose proof He as He'. vm_compute in He'. injection He' as Hpe Hce. subst p c'.
    eexists. split; [exact He|]. destruct (Hp eq_refl) as (_ & H1 & _ & H2).
    split; [exact H1|exact H2].
Defined.

Lemma poll_exchanges_witness :
  ∃ c', poll (In:=u8) (Out:=u8) (L:=u8) 50 (demo_connection demo_reads [Ok 3; Ok 100]) 0%nat
          = Return (Pending, c') ∧
    unread_bytes c' = [2] ∧ queue_waiting (L:=u8) (outbound_messages c') = [].
Proof.
  destruct (poll_exchanges (In:=u8) (Out:=u8) (L:=u8) (limit:=frame_limit)
    (demo_connection demo_reads [Ok 3; Ok 100]) 50 0%nat) as (p & c' & read & He & Hin & Hp).
  - apply demo_connection_ok.
  - vm_compute. lia.
  - pose proof He as He'. vm_compute in He'. injection He' as Hpe Hce. subst p c'.
    simpl in Hin. subst read. destruct (frames _) as [[ms rest] live].
    destruct (Hp eq_refl) as (_ & _ & Ht & _). clear Hp.
    eexists. split; [exact He|]. split; [vm_compute; reflexivity|].
    destruct Ht as [Ht|Ht]; [exact Ht|discriminate Ht].
Defined.

(** A decoder that wants to skip a hundred bytes, whatever it sees. *)
#[local] Instance skipping_decoder : Decoder bool u8 := {|
  decode (d : bool) (u : bytes) := (if d then Err (SkipMessage 100) else Ok (200, 0), d);
|}.

Definition odd_connection (d : bool) (b : bytes) (i : usize)
  : Connection ScriptedStream DemoQueue (unit * bool) OwnedBuffer EchoReactor :=
  mkConnection (mkScriptedStream [] [] [] []) demo_queue [] i b 8 4 8 (tt, d) (mkEchoReactor [] []).

Lemma full_buffer_wedges_witness :
  poll_receive (In:=u8) 1000 (odd_connection true [1; 2; 3; 4; 5; 6; 7; 8] 8) 0%nat = OutOfFuel.
Proof.
  apply (full_buffer_wedges (Out:=u8) (L:=u8)); try reflexivity.
  - done.
  - exists 100. left. split; reflexivity.
Defined.

Lemma overconsumption_panics_witness :
  read_inbound_messages_and_react (In:=u8) 2 (odd_connection false [1; 2; 3; 4] 3) = Panic.
Proof.
  apply (overconsumption_panics (Out:=u8) (L:=u8) (odd_connection false [1; 2; 3; 4] 3) 0 200 0
    (tt, false) (mkEchoReactor [0] [0])).
  - vm_compute. discriminate.
  - discriminate.
  - reflexivity.
  - split; reflexivity.
  - reflexivity.
Defined.

Lemma messages_arrive_witness :
  ∃ c', poll_receive (In:=u8) 50 (demo_connection [Ok [2; 11; 2]; Ok [12]] []) 0%nat
          = Return (Pending, c') ∧
    reactor c' = (deliver (C:=unit * unit) (B:=OwnedBuffer) (mkEchoReactor [] []) [11; 12]).1 ∧ ((Pending : Poll unit) = Pending → unread_bytes c' = []).
Proof.
  eexists. split; [vm_compute; reflexivity|].
  eapply (messages_arrive (M:=u8) (L:=u8) (limit:=frame_limit)
    (demo_connection [Ok [2; 11; 2]; Ok [12]] []) _ 50 0%nat Pending [11; 12]).
  - intros m v. unfold frame, wire. simpl. unfold byte_frame. rewrite !len_cons.
    by rewrite (proj2 (N.ltb_ge _ 2)) by lia.
  - apply demo_connection_ok.
  - vm_compute. lia.
  - reflexivity.
  - vm_compute. reflexivity.
  - reflexivity.
Defined.
End Connections.
