(* ===== verification/CustomAllocator.v ===== *)
(** * The custom allocator example

    [protosocket-connection/examples/custom_allocator.rs]: a codec without a
    format, which hands over whatever has arrived as one message, a reactor that
    sends every message back, and a stream over two channels of tokio.
    [bytes::Bytes], tokio's channels and its [ReadBuf] are parameters with their
    documented laws. *)

From S2P Require Import Prelude Spillway Encoding Connection ConnectionSpec.
Local Open Scope N_scope.
Local Open Scope run_scope.

(** ** The codec *)

(** [bytes::Bytes], a library type: [copy_to_bytes] is what [Buf::copy_to_bytes]
    makes of the bytes it copies. *)
Class BytesBuf (B : Type) `{BufLaws B} := {
  copy_to_bytes : bytes → B;
  copied_ok u : len u < 2 ^ 63 → buf_ok (copy_to_bytes u);
  copied_unread u : buf_unread (copy_to_bytes u) = u;
}.

#[export] Instance owned_bytes : BytesBuf OwnedBuffer.
Proof.
  refine {| copy_to_bytes := owned_new |}; [|done].
  intros u Hu. split; simpl; [lia|done].
Defined.

Inductive BulkEncoder := TheBulkEncoder.
Inductive BulkDecoder := TheBulkDecoder.

Section codec.
Context {B : Type} `{BytesBuf B}.

(** [Decoder for BulkDecoder]. *)
Definition bulk_decode (buffer : bytes) : result (usize * B) DeserializeError :=
  if 0 <? len buffer
  then let next := copy_to_bytes buffer in Ok (remaining next, next)
  else Err (IncompleteBuffer 1).

#[export] Instance bulk_decoder : Decoder BulkDecoder B := {|
  decode d buffer := (bulk_decode buffer, d);
|}.

(** [Encoder for BulkEncoder]. *)
Definition bulk_encode (e : BulkEncoder) (message : B) : B * BulkEncoder := (message, e).

#[export] Instance bulk_encoder : Encoder BulkEncoder B B := {|
  encode := bulk_encode;
  return_buffer e _ := e;
|}.

Lemma bulk_decode_some u :
  u ≠ [] → len u < 2 ^ 63 → bulk_decode u = Ok (len u, copy_to_bytes u).
Proof.
  intros Hu Hl. unfold bulk_decode. destruct (N.ltb_spec 0 (len u)) as [_|Hz].
  - by rewrite (buf_remaining _ (copied_ok u Hl)), copied_unread.
  - destruct Hu. apply len_zero. lia.
Qed.

(** ** What the connection makes of it

    The verdict of this decoder on some bytes changes when more of them have
    arrived, so it is no [DecoderLaws] decoder, and what the messages are depends
    on the reads.  What they say together does not. *)

Context {S Q R K Out L E Bo : Type}.
Context `{AsyncStreamLaws S K} `{!Encoder (E * BulkDecoder) Out Bo}.
Context `{MR : !MessageReactor R K (E * BulkDecoder) Bo B Out L}.
Abbreviation Conn := (Connection S Q (E * BulkDecoder) Bo R).
Implicit Types c : Conn.

Lemma bulk_decode_loop fuel c :
  let n := receive_buffer_unread_index c in
  0 < n → n ≤ len (receive_buffer c) → len (receive_buffer c) < 2 ^ 63 → (1 < fuel)%nat →
  let '(status, r) := on_inbound_message (reactor c) (copy_to_bytes (unread_bytes c)) in
  decode_loop (In:=B) fuel c 0 =
    Return (match status with StatusContinue => Broke RBPending | StatusDisconnect => Returned Disconnected end,
            set_reactor c r, n).
Proof.
  intros n Hn Hle Hlen Hfuel. destruct fuel as [|[|fuel]]; [lia..|]. cbn [decode_loop].
  destruct (N.eqb_spec 0 (receive_buffer_unread_index c)); [lia|].
  destruct (N.ltb_spec (receive_buffer_unread_index c) 0); [lia|].
  destruct (N.ltb_spec (len (receive_buffer c)) (receive_buffer_unread_index c)); [lia|].
  rewrite drop_0. fold (unread_bytes c).
  assert (len (unread_bytes c) = n) as Hlu by (by apply len_unread).
  assert (decode (codec c) (unread_bytes c) = (Ok (n, copy_to_bytes (unread_bytes c)), codec c)) as ->.
  { destruct (codec c) as [e []]. cbn [decode pair_decoder bulk_decoder fst snd].
    rewrite bulk_decode_some; [by rewrite Hlu|by rewrite <-len_zero; lia|lia]. }
  cbn [set_codec_reactor set_outbound reactor].
  destruct (on_inbound_message (reactor c) (copy_to_bytes (unread_bytes c))) as [[|] r].
  - rewrite wadd_small by lia. cbn [receive_buffer_unread_index set_reactor set_codec_reactor set_outbound].
    rewrite N.add_0_l. unfold n. by rewrite N.eqb_refl.
  - rewrite wadd_small by lia. by rewrite N.add_0_l.
Qed.

(** Between polls nothing is left unread. *)
Record bulk_ok c : Prop := {
  bk_unread : receive_buffer_unread_index c = 0;
  bk_limit : 0 < max_buffer_length c;
  bk_increment : 0 < buffer_allocation_increment c;
  bk_width : max_buffer_length c + buffer_allocation_increment c < 2 ^ 63;
  bk_len : len (receive_buffer c) < max_buffer_length c + buffer_allocation_increment c;
}.

(** What has been read goes to the reactor at once, as one message. *)
Lemma bulk_react c :
  receive_buffer_unread_index c ≤ len (receive_buffer c) → len (receive_buffer c) < 2 ^ 63 →
  let ms := match unread_bytes c with [] => [] | _ => [copy_to_bytes (unread_bytes c)] end in
  let '(r, go) := deliver (reactor c) ms in
  ∃ st c', read_inbound_messages_and_react (In:=B) (Datatypes.S (N.to_nat (receive_buffer_unread_index c))) c
      = Return (st, c') ∧
    if go then st = RBPending ∧ c' = set_receive (set_reactor c r) 0 (receive_buffer c)
    else st = Disconnected ∧ c' = set_reactor c r.
Proof.
  intros Hle Hlen. unfold read_inbound_messages_and_react. pose proof (len_unread c Hle) as Hlu.
  destruct (N.eqb_spec (receive_buffer_unread_index c) 0) as [Hz|Hz].
  { rewrite Hz in *. assert (unread_bytes c = []) as -> by (by apply len_zero). cbn [deliver decode_loop].
    rewrite Hz, N.eqb_refl. cbn [run_bind]. unfold shift_consumed. rewrite N.eqb_refl. cbn [negb andb].
    do 2 eexists. split; [done|]. split; [done|]. destruct c; simpl in *. by subst. }
  pose proof (bulk_decode_loop (Datatypes.S (N.to_nat (receive_buffer_unread_index c))) c
    ltac:(lia) Hle Hlen ltac:(lia)) as Hd.
  destruct (unread_bytes c) as [|b u] eqn:Hu; [unfold len in Hlu; simpl in Hlu; lia|].
  cbn [deliver]. destruct (on_inbound_message (reactor c) (copy_to_bytes (b :: u))) as [[|] r]; rewrite Hd;
    cbn [run_bind].
  - unfold shift_consumed. cbn [receive_buffer_unread_index receive_buffer set_reactor set_codec_reactor set_outbound].
    rewrite N.eqb_refl, (proj2 (N.eqb_neq _ _) Hz). do 2 eexists. by split.
  - do 2 eexists. by split.
Qed.

(** A whole [poll_receive]: the messages that the reactor gets are, together, the
    bytes that were read. *)
Lemma bulk_poll_receive fuel c (k : K) :
  bulk_ok c → (patience (stream c) < fuel)%nat →
  ∃ p c' ms, poll_receive (In:=B) fuel c k = Return (p, c') ∧
    inbound (stream c') = inbound (stream c) ++ concat (buf_unread <$> ms) ∧
    outbound (stream c') = outbound (stream c) ∧ Forall (λ m, buf_unread m ≠ []) ms ∧
    let '(r, go) := deliver (reactor c) ms in
    reactor c' = r ∧ (p = Pending → go = true ∧ bulk_ok c').
Proof.
  revert c. induction fuel as [|fuel IH]; intros c [Hu Hl Hinc Hw Hlen] Hfuel; [lia|].
  destruct (grow_room c) as (b & Hg & Hroom & Hb & Hug); [rewrite ?Hu; lia..|].
  destruct (read_behind c k b Hg Hroom ltac:(lia) Hug)
    as (st & s1 & i & b1 & read & He & Hi & Hlb & Ht & Hin & Hout & Hpa & Hmore & Hnone).
  assert (unread_bytes c = []) as Huz by (unfold unread_bytes; by rewrite Hu).
  rewrite Huz in Ht. change ([] ++ read) with read in Ht.
  cbn [poll_receive]. rewrite He. cbn [run_bind]. set (c1 := set_receive (set_stream c s1) i b1).
  destruct (decide (st = MoreToRead)) as [->|Hst]; cycle 1.
  { rewrite (Hnone Hst), app_nil_r in *.
    exists (match st with RBPending => Pending | _ => Ready tt end), c1, [].
    split; [by destruct st|]. simpl. rewrite app_nil_r. split_and!; try done. intros _. split; [done|].
    assert (i = 0) as Hi0 by (apply (f_equal len) in Ht; rewrite len_take, len_nil in Ht; lia).
    split; try done. simpl. rewrite Hlb. exact Hb. }
  specialize (Hmore eq_refl).
  pose proof (bulk_react c1 ltac:(exact Hi) ltac:(change (len b1 < 2 ^ 63); lia)) as Hreact.
  assert (unread_bytes c1 = read) as Hu1 by exact Ht. rewrite Hu1 in Hreact. clear Hu1. cbv zeta in Hreact.
  set (ms := match read with [] => [] | _ => [copy_to_bytes read] end) in *.
  assert (concat (buf_unread <$> ms) = read ∧ Forall (λ m : B, buf_unread m ≠ []) ms) as [Hms Hne].
  { unfold ms. destruct read; [done|]. split; [|by repeat constructor; rewrite copied_unread].
    simpl. by rewrite copied_unread, app_nil_r. }
  change (reactor c1) with (reactor c) in Hreact. destruct (deliver (reactor c) ms) as [r go] eqn:Hd.
  destruct Hreact as (st2 & c2 & He2 & Hgo). change (receive_buffer_unread_index c1) with i in *.
  rewrite He2. cbn [run_bind]. destruct go; cycle 1.
  { destruct Hgo as [-> ->]. exists (Ready tt), (set_reactor c1 r), ms. rewrite Hd, Hms. by split_and!. }
  destruct Hgo as [-> ->]. set (c2 := set_receive _ _ _).
  destruct (IH c2) as (p & c' & ms' & He' & Hin' & Hout' & Hne' & Hrest).
  { split; try done. simpl. rewrite Hlb. exact Hb. }
  { simpl. lia. }
  exists p, c', (ms ++ ms'). split; [exact He'|]. simpl in Hin', Hout'.
  rewrite fmap_app, concat_app, Hms, Hin', Hin, <-app_assoc, Hout', Hout, deliver_app, Hd.
  split; [done|]. split; [done|]. split; [by apply Forall_app|]. exact Hrest.
Qed.
End codec.

(** ** The reactor *)

Record EchoReactor := mkEchoReactor { echo_outbound_messages : Sender }.

Section reactor.
Context {W K B : Type} `{AtomicWakerLaws W K}.
Abbreviation Queue := (Shared W B).

(** [on_outbound_message] and [on_inbound_message]; an error is logged and ends the
    connection. *)
Definition echo_on_outbound (message : B) : B := message.

Definition echo_on_inbound (r : EchoReactor) (q : Queue) (message : B) : run (ReactorStatus * Queue) :=
  let* '(sent, q, _) := sender_send (echo_outbound_messages r) q message in
  Return (match sent with Ok _ => StatusContinue | Err _ => StatusDisconnect end, q).

(** The reactor sends into the queue that its own connection takes from. *)
Record EchoServer := mkEchoServer {
  es_queue : Queue;
  es_receiver : Receiver B;
  es_reactor : EchoReactor;
}.

(** The connection gives the reactor a message and goes on, or polls its queue. *)
Inductive echo_io (s : EchoServer) : list B → list B → EchoServer → Prop :=
| echo_hears m q' :
    echo_on_inbound (es_reactor s) (es_queue s) m = Return (StatusContinue, q') →
    echo_io s [m] [] (mkEchoServer q' (es_receiver s) (es_reactor s))
| echo_takes k p q' v' :
    poll_next (es_queue s) (es_receiver s) k = Return (p, q', v') →
    echo_io s [] match p with Ready (Some m) => [echo_on_outbound m] | _ => [] end
      (mkEchoServer q' v' (es_reactor s)).

(** Only one lane of the channel is used. *)
Definition lone (i : usize) (q : Queue) : Prop :=
  ∀ j c, chutes q !! j = Some c → j ≠ N.to_nat i → queue c = [].

Lemma lone_concat (cs : list (Chute B)) i c :
  (∀ j d, cs !! j = Some d → j ≠ i → queue d = []) → cs !! i = Some c → concat (queue <$> cs) = queue c.
Proof.
  revert i. induction cs as [|d cs IH]; intros i Hl Hi; [done|]. rewrite fmap_cons. cbn [concat]. destruct i as [|i].
  - injection Hi as ->. assert (concat (queue <$> cs) = []) as ->; [|by rewrite app_nil_r].
    clear IH. induction cs as [|e cs IH]; [done|]. rewrite fmap_cons. cbn [concat]. rewrite (Hl 1%nat e) by done.
    apply IH. intros [|j] x Hx Hj; [done|]. by apply (Hl (S (S j)) x).
  - rewrite (Hl 0%nat d) by done. apply (IH i); [|done]. intros j x Hx Hj. apply (Hl (S j) x Hx). lia.
Qed.

(** What waits in it is what waits in that lane. *)
Lemma lone_pending i q v c :
  lone i q → chutes q !! N.to_nat i = Some c → pending_values q v = buffer v ++ queue c.
Proof.
  intros Hl Hc. unfold pending_values. f_equal. rewrite <-concat_app, <-fmap_app.
  set (n := N.to_nat (cursor v)). destruct (decide (n ≤ N.to_nat i)%nat) as [Hle|Hlt].
  - apply (lone_concat _ (N.to_nat i - n)).
    + intros j d Hj Hne. apply lookup_app_Some in Hj as [Hj|[Hge Hj]].
      * rewrite lookup_drop in Hj. apply (Hl _ _ Hj). lia.
      * apply lookup_take_Some in Hj as [Hj Hjn]. apply (Hl _ _ Hj). lia.
    + rewrite lookup_app_l by (rewrite length_drop; apply lookup_lt_Some in Hc; lia).
      rewrite lookup_drop. by replace (n + (N.to_nat i - n))%nat with (N.to_nat i) by lia.
  - apply (lone_concat _ (length (chutes q) - n + N.to_nat i)).
    + intros j d Hj Hne. apply lookup_app_Some in Hj as [Hj|[Hge Hj]].
      * rewrite lookup_drop in Hj. pose proof (lookup_lt_Some _ _ _ Hj). apply (Hl _ _ Hj). lia.
      * apply lookup_take_Some in Hj as [Hj Hjn]. rewrite length_drop in *. apply (Hl _ _ Hj). lia.
    + rewrite lookup_app_r by (rewrite length_drop; lia). rewrite length_drop.
      replace (_ - _)%nat with (N.to_nat i) by lia. rewrite lookup_take_lt by lia. exact Hc.
Qed.

(** A send into that lane comes last. *)
Lemma lone_send i q v m res q' ks :
  unbounded q v → lone i q → send q i m = Return (res, q', ks) →
  res = Ok tt ∧ unbounded q' v ∧ lone i q' ∧ pending_values q' v = pending_values q v ++ [m].
Proof.
  intros Hun Hl He. destruct (unbounded_send _ _ _ _ _ _ _ Hun He) as (-> & Hun' & _). split; [done|]. split; [done|].
  assert (∃ c c', chutes q !! N.to_nat i = Some c ∧ queue c' = queue c ++ [m] ∧
    chutes q' = <[N.to_nat i := c']> (chutes q)) as (c & c' & Hc & Hq & Hcs).
  { destruct Hun as [[_ Hdead _ _] Hcap]. unfold send in He. rewrite Hdead, Hcap in He. simpl in He.
    apply run_bind_Return in He as ([q1 ks1] & He & Heq). injection Heq as <- _.
    by eapply send_many_infallible_lane. }
  assert (lone i q') as Hl'.
  { intros j d Hd Hj. rewrite Hcs, list_lookup_insert_ne in Hd by done. by apply (Hl j). }
  split; [done|]. rewrite (lone_pending i q v c), (lone_pending i q' v c'), Hq, app_assoc; try done.
  rewrite Hcs. apply list_lookup_insert_eq. by eapply lookup_lt_Some.
Qed.

(** A poll empties lanes. *)
Lemma lone_poll i q v k p q' v' : lone i q → poll_next q v k = Return (p, q', v') → lone i q'.
Proof.
  intros Hl He. assert (∀ q1 : Queue, chutes q1 = chutes q → lone i q1) as Hsame by (intros q1 Hq; unfold lone; by rewrite Hq).
  assert (∀ q1 j, buffer v = [] → lone i q1 → receive_from q1 v j = Return (p, q', v') → lone i q') as Hfrom.
  { intros q1 j Hv Hl1 Hr. unfold receive_from in Hr. destruct (chutes q1 !! N.to_nat j) as [c|]; [|done].
    simpl in Hr. rewrite Hv in Hr. destruct (queue c) as [|x l]; [done|]. injection Hr as _ <- _. unfold decrement_size.
    assert (∀ q2 : Queue, chutes q2 = <[N.to_nat j := mkChute [] true]> (chutes q1) → lone i q2) as Hset.
    { intros q2 Hq2 n d Hd Hn. rewrite Hq2 in Hd. apply list_lookup_insert_Some in Hd as [(_ & <- & _)|[_ Hd]];
        [done|by apply (Hl1 n)]. }
    destruct (negb _); by apply Hset. }
  unfold poll_next in He. destruct (buffer v) as [|x l] eqn:Hv.
  - apply run_bind_Return in He as ([j|] & _ & He); [by eapply Hfrom|].
    apply run_bind_Return in He as ([j|] & _ & He); [eapply Hfrom; [done| |exact He]|].
    + by apply Hsame.
    + destruct (0 =? _); injection He as _ <- _; by apply Hsame.
  - injection He as _ <- _. unfold decrement_size. destruct (negb _); by apply Hsame.
Qed.

(** The channel is in order, and the reactor's sender is the only one. *)
Record echo_ok (s : EchoServer) : Prop := {
  eo_queue : unbounded (es_queue s) (es_receiver s);
  eo_lone : lone (chute (echo_outbound_messages (es_reactor s))) (es_queue s);
  eo_lane : chute (echo_outbound_messages (es_reactor s)) < len (chutes (es_queue s));
}.

(** Every message comes back, in its order. *)
Lemma echo_io_ok s i o s' :
  echo_io s i o s' → echo_ok s → echo_ok s' ∧
  o ++ pending_values (es_queue s') (es_receiver s') = pending_values (es_queue s) (es_receiver s) ++ i.
Proof.
  intros [m q' He|k p q' v' He] [Hun Hl Hlane]; simpl.
  - unfold echo_on_inbound in He. apply run_bind_Return in He as ([[res q1] ks] & He & Heq). injection Heq as _ <-.
    destruct (unbounded_send _ _ _ _ _ _ _ Hun He) as (_ & _ & _ & Hlen & _).
    destruct (lone_send _ _ _ _ _ _ _ Hun Hl He) as (_ & Hun' & Hl' & Hp).
    split; [|done]. split; [done|done|]. simpl. unfold len. by rewrite Hlen.
  - destruct (poll_unbounded _ _ _ _ _ _ Hun He) as (Hun' & _ & Hlen & Hp). rewrite app_nil_r.
    split; [split; [done|by eapply lone_poll|simpl; unfold len; by rewrite Hlen]|].
    destruct p as [[m|]|]; [done|by destruct Hp as (-> & -> & _)..].
Qed.

Lemma echo_run_ok s i o s' :
  io_run echo_io s i o s' → echo_ok s → echo_ok s' ∧
  o ++ pending_values (es_queue s') (es_receiver s') = pending_values (es_queue s) (es_receiver s) ++ i.
Proof.
  induction 1 as [s|s i o s1 i' o' s2 Hs _ IH]; intros Hok; [by rewrite app_nil_r|].
  destruct (echo_io_ok _ _ _ _ Hs Hok) as [Hok1 H1]. destruct (IH Hok1) as [Hok2 H2].
  split; [done|]. by rewrite <-app_assoc, H2, app_assoc, H1, app_assoc.
Qed.

(** The reactor never ends the connection. *)
Lemma echo_continues s m :
  echo_ok s → ∃ q', echo_on_inbound (es_reactor s) (es_queue s) m = Return (StatusContinue, q').
Proof.
  intros [Hun _ Hlane]. destruct (send_unbounded _ _ _ m Hun Hlane) as (q' & ks & He & _).
  exists q'. unfold echo_on_inbound, sender_send. by rewrite He.
Qed.
End reactor.

(** ** The stream *)

(** The two ends of [tokio::sync::mpsc]'s unbounded channels of bytes, by what the
    stream uses of them. *)
Class ByteReceiver (Rx K : Type) := {
  poll_recv_many : Rx → K → bytes → usize → Poll usize * bytes * Rx;
}.
Class ByteSender (Tx : Type) := {
  unbounded_send : Tx → u8 → result unit u8 * Tx;
}.

(** Their documentation: a receiver appends at most [limit] of the values that it
    has, in their order, and says how many; it says zero only for a limit of zero
    or a channel that is closed and empty, and appends nothing when it is pending.
    A send fails, with the value, when the receiver is gone. *)
Class ByteReceiverLaws (Rx K : Type) `{ByteReceiver Rx K} := {
  rx_waiting : Rx → bytes;
  rx_closed : Rx → bool;
  poll_recv_many_law (x : Rx) (k : K) (b : bytes) (limit : usize) :
    let '(p, b', x') := poll_recv_many x k b limit in
    ∃ taken, b' = b ++ taken ∧ rx_waiting x = taken ++ rx_waiting x' ∧ rx_closed x' = rx_closed x ∧
      match p with
      | Ready n => n = len taken ∧ n ≤ limit ∧
                   (n = 0 → limit = 0 ∨ (rx_closed x = true ∧ rx_waiting x = []))
      | Pending => taken = []
      end;
}.
Class ByteSenderLaws (Tx : Type) `{ByteSender Tx} := {
  tx_sent : Tx → bytes;
  tx_open : Tx → bool;
  unbounded_send_law (x : Tx) (b : u8) :
    let '(sent, x') := unbounded_send x b in
    tx_open x' = tx_open x ∧
    if tx_open x then sent = Ok tt ∧ tx_sent x' = tx_sent x ++ [b] else sent = Err b ∧ tx_sent x' = tx_sent x;
}.

(** [tokio::io::ReadBuf], a library type: a buffer with a filled part. *)
Class ReadBuf (Bf : Type) := {
  rb_remaining : Bf → usize;
  put_slice : Bf → bytes → run Bf;
  rb_clear : Bf → Bf;
}.

(** Its documentation: [put_slice] appends to the filled part and panics when there
    is no room, [clear] empties it. *)
Class ReadBufLaws (Bf : Type) `{ReadBuf Bf} := {
  rb_filled : Bf → bytes;
  rb_capacity : Bf → usize;
  rb_within b : len (rb_filled b) ≤ rb_capacity b;
  rb_remaining_law b : rb_remaining b = rb_capacity b - len (rb_filled b);
  put_slice_law b u :
    if rb_remaining b <? len u then put_slice b u = Panic
    else ∃ b', put_slice b u = Return b' ∧ rb_filled b' = rb_filled b ++ u ∧ rb_capacity b' = rb_capacity b;
  rb_clear_law b : rb_filled (rb_clear b) = [] ∧ rb_capacity (rb_clear b) = rb_capacity b;
}.

Record FakeIO (Rx Tx : Type) := mkFakeIO { fio_input : Rx; fio_output : Tx }.
Arguments mkFakeIO {Rx Tx} _ _.
Arguments fio_input {Rx Tx} _.
Arguments fio_output {Rx Tx} _.

Section fake_io.
Context {Rx Tx K Bf : Type} `{ByteReceiverLaws Rx K} `{ByteSenderLaws Tx} `{ReadBufLaws Bf}.
Abbreviation Fake := (FakeIO Rx Tx).
Implicit Types x : Fake.
Implicit Types buf : Bf.

(** [FakeIO::new], given the two channels it makes. *)
Definition fakeio_new (first second : Tx * Rx) : Tx * Rx * Fake :=
  let '(network_in, in_receiver) := first in
  let '(out_sender, network_out) := second in
  (network_in, network_out, mkFakeIO in_receiver out_sender).

(** [poll_read]: its loop, with the vector [buffer] that it collects into. *)
Fixpoint fakeio_read_loop (fuel : nat) x (k : K) (buffer : bytes) buf
  : run (Poll (result unit IoError) * Bf * Fake) :=
  match fuel with
  | O => OutOfFuel
  | Datatypes.S fuel =>
      let limit := rb_remaining buf in
      let '(p, buffer, input) := poll_recv_many (fio_input x) k buffer limit in
      let x := mkFakeIO input (fio_output x) in
      match p with
      | Ready n =>
          if n =? 0 then Return (Ready (Ok tt), buf, x)
          else
            let* buf := put_slice buf buffer in
            fakeio_read_loop fuel x k buffer (rb_clear buf)
      | Pending => Return (Pending, buf, x)
      end
  end.

Definition fakeio_poll_read (fuel : nat) x (k : K) buf : run (Poll (result unit IoError) * Bf * Fake) :=
  fakeio_read_loop fuel x k [] buf.

(** [poll_write]: each byte is sent, and the send is expected to work. *)
Fixpoint send_each (tx : Tx) (buf : bytes) : run Tx :=
  match buf with
  | [] => Return tx
  | b :: buf =>
      let '(sent, tx) := unbounded_send tx b in
      match sent with Ok _ => send_each tx buf | Err _ => Panic end
  end.

Definition fakeio_poll_write x (buf : bytes) : run (Poll (result usize IoError) * Fake) :=
  let* tx := send_each (fio_output x) buf in
  Return (Ready (Ok (len buf)), mkFakeIO (fio_input x) tx).

(** [poll_flush] and [poll_shutdown]. *)
Definition fakeio_poll_flush x : Poll (result unit IoError) * Fake := (Ready (Ok tt), x).
Definition fakeio_poll_shutdown x : Poll (result unit IoError) * Fake := (Ready (Ok tt), x).

(** What a call of the loop comes to: each turn takes a byte, so the bytes that
    wait bound it; it panics only with more bytes than the buffer holds; and what
    it takes is not in the buffer that it fills. *)
Lemma fakeio_read_loop_spec fuel x (k : K) buffer buf :
  (length (rx_waiting (fio_input x)) < fuel)%nat →
  ∃ taken, let o := fakeio_read_loop fuel x k buffer buf in
    take (length taken) (rx_waiting (fio_input x)) = taken ∧
    match o with
    | Return (p, buf', x') =>
        rx_waiting (fio_input x) = taken ++ rx_waiting (fio_input x') ∧ fio_output x' = fio_output x ∧
        rb_filled buf' = match taken with [] => rb_filled buf | _ => [] end ∧
        (∀ e, p ≠ Ready (Err e))
    | Panic => rb_capacity buf < len (rb_filled buf ++ buffer) + len taken
    | OutOfFuel => False
    end.
Proof.
  revert x buffer buf. induction fuel as [|fuel IH]; intros x buffer buf Hfuel; [lia|]. cbn [fakeio_read_loop].
  pose proof (poll_recv_many_law (fio_input x) k buffer (rb_remaining buf)) as Hp.
  destruct (poll_recv_many _ _ _ _) as [[[n|] b1] input]; destruct Hp as (t1 & -> & Hw & _ & Hp).
  - destruct Hp as (-> & Hlim & _). destruct (N.eqb_spec (len t1) 0) as [Hz|Hz].
    { apply len_zero in Hz as ->. exists []. by split_and!. }
    pose proof (put_slice_law buf (buffer ++ t1)) as Hput. rewrite rb_remaining_law in *.
    pose proof (rb_within buf) as Hwi. rewrite len_app in Hput.
    destruct (N.ltb_spec (rb_capacity buf - len (rb_filled buf)) (len buffer + len t1)) as [Hlt|Hge].
    { rewrite Hput. exists t1. split; [by rewrite Hw, take_app_length|]. simpl. rewrite len_app. lia. }
    destruct Hput as (buf1 & -> & Hf1 & Hc1). cbn [run_bind]. destruct (rb_clear_law buf1) as [Hf2 Hc2].
    destruct (IH (mkFakeIO input (fio_output x)) (buffer ++ t1) (rb_clear buf1)) as (t2 & Ht2 & Ho).
    { simpl. rewrite Hw, length_app in Hfuel. assert (length t1 ≠ 0%nat) by (intros Hz'; apply Hz; unfold len; lia). lia. }
    exists (t1 ++ t2). cbn [fio_input fio_output] in *.
    split; [rewrite Hw, length_app, take_app_add; by rewrite Ht2|].
    destruct (fakeio_read_loop _ _ _ _ _) as [[[p buf'] x']| |]; [|..|done].
    + destruct Ho as (Hw2 & Hout & Hf & He). rewrite Hw, Hw2, app_assoc. split_and!; try done.
      destruct t1; [done|]. rewrite Hf, Hf2. by destruct t2.
    + rewrite Hf2, Hc2, Hc1 in Ho. rewrite !len_app, ?len_nil in *. lia.
  - subst t1. exists []. by split_and!.
Qed.

Lemma send_each_spec tx (bs : bytes) :
  if tx_open tx
  then ∃ tx', send_each tx bs = Return tx' ∧ tx_sent tx' = tx_sent tx ++ bs ∧ tx_open tx' = true
  else bs ≠ [] → send_each tx bs = Panic.
Proof.
  revert tx. induction bs as [|b bs IH]; intros tx.
  { destruct (tx_open tx) eqn:Ho; [|done]. exists tx. by rewrite app_nil_r. }
  cbn [send_each]. pose proof (unbounded_send_law tx b) as Hs. destruct (unbounded_send tx b) as [sent tx1].
  destruct Hs as [Ho1 Hs]. specialize (IH tx1). rewrite Ho1 in IH. destruct (tx_open tx) eqn:Ho.
  - destruct Hs as [-> Hs]. destruct IH as (tx' & He & Ht & Ho'). exists tx'.
    split; [done|]. split; [|done]. by rewrite Ht, Hs, <-app_assoc.
  - by destruct Hs as [-> _].
Qed.
End fake_io.

(** [main]: the channel, the stream over its two channels, and the connection. *)
Definition custom_allocator_main {W K Rx Tx B Bo} `{AtomicWaker W K} (first second : Tx * Rx)
  : run (Connection (FakeIO Rx Tx) (Shared W B * Receiver B) (BulkEncoder * BulkDecoder) Bo EchoReactor) :=
  let '(_, _, stream) := fakeio_new first second in
  let* '(message_sender, outbound_messages, q) := channel in
  Return (new stream (TheBulkEncoder, TheBulkDecoder) 64 64 8 (q, outbound_messages)
    (mkEchoReactor message_sender)).

(** The queue of [main] is empty, and its reactor's sender uses one lane. *)
Lemma custom_allocator_start {W K Rx Tx B Bo} `{AtomicWaker W K} (first second : Tx * Rx) c :
  custom_allocator_main (W:=W) (K:=K) (B:=B) (Bo:=Bo) first second = Return c →
  bulk_ok c ∧ echo_ok (mkEchoServer (outbound_messages c).1 (outbound_messages c).2 (reactor c)) ∧
  pending_values (outbound_messages c).1 (outbound_messages c).2 = [].
Proof.
  destruct (channel_new_inv (T:=B) (W:=W) max_u64 8) as (x & v & q & He & Hinv & Hp & _ & Hcap & Hx); [done..|].
  unfold custom_allocator_main, channel, channel_with_concurrency. destruct first, second. cbn [fakeio_new].
  rewrite He. intros [= <-]. split; [by split|]. split; [|done]. split; [by split|..].
  - intros j d Hd _. assert (waiting q v = []) as Hw by (apply Permutation_nil; by rewrite <-pending_waiting, Hp).
    unfold waiting in Hw. apply app_eq_nil in Hw as [_ Hw].
    pose proof (concat_nil_Forall (queue <$> chutes q)) as [Hn _]. specialize (Hn Hw). rewrite Forall_fmap in Hn.
    by apply (Forall_lookup_1 _ _ _ _ Hn Hd).
  - simpl. rewrite Hx. destruct (inv_ok _ _ Hinv). lia.
Qed.

(** ** What the example does *)

Module CustomAllocators.
Section claims.
Context {W K B : Type} `{AtomicWakerLaws W K} `{BytesBuf B}.
Context {S Q R Out L E Bo : Type} `{AsyncStreamLaws S K} `{!Encoder (E * BulkDecoder) Out Bo}.
Context `{MR : !MessageReactor R K (E * BulkDecoder) Bo B Out L}.
Context {Rx Tx Bf : Type} `{ByteReceiverLaws Rx K} `{ByteSenderLaws Tx} `{ReadBufLaws Bf}.

(** A connection with the bulk codec: its [poll_receive] returns, and however the
    stream cuts its bytes, the messages of the reactor are not empty and are,
    together, the bytes that were read; after it the connection waits with an empty
    buffer. *)
Theorem bulk_messages_are_the_stream fuel (c : Connection S Q (E * BulkDecoder) Bo R) (k : K)
  (Hok : bulk_ok c) (Hfuel : (patience (stream c) < fuel)%nat) :
  ∃ p c' ms, poll_receive (In:=B) fuel c k = Return (p, c') ∧
    inbound (stream c') = inbound (stream c) ++ concat (buf_unread <$> ms) ∧
    Forall (λ m, buf_unread m ≠ []) ms ∧
    let '(r, go) := deliver (reactor c) ms in reactor c' = r ∧ (p = Pending → go = true ∧ bulk_ok c').
Proof.
  destruct (bulk_poll_receive fuel c k Hok Hfuel) as (p & c' & ms & He & Hin & _ & Hne & Hd).
  by exists p, c', ms.
Qed.

(** The echo connection of [main] sends back what it gets, in its order, without a
    loss: whatever order messages arrive and the queue is polled in, the bytes of
    what has been taken for the stream and of what still waits are the bytes of
    what came in; and its reactor accepts every further message. *)
Theorem echo_returns_the_stream (first second : Tx * Rx)
  (c : Connection (FakeIO Rx Tx) (Shared W B * Receiver B) (BulkEncoder * BulkDecoder) Bo EchoReactor)
  (i o : list B) (s : EchoServer)
  (Hmain : custom_allocator_main (K:=K) first second = Return c)
  (Hrun : io_run (echo_io (K:=K)) (mkEchoServer (outbound_messages c).1 (outbound_messages c).2 (reactor c)) i o s) :
  concat (buf_unread <$> o ++ pending_values (es_queue s) (es_receiver s)) = concat (buf_unread <$> i) ∧
  ∀ m, ∃ q', echo_on_inbound (es_reactor s) (es_queue s) m = Return (StatusContinue, q').
Proof.
  destruct (custom_allocator_start first second c Hmain) as (_ & Hok & Hp).
  destruct (echo_run_ok _ _ _ _ Hrun Hok) as [Hok' Hio]. simpl in Hio. rewrite Hp in Hio.
  split; [by rewrite Hio|]. intros m. by apply echo_continues.
Qed.

(** C37: the fake stream sends what is written to it, but nothing that it receives ever
    comes out of it: a [poll_read] into an empty buffer returns or panics; if it
    returns, the buffer is still empty, and the bytes that it took from its channel
    are gone; and it panics only when more bytes wait than the buffer has room
    for. *)
Theorem fake_io_hears_nothing (fuel : nat) (x : FakeIO Rx Tx) (k : K) (buf : Bf) (bs : bytes)
  (Hempty : rb_filled buf = []) (Hfuel : (length (rx_waiting (fio_input x)) < fuel)%nat)
  (Hopen : tx_open (fio_output x) = true) :
  match fakeio_poll_read fuel x k buf with
  | Return (p, buf', x') =>
      rb_filled buf' = [] ∧ (∀ e, p ≠ Ready (Err e)) ∧ fio_output x' = fio_output x ∧
      ∃ lost, rx_waiting (fio_input x) = lost ++ rx_waiting (fio_input x')
  | Panic => rb_capacity buf < len (rx_waiting (fio_input x))
  | OutOfFuel => False
  end ∧
  ∃ x', fakeio_poll_write x bs = Return (Ready (Ok (len bs)), x') ∧
    tx_sent (fio_output x') = tx_sent (fio_output x) ++ bs ∧ fio_input x' = fio_input x.
Proof.
  split.
  - destruct (fakeio_read_loop_spec fuel x k [] buf Hfuel) as (taken & Ht & Ho). unfold fakeio_poll_read.
    rewrite Hempty in Ho. cbv zeta in Ho. destruct (fakeio_read_loop _ _ _ _ _) as [[[p buf'] x']| |]; [|..|done].
    + destruct Ho as (Hw & Hout & Hf & He). split; [by destruct taken|]. split_and!; [done..|by exists taken].
    + apply (f_equal len) in Ht. unfold len in *. rewrite length_take in Ht. simpl in Ho. lia.
  - pose proof (send_each_spec (fio_output x) bs) as Hs. rewrite Hopen in Hs.
    destruct Hs as (tx' & He & Ht & _). unfold fakeio_poll_write. rewrite He. by eexists.
Qed.
End claims.

(** ** Witnesses *)

Import WakerCell.

(** An end of a channel, as the values in it and whether the other end is there. *)
Record ChannelEnd := mkChannelEnd { ce_values : bytes; ce_open : bool }.

#[local] Instance demo_receiver : ByteReceiver ChannelEnd nat := {|
  poll_recv_many x _ b limit :=
    if limit =? 0 then (Ready 0, b, x)
    else match ce_values x with
         | [] => (if ce_open x then Pending else Ready 0, b, x)
         | l => let n := N.min limit (len l) in
                (Ready n, b ++ take (N.to_nat n) l, mkChannelEnd (drop (N.to_nat n) l) (ce_open x))
         end;
|}.
#[local] Instance demo_receiver_laws : ByteReceiverLaws ChannelEnd nat.
Proof.
  refine {| rx_waiting := ce_values; rx_closed x := negb (ce_open x) |}.
  intros [l o] k b limit. simpl. destruct (N.eqb_spec limit 0) as [->|Hl].
  { exists []. rewrite app_nil_r. split_and!; auto. }
  destruct l as [|c l]; [exists []; rewrite app_nil_r; destruct o; simpl; split_and!; auto; lia|].
  set (n := N.min limit (len (c :: l))).
  exists (take (N.to_nat n) (c :: l)). simpl. rewrite take_drop, len_take. split_and!; try done; [lia|lia|].
  intros Hz. unfold n, len in Hz. simpl in Hz. lia.
Defined.

#[local] Instance demo_sender : ByteSender ChannelEnd := {|
  unbounded_send x b := if ce_open x then (Ok tt, mkChannelEnd (ce_values x ++ [b]) true) else (Err b, x);
|}.
#[local] Instance demo_sender_laws : ByteSenderLaws ChannelEnd.
Proof. refine {| tx_sent := ce_values; tx_open := ce_open |}. by intros [l []] b. Defined.

(** A buffer, as its filled part and the room behind it. *)
Record VecBuf := mkVecBuf { vb_filled : bytes; vb_room : usize }.

#[local] Instance vec_read_buf : ReadBuf VecBuf := {|
  rb_remaining := vb_room;
  put_slice b u := if vb_room b <? len u then Panic else Return (mkVecBuf (vb_filled b ++ u) (vb_room b - len u));
  rb_clear b := mkVecBuf [] (len (vb_filled b) + vb_room b);
|}.
#[local] Instance vec_read_buf_laws : ReadBufLaws VecBuf.
Proof.
  refine {| rb_filled := vb_filled; rb_capacity b := len (vb_filled b) + vb_room b |};
    intros [f r]; cbn [put_slice rb_remaining rb_clear vec_read_buf vb_filled vb_room].
  - lia.
  - lia.
  - intros u. destruct (N.ltb_spec r (len u)); [done|]. eexists. split; [done|]. simpl. rewrite len_app. split; [done|lia].
  - split; [done|]. rewrite len_nil. lia.
Defined.

Definition demo_fake (input : bytes) : FakeIO ChannelEnd ChannelEnd :=
  mkFakeIO (mkChannelEnd input true) (mkChannelEnd [] true).

(** Three bytes are read into a buffer for five, and lost; a buffer for two is
    overrun. *)
Lemma fake_io_hears_nothing_witness :
  fakeio_poll_read 9 (demo_fake [7; 8; 9]) 0%nat (mkVecBuf [] 5) = Return (Pending, mkVecBuf [] 5, demo_fake []) ∧
  fakeio_poll_read 9 (demo_fake [7; 8; 9]) 0%nat (mkVecBuf [] 2) = Panic ∧
  ∃ x', fakeio_poll_write (demo_fake []) [4; 5] = Return (Ready (Ok 2), x') ∧ ce_values (fio_output x') = [4; 5].
Proof.
  split; [reflexivity|]. split; [reflexivity|].
  destruct (fake_io_hears_nothing 9 (demo_fake []) 0%nat (mkVecBuf [] 5) [4; 5]) as (_ & x' & He & Hs & _);
    [reflexivity|simpl; lia|reflexivity|]. exists x'. split; [exact He|exact Hs].
Defined.

(** Two messages come in and one has gone out. *)
Abbreviation EchoDemo :=
  (Connection (FakeIO ChannelEnd ChannelEnd) (Shared (option nat) OwnedBuffer * Receiver OwnedBuffer)
     (BulkEncoder * BulkDecoder) OwnedBuffer EchoReactor).

Lemma echo_returns_the_stream_witness :
  ∃ (c : EchoDemo) s,
    io_run (echo_io (K:=nat)) (mkEchoServer (outbound_messages c).1 (outbound_messages c).2 (reactor c))
      [owned_new [1; 2]; owned_new [3]] [owned_new [1; 2]] s ∧
    concat (buf_unread <$> pending_values (es_queue s) (es_receiver s)) = [3].
Proof.
  destruct (custom_allocator_main (W:=option nat) (K:=nat) (B:=OwnedBuffer) (Bo:=OwnedBuffer)
    (mkChannelEnd [] true, mkChannelEnd [] true) (mkChannelEnd [] true, mkChannelEnd [] true)) as [c| |] eqn:Hc;
    [|discriminate Hc..].
  pose proof Hc as Hc'. vm_compute in Hc'. injection Hc' as <-.
  match type of Hc with _ = Return ?c => exists c end. eexists. match goal with |- ?run ∧ _ => assert run as Hrun end.
  { eapply (io_next _ _ [_] []); [eapply echo_hears; vm_compute; reflexivity|].
    eapply (io_next _ _ [_] []); [eapply echo_hears; vm_compute; reflexivity|].
    eapply (io_next _ _ [] [_]); [|apply io_refl].
    eapply (echo_takes _ 3%nat (Ready (Some _))). vm_compute. reflexivity. }
  split; [exact Hrun|].
  destruct (echo_returns_the_stream _ _ _ _ _ _ Hc Hrun) as [Hio _]. apply (f_equal (drop 2)) in Hio. exact Hio.
Defined.

Import Demo.

(** A reactor that keeps what it gets. *)
#[local] Instance recording_reactor
  : MessageReactor (list OwnedBuffer) nat (BulkEncoder * BulkDecoder) OwnedBuffer OwnedBuffer OwnedBuffer OwnedBuffer := {|
  on_inbound_message r m := (StatusContinue, r ++ [m]);
  reactor_poll := reactor_poll_default;
  on_outbound_message r m := (m, r);
  poll_outbound_many := poll_outbound_many_default;
|}.

Lemma recorded (r ms : list OwnedBuffer) :
  deliver (C:=BulkEncoder * BulkDecoder) (B:=OwnedBuffer) (Out:=OwnedBuffer) (L:=OwnedBuffer) r ms = (r ++ ms, true).
Proof.
  revert r. induction ms as [|m ms IH]; intros r; simpl; [by rewrite app_nil_r|]. by rewrite IH, <-app_assoc.
Qed.

Definition bulk_connection
  : Connection ScriptedStream unit (BulkEncoder * BulkDecoder) OwnedBuffer (list OwnedBuffer) :=
  new (mkScriptedStream [Ok [1; 2]; Ok [3]; Err Interrupted; Ok [4; 5; 6]] [] [] [])
    (TheBulkEncoder, TheBulkDecoder) 64 64 8 tt [].

Lemma bulk_messages_are_the_stream_witness :
  ∃ p c', poll_receive (In:=OwnedBuffer) 20 bulk_connection 0%nat = Return (p, c') ∧ p = Pending ∧
    concat (buf_unread <$> reactor c') = [1; 2; 3; 4; 5; 6] ∧ bulk_ok c'.
Proof.
  destruct (bulk_messages_are_the_stream (Bo:=OwnedBuffer) (Out:=OwnedBuffer) (L:=OwnedBuffer) 20 bulk_connection 0%nat)
    as (p & c' & ms & He & Hin & _ & Hd); [by split|simpl; lia|].
  change (reactor bulk_connection) with (@nil OwnedBuffer) in Hd. rewrite recorded in Hd. destruct Hd as [Hr Hp].
  change (inbound (stream c') = concat (buf_unread <$> ms)) in Hin. exists p, c'. split; [exact He|]. change ([] ++ ms) with ms in Hr. rewrite Hr, <-Hin.
  assert (poll_receive (In:=OwnedBuffer) 20 bulk_connection 0%nat = Return (p, c')) as He' by exact He.
  vm_compute in He'. injection He' as Hp' Hc'. symmetry in Hp'. split; [exact Hp'|].
  split; [rewrite <-Hc'; reflexivity|]. by apply Hp.
Defined.
End CustomAllocators.
