(* ===== verification/RpcMessage.v ===== *)
(** * Rpc messages

    [protosocket-rpc/src/{message,error}.rs]: the message trait, its control
    codes and the errors of the rpc crate. *)

From S2P Require Import Prelude Connection.
Local Open Scope N_scope.

(** [ProtosocketControlCode]. *)
Inductive ProtosocketControlCode := Normal | Cancel | End.

#[export] Instance ProtosocketControlCode_eq_dec : EqDecision ProtosocketControlCode.
Proof. solve_decision. Defined.

Definition from_u8 (value : u8) : ProtosocketControlCode :=
  if value =? 0 then Normal
  else if value =? 1 then Cancel
  else if value =? 2 then End
  else Cancel.

Definition as_u8 (c : ProtosocketControlCode) : u8 :=
  match c with Normal => 0 | Cancel => 1 | End => 2 end.

Lemma from_as_u8 c : from_u8 (as_u8 c) = c.
Proof. by destruct c. Qed.

(** [Message]. *)
Class Message (M : Type) := {
  message_id : M → u64;
  control_code : M → ProtosocketControlCode;
  set_message_id : M → u64 → M;
  cancelled : u64 → M;
  ended : u64 → M;
}.

(** Its documentation: an id that was set is read back and the framework's own
    messages carry their id and code. *)
Class MessageLaws (M : Type) `{Message M} := {
  message_id_set m id : message_id (set_message_id m id) = id;
  message_id_cancelled id : message_id (cancelled id : M) = id;
  message_id_ended id : message_id (ended id : M) = id;
  control_code_cancelled id : control_code (cancelled id : M) = Cancel;
  control_code_ended id : control_code (ended id : M) = End;
}.

(** [Error] of the rpc crate. *)
Inductive RpcError :=
| IoFailure (e : IoError)
| CancelledRemotely
| ConnectionIsClosed
| RpcFinished.

(** [std::future::Future] and [futures::Stream]: what polling one does. *)
Class FutureOp (F K T : Type) := poll_future : F → K → Poll T * F.
Class StreamOp (S K T : Type) := poll_stream : S → K → Poll (option T) * S.
