(* ===== verification/RpcServer.v ===== *)
(** * The rpc server's reactor

    [protosocket-rpc/src/server/{rpc_stream,abortion_tracker,rpc_submitter,
    server_traits}.rs].  The abort flags are shared between the pooled rpcs and
    the abort handles, so they live in a store that both point into. *)

From S2P Require Import Prelude Spillway Encoding Connection RpcMessage.
Local Open Scope N_scope.
Local Open Scope run_scope.

(** ** A pooled rpc ([rpc_stream.rs]) *)

(** What the two [Arc]s of an rpc and its handle point to. *)
Record AbortCell (W : Type) := mkAbortCell {
  aborted : bool;
  abort_waker : W;
}.
Arguments mkAbortCell {W} _ _.
Arguments aborted {W} _.
Arguments abort_waker {W} _.

Inductive RpcStreamKind (F S : Type) : Type :=
| KindUnary (completion : F)
| KindStreaming (stream : S)
| KindDone.
Arguments KindUnary {F S} _.
Arguments KindStreaming {F S} _.
Arguments KindDone {F S}.

Record RpcStream (F S : Type) := mkRpcStream {
  rs_id : u64;
  rs_cell : nat;
  rs_kind : RpcStreamKind F S;
}.
Arguments mkRpcStream {F S} _ _ _.
Arguments rs_id {F S} _.
Arguments rs_cell {F S} _.
Arguments rs_kind {F S} _.

Inductive RpcStreamEvent (T : Type) : Type :=
| Item (item : T)
| Complete (response : T)
| Finished
| Cancelled.
Arguments Item {T} _.
Arguments Complete {T} _.
Arguments Finished {T}.
Arguments Cancelled {T}.

Definition is_terminal {T} (e : RpcStreamEvent T) : bool :=
  match e with Item _ => false | Complete _ | Finished | Cancelled => true end.

Record RpcAbortHandle := mkRpcAbortHandle { ah_cell : nat }.

Section rpc_stream.
Context {F S T W K : Type} `{AtomicWaker W K} `{FutureOp F K T} `{StreamOp S K T}.
Abbreviation Store := (list (AbortCell W)).
Implicit Types st : Store.
Implicit Types x : RpcStream F S.

Definition is_done (k : RpcStreamKind F S) : bool :=
  match k with KindDone => true | _ => false end.

(** [RpcStream::new]: a new flag, shared with the handle. *)
Definition rpc_stream_new st (id : u64) (kind : RpcStreamKind F S)
  : RpcStream F S * RpcAbortHandle * Store :=
  (mkRpcStream id (length st) kind, mkRpcAbortHandle (length st),
   st ++ [mkAbortCell false aw_new]).

Definition new_unary st (id : u64) (completion : F) :=
  rpc_stream_new st id (KindUnary completion).
Definition new_streaming st (id : u64) (stream : S) :=
  rpc_stream_new st id (KindStreaming stream).

Definition cell_aborted st (c : nat) : bool :=
  match st !! c with Some cell => aborted cell | None => false end.

(** [self.waker.register]. *)
Definition register_waker st (c : nat) (k : K) : Store :=
  alter (λ cell, mkAbortCell (aborted cell) (aw_register (abort_waker cell) k)) c st.

Definition set_kind x kind : RpcStream F S := mkRpcStream (rs_id x) (rs_cell x) kind.

(** [Stream::poll_next] of [RpcStream]. *)
Definition rpc_poll_next (k : K) st x
  : Poll (option (u64 * RpcStreamEvent T)) * Store * RpcStream F S :=
  let id := rs_id x in
  let st := register_waker st (rs_cell x) k in
  if cell_aborted st (rs_cell x) then
    if is_done (rs_kind x) then (Ready None, st, x)
    else (Ready (Some (id, Cancelled)), st, set_kind x KindDone)
  else
    match rs_kind x with
    | KindUnary completion =>
        let '(p, completion) := poll_future completion k in
        match p with
        | Ready response => (Ready (Some (id, Complete response)), st, set_kind x KindDone)
        | Pending => (Pending, st, set_kind x (KindUnary completion))
        end
    | KindStreaming stream =>
        let '(p, stream) := poll_stream stream k in
        match p with
        | Ready (Some item) =>
            (Ready (Some (id, Item item)), st, set_kind x (KindStreaming stream))
        | Ready None => (Ready (Some (id, Finished)), st, set_kind x KindDone)
        | Pending => (Pending, st, set_kind x (KindStreaming stream))
        end
    | KindDone => (Ready None, st, x)
    end.

(** [RpcAbortHandle::mark_aborted]; the wakers that are woken are in the result. *)
Definition mark_aborted (h : RpcAbortHandle) st : Store * list K :=
  match st !! ah_cell h with
  | Some cell =>
      let '(w, ks) := aw_wake (abort_waker cell) in
      (<[ah_cell h := mkAbortCell true w]> st, option_list ks)
  | None => (st, [])
  end.
End rpc_stream.

(** ** The abort handles ([abortion_tracker.rs]) *)

Abbreviation AbortionTracker := (gmap u64 RpcAbortHandle).

Definition register (a : AbortionTracker) (id : u64) (h : RpcAbortHandle)
  : option RpcAbortHandle * AbortionTracker := (a !! id, <[id := h]> a).

Definition take_abort (a : AbortionTracker) (id : u64)
  : option RpcAbortHandle * AbortionTracker := (a !! id, delete id a).

(** ** The pool of rpcs

    [futures::stream::FuturesUnordered] of [StreamFuture]s, library types.  Its
    documentation: polling it polls some of its members; one that is pending
    stays, the first that is ready leaves with its item; it is [Ready(None)]
    only when it is empty. *)

Section pool_polls.
Context {X E St : Type} (poll_member : St → X → Poll (option E) * St * X).

Inductive pool_polls : list X → St → Poll (option (option E * X)) → list X → St → Prop :=
| polls_empty st : pool_polls [] st (Ready None) [] st
| polls_stop xs st : xs ≠ [] → pool_polls xs st Pending xs st
| polls_ready xs i x st item st' x' :
    xs !! i = Some x → poll_member st x = (Ready item, st', x') →
    pool_polls xs st (Ready (Some (item, x'))) (delete i xs) st'
| polls_pending xs i x st st' x' r xs2 st2 :
    xs !! i = Some x → poll_member st x = (Pending, st', x') →
    pool_polls (<[i := x']> xs) st' r xs2 st2 → pool_polls xs st r xs2 st2.
End pool_polls.

Class FuturesUnordered (P X E St : Type) := {
  pool_default : P;
  pool_push : P → X → P;
  pool_len : P → nat;
  pool_poll_next : (St → X → Poll (option E) * St * X) → P → St →
                   Poll (option (option E * X)) * P * St;
}.

Class FuturesUnorderedLaws (P X E St : Type) `{FuturesUnordered P X E St} := {
  pool_contents : P → list X;
  pool_contents_default : pool_contents pool_default = [];
  pool_contents_push p x : pool_contents (pool_push p x) ≡ₚ x :: pool_contents p;
  pool_contents_len p : pool_len p = length (pool_contents p);
  pool_poll_law poll_member p st :
    let '(r, p', st') := pool_poll_next poll_member p st in
    ∃ xs xs', pool_contents p ≡ₚ xs ∧ pool_contents p' ≡ₚ xs' ∧
              pool_polls poll_member xs st r xs' st';
}.

(** Also documented: a member is polled when it is new to the pool, and again after
    it has been woken.  A pool is awake when that goes for all of its members; it
    then has something ready, if its members never pend. *)
Class FuturesUnorderedAwake (P X E St : Type) `{FuturesUnordered P X E St} := {
  pool_awake : P → Prop;
  pool_awake_default : pool_awake pool_default;
  pool_awake_push p x : pool_awake p → pool_awake (pool_push p x);
  pool_awake_poll poll_member p st :
    pool_awake p → (∀ st x, (poll_member st x).1.1 ≠ Pending) →
    let '(r, p', _) := pool_poll_next poll_member p st in r ≠ Pending ∧ pool_awake p';
}.

(** An instance, for the examples: the members are polled from first to last. *)
Section fifo.
Context {X E St : Type}.

Fixpoint fifo_poll (poll_member : St → X → Poll (option E) * St * X) (before xs : list X) (st : St)
  : Poll (option (option E * X)) * list X * St :=
  match xs with
  | [] => (match before with [] => Ready None | _ => Pending end, before, st)
  | x :: xs =>
      let '(p, st, x) := poll_member st x in
      match p with
      | Ready item => (Ready (Some (item, x)), before ++ xs, st)
      | Pending => fifo_poll poll_member (before ++ [x]) xs st
      end
  end.

#[export] Instance fifo_pool : FuturesUnordered (list X) X E St := {|
  pool_default := [];
  pool_push p x := p ++ [x];
  pool_len := length;
  pool_poll_next poll_member p st := fifo_poll poll_member [] p st;
|}.

Lemma fifo_poll_polls poll_member before xs st :
  let '(r, p', st') := fifo_poll poll_member before xs st in
  pool_polls poll_member (before ++ xs) st r p' st'.
Proof.
  revert before st. induction xs as [|x xs IH]; intros before st; simpl.
  { rewrite app_nil_r. destruct before; [constructor|by apply polls_stop]. }
  assert ((before ++ x :: xs) !! length before = Some x) as Hx by (by apply list_lookup_middle).
  destruct (poll_member st x) as [[[item|] st1] x1] eqn:Hp.
  - assert (before ++ xs = delete (length before) (before ++ x :: xs)) as ->.
    { rewrite delete_middle. done. }
    by eapply polls_ready.
  - specialize (IH (before ++ [x1]) st1).
    destruct (fifo_poll poll_member (before ++ [x1]) xs st1) as [[r p'] st'].
    eapply polls_pending; [done..|].
    assert (<[length before:=x1]> (before ++ x :: xs) = (before ++ [x1]) ++ xs) as ->; [|done].
    rewrite insert_app_r_alt, Nat.sub_diag by done. by rewrite <-app_assoc.
Qed.

#[export] Instance fifo_pool_laws : FuturesUnorderedLaws (list X) X E St.
Proof.
  refine {| pool_contents p := p |}; try done.
  - intros p x. simpl. by rewrite Permutation_app_comm.
  - intros poll_member p st. simpl. pose proof (fifo_poll_polls poll_member [] p st) as Hp.
    destruct (fifo_poll poll_member [] p st) as [[r p'] st']. by exists p, p'.
Defined.

#[export] Instance fifo_pool_awake : FuturesUnorderedAwake (list X) X E St.
Proof.
  refine {| pool_awake _ := True |}; [done..|]. intros poll_member [|x p] st _ Hready; [done|].
  cbn. specialize (Hready st x). by destruct (poll_member st x) as [[[item|] st'] x'].
Defined.
End fifo.

(** ** Services ([server_traits.rs]) *)

Inductive RpcKind (F S : Type) : Type :=
| RpcUnary (completion : F)
| RpcStreaming (stream : S)
| RpcCancelled.
Arguments RpcUnary {F S} _.
Arguments RpcStreaming {F S} _.
Arguments RpcCancelled {F S}.

Class ConnectionService (V K Req F S : Type) := {
  new_rpc : V → Req → RpcKind F S * V;
  service_poll : V → K → ControlFlow * V;
}.

(** The provided [ConnectionService::poll]. *)
Definition service_poll_default {V K} (v : V) (_ : K) : ControlFlow * V := (Continue, v).

(** ** The submitter ([rpc_submitter.rs]) *)

Record RpcSubmitter (V P W : Type) := mkRpcSubmitter {
  connection_server : V;
  aborts : AbortionTracker;
  rejections : list u64;
  rpcs : P;
  flags : list (AbortCell W);
}.
Arguments mkRpcSubmitter {V P W} _ _ _ _ _.
Arguments connection_server {V P W} _.
Arguments aborts {V P W} _.
Arguments rejections {V P W} _.
Arguments rpcs {V P W} _.
Arguments flags {V P W} _.

Section submitter.
Context {V K Req Res F S P W C B : Type}.
Context `{AtomicWaker W K} `{FutureOp F K Res} `{StreamOp S K Res}.
Context `{ConnectionService V K Req F S}.
Context `{!Message Req} `{!Message Res}.
Abbreviation Rpc := (RpcStream F S).
Abbreviation Event := (u64 * RpcStreamEvent Res)%type.
Context `{!FuturesUnordered P Rpc Event (list (AbortCell W))}.
Context `{!Encoder C Res B}.
Abbreviation Sub := (RpcSubmitter V P W).
Implicit Types s : Sub.

(** [RpcSubmitter::new]. *)
Definition submitter_new (v : V) : Sub := mkRpcSubmitter v ∅ [] pool_default [].

Definition set_aborts s a : Sub :=
  mkRpcSubmitter (connection_server s) a (rejections s) (rpcs s) (flags s).
Definition set_rejections s r : Sub :=
  mkRpcSubmitter (connection_server s) (aborts s) r (rpcs s) (flags s).
Definition set_pool s p f : Sub :=
  mkRpcSubmitter (connection_server s) (aborts s) (rejections s) p f.
Definition set_server s v : Sub :=
  mkRpcSubmitter v (aborts s) (rejections s) (rpcs s) (flags s).

(** [message_for_event]. *)
Definition message_for_event s (id : u64) (event : RpcStreamEvent Res) : Res * Sub :=
  match event with
  | Item item => (set_message_id item id, s)
  | Complete response => (set_message_id response id, set_aborts s (take_abort (aborts s) id).2)
  | Finished => (ended id, set_aborts s (take_abort (aborts s) id).2)
  | Cancelled => (cancelled id, set_aborts s (take_abort (aborts s) id).2)
  end.

(** The two arms of [on_inbound_message] that start an rpc. *)
Definition start_rpc s (id : u64) (kind : RpcStreamKind F S) : Sub :=
  let '(rpc, handle, st) := rpc_stream_new (flags s) id kind in
  let s := set_aborts s (register (aborts s) id handle).2 in
  set_pool s (pool_push (rpcs s) rpc) st.

(** [on_inbound_message]; the wakers that an abort wakes are in the result. *)
Definition on_inbound s (message : Req) : ReactorStatus * Sub * list K :=
  let id := message_id message in
  match control_code message with
  | Normal =>
      let '(kind, v) := new_rpc (connection_server s) message in
      let s := set_server s v in
      match kind with
      | RpcUnary completion => (StatusContinue, start_rpc s id (KindUnary completion), [])
      | RpcStreaming stream => (StatusContinue, start_rpc s id (KindStreaming stream), [])
      | RpcCancelled => (StatusContinue, set_rejections s (rejections s ++ [id]), [])
      end
  | Cancel =>
      let '(handle, a) := take_abort (aborts s) id in
      let s := set_aborts s a in
      match handle with
      | Some abort =>
          let '(st, ks) := mark_aborted abort (flags s) in
          (StatusContinue, set_pool s (rpcs s) st, ks)
      | None => (StatusContinue, s, [])
      end
  | End => (StatusContinue, s, [])
  end.

(** The first loop of [poll_outbound_many]: rejections, last one first. *)
Fixpoint send_rejections (fuel : nat) s (b : SendBudget C B) (produced : usize)
  : run (Sub * SendBudget C B * usize) :=
  match fuel with
  | O => OutOfFuel
  | Datatypes.S fuel =>
      match rejections s with
      | [] => Return (s, b, produced)
      | _ =>
          match reserve b with
          | None => Return (s, b, produced)
          | Some permit =>
              match vec_pop (rejections s) with
              | None => Return (s, b, produced)
              | Some (id, rest) =>
                  send_rejections fuel (set_rejections s rest)
                    (permit_send permit (cancelled id)) (usize_add produced 1)
              end
          end
      end
  end.

(** The inner loop: one ready rpc is polled on; the flag is [retired]. *)
Fixpoint drain_rpc (fuel : nat) s (k : K) (b : SendBudget C B) (produced : usize) (rpc : Rpc)
  : run (bool * Sub * SendBudget C B * usize * Rpc) :=
  match fuel with
  | O => OutOfFuel
  | Datatypes.S fuel =>
      match reserve b with
      | None => Return (false, s, b, produced, rpc)
      | Some permit =>
          let '(p, st, rpc) := rpc_poll_next k (flags s) rpc in
          let s := set_pool s (rpcs s) st in
          match p with
          | Ready (Some (id, event)) =>
              let terminal := is_terminal event in
              let '(m, s) := message_for_event s id event in
              let b := permit_send permit m in
              let produced := usize_add produced 1 in
              if terminal then Return (true, s, b, produced, rpc)
              else drain_rpc fuel s k b produced rpc
          | Ready None => Return (true, s, b, produced, rpc)
          | Pending => Return (false, s, b, produced, rpc)
          end
      end
  end.

(** The second loop: ready rpcs until the room or the pool is used up. *)
Fixpoint send_responses (fuel : nat) s (k : K) (b : SendBudget C B) (produced : usize)
  : run (Sub * SendBudget C B * usize) :=
  match fuel with
  | O => OutOfFuel
  | Datatypes.S fuel =>
      match reserve b with
      | None => Return (s, b, produced)
      | Some permit =>
          let '(p, pool, st) := pool_poll_next (rpc_poll_next k) (rpcs s) (flags s) in
          let s := set_pool s pool st in
          match p with
          | Ready (Some (first, rpc)) =>
              match first with
              | None => send_responses fuel s k b produced
              | Some (id, event) =>
                  let terminal := is_terminal event in
                  let '(m, s) := message_for_event s id event in
                  let b := permit_send permit m in
                  let produced := usize_add produced 1 in
                  if terminal then send_responses fuel s k b produced
                  else
                    let* '(retired, s, b, produced, rpc) :=
                      drain_rpc (Datatypes.S (N.to_nat (budget_remaining b))) s k b produced rpc in
                    let s := if retired then s
                             else set_pool s (pool_push (rpcs s) rpc) (flags s) in
                    send_responses fuel s k b produced
              end
          | Ready None | Pending => Return (s, b, produced)
          end
      end
  end.

(** [poll_outbound_many]. *)
Definition submitter_poll_outbound_many s (k : K) (b : SendBudget C B)
  : run (Poll (option unit) * Sub * SendBudget C B) :=
  let* '(s, b, produced) := send_rejections (Datatypes.S (length (rejections s))) s b 0 in
  let* '(s, b, produced) :=
    send_responses (Datatypes.S (N.to_nat (budget_remaining b) + pool_len (rpcs s))) s k b produced in
  Return (if 0 <? produced then Ready (Some tt) else Pending, s, b).

(** The reactor.  The loops have the fuel they need ([RpcServerSpec]), so the
    last case is never met. *)
#[export] Instance submitter_reactor : MessageReactor Sub K C B Req Res Res := {|
  on_inbound_message s m := let '(status, s, _) := on_inbound s m in (status, s);
  reactor_poll s k :=
    let '(flow, v) := service_poll (connection_server s) k in (flow, set_server s v);
  on_outbound_message s response := (response, s);
  poll_outbound_many s k b :=
    match submitter_poll_outbound_many s k b with
    | Return x => x
    | _ => (Pending, s, b)
    end;
|}.
End submitter.
