(* ===== verification/ExampleService.v ===== *)
(** * The echo service

    [example-messagepack/src/{messages,server}.rs]: the messages and the
    connection service of the repository's example, a concrete instance of the
    rpc interfaces.  The theorems of [RpcServerSpec] are run on it.  Strings are
    their UTF-8 bytes. *)

From S2P Require Import Prelude Encoding RpcMessage RpcServer.
Local Open Scope N_scope.

(** ** Messages ([messages.rs]) *)

Inductive ResponseBehavior := Unary | Stream.

Record EchoRequest := mkEchoRequest {
  er_message : bytes;
  er_nanotime : u64;
}.

Record Request := mkRequest {
  req_request_id : u64;
  req_code : u32;
  req_body : option EchoRequest;
  req_response_behavior : ResponseBehavior;
}.

Record EchoResponse := mkEchoResponse {
  es_message : bytes;
  es_nanotime : u64;
}.

Record EchoStream := mkEchoStream {
  et_message : bytes;
  et_nanotime : u64;
  et_sequence : u64;
}.

Inductive EchoResponseKind :=
| Echo (response : EchoResponse)
| EchoStreamed (item : EchoStream).

Record Response := mkResponse {
  res_request_id : u64;
  res_code : u32;
  res_kind : option EchoResponseKind;
}.

(** [impl Message for Request]; [self.code as u8] keeps the low byte. *)
#[export] Instance request_message : Message Request := {|
  message_id m := req_request_id m;
  control_code m := from_u8 (req_code m mod 2 ^ 8);
  set_message_id m id := mkRequest id (req_code m) (req_body m) (req_response_behavior m);
  cancelled id := mkRequest id (as_u8 Cancel) None Unary;
  ended id := mkRequest id (as_u8 End) None Unary;
|}.

(** [impl Message for Response]. *)
#[export] Instance response_message : Message Response := {|
  message_id m := res_request_id m;
  control_code m := from_u8 (res_code m mod 2 ^ 8);
  set_message_id m id := mkResponse id (res_code m) (res_kind m);
  cancelled id := mkResponse id (as_u8 Cancel) None;
  ended id := mkResponse id (as_u8 End) None;
|}.

#[export] Instance request_message_laws : MessageLaws Request.
Proof. by split. Defined.
#[export] Instance response_message_laws : MessageLaws Response.
Proof. by split. Defined.

(** Messages can be compared. *)
#[export] Instance behavior_eq : EqDecision ResponseBehavior.
Proof. solve_decision. Defined.
#[export] Instance echo_request_eq : EqDecision EchoRequest.
Proof. solve_decision. Defined.
#[export] Instance echo_response_eq : EqDecision EchoResponse.
Proof. solve_decision. Defined.
#[export] Instance echo_item_eq : EqDecision EchoStream.
Proof. solve_decision. Defined.
#[export] Instance response_kind_eq : EqDecision EchoResponseKind.
Proof. solve_decision. Defined.
#[export] Instance request_eq : EqDecision Request.
Proof. solve_decision. Defined.
#[export] Instance response_eq : EqDecision Response.
Proof. solve_decision. Defined.

(** ** The service ([server.rs]) *)

(** [futures::future::ready] and [futures::stream::iter], as the library
    documents them: ready at the first poll; the items in order, never pending. *)
#[export] Instance ready_future {K} : FutureOp Response K Response := λ r _, (Ready r, r).
#[export] Instance iter_stream {K} : StreamOp (list Response) K Response := λ items _,
  match items with
  | [] => (Ready None, [])
  | item :: items => (Ready (Some item), items)
  end.

(** [echo_request]. *)
Definition echo_request (request_id : u64) (echo : EchoRequest) : Response :=
  mkResponse request_id (as_u8 Normal)
    (Some (Echo (mkEchoResponse (er_message echo) (er_nanotime echo)))).

(** [(c as char).to_string()]: the byte read as a Latin-1 character, in UTF-8. *)
Definition latin1_to_utf8 (c : u8) : bytes :=
  if c <? 128 then [c] else [N.lor 192 (N.shiftr c 6); N.lor 128 (N.land c 63)].

(** [echo_stream]. *)
Definition echo_stream (request_id : u64) (echo : EchoRequest) : list Response :=
  imap (λ sequence c,
    mkResponse request_id (as_u8 Normal)
      (Some (EchoStreamed (mkEchoStream (latin1_to_utf8 c) (er_nanotime echo)
                             (N.of_nat sequence mod 2 ^ 64)))))
    (er_message echo).

(** [DemoRpcConnectionServer::new_rpc]; the service's state is its peer's address,
    which it only logs. *)
#[export] Instance echo_service {K} : ConnectionService unit K Request Response (list Response) := {|
  new_rpc address initiating_message :=
    let request_id := req_request_id initiating_message in
    let behavior := req_response_behavior initiating_message in
    (match req_body initiating_message with
     | Some echo =>
         match behavior with
         | Unary => RpcUnary (echo_request request_id echo)
         | Stream => RpcStreaming (echo_stream request_id echo)
         end
     | None => RpcCancelled
     end, address);
  service_poll := service_poll_default;
|}.

(** What a stream answer says, put together again. *)
Definition streamed_text (rs : list Response) : bytes :=
  concat ((λ r, match res_kind r with
                | Some (EchoStreamed item) => et_message item
                | _ => []
                end) <$> rs).

(** An ASCII text comes back unchanged, one byte at a time. *)
Lemma streamed_text_ascii id e :
  Forall (λ c, c < 128) (er_message e) → streamed_text (echo_stream id e) = er_message e.
Proof.
  intros Hascii. unfold streamed_text, echo_stream. rewrite fmap_imap.
  destruct e as [text nano]. simpl in *. unfold compose.
  set (f := λ (_ : nat) (c : u8), latin1_to_utf8 c).
  assert (∀ l i, Forall (λ c, c < 128) l → concat (imap (λ j, f (i + j)%nat) l) = l) as Hgen.
  { clear. induction l as [|c l IH]; intros i Hl; [done|]. apply Forall_cons in Hl as [Hc Hl].
    simpl. unfold f at 1, latin1_to_utf8. rewrite (proj2 (N.ltb_lt _ _) Hc). simpl.
    f_equal. rewrite <-(IH i Hl) at 2. done. }
  exact (Hgen text 0%nat Hascii).
Qed.

Lemma length_echo_stream id e : length (echo_stream id e) = length (er_message e).
Proof. unfold echo_stream. by rewrite length_imap. Qed.

Lemma echo_stream_ids id e : Forall (λ r, res_request_id r = id) (echo_stream id e).
Proof.
  apply Forall_forall. intros r (i & Hi)%list_elem_of_lookup. unfold echo_stream in Hi.
  rewrite list_lookup_imap in Hi. destruct (er_message e !! i); simplify_eq/=. done.
Qed.
