(* ===== verification/RpcServerSpec.v ===== *)
(** * What the rpc server's reactor guarantees

    The protocol of one pooled rpc, the exactness of the abort tracker, the
    accounting of [poll_outbound_many], and the promise that lets a connection
    host the reactor. *)

From S2P Require Import Prelude Spillway Encoding RpcMessage RpcServer ExampleService.
Local Open Scope N_scope.
Local Open Scope run_scope.

(** ** One rpc *)

Section rpc_protocol.
Context {F S T W K : Type} `{AtomicWaker W K} `{FutureOp F K T} `{StreamOp S K T}.
Abbreviation Store := (list (AbortCell W)).
Implicit Types st : Store.
Implicit Types x : RpcStream F S.

(** What can happen to an rpc: it is polled, or its handle is marked aborted. *)
Inductive RpcCall := CallPoll (k : K) | CallAbort.

(** The results of the polls along a sequence of calls. *)
Fixpoint rpc_run st x (calls : list RpcCall) : list (Poll (option (u64 * RpcStreamEvent T))) :=
  match calls with
  | [] => []
  | CallPoll k :: calls =>
      let '(r, st, x) := rpc_poll_next k st x in r :: rpc_run st x calls
  | CallAbort :: calls =>
      rpc_run (mark_aborted (K:=K) (mkRpcAbortHandle (rs_cell x)) st).1 x calls
  end.

(** What they must be: an rpc that is over yields nothing more; one that was
    aborted while alive yields a final [Cancelled] at its next poll; otherwise a
    unary rpc yields one final [Complete], a streaming one any number of items
    and a final [Finished], all under its id. *)
Fixpoint protocol (id : u64) (unary live is_aborted : bool) (calls : list RpcCall)
  (results : list (Poll (option (u64 * RpcStreamEvent T)))) : Prop :=
  match calls, results with
  | [], [] => True
  | CallAbort :: calls, _ => protocol id unary live true calls results
  | CallPoll _ :: calls, r :: results =>
      if negb live then r = Ready None ∧ protocol id unary live is_aborted calls results
      else if is_aborted
      then r = Ready (Some (id, Cancelled)) ∧ protocol id unary false is_aborted calls results
      else
        match r with
        | Pending => protocol id unary true false calls results
        | Ready (Some (i, Item _)) => i = id ∧ unary = false ∧ protocol id unary true false calls results
        | Ready (Some (i, Complete _)) => i = id ∧ unary = true ∧ protocol id unary false false calls results
        | Ready (Some (i, Finished)) => i = id ∧ unary = false ∧ protocol id unary false false calls results
        | _ => False
        end
  | _, _ => False
  end.

Definition is_unary (k : RpcStreamKind F S) : bool :=
  match k with KindUnary _ => true | _ => false end.

(** The abort flags; registering a waker does not touch them. *)
Definition bits st : list bool := aborted <$> st.

Lemma bits_register st c (k : K) : bits (register_waker st c k) = bits st.
Proof.
  unfold bits, register_waker. apply list_eq. intros i.
  rewrite !list_lookup_fmap. destruct (decide (i = c)) as [->|Hne].
  - rewrite list_lookup_alter_eq. by destruct (st !! c).
  - by rewrite list_lookup_alter_ne.
Qed.

Lemma cell_aborted_bits st c : cell_aborted st c = default false (bits st !! c).
Proof. unfold cell_aborted, bits. rewrite list_lookup_fmap. by destruct (st !! c). Qed.

Lemma bits_mark st h :
  bits (mark_aborted (K:=K) h st).1 = <[ah_cell h := true]> (bits st).
Proof.
  unfold mark_aborted, bits. destruct (st !! ah_cell h) as [cell|] eqn:Hc.
  - destruct (aw_wake (abort_waker cell)) as [w ks]. simpl. by rewrite list_fmap_insert.
  - simpl. rewrite list_insert_ge; [done|]. rewrite length_fmap. by apply lookup_ge_None.
Qed.

(** One poll, seen through id, cell, flags and result. *)
Lemma rpc_poll_next_spec k st x :
  let '(r, st', x') := rpc_poll_next k st x in
  bits st' = bits st ∧ rs_id x' = rs_id x ∧ rs_cell x' = rs_cell x ∧
  match is_done (rs_kind x), cell_aborted st (rs_cell x), r with
  | true, _, Ready None => rs_kind x' = rs_kind x
  | false, true, Ready (Some (i, Cancelled)) => i = rs_id x ∧ is_done (rs_kind x') = true
  | false, false, Pending =>
      is_done (rs_kind x') = false ∧ is_unary (rs_kind x') = is_unary (rs_kind x)
  | false, false, Ready (Some (i, Item _)) =>
      i = rs_id x ∧ is_unary (rs_kind x) = false ∧ is_unary (rs_kind x') = false ∧
      is_done (rs_kind x') = false
  | false, false, Ready (Some (i, Complete _)) =>
      i = rs_id x ∧ is_unary (rs_kind x) = true ∧ is_done (rs_kind x') = true
  | false, false, Ready (Some (i, Finished)) =>
      i = rs_id x ∧ is_unary (rs_kind x) = false ∧ is_done (rs_kind x') = true
  | _, _, _ => False
  end.
Proof.
  unfold rpc_poll_next.
  assert (cell_aborted (register_waker st (rs_cell x) k) (rs_cell x)
          = cell_aborted st (rs_cell x)) as ->
    by (by rewrite !cell_aborted_bits, bits_register).
  pose proof (bits_register st (rs_cell x) k) as Hb.
  destruct (cell_aborted st (rs_cell x)).
  - destruct (is_done (rs_kind x)) eqn:Hd; by split_and!.
  - destruct (rs_kind x) as [f|s|] eqn:Hk; simpl.
    + by destruct (poll_future f k) as [[r|] f'].
    + by destruct (poll_stream s k) as [[[i|]|] s'].
    + by split_and!.
Qed.

(** Where an event comes from: an item or a response is what a stream or a future
    of the service gave. *)
Definition comes (e : RpcStreamEvent T) : Prop :=
  match e with
  | Item i => ∃ (s : S) (k : K) s', poll_stream s k = (Ready (Some i), s')
  | Complete r => ∃ (f : F) (k : K) f', poll_future f k = (Ready r, f')
  | Finished | Cancelled => True
  end.

Lemma rpc_poll_next_comes k st x :
  match (rpc_poll_next k st x).1.1 with Ready (Some (_, e)) => comes e | _ => True end.
Proof.
  unfold rpc_poll_next. destruct (cell_aborted _ _); [by destruct (is_done _)|].
  destruct (rs_kind x) as [f|s|]; [| |done].
  - destruct (poll_future f k) as [[r|] f'] eqn:Hf; [|done]. by exists f, k, f'.
  - destruct (poll_stream s k) as [[[i|]|] s'] eqn:Hs; [|done..]. by exists s, k, s'.
Qed.

(** Which events an rpc that is unary, or is not, can yield. *)
Definition event_fits (unary : bool) (e : RpcStreamEvent T) : Prop :=
  match e with Item _ | Finished => unary = false | Complete _ => unary = true | Cancelled => True end.

Lemma rpc_run_protocol calls st x :
  (rs_cell x < length st)%nat →
  protocol (rs_id x) (is_unary (rs_kind x)) (negb (is_done (rs_kind x)))
    (cell_aborted st (rs_cell x)) calls (rpc_run st x calls).
Proof.
  assert (∀ calls st x unary, (rs_cell x < length st)%nat →
    (is_done (rs_kind x) = false → is_unary (rs_kind x) = unary) →
    protocol (rs_id x) unary (negb (is_done (rs_kind x)))
      (cell_aborted st (rs_cell x)) calls (rpc_run st x calls)) as Hgen; [|by auto].
  clear. induction calls as [|[k|] calls IH]; intros st x unary Hlt Hun; [done| |].
  - simpl. pose proof (rpc_poll_next_spec k st x) as Hp.
    destruct (rpc_poll_next k st x) as [[r st'] x']. destruct Hp as (Hb & Hid & Hc & Hr).
    assert (rs_cell x' < length st')%nat as Hlt'.
    { apply (f_equal length) in Hb. unfold bits in Hb. rewrite !length_fmap in Hb. lia. }
    specialize (IH st' x' unary Hlt'). rewrite Hid, Hc in IH.
    assert (cell_aborted st' (rs_cell x) = cell_aborted st (rs_cell x)) as Hab
      by (by rewrite !cell_aborted_bits, Hb).
    rewrite Hab in IH.
    destruct (is_done (rs_kind x)) eqn:Hd; simpl in *.
    + destruct r as [[|]|]; try done. rewrite Hr, Hd in IH. split; [done|]. by apply IH.
    + specialize (Hun eq_refl).
      destruct (cell_aborted st (rs_cell x)) eqn:Hca;
        destruct r as [[[i [it|re| |]]|]|]; try done; destruct_and!; subst;
        split_and?; try done; rewrite ?Hun in *; try congruence.
      all: destruct (is_done (rs_kind _)) in *; try done; apply IH; congruence.
  - simpl. set (st' := (mark_aborted _ st).1).
    assert (bits st' = <[rs_cell x := true]> (bits st)) as Hb by apply bits_mark.
    assert (rs_cell x < length st')%nat as Hlt'.
    { apply (f_equal length) in Hb. unfold bits in Hb. rewrite length_insert, !length_fmap in Hb. lia. }
    specialize (IH st' x unary Hlt' Hun).
    rewrite (cell_aborted_bits st'), Hb, list_lookup_insert_eq in IH; [exact IH|].
    unfold bits. by rewrite length_fmap.
Qed.
End rpc_protocol.

(** ** The abort tracker is exact *)

(** A view of the pool: the id and the flag of each member. *)
Abbreviation View := (u64 * nat)%type.

(** Every member whose flag is down is registered under its id, and nothing else
    is registered. *)
Record tracker_ok (vs : list View) (a : AbortionTracker) (bs : list bool) : Prop := {
  tk_ids : NoDup vs.*1;
  tk_cells : NoDup vs.*2;
  tk_flags : Forall (λ v, (v.2 < length bs)%nat) vs;
  tk_registered v : v ∈ vs → bs !! v.2 = Some false → a !! v.1 = Some (mkRpcAbortHandle v.2);
  tk_handles id h : a !! id = Some h →
    (id, ah_cell h) ∈ vs ∧ bs !! ah_cell h = Some false;
}.

#[export] Instance tracker_ok_proper : Proper ((≡ₚ) ==> (=) ==> (=) ==> iff) tracker_ok.
Proof.
  assert (∀ vs ws a bs, vs ≡ₚ ws → tracker_ok vs a bs → tracker_ok ws a bs) as Himp.
  { intros vs ws a bs Hp [H1 H2 H3 H4 H5]. split; [by rewrite <-Hp..| |].
    - intros v Hv. rewrite <-Hp in Hv. by apply H4.
    - intros id h Ha. rewrite <-Hp. by apply H5. }
  intros vs ws Hp a ? <- bs ? <-. split; apply Himp; [done|by symmetry].
Qed.

Section tracker.
Implicit Types vs : list View.
Implicit Types a : AbortionTracker.
Implicit Types bs : list bool.

(** An rpc leaves the pool and the tracker. *)
Lemma tracker_remove id c vs a bs :
  tracker_ok ((id, c) :: vs) a bs → tracker_ok vs (delete id a) bs.
Proof.
  intros [H1 H2 H3 H4 H5]. rewrite !fmap_cons in *.
  apply NoDup_cons in H1 as [Hid H1], H2 as [Hc H2]. apply Forall_cons in H3 as [Hlt H3].
  split; try done.
  - intros v Hv Hb. rewrite lookup_delete_ne.
    + apply H4; [by right|done].
    + simpl in Hid. intros ->. apply Hid. by apply list_elem_of_fmap_2.
  - intros id' h Ha. apply lookup_delete_Some in Ha as [Hne Ha].
    destruct (H5 _ _ Ha) as [Hin Hb]. split; [|done].
    apply elem_of_cons in Hin as [Heq|Hin]; [|done]. by injection Heq.
Qed.

(** A new rpc, under an id that no member has. *)
Lemma tracker_push id vs a bs :
  tracker_ok vs a bs → id ∉ vs.*1 →
  tracker_ok ((id, length bs) :: vs) (<[id := mkRpcAbortHandle (length bs)]> a) (bs ++ [false]).
Proof.
  intros [H1 H2 H3 H4 H5] Hid.
  assert (length bs ∉ vs.*2) as Hc.
  { intros (v & Hv & Hin)%list_elem_of_fmap. rewrite Forall_forall in H3.
    specialize (H3 _ Hin). rewrite <-Hv in H3. lia. }
  split; rewrite ?fmap_cons.
  - by apply NoDup_cons.
  - by apply NoDup_cons.
  - constructor; simpl; [rewrite length_app; simpl; lia|].
    eapply Forall_impl; [done|]. intros v Hv. simpl in Hv. rewrite length_app. simpl. lia.
  - intros v [->|Hv]%elem_of_cons Hb; simpl in *; [by rewrite lookup_insert_eq|].
    rewrite lookup_insert_ne by (intros ->; apply Hid; by apply list_elem_of_fmap_2).
    apply H4; [done|]. rewrite lookup_app_l in Hb; [done|].
    rewrite Forall_forall in H3. by apply H3.
  - intros id' h Ha. apply lookup_insert_Some in Ha as [[<- <-]|[Hne Ha]]; simpl.
    + split; [by left|]. by apply list_lookup_middle.
    + destruct (H5 _ _ Ha) as [Hin Hb]. split; [by right|]. by apply lookup_app_l_Some.
Qed.

(** A registered rpc is aborted: its flag goes up and its handle is gone. *)
Lemma tracker_abort id h vs a bs :
  tracker_ok vs a bs → a !! id = Some h →
  tracker_ok vs (delete id a) (<[ah_cell h := true]> bs).
Proof.
  intros [H1 H2 H3 H4 H5] Ha. destruct (H5 _ _ Ha) as [Hin Hb].
  split; try done.
  - eapply Forall_impl; [done|]. intros v Hv. by rewrite length_insert.
  - intros v Hv Hf. apply list_lookup_insert_Some in Hf as [(_ & [=] & _)|[Hne Hf]].
    rewrite lookup_delete_ne; [by apply H4|].
    intros ->. apply Hne. specialize (H4 v Hv Hf). rewrite Ha in H4. by injection H4 as ->.
  - intros id' h' Ha'. apply lookup_delete_Some in Ha' as [Hne Ha'].
    destruct (H5 _ _ Ha') as [Hin' Hb']. split; [done|].
    rewrite list_lookup_insert_ne; [done|].
    intros Heq. apply Hne. rewrite Heq in Hin.
    destruct (proj1 (list_elem_of_lookup _ _) Hin) as [i Hi].
    destruct (proj1 (list_elem_of_lookup _ _) Hin') as [j Hj].
    assert (i = j) as ->.
    { eapply (NoDup_lookup vs.*2); [done|by rewrite list_lookup_fmap, Hi|by rewrite list_lookup_fmap, Hj]. }
    rewrite Hi in Hj. by injection Hj.
Qed.
End tracker.

(** ** The pool *)

Section pool.
Context {F S T W K : Type} `{AtomicWaker W K} `{FutureOp F K T} `{StreamOp S K T}.
Abbreviation Rpc := (RpcStream F S).
Implicit Types st : list (AbortCell W).
Implicit Types x : Rpc.

Definition view x : View := (rs_id x, rs_cell x).

Definition live x : Prop := is_done (rs_kind x) = false.

(** Its id, and whether it is unary. *)
Definition tag x : u64 * bool := (rs_id x, is_unary (rs_kind x)).

(** One poll of the pool: some members move on, at most one leaves, with an event
    of its own that is final exactly when the rpc is over. *)
Lemma pool_polls_spec (k : K) xs st r xs' st' :
  pool_polls (rpc_poll_next k) xs st r xs' st' →
  Forall live xs →
  bits st' = bits st ∧ Forall live xs' ∧
  match r with
  | Ready (Some (first, x)) =>
      view <$> xs ≡ₚ view x :: (view <$> xs') ∧
      ∃ e u, first = Some (rs_id x, e) ∧ is_done (rs_kind x) = is_terminal e ∧
        tag <$> xs ≡ₚ (rs_id x, u) :: (tag <$> xs') ∧ event_fits u e ∧ comes e ∧
        (is_terminal e = false → is_unary (rs_kind x) = u)
  | _ => view <$> xs' = view <$> xs ∧ tag <$> xs' = tag <$> xs
  end.
Proof.
  induction 1 as [st|xs st Hne|xs i x st item st' x' Hi Hp|xs i x st st' x' r xs2 st2 Hi Hp _ IH];
    intros Hlive; [done|done| |].
  - assert (live x) as Hx by (by eapply Forall_lookup_1).
    pose proof (rpc_poll_next_spec k st x) as Hs. rewrite Hp in Hs.
    destruct Hs as (Hb & Hid & Hc & Hr). unfold live in Hx. rewrite Hx in Hr.
    assert (view x' = view x) as Hv by (unfold view; by rewrite Hid, Hc).
    split; [done|]. split.
    { rewrite Forall_forall in Hlive |- *. intros y Hy. apply Hlive.
      eapply (elem_of_submseteq (delete i xs)); [done|]. apply sublist_submseteq, sublist_delete. }
    split.
    { rewrite Hv. rewrite <-(fmap_cons view). apply fmap_Permutation. by apply delete_Permutation. }
    assert (tag <$> xs ≡ₚ (rs_id x', is_unary (rs_kind x)) :: (tag <$> delete i xs)) as Htag.
    { rewrite Hid. change (rs_id x, _) with (tag x). rewrite <-fmap_cons.
      apply fmap_Permutation. by apply delete_Permutation. }
    pose proof (rpc_poll_next_comes k st x) as Hcomes. rewrite Hp in Hcomes. simpl in Hcomes.
    rewrite <-Hid in Hr.
    destruct (cell_aborted st (rs_cell x)), item as [[j [it|re| |]]|]; try done; destruct_and!;
      subst; eexists _, _; split_and!; try done; simpl; congruence.
  - assert (live x) as Hx by (by eapply Forall_lookup_1).
    pose proof (rpc_poll_next_spec k st x) as Hs. rewrite Hp in Hs.
    destruct Hs as (Hb & Hid & Hc & Hr). unfold live in Hx. rewrite Hx in Hr.
    assert (view x' = view x) as Hv by (unfold view; by rewrite Hid, Hc).
    assert (view <$> <[i:=x']> xs = view <$> xs) as Hvs by (by eapply fmap_insert_same).
    assert (Forall live (<[i:=x']> xs)) as Hl'.
    { apply Forall_insert; [done|]. unfold live.
      by destruct (cell_aborted st (rs_cell x)), Hr. }
    destruct (IH Hl') as (Hb2 & Hl2 & Hr2). rewrite Hb2, Hb. split; [done|]. split; [done|].
    assert (tag <$> <[i:=x']> xs = tag <$> xs) as Hts.
    { eapply fmap_insert_same; [done|]. unfold tag. rewrite Hid.
      destruct (cell_aborted st (rs_cell x)); [done|]. by destruct Hr as [_ ->]. }
    by rewrite Hvs, Hts in Hr2.
Qed.
End pool.

(** ** The submitter *)

Section submitter.
Context {V K Req Res F S P W C B : Type}.
Context `{AtomicWaker W K} `{FutureOp F K Res} `{StreamOp S K Res}.
Context `{ConnectionService V K Req F S}.
Context `{!Message Req} `{MessageLaws Res}.
Abbreviation Rpc := (RpcStream F S).
Abbreviation Event := (u64 * RpcStreamEvent Res)%type.
Context `{FuturesUnorderedLaws P Rpc Event (list (AbortCell W))}.
Context `{!Encoder C Res B}.
Abbreviation Sub := (RpcSubmitter V P W).
Implicit Types s : Sub.
Implicit Types b : SendBudget C B.

Definition pooled s : list View := view <$> pool_contents (rpcs s).
Definition tags s : list (u64 * bool) := tag <$> pool_contents (rpcs s).

Lemma tags_ids s : (tags s).*1 = (pooled s).*1.
Proof. unfold tags, pooled. rewrite <-!list_fmap_compose. by apply list_fmap_ext. Qed.

(** The message of an event, and the messages that an rpc can send. *)
Definition event_message (id : u64) (e : RpcStreamEvent Res) : Res :=
  match e with
  | Item m | Complete m => set_message_id m id
  | Finished => ended id
  | Cancelled => cancelled id
  end.

Definition sent_by (id : u64) (m : Res) : Prop :=
  ∃ e, comes (F:=F) (S:=S) (K:=K) e ∧ m = event_message id e.

Lemma event_message_id id e : message_id (event_message id e) = id.
Proof. destruct e; simpl; by rewrite ?message_id_set, ?message_id_ended, ?message_id_cancelled. Qed.

Lemma sent_by_id id m : sent_by id m → message_id m = id.
Proof. intros (e & _ & ->). apply event_message_id. Qed.

(** An rpc has been answered: a unary one by any message, a streaming one by its
    end.  No rpc leaves the pool otherwise. *)
Definition answers (t : u64 * bool) (m : Res) : Prop :=
  message_id m = t.1 ∧ (t.2 = true ∨ m = ended t.1 ∨ m = cancelled t.1).

Definition settled (ts ts' : list (u64 * bool)) (ms : list Res) : Prop :=
  ∀ t, t ∈ ts → t ∈ ts' ∨ Exists (answers t) ms.

Lemma settled_refl ts ts' : ts ≡ₚ ts' → settled ts ts' [].
Proof. intros Hp t Ht. left. by rewrite <-Hp. Qed.

Lemma settled_trans ts ts1 ts2 ms1 ms2 :
  settled ts ts1 ms1 → settled ts1 ts2 ms2 → settled ts ts2 (ms1 ++ ms2).
Proof.
  intros H1' H2' t Ht. rewrite Exists_app.
  destruct (H1' t Ht) as [Ht1|]; [|by right; left]. destruct (H2' t Ht1); [by left|by right; right].
Qed.

Lemma terminal_answers id u e : is_terminal e = true → event_fits u e → answers (id, u) (event_message id e).
Proof.
  intros Ht Hf. split; [apply event_message_id|]. destruct e; simpl in *; try done; auto.
Qed.

(** The invariant of the reactor: no pooled rpc is over, and the tracker has
    exactly the ones that were not aborted. *)
Record sub_ok s : Prop := {
  sb_live : Forall live (pool_contents (rpcs s));
  sb_tracker : tracker_ok (pooled s) (aborts s) (bits (flags s));
}.

Lemma submitter_new_ok v : sub_ok (submitter_new v).
Proof.
  split; unfold pooled; simpl; rewrite pool_contents_default; [constructor|].
  split; simpl; try constructor; try set_solver.
Qed.

Lemma budget_uses_app b ms b1 ms2 b2 :
  budget_uses b ms b1 → budget_uses b1 ms2 b2 → budget_uses b (ms ++ ms2) b2.
Proof. induction 1 as [b|b p m ms b' Hp Hu IH]; intros Hu2; [done|]. simpl. econstructor; eauto. Qed.

Lemma reserve_Some b p (m : Res) :
  reserve b = Some p → budget_remaining b < 2 ^ 64 →
  budget_uses b [m] (permit_send p m) ∧
  budget_remaining (permit_send p m) = budget_remaining b - 1 ∧ 0 < budget_remaining b.
Proof.
  intros Hr Hw. split; [by repeat econstructor|].
  unfold reserve in Hr. destruct (N.eqb_spec (budget_remaining b) 0); simplify_eq.
  unfold permit_send. simpl. destruct (encode (budget_encoder b) m). simpl.
  split; [|lia]. apply wsub_small; lia.
Qed.

(** A final event frees the tracker. *)
Lemma message_for_event_spec s id e :
  (message_for_event s id e).1 = event_message id e ∧
  (message_for_event s id e).2 = (if is_terminal e then set_aborts s (delete id (aborts s)) else s).
Proof. by destruct e. Qed.

(** The loop over the rejections. *)
Lemma send_rejections_spec fuel s b produced :
  (length (rejections s) < fuel)%nat → budget_remaining b < 2 ^ 64 →
  produced + budget_remaining b < 2 ^ 64 →
  ∃ rest sent b', let ms := cancelled <$> sent in
    send_rejections fuel s b produced = Return (set_rejections s rest, b', produced + len sent) ∧
    budget_uses b ms b' ∧ rejections s = rest ++ reverse sent ∧
    (rest = [] ∨ budget_remaining b' = 0) ∧
    budget_remaining b' + len sent = budget_remaining b.
Proof.
  revert s b produced. induction fuel as [|fuel IH]; intros s b produced Hf Hw Hp; [lia|].
  cbn [send_rejections]. destruct (rejections s) as [|id0 rej0] eqn:Hrej.
  { exists [], [], b. simpl. rewrite len_nil, !N.add_0_r. split_and!; try done; [|constructor|by left].
    f_equal. f_equal. f_equal. destruct s. simpl in *. by rewrite Hrej. }
  rewrite <-Hrej in Hf |- *. destruct (reserve b) as [p|] eqn:Hr.
  - destruct (vec_pop (rejections s)) as [[id rest]|] eqn:Hv.
    + apply vec_pop_Some in Hv.
      destruct (reserve_Some b p (cancelled id) Hr Hw) as (Hu & Hrem & Hpos).
      destruct (IH (set_rejections s rest) (permit_send p (cancelled id)) (usize_add produced 1))
        as (rest' & sent & b' & He & Hu' & Hrest & Hend & Hlen).
      { rewrite Hv, length_app in Hf. simpl in Hf |- *. lia. }
      { lia. }
      { rewrite Hrem, wadd_small; lia. }
      exists rest', (id :: sent), b'. rewrite He, wadd_small by lia.
      rewrite len_cons. cbn [fmap list_fmap].
      split; [f_equal; f_equal; lia|]. split; [exact (budget_uses_app _ _ _ _ _ Hu Hu')|].
      simpl in Hrest. split; [by rewrite Hv, Hrest, reverse_cons, app_assoc|].
      split; [done|lia].
    + unfold vec_pop in Hv. destruct (reverse (rejections s)) eqn:Hrv; [|done].
      apply (f_equal reverse) in Hrv. rewrite reverse_involutive in Hrv. by rewrite Hrv in Hrej.
  - exists (rejections s), [], b. simpl. rewrite len_nil, !N.add_0_r, app_nil_r.
    split_and!; try done; [by destruct s|constructor|]. right.
    unfold reserve in Hr. by destruct (N.eqb_spec (budget_remaining b) 0).
Qed.

(** The inner loop: what one rpc sends is its own, and it leaves the tracker
    exactly when it is retired. *)
(** What draining an rpc comes to: it sends messages of that rpc within the budget
    until the rpc is over ([retired]) or has no more to say. *)
Definition drained s b produced (x : Rpc) (res : run (bool * Sub * SendBudget C B * usize * Rpc)) : Prop :=
  ∃ (retired : bool) a st b' x' ms,
    res = Return (retired, set_pool (set_aborts s a) (rpcs s) st, b', produced + len ms, x') ∧
    budget_uses b ms b' ∧ Forall (sent_by (rs_id x)) ms ∧ view x' = view x ∧
    budget_remaining b' + len ms = budget_remaining b ∧
    if retired then Exists (answers (tag x)) ms ∧ tracker_ok (pooled s) a (bits st)
    else live x' ∧ tag x' = tag x ∧ tracker_ok (view x :: pooled s) a (bits st).

Lemma drained_pending s b produced x st x1 :
  live x1 → view x1 = view x → tag x1 = tag x → tracker_ok (view x :: pooled s) (aborts s) (bits st) →
  drained s b produced x (Return (false, set_pool s (rpcs s) st, b, produced, x1)).
Proof.
  intros. exists false, (aborts s), st, b, x1, []. rewrite len_nil, !N.add_0_r.
  split; [by destruct s|]. split_and!; try done. constructor.
Qed.

(** One event, and what comes after it. *)
Lemma drained_event fuel s k b p produced x st x1 e :
  let s1 := set_pool s (rpcs s) st in
  reserve b = Some p → budget_remaining b < 2 ^ 64 → produced + budget_remaining b < 2 ^ 64 →
  view x1 = view x → sent_by (rs_id x) (event_message (rs_id x) e) → event_fits (is_unary (rs_kind x)) e →
  tracker_ok (view x :: pooled s) (aborts s) (bits st) → (is_terminal e = false → tag x1 = tag x) →
  (is_terminal e = false → ∀ b2, budget_remaining b2 + 1 = budget_remaining b →
     drained s1 b2 (produced + 1) x1 (drain_rpc fuel s1 k b2 (produced + 1) x1)) →
  drained s b produced x
    (let '(m, s2) := message_for_event s1 (rs_id x) e in
     if is_terminal e then Return (true, s2, permit_send p m, usize_add produced 1, x1)
     else drain_rpc fuel s2 k (permit_send p m) (usize_add produced 1) x1).
Proof.
  intros s1 Hr Hw Hp Hv Hsent Hfits Htk Htag IH. assert (rs_id x1 = rs_id x) as Hid by (by injection Hv).
  destruct (message_for_event_spec s1 (rs_id x) e) as [Hmid Hms].
  destruct (message_for_event s1 (rs_id x) e) as [m s2]. simpl in Hmid, Hms. subst s2 m.
  set (m := event_message (rs_id x) e) in *.
  destruct (reserve_Some b p m Hr Hw) as (Hu & Hrem & Hpos).
  rewrite wadd_small by lia. destruct (is_terminal e) eqn:Hterm.
  - exists true, (delete (rs_id x) (aborts s)), st, (permit_send p m), x1, [m].
    change (len [m]) with 1. split; [done|]. split_and!; try done; [by constructor|lia| |].
    { constructor. by apply terminal_answers. }
    by eapply tracker_remove.
  - destruct (IH eq_refl (permit_send p m)) as (retired & a & st' & b' & x' & ms & He & Hu' & Hids & Hv' & Hlen & Hend);
      [lia|].
    exists retired, a, st', b', x', (m :: ms). rewrite He, len_cons.
    split; [f_equal; f_equal; f_equal; lia|].
    split; [exact (budget_uses_app _ _ _ _ _ Hu Hu')|].
    rewrite Hid in Hids. rewrite Hv', Hv, (Htag eq_refl) in *.
    split_and!; try done; [by constructor|lia|].
    destruct retired; [|done]. destruct Hend as [He' Htk']. split; [by right|done].
Qed.

Lemma drain_rpc_spec fuel s k b produced x :
  live x → tracker_ok (view x :: pooled s) (aborts s) (bits (flags s)) →
  (N.to_nat (budget_remaining b) < fuel)%nat → budget_remaining b < 2 ^ 64 →
  produced + budget_remaining b < 2 ^ 64 →
  drained s b produced x (drain_rpc fuel s k b produced x).
Proof.
  revert s b produced x. induction fuel as [|fuel IH]; intros s b produced x Hx Htk Hf Hw Hp; [lia|].
  cbn [drain_rpc]. destruct (reserve b) as [p|] eqn:Hr; cycle 1.
  { replace s with (set_pool s (rpcs s) (flags s)) at 2 by (by destruct s). by apply drained_pending. }
  pose proof (rpc_poll_next_spec k (flags s) x) as Hpoll.
  pose proof (rpc_poll_next_comes k (flags s) x) as Hcomes.
  destruct (rpc_poll_next k (flags s) x) as [[r st] x1]. destruct Hpoll as (Hb & Hid & Hc & Hres).
  unfold live in Hx. rewrite Hx in Hres. simpl in Hcomes.
  assert (view x1 = view x) as Hv by (unfold view; by rewrite Hid, Hc). rewrite <-Hb in Htk.
  assert (∀ e, r = Ready (Some (rs_id x, e)) → is_done (rs_kind x1) = is_terminal e →
    event_fits (is_unary (rs_kind x)) e → (is_terminal e = false → tag x1 = tag x) → comes e →
    drained s b produced x
      (let '(m, s2) := message_for_event (set_pool s (rpcs s) st) (rs_id x) e in
       if is_terminal e then Return (true, s2, permit_send p m, usize_add produced 1, x1)
       else drain_rpc fuel s2 k (permit_send p m) (usize_add produced 1) x1)) as Hevent.
  { intros e _ Hdone Hfits Htag Hco. apply drained_event; try done; [by exists e|].
    intros Hterm b2 Hb2. destruct (reserve_Some b p (event_message (rs_id x) e) Hr Hw) as (_ & _ & Hpos).
    rewrite Hterm in Hdone. apply IH; [done|by rewrite Hv|lia..]. }
  destruct (cell_aborted (flags s) (rs_cell x));
    destruct r as [[[i [it|re| |]]|]|]; try done; destruct_and!; subst;
    try (eapply Hevent; [reflexivity|..]; simpl; try done; unfold tag; congruence).
  apply drained_pending; try done. unfold tag. congruence.
Qed.

(** What answering some rpcs does, in one turn of the loop or in many: it sends
    messages of pooled rpcs within the budget, and leaves a reactor in order that
    pools no rpc that was not there; no rpc goes without its answer. *)
Record responded s b s' b' (ms : list Res) : Prop := {
  rp_shape : ∃ a p st, s' = set_pool (set_aborts s a) p st;
  rp_uses : budget_uses b ms b';
  rp_ok : sub_ok s';
  rp_sent : Forall (λ m, ∃ id, id ∈ (pooled s).*1 ∧ sent_by id m) ms;
  rp_settled : settled (tags s) (tags s') ms;
  rp_pooled : pooled s' ⊆+ pooled s;
  rp_room : budget_remaining b' + len ms = budget_remaining b;
}.

Lemma responded_trans s b s1 b1 ms1 s2 b2 ms2 :
  responded s b s1 b1 ms1 → responded s1 b1 s2 b2 ms2 → responded s b s2 b2 (ms1 ++ ms2).
Proof.
  intros [(a1 & p1 & st1 & ->) U1 _ I1 T1 P1 R1] [(a2 & p2 & st2 & ->) U2 O2 I2 T2 P2 R2].
  split; [by exists a2, p2, st2|by eapply budget_uses_app|done| |by eapply settled_trans|by etrans
    |rewrite len_app; lia].
  apply Forall_app. split; [done|]. eapply Forall_impl; [exact I2|]. intros m (id & Hm & Hs).
  exists id. split; [|done]. eapply elem_of_submseteq; [exact Hm|]. by apply fmap_submseteq.
Qed.

(** One poll of the pool gives nothing and changes nothing that counts, or it gives
    an rpc with an event of its own. *)
Lemma pool_turn s k b r pool st :
  sub_ok s → pool_poll_next (rpc_poll_next k) (rpcs s) (flags s) = (r, pool, st) →
  let s1 := set_pool s pool st in
  match r with
  | Ready (Some (first, x)) =>
      ∃ e u, first = Some (rs_id x, e) ∧ is_done (rs_kind x) = is_terminal e ∧
        pooled s ≡ₚ view x :: pooled s1 ∧ Forall live (pool_contents (rpcs s1)) ∧
        tracker_ok (view x :: pooled s1) (aborts s) (bits st) ∧
        tags s ≡ₚ (rs_id x, u) :: tags s1 ∧ event_fits u e ∧ sent_by (rs_id x) (event_message (rs_id x) e) ∧
        (is_terminal e = false → tag x = (rs_id x, u))
  | _ => responded s b s1 b []
  end.
Proof.
  intros [Hlive Htk] Hpoll s1.
  pose proof (pool_poll_law (rpc_poll_next k) (rpcs s) (flags s)) as Hlaw. rewrite Hpoll in Hlaw.
  destruct Hlaw as (xs & xs' & Hxs & Hxs' & Hpolls).
  assert (Forall live xs) as Hlxs by (by rewrite <-Hxs).
  destruct (pool_polls_spec k _ _ _ _ _ Hpolls Hlxs) as (Hb & Hlive' & Hr').
  assert (pooled s ≡ₚ view <$> xs) as Hvs by (unfold pooled; by rewrite Hxs).
  assert (pooled s1 ≡ₚ view <$> xs') as Hvs1 by (unfold pooled, s1; simpl; by rewrite Hxs').
  assert (Forall live (pool_contents (rpcs s1))) as Hl1 by (simpl; by rewrite Hxs').
  assert (tags s ≡ₚ tag <$> xs) as Hts by (unfold tags; by rewrite Hxs).
  assert (tags s1 ≡ₚ tag <$> xs') as Hts1 by (unfold tags, s1; simpl; by rewrite Hxs').
  assert (view <$> xs' = view <$> xs ∧ tag <$> xs' = tag <$> xs → responded s b s1 b []) as Hstop.
  { intros [Heq Hteq]. assert (pooled s1 ≡ₚ pooled s) as Hpp by (by rewrite Hvs1, Hvs, Heq).
    split; [by exists (aborts s), pool, st|apply uses_nothing| |done| |by rewrite Hpp|rewrite len_nil; lia].
    - split; [done|]. rewrite Hpp. simpl. by rewrite Hb.
    - apply settled_refl. by rewrite Hts, Hts1, Hteq. }
  destruct r as [[[first x]|]|]; [|by apply Hstop..].
  destruct Hr' as (Hperm & e & u & -> & Hdone & Htags & Hfits & Hcomes & Hkind).
  assert (pooled s ≡ₚ view x :: pooled s1) as Hps by (by rewrite Hvs, Hperm, Hvs1).
  exists e, u. split_and!; try done; [by rewrite <-Hps, Hb|by rewrite Hts, Htags, Hts1|by exists e|].
  intros Hf. unfold tag. by rewrite (Hkind Hf).
Qed.

(** An rpc that left the pool has been answered: it is over, or it goes back. *)
Lemma responded_rpc s s1 b b1 (x : Rpc) u ms a st (x' : option Rpc) :
  (∃ a p st, s1 = set_pool (set_aborts s a) p st) →
  pooled s ≡ₚ view x :: pooled s1 → tags s ≡ₚ (rs_id x, u) :: tags s1 →
  Forall live (pool_contents (rpcs s1)) →
  budget_uses b ms b1 → Forall (sent_by (rs_id x)) ms →
  budget_remaining b1 + len ms = budget_remaining b →
  match x' with
  | None => Exists (answers (rs_id x, u)) ms ∧ tracker_ok (pooled s1) a (bits st)
  | Some x' => live x' ∧ view x' = view x ∧ tag x' = (rs_id x, u) ∧
               tracker_ok (view x :: pooled s1) a (bits st)
  end →
  let pool := match x' with None => rpcs s1 | Some x' => pool_push (rpcs s1) x' end in
  responded s b (set_pool (set_aborts s1 a) pool st) b1 ms.
Proof.
  intros (a0 & p0 & st0 & ->) Hps Hts Hl Hu Hids Hroom Hx'. simpl in Hl. split; try done.
  - destruct x' as [x'|]; by do 3 eexists.
  - destruct x' as [x'|]; [|by destruct Hx'; split]. destruct Hx' as (Hlx & Hv & _ & Htk).
    assert (pool_contents (pool_push p0 x') ≡ₚ x' :: pool_contents p0) as Hpush by apply pool_contents_push.
    split; unfold pooled in *; simpl in *; rewrite Hpush; [by constructor|]. by rewrite fmap_cons, Hv.
  - eapply Forall_impl; [exact Hids|]. intros m Hm. exists (rs_id x). split; [|done]. rewrite Hps. by left.
  - intros t. rewrite Hts. intros [->|Ht]%elem_of_cons; destruct x' as [x'|]; unfold tags; simpl.
    + left. destruct Hx' as (_ & _ & <- & _). rewrite pool_contents_push. by left.
    + right. apply Hx'.
    + left. rewrite pool_contents_push. by right.
    + by left. 
  - rewrite Hps. destruct x' as [x'|]; unfold pooled; simpl.
    + destruct Hx' as (_ & Hv & _). by rewrite pool_contents_push, fmap_cons, Hv.
    + by apply submseteq_cons.
Qed.

(** The loop over the pool. *)
(** The loop goes on after some rpcs have been answered. *)
Lemma responded_then s b s1 b1 ms produced fuel k :
  (∀ s b produced, sub_ok s → (N.to_nat (budget_remaining b) + length (pooled s) < fuel)%nat →
     budget_remaining b < 2 ^ 64 → produced + budget_remaining b < 2 ^ 64 →
     ∃ s' b' ms, send_responses fuel s k b produced = Return (s', b', produced + len ms) ∧ responded s b s' b' ms) →
  responded s b s1 b1 ms → 1 ≤ len ms →
  (N.to_nat (budget_remaining b) + length (pooled s) < Datatypes.S fuel)%nat →
  budget_remaining b < 2 ^ 64 → produced + budget_remaining b < 2 ^ 64 →
  ∃ s' b' ms', send_responses fuel s1 k b1 (produced + len ms) = Return (s', b', produced + len ms') ∧
    responded s b s' b' ms'.
Proof.
  intros IH Hresp Hms Hf Hw Hp. pose proof (rp_room _ _ _ _ _ Hresp) as Hroom.
  pose proof (submseteq_length _ _ (rp_pooled _ _ _ _ _ Hresp)) as Hl.
  destruct (IH s1 b1 (produced + len ms)) as (s' & b' & ms' & He & Hresp'); [by apply Hresp|lia..|].
  exists s', b', (ms ++ ms'). split; [|by eapply responded_trans].
  rewrite He, len_app. f_equal. f_equal. lia.
Qed.

Lemma send_responses_spec fuel s k b produced :
  sub_ok s → (N.to_nat (budget_remaining b) + length (pooled s) < fuel)%nat →
  budget_remaining b < 2 ^ 64 → produced + budget_remaining b < 2 ^ 64 →
  ∃ s' b' ms, send_responses fuel s k b produced = Return (s', b', produced + len ms) ∧
    responded s b s' b' ms.
Proof.
  revert s b produced. induction fuel as [|fuel IH]; intros s b produced Hok Hf Hw Hp; [lia|].
  cbn [send_responses]. destruct (reserve b) as [p|] eqn:Hr; cycle 1.
  { exists s, b, []. rewrite len_nil, N.add_0_r. split; [done|].
    split; [exists (aborts s), (rpcs s), (flags s); by destruct s|apply uses_nothing|done|done
      |by apply settled_refl|done|rewrite len_nil; lia]. }
  destruct (pool_poll_next (rpc_poll_next k) (rpcs s) (flags s)) as [[r pool] st] eqn:Hpoll.
  pose proof (pool_turn s k b r pool st Hok Hpoll) as Hturn. cbv zeta in Hturn.
  set (s1 := set_pool s pool st) in *.
  destruct r as [[[first x]|]|]; [|by exists s1, b, []; rewrite len_nil, N.add_0_r..].
  destruct Hturn as (e & u & -> & Hdone & Hps & Hl1 & Htk & Hts & Hfits & Hsent & Hkind).
  destruct (message_for_event_spec s1 (rs_id x) e) as [Hmid Hms].
  destruct (message_for_event s1 (rs_id x) e) as [m s2]. simpl in Hmid, Hms. subst s2. rewrite <-Hmid in Hsent.
  destruct (reserve_Some b p m Hr Hw) as (Hu & Hrem & Hpos). rewrite wadd_small by lia.
  assert (length (pooled s) = Datatypes.S (length (pooled s1))) as Hlen by (by rewrite Hps).
  assert (∀ s3 b3 ms, responded s b s3 b3 (m :: ms) →
    ∃ s' b' ms', send_responses fuel s3 k b3 (produced + len (m :: ms)) = Return (s', b', produced + len ms') ∧
      responded s b s' b' ms') as Hnext
    by (intros; apply (responded_then _ _ _ _ _ _ fuel k IH); [done|rewrite ?len_cons; lia..]).
  assert (∃ a p st, s1 = set_pool (set_aborts s a) p st) as Hshape by (by exists (aborts s), pool, st).
  destruct (is_terminal e) eqn:Hterm.
  { apply (Hnext _ (permit_send p m) []).
    change (set_aborts s1 _) with (set_pool (set_aborts s1 (delete (rs_id x) (aborts s))) (rpcs s1) st).
    apply (responded_rpc s s1 b _ x u [m] _ st None); try done; [by constructor|change (len [m]) with 1; lia|].
    split; [|by eapply tracker_remove]. constructor. rewrite Hmid. by apply terminal_answers. }
  destruct (drain_rpc_spec (Datatypes.S (N.to_nat (budget_remaining (permit_send p m)))) s1 k
    (permit_send p m) (produced + 1) x)
    as (retired & a & st1 & b1 & x1 & ms & Hd & Hu1 & Hids1 & Hv1 & Hrem1 & Hend);
    [done|done|lia|lia|lia|].
  rewrite Hd. cbn [run_bind].
  replace (produced + 1 + len ms) with (produced + len (m :: ms)) by (rewrite len_cons; lia).
  destruct retired; destruct Hend as [Hend1 Hend2]; rewrite (Hkind eq_refl) in *; apply Hnext;
    [apply (responded_rpc s s1 b b1 x u (m :: ms) a st1 None)
    |apply (responded_rpc s s1 b b1 x u (m :: ms) a st1 (Some x1))]; try done;
    try exact (budget_uses_app _ _ _ _ _ Hu Hu1); try (by constructor); try (rewrite len_cons; lia).
  split; [by right|done].
Qed.

(** [poll_outbound_many] as a whole. *)
Lemma submitter_poll_outbound_spec s k b :
  sub_ok s → budget_remaining b < 2 ^ 64 →
  ∃ rest sent a p st b' ms,
    let s' := set_pool (set_aborts (set_rejections s rest) a) p st in
    submitter_poll_outbound_many s k b
      = Return (if 0 <? len sent + len ms then Ready (Some tt) else Pending, s', b') ∧
    budget_uses b ((cancelled <$> sent) ++ ms) b' ∧ sub_ok s' ∧
    rejections s = rest ++ reverse sent ∧
    Forall (λ m, ∃ id, id ∈ (pooled s).*1 ∧ sent_by id m) ms ∧
    settled (tags s) (tags s') ms ∧ pooled s' ⊆+ pooled s ∧
    (rest = [] ∨ (ms = [] ∧ budget_remaining b' = 0)).
Proof.
  intros Hok Hw. unfold submitter_poll_outbound_many.
  destruct (send_rejections_spec (Datatypes.S (length (rejections s))) s b 0)
    as (rest & sent & b1 & He & Hu & Hrej & Hend & Hlen); [lia|done|lia|].
  rewrite He. cbn [run_bind]. rewrite N.add_0_l.
  set (s1 := set_rejections s rest).
  assert (sub_ok s1) as Hok1 by (by destruct Hok).
  assert (pool_len (rpcs s1) = length (pooled s1)) as Hpl.
  { rewrite pool_contents_len. unfold pooled. by rewrite length_fmap. }
  destruct (send_responses_spec (Datatypes.S (N.to_nat (budget_remaining b1) + pool_len (rpcs s1)))
    s1 k b1 (len sent)) as (s2 & b' & ms & He2 & [(a & p & st & ->) Hu2 Hok2 Hids Hset Hss Hl2]);
    [done|rewrite Hpl; lia|lia|lia|].
  rewrite He2. cbn [run_bind].
  exists rest, sent, a, p, st, b', ms. split; [done|].
  split; [by eapply budget_uses_app|]. split; [done|]. split; [done|]. split; [done|].
  split; [done|]. split; [done|]. destruct Hend as [->|Hz]; [by left|right].
  assert (len ms = 0) as Hm0 by lia. apply len_zero in Hm0. split; [done|lia].
Qed.

(** Starting an rpc under an id no pooled rpc has, and every other message. *)
Lemma start_rpc_ok s id kind :
  is_done kind = false → sub_ok s → id ∉ (pooled s).*1 → sub_ok (start_rpc s id kind).
Proof.
  intros Hk [Hl Ht] Hid. split; unfold start_rpc; simpl.
  - rewrite pool_contents_push. by constructor.
  - unfold pooled. simpl. rewrite pool_contents_push, fmap_cons. simpl.
    assert (bits (flags s ++ [mkAbortCell false aw_new]) = bits (flags s) ++ [false]) as ->
      by (unfold bits; by rewrite fmap_app).
    assert (length (flags s) = length (bits (flags s))) as Hlen
      by (unfold bits; by rewrite length_fmap).
    unfold view. simpl. rewrite Hlen. by apply tracker_push.
Qed.

Lemma on_inbound_ok s (m : Req) :
  sub_ok s → (control_code m = Normal → message_id m ∉ (pooled s).*1) →
  sub_ok (on_inbound s m).1.2.
Proof.
  intros Hok Hfresh. unfold on_inbound. destruct (control_code m) eqn:Hcc.
  - destruct (new_rpc (connection_server s) m) as [[f|st|] v]; simpl.
    + apply start_rpc_ok; [done|by destruct Hok|by apply Hfresh].
    + apply start_rpc_ok; [done|by destruct Hok|by apply Hfresh].
    + by destruct Hok.
  - destruct Hok as [Hl Ht]. unfold take_abort.
    destruct (aborts s !! message_id m) as [h|] eqn:Ha.
    + pose proof (bits_mark (K:=K) (flags s) h) as Hb.
      change (flags (set_aborts s (delete (message_id m) (aborts s)))) with (flags s).
      destruct (mark_aborted h (flags s)) as [st ks]. simpl in Hb |- *.
      split; [done|]. simpl. rewrite Hb. by apply tracker_abort.
    + simpl. split; [done|]. simpl. by rewrite delete_id.
  - done.
Qed.
End submitter.

(** A connection may host the reactor: it keeps to the budget. *)
Section host.
Context {V K Req Res F S P W C B : Type}.
Context `{AtomicWaker W K} `{FutureOp F K Res} `{StreamOp S K Res}.
Context `{ConnectionService V K Req F S}.
Context `{!Message Req} `{!Message Res}.
Context `{!FuturesUnordered P (RpcStream F S) (u64 * RpcStreamEvent Res) (list (AbortCell W))}.
Context `{!Encoder C Res B}.
Implicit Types s : RpcSubmitter V P W.
Implicit Types b : SendBudget C B.

Lemma uses_send b p (m : Res) : reserve b = Some p → budget_uses b [m] (permit_send p m).
Proof. intros Hr. by repeat econstructor. Qed.

Lemma send_rejections_uses fuel s b produced s' b' n :
  send_rejections fuel s b produced = Return (s', b', n) → ∃ ms, budget_uses b ms b'.
Proof.
  revert s b produced. induction fuel as [|fuel IH]; intros s b produced He; [done|].
  cbn [send_rejections] in He. destruct (rejections s) as [|id0 rej0]; simplify_eq.
  { exists []. constructor. }
  destruct (reserve b) as [p|] eqn:Hr; simplify_eq; [|exists []; constructor].
  destruct (vec_pop _) as [[id rest]|]; simplify_eq; [|exists []; constructor].
  destruct (IH _ _ _ He) as [ms Hu]. exists (cancelled id :: ms). by econstructor.
Qed.

Lemma drain_rpc_uses fuel s k b produced x z s' b' n x' :
  drain_rpc fuel s k b produced x = Return (z, s', b', n, x') → ∃ ms, budget_uses b ms b'.
Proof.
  revert s b produced x. induction fuel as [|fuel IH]; intros s b produced x He; [done|].
  cbn [drain_rpc] in He. destruct (reserve b) as [p|] eqn:Hr; simplify_eq; [|exists []; constructor].
  destruct (rpc_poll_next k (flags s) x) as [[[[[id e]|]|] st] x1]; simplify_eq;
    [|exists []; constructor..].
  destruct (message_for_event _ id e) as [m s2].
  destruct (is_terminal e); simplify_eq.
  - exists [m]. by apply uses_send.
  - destruct (IH _ _ _ _ He) as [ms Hu]. exists (m :: ms). by econstructor.
Qed.

Lemma send_responses_uses fuel s k b produced s' b' n :
  send_responses fuel s k b produced = Return (s', b', n) → ∃ ms, budget_uses b ms b'.
Proof.
  revert s b produced. induction fuel as [|fuel IH]; intros s b produced He; [done|].
  cbn [send_responses] in He. destruct (reserve b) as [p|] eqn:Hr; simplify_eq;
    [|exists []; constructor].
  destruct (pool_poll_next _ (rpcs s) (flags s)) as [[[[[[[id e]|] x]|]|] pool] st]; simplify_eq;
    [|by eapply IH|exists []; constructor..].
  destruct (message_for_event _ id e) as [m s2].
  destruct (is_terminal e); simplify_eq.
  - destruct (IH _ _ _ He) as [ms Hu]. exists (m :: ms). by econstructor.
  - apply run_bind_Return in He as ([[[[z s3] b3] n3] x3] & Hd & He).
    destruct (drain_rpc_uses _ _ _ _ _ _ _ _ _ _ _ Hd) as [ms1 Hu1].
    destruct (IH _ _ _ He) as [ms2 Hu2]. exists (m :: ms1 ++ ms2).
    econstructor; [done|]. by eapply budget_uses_app.
Qed.

#[export] Instance submitter_reactor_laws
  : MessageReactorLaws (RpcSubmitter V P W) K C B Req Res Res.
Proof.
  split. intros s k b _. simpl. destruct (submitter_poll_outbound_many s k b) as [[[r s'] b']| |] eqn:He;
    [|exists []; constructor..].
  unfold submitter_poll_outbound_many in He.
  apply run_bind_Return in He as ([[s1 b1] n1] & H1' & He).
  apply run_bind_Return in He as ([[s2 b2] n2] & H2' & He). simplify_eq.
  destruct (send_rejections_uses _ _ _ _ _ _ _ H1') as [ms1 Hu1].
  destruct (send_responses_uses _ _ _ _ _ _ _ _ H2') as [ms2 Hu2].
  exists (ms1 ++ ms2). by eapply budget_uses_app.
Qed.
End host.

(** ** The properties *)

Module RpcReactor.
Import WakerCell.

Section claims.
Context {V K Req Res F S P W C B : Type}.
Context `{AtomicWakerLaws W K} `{FutureOp F K Res} `{StreamOp S K Res}.
Context `{ConnectionService V K Req F S}.
Context `{!Message Req} `{MessageLaws Res}.
Context `{FuturesUnorderedLaws P (RpcStream F S) (u64 * RpcStreamEvent Res) (list (AbortCell W))}.
Context `{!Encoder C Res B}.
Implicit Types s : RpcSubmitter V P W.
Implicit Types b : SendBudget C B.

(** C24: the protocol of one rpc: however a new rpc is polled and aborted, a unary
    one yields at most one [Complete], a streaming one items and at most one
    [Finished], an abort yields [Cancelled] at the next poll, each of these three
    is final, and every event carries the rpc's id. *)
Theorem rpc_one_terminal (st : list (AbortCell W)) (id : u64) (f : F) (x : S)
  (calls : list (RpcCall (K:=K))) :
  (let '(rpc, _, st') := new_unary st id f in
   protocol id true true false calls (rpc_run (T:=Res) st' rpc calls)) ∧
  (let '(rpc, _, st') := new_streaming st id x in
   protocol id false true false calls (rpc_run (T:=Res) st' rpc calls)).
Proof.
  assert (∀ kind, let '(rpc, _, st') := rpc_stream_new st id kind in
    is_done kind = false →
    protocol id (is_unary kind) true false calls (rpc_run (T:=Res) st' rpc calls)) as Hnew.
  { intros kind. unfold rpc_stream_new. intros Hk.
    set (st' := st ++ [mkAbortCell false aw_new]). set (rpc := mkRpcStream id (length st) kind).
    pose proof (rpc_run_protocol calls st' rpc) as Hp.
    assert (cell_aborted st' (rs_cell rpc) = false) as Hc.
    { unfold cell_aborted, st', rpc. simpl. by rewrite list_lookup_middle. }
    rewrite Hc in Hp. simpl in Hp. rewrite Hk in Hp. apply Hp.
    unfold st'. rewrite length_app. simpl. lia. }
  split; [exact (Hnew (KindUnary f) eq_refl)|exact (Hnew (KindStreaming x) eq_refl)].
Qed.

(** The states of a reactor whose peer does not use an id that is still in
    use: messages come in, the connection polls for responses, the service is
    polled. *)
Inductive reachable : RpcSubmitter V P W → Prop :=
| reach_new v : reachable (submitter_new v)
| reach_inbound s m :
    reachable s → (control_code m = Normal → message_id m ∉ (pooled s).*1) →
    reachable (on_inbound s m).1.2
| reach_outbound s k b p s' b' :
    reachable s → budget_remaining b < 2 ^ 64 →
    submitter_poll_outbound_many s k b = Return (p, s', b') → reachable s'
| reach_service s k : reachable s → reachable (reactor_poll (C:=C) (B:=B) s k).2.

Lemma reachable_ok s : reachable s → sub_ok s.
Proof.
  induction 1 as [v|s m Hr IH Hfresh|s k b p s' b' Hr IH Hw He|s k Hr [IH1 IH2]].
  - apply submitter_new_ok.
  - by apply on_inbound_ok.
  - destruct (submitter_poll_outbound_spec s k b IH Hw)
      as (rest & sent & a & pl & st & b2 & ms & He2 & _ & Hok & _).
    rewrite He in He2. by simplify_eq.
  - simpl. destruct (service_poll (connection_server s) k) as [flow v]. by split.
Qed.

(** What [sub_ok] says of a pooled rpc and of a handle. *)
Lemma pooled_registered s (x : RpcStream F S) :
  sub_ok s → x ∈ pool_contents (rpcs s) → cell_aborted (flags s) (rs_cell x) = false →
  aborts s !! rs_id x = Some (mkRpcAbortHandle (rs_cell x)).
Proof.
  intros [_ Ht] Hx Hc. assert (view x ∈ pooled s) as Hin by (unfold pooled; by apply list_elem_of_fmap_2).
  apply (tk_registered _ _ _ Ht _ Hin). simpl. rewrite cell_aborted_bits in Hc.
  pose proof (tk_flags _ _ _ Ht) as Hfl. rewrite Forall_forall in Hfl.
  apply Hfl, lookup_lt_is_Some in Hin as [bit Hbit]. simpl in Hbit. rewrite Hbit in Hc |- *. simpl in Hc. by subst bit.
Qed.

Lemma handle_pooled s id h :
  sub_ok s → aborts s !! id = Some h →
  ∃ x : RpcStream F S, x ∈ pool_contents (rpcs s) ∧ rs_id x = id ∧ rs_cell x = ah_cell h ∧
    cell_aborted (flags s) (ah_cell h) = false.
Proof.
  intros [_ Ht] Ha. destruct (tk_handles _ _ _ Ht _ _ Ha) as [Hin Hb].
  unfold pooled in Hin. apply list_elem_of_fmap in Hin as (x & Hv & Hx).
  unfold view in Hv. injection Hv as -> Hc. exists x. split_and!; try done. by rewrite cell_aborted_bits, Hb.
Qed.

(** C13: the abort tracker is exact as long as the peer gives no request the id of
    an rpc that is still pooled, which is what [reachable] asks of the requests: in
    every state that is reached so, no pooled rpc is over, the rpcs whose flag is
    down are registered under their ids with a handle on their own flag, and there
    is no other handle; a handle does not outlive its rpc and the peer can cancel.
    Without the condition it fails ([reused_id_loses_the_handle]). *)
Theorem tracker_exact s (Hreach : reachable s) :
  Forall live (pool_contents (rpcs s)) ∧
  (∀ x, x ∈ pool_contents (rpcs s) → cell_aborted (flags s) (rs_cell x) = false →
     aborts s !! rs_id x = Some (mkRpcAbortHandle (rs_cell x))) ∧
  (∀ id h, aborts s !! id = Some h →
     ∃ x, x ∈ pool_contents (rpcs s) ∧ rs_id x = id ∧ rs_cell x = ah_cell h ∧
          cell_aborted (flags s) (ah_cell h) = false).
Proof.
  pose proof (reachable_ok s Hreach) as Hok. split; [apply Hok|]. split.
  - intros x Hx Hc. by apply pooled_registered.
  - intros id h Ha. by apply handle_pooled.
Qed.

(** C21: what a poll for responses does, on any state in order and any budget: it
    returns; it sends [Cancelled] for the rejected requests, last one first, and
    then what the futures and streams of pooled rpcs gave, under the rpc's id; an
    rpc leaves the pool only with its answer (the end, for a streaming one); it
    never sends beyond its budget, serves no rpc while rejections wait for room,
    reports [Ready] exactly when it sent something, and never ends the reactor. *)
Theorem outbound_accounting s (k : K) b (Hok : sub_ok s) (Hw : budget_remaining b < 2 ^ 64) :
  ∃ rest sent ms s' b',
    submitter_poll_outbound_many s k b
      = Return (if 0 <? len sent + len ms then Ready (Some tt) else Pending, s', b') ∧
    budget_uses b ((cancelled <$> sent) ++ ms) b' ∧
    rejections s = rest ++ reverse sent ∧ rejections s' = rest ∧
    Forall (λ m, ∃ id, id ∈ (pooled s).*1 ∧ sent_by (F:=F) (S:=S) (K:=K) id m) ms ∧
    settled (tags s) (tags s') ms ∧ (rest = [] ∨ (ms = [] ∧ budget_remaining b' = 0)) ∧
    pooled s' ⊆+ pooled s ∧ connection_server s' = connection_server s ∧ sub_ok s'.
Proof.
  destruct (submitter_poll_outbound_spec s k b Hok Hw)
    as (rest & sent & a & p & st & b' & ms & He & Hu & Hok' & Hrej & Hids & Hset & Hss & Hend).
  by eexists rest, sent, ms, _, b'.
Qed.

(** Backpressure: with no room in the send buffer the poll does nothing: no
    rpc is polled, no rejection is taken, the state is the same. *)
Theorem no_room_no_work s (k : K) b (Hroom : budget_remaining b = 0) :
  submitter_poll_outbound_many s k b = Return (Pending, s, b).
Proof.
  assert (reserve b = None) as Hr by (unfold reserve; by rewrite Hroom).
  unfold submitter_poll_outbound_many. cbn [send_rejections]. rewrite Hr.
  assert (∀ r, match rejections s with [] => Return (s, b, 0) | _ => Return (s, b, 0) end = r →
    r = Return (s, b, 0)) as Hm by (intros r <-; by destruct (rejections s)).
  rewrite (Hm _ eq_refl). cbn [run_bind send_responses]. by rewrite Hr.
Qed.

(** A [Cancel] that finds no handle changes nothing. *)
Lemma cancel_unknown s (m : Req) :
  control_code m = Cancel → aborts s !! message_id m = None → on_inbound s m = (StatusContinue, s, []).
Proof.
  intros Hcode Ha. unfold on_inbound. rewrite Hcode. unfold take_abort. rewrite Ha, delete_id by done. by destruct s.
Qed.

(** The flag of a pooled rpc is raised by marking its cell, and the rpc then ends. *)
Lemma marked_rpc_ends s (x : RpcStream F S) (k : K) :
  sub_ok s → x ∈ pool_contents (rpcs s) →
  let '(st, ks) := mark_aborted (mkRpcAbortHandle (rs_cell x)) (flags s) in
  bits st = <[rs_cell x := true]> (bits (flags s)) ∧
  ks = option_list ((flags s !! rs_cell x) ≫= λ cell, (aw_wake (abort_waker cell)).2) ∧
  (rpc_poll_next (T:=Res) k st x).1.1 = Ready (Some (rs_id x, Cancelled)).
Proof.
  intros [Hl Ht] Hx. assert (view x ∈ pooled s) as Hin by (unfold pooled; by apply list_elem_of_fmap_2).
  pose proof (tk_flags _ _ _ Ht) as Hfl. rewrite Forall_forall in Hfl. specialize (Hfl _ Hin). simpl in Hfl.
  pose proof (bits_mark (K:=K) (flags s) (mkRpcAbortHandle (rs_cell x))) as Hb.
  unfold mark_aborted in *. simpl in Hb |- *. pose proof Hfl as Hfl'. unfold bits in Hfl. rewrite length_fmap in Hfl.
  apply lookup_lt_is_Some in Hfl as [cell Hcell]. rewrite Hcell in Hb |- *.
  destruct (aw_wake (abort_waker cell)) as [w ks] eqn:Hwake. simpl in Hb. split; [exact Hb|].
  split; [simpl; by rewrite Hwake|].
  pose proof (rpc_poll_next_spec (T:=Res) k (<[rs_cell x := mkAbortCell true w]> (flags s)) x) as Hp.
  destruct (rpc_poll_next _ _ x) as [[r st'] x']. destruct Hp as (_ & _ & _ & Hp).
  rewrite Forall_forall in Hl. specialize (Hl _ Hx). unfold live in Hl. rewrite Hl in Hp.
  assert (cell_aborted (<[rs_cell x := mkAbortCell true w]> (flags s)) (rs_cell x) = true) as Hca.
  { rewrite cell_aborted_bits. unfold bits in *. by rewrite Hb, list_lookup_insert_eq. }
  rewrite Hca in Hp. destruct r as [[[i [it|re| |]]|]|]; try done. by destruct Hp as [-> _].
Qed.

End claims.

(** The echo service, hosted: its futures are always ready, its pool is polled in
    order, and here its messages are written as the low byte of their id. *)
Abbreviation EchoRpc := (RpcStream Response (list Response)).
Abbreviation EchoSubmitter := (RpcSubmitter unit (list EchoRpc) (option nat)).
Abbreviation EchoBudget := (SendBudget unit OwnedBuffer).

#[export] Instance tag_serialize : Serialize unit Response := {|
  serialize_into_buffer u m buffer := (buffer ++ [res_request_id m mod 256], u);
|}.

Definition echo_new : EchoSubmitter := submitter_new (F:=Response) (S:=list Response) (Res:=Response) tt.
Definition echo_inbound (s : EchoSubmitter) (m : Request) : ReactorStatus * EchoSubmitter * list nat :=
  on_inbound (F:=Response) (S:=list Response) (Res:=Response) s m.
Definition echo_outbound (s : EchoSubmitter) (k : nat) (b : EchoBudget)
  : run (Poll (option unit) * EchoSubmitter * EchoBudget) :=
  submitter_poll_outbound_many (F:=Response) (S:=list Response) (Res:=Response) s k b.

Lemma budget_has_room (b : EchoBudget) :
  0 < budget_remaining b → reserve b = Some (mkSendPermit b).
Proof. intros Hr. unfold reserve. by rewrite (proj2 (N.eqb_neq _ _)) by lia. Qed.

Lemma poll_iter (items : list Response) (st : list (AbortCell (option nat))) (k : nat) id c :
  cell_aborted st c = false →
  rpc_poll_next (T:=Response) k st (mkRpcStream (F:=Response) id c (KindStreaming items))
    = (match items with
       | [] => (Ready (Some (id, Finished)), register_waker st c k, mkRpcStream id c KindDone)
       | item :: items => (Ready (Some (id, Item item)), register_waker st c k,
                           mkRpcStream id c (KindStreaming items))
       end).
Proof.
  intros Hc. unfold rpc_poll_next. simpl. rewrite cell_aborted_bits, bits_register, <-cell_aborted_bits, Hc.
  by destruct items.
Qed.

(** A stream that is always ready is sent to its end in one go. *)
Lemma drain_iter (items : list Response) (s : EchoSubmitter) (k : nat) (b : EchoBudget) produced id c fuel :
  cell_aborted (flags s) c = false → len items < budget_remaining b < 2 ^ 64 →
  (length items < fuel)%nat → produced + budget_remaining b < 2 ^ 64 →
  ∃ st b',
    drain_rpc (F:=Response) fuel s k b produced (mkRpcStream id c (KindStreaming items))
      = Return (true, set_pool (set_aborts s (delete id (aborts s))) (rpcs s) st, b',
                produced + len items + 1, mkRpcStream id c KindDone) ∧
    budget_uses b (((λ r, set_message_id r id) <$> items) ++ [ended id]) b' ∧
    budget_remaining b' = budget_remaining b - len items - 1.
Proof.
  revert s b produced fuel. induction items as [|item items IH];
    intros s b produced [|fuel] Hc Hroom Hf Hp; try (simpl in Hf; lia);
    cbn [drain_rpc]; rewrite budget_has_room by lia; rewrite poll_iter by done;
    cbn [message_for_event is_terminal].
  - rewrite wadd_small by lia. rewrite len_nil in *.
    eexists _, _. split; [f_equal; f_equal; f_equal; lia|].
    destruct (reserve_Some b (mkSendPermit b) (ended id) (budget_has_room b (proj1 Hroom)) (proj2 Hroom))
      as (Hu & Hrem & _). split; [exact Hu|lia].
  - rewrite len_cons in *. set (m := set_message_id item id).
    destruct (reserve_Some b (mkSendPermit b) m) as (Hu & Hrem & _); [apply budget_has_room; lia|lia|].
    rewrite wadd_small by lia.
    destruct (IH (set_pool s (rpcs s) (register_waker (flags s) c k)) (permit_send (mkSendPermit b) m)
      (produced + 1) fuel) as (st & b' & He & Hu' & Hrem'); [|lia|simpl in Hf; lia|lia|].
    { simpl. by rewrite cell_aborted_bits, bits_register, <-cell_aborted_bits. }
    eexists st, b'. rewrite He. split; [f_equal; f_equal; f_equal; simpl; lia|].
    split; [exact (budget_uses_app _ _ _ _ _ Hu Hu')|lia].
Qed.

(** An empty pool has nothing to send. *)
Lemma send_responses_empty (s : EchoSubmitter) (k : nat) (b : EchoBudget) produced fuel :
  rpcs s = [] →
  send_responses (F:=Response) (S:=list Response) (Res:=Response) (Datatypes.S fuel) s k b produced
    = Return (s, b, produced).
Proof.
  intros Hp. cbn [send_responses]. destruct (reserve b); [|done]. rewrite Hp. cbn.
  by rewrite <-Hp; destruct s.
Qed.

(** The loop over a pool with one stream that is always ready. *)
Lemma send_responses_iter (items : list Response) (s : EchoSubmitter) (k : nat) (b : EchoBudget) id c fuel :
  rpcs s = [mkRpcStream (F:=Response) id c (KindStreaming items)] →
  cell_aborted (flags s) c = false → len items < budget_remaining b < 2 ^ 64 →
  ∃ st b',
    send_responses (F:=Response) (Res:=Response) (Datatypes.S (Datatypes.S fuel)) s k b 0
      = Return (set_pool (set_aborts s (delete id (aborts s))) [] st, b', len items + 1) ∧
    budget_uses b (((λ r, set_message_id r id) <$> items) ++ [ended id]) b'.
Proof.
  intros Hpool Hc Hroom. remember (Datatypes.S fuel) as fuel1 eqn:Hf1.
  cbn [send_responses]. rewrite budget_has_room by lia. rewrite Hpool.
  cbn [pool_poll_next fifo_pool fifo_poll]. rewrite poll_iter by done. subst fuel1.
  destruct items as [|item items]; cbn [app is_terminal message_for_event].
  - rewrite send_responses_empty by done. eexists _, _. split; [done|].
    apply reserve_Some; [apply budget_has_room; lia|lia].
  - rewrite len_cons in *. set (m := set_message_id item id).
    destruct (reserve_Some b (mkSendPermit b) m) as (Hu & Hrem & _); [apply budget_has_room; lia|lia|].
    set (b1 := permit_send (mkSendPermit b) m) in *.
    destruct (drain_iter items (set_pool s [] (register_waker (flags s) c k)) k b1 1 id c
      (Datatypes.S (N.to_nat (budget_remaining b1)))) as (st & b' & He & Hu' & _); [|unfold len in *; lia..|].
    { simpl. by rewrite cell_aborted_bits, bits_register, <-cell_aborted_bits. }
    change (usize_add 0 1) with 1. rewrite He. cbn [run_bind].
    rewrite send_responses_empty by done. eexists st, b'.
    split; [f_equal; f_equal; simpl; lia|]. exact (budget_uses_app _ _ _ _ _ Hu Hu').
Qed.

(** A streaming echo, end to end: the request starts one rpc, and one poll
    with room for the answer sends one message per byte of the text, in order and
    under the request's id, then [End], and leaves nothing behind: no rpc, no
    handle, no rejection.  Of an ASCII text the messages say exactly the text. *)
Theorem echo_stream_served (m : Request) (echo : EchoRequest) (k : nat) (b : EchoBudget)
  (Hcode : control_code m = Normal) (Hbody : req_body m = Some echo)
  (Hbehavior : req_response_behavior m = Stream)
  (Hroom : len (er_message echo) < budget_remaining b < 2 ^ 64) :
  ∃ s' b',
    echo_outbound (echo_inbound echo_new m).1.2 k b = Return (Ready (Some tt), s', b') ∧
    budget_uses b (echo_stream (message_id m) echo ++ [ended (message_id m)]) b' ∧
    rpcs s' = [] ∧ aborts s' = ∅ ∧ rejections s' = [] ∧
    (Forall (λ c, c < 128) (er_message echo) →
       streamed_text (echo_stream (message_id m) echo) = er_message echo).
Proof.
  assert (∃ s' b',
    echo_outbound (echo_inbound echo_new m).1.2 k b = Return (Ready (Some tt), s', b') ∧
    budget_uses b (echo_stream (message_id m) echo ++ [ended (message_id m)]) b' ∧
    rpcs s' = [] ∧ aborts s' = ∅ ∧ rejections s' = []) as (s' & b' & ? & ? & ? & ? & ?).
  2:{ exists s', b'. split_and!; try done. apply streamed_text_ascii. }
  unfold echo_inbound, on_inbound. rewrite Hcode. cbn [new_rpc echo_service]. rewrite Hbody, Hbehavior.
  change (req_request_id m) with (message_id m). set (id := message_id m).
  pose proof (echo_stream_ids id echo) as Hids.
  assert (len (echo_stream id echo) = len (er_message echo)) as Hlen
    by (unfold len; by rewrite length_echo_stream).
  generalize dependent (echo_stream id echo). intros items Hids Hlen.
  assert ((λ r, set_message_id r id) <$> items = items) as Hset.
  { clear -Hids. induction Hids as [|r rs Hr _ IH]; [done|]. rewrite fmap_cons, IH.
    f_equal. destruct r. simpl in *. by subst. }
  set (s1 := (_, start_rpc _ id _, _).1.2).
  assert (rpcs s1 = [mkRpcStream id 0 (KindStreaming items)]) as Hp1 by done.
  destruct (send_responses_iter items s1 k b id 0 (N.to_nat (budget_remaining b) - 1 + 1))
    as (st & b' & He & Hu); [done..|lia|].
  rewrite Hset in Hu. exists (set_pool (set_aborts s1 (delete id (aborts s1))) [] st), b'.
  split; [|split_and!; try done; simpl; by rewrite ?delete_insert_eq].
  unfold echo_outbound, submitter_poll_outbound_many.
  change (rejections s1) with ([] : list u64).
  cbn [length send_rejections]. change (rejections s1) with ([] : list u64). cbn [run_bind].
  match goal with |- context [send_responses (Datatypes.S ?n)] =>
    assert (n = Datatypes.S (N.to_nat (budget_remaining b) - 1 + 1)) as ->
      by (change n with (N.to_nat (budget_remaining b) + 1)%nat; lia)
  end.
  rewrite He. cbn [run_bind]. by rewrite (proj2 (N.ltb_lt _ _)) by lia.
Qed.

(** ** Witnesses *)

Definition echo_msg (id : u64) (text : bytes) (behavior : ResponseBehavior) : Request :=
  mkRequest id 0 (Some (mkEchoRequest text 42)) behavior.
Definition echo_budget (n : usize) : EchoBudget := mkSendBudget tt [] n.

(** A reactor with one rejection and one stream of two bytes pooled. *)
Definition echo_busy : EchoSubmitter :=
  (echo_inbound (echo_inbound echo_new (mkRequest 9 0 None Unary)).1.2
     (echo_msg 7 [104; 105] Stream)).1.2.

Lemma echo_busy_reachable :
  reachable (K:=nat) (F:=Response) (S:=list Response) (Res:=Response) (C:=unit) (B:=OwnedBuffer) echo_busy.
Proof.
  apply reach_inbound; [apply reach_inbound; [constructor|]|]; intros _; vm_compute; intros H; inversion H.
Qed.

Lemma echo_busy_ok : sub_ok (F:=Response) (S:=list Response) (Res:=Response) echo_busy.
Proof.
  apply (on_inbound_ok (K:=nat) (Res:=Response)); [apply (on_inbound_ok (K:=nat)); [apply submitter_new_ok|]|];
    intros _; vm_compute; intros H; inversion H.
Qed.

Lemma tracker_exact_witness :
  Forall (live (F:=Response) (S:=list Response)) (rpcs echo_busy) ∧
  aborts echo_busy !! 7 = Some (mkRpcAbortHandle 0).
Proof.
  destruct (tracker_exact echo_busy echo_busy_reachable) as (Hl & Hreg & _). split; [exact Hl|].
  apply (Hreg (mkRpcStream 7 0 (KindStreaming (echo_stream 7 (mkEchoRequest [104; 105] 42)))));
    [vm_compute; left|reflexivity].
Defined.

Lemma outbound_accounting_witness :
  ∃ s' b', echo_outbound echo_busy 5%nat (echo_budget 2) = Return (Ready (Some tt), s', b') ∧
    rejections s' = [] ∧ length (rpcs s') = 1%nat ∧ sub_ok (Res:=Response) s'.
Proof.
  destruct (outbound_accounting echo_busy 5%nat (echo_budget 2) echo_busy_ok)
    as (rest & sent & ms & s' & b' & He & _ & _ & Hr & _ & _ & _ & _ & _ & Hok); [reflexivity|].
  assert (match echo_outbound echo_busy 5%nat (echo_budget 2) with
          | Return (Ready (Some tt), s, _) => rejections s = [] ∧ length (rpcs s) = 1%nat
          | _ => False
          end) as Hrun by (vm_compute; by split).
  unfold echo_outbound in *. rewrite He in Hrun. exists s', b'. rewrite He.
  destruct (0 <? _); [|done]. destruct Hrun as [Hrej Hlen]. by split_and!.
Defined.

Lemma no_room_no_work_witness :
  echo_outbound echo_busy 5%nat (echo_budget 0) = Return (Pending, echo_busy, echo_budget 0).
Proof. apply (no_room_no_work echo_busy 5%nat (echo_budget 0)). reflexivity. Defined.


Lemma echo_stream_served_witness :
  ∃ s' b', echo_outbound (echo_inbound echo_new (echo_msg 7 [104; 105] Stream)).1.2 5%nat (echo_budget 9)
             = Return (Ready (Some tt), s', b') ∧ aborts s' = ∅.
Proof.
  destruct (echo_stream_served (echo_msg 7 [104; 105] Stream) (mkEchoRequest [104; 105] 42) 5%nat
    (echo_budget 9)) as (s' & b' & He & _ & _ & Ha & _); [reflexivity..|vm_compute; done|].
  exists s', b'. split; assumption.
Defined.

(** An id that is used again while its rpc is pooled breaks the tracker: the
    end of the first rpc removes the handle of the second, which can then not be
    cancelled any more, although it is pooled and its flag is down. *)
Theorem reused_id_loses_the_handle :
  let s := (echo_inbound (echo_inbound echo_new (echo_msg 7 [104] Unary)).1.2
              (echo_msg 7 [104; 105] Stream)).1.2 in
  ∃ s' b', echo_outbound s 5%nat (echo_budget 1) = Return (Ready (Some tt), s', b') ∧
    (rs_id <$> rpcs s') = [7] ∧ aborts s' = ∅ ∧
    echo_inbound s' (mkRequest 7 1 None Unary) = (StatusContinue, s', []).
Proof. eexists _, _. split; [vm_compute; reflexivity|]. vm_compute. done. Qed.
End RpcReactor.
