(* ===== verification/RpcClient.v ===== *)
(** * The rpc client

    [protosocket-rpc/src/client/rpc_client.rs] and
    [protosocket-rpc/src/client/reactor/*.rs].  The two ends of a completion (the
    caller's and the one that travels through the submission queue into the
    registry) share a channel; the channels live in a store of cells that both
    ends point into, and dropping a value is an operation of its own. *)

From S2P Require Import Prelude Spillway Encoding Connection RpcMessage.
Local Open Scope N_scope.
Local Open Scope run_scope.

(** ** Oneshot channels

    [tokio::sync::oneshot], a library type: what the client uses of it. *)
Class Oneshot (O T K : Type) := {
  os_channel : O;
  os_send : O → T → result unit T * O;
  os_drop_sender : O → O;
  os_drop_receiver : O → O;
  os_poll : O → K → Poll (result T unit) * O;
}.

Inductive OneshotView (T : Type) := OsEmpty | OsValue (v : T) | OsGone.
Arguments OsEmpty {T}.
Arguments OsValue {T} _.
Arguments OsGone {T}.

(** Its documentation: a value that was sent is received once; the receiver of a
    sender that was dropped gets an error; a send to a dropped receiver gives the
    value back. *)
Class OneshotLaws (O T K : Type) `{Oneshot O T K} := {
  os_view : O → OneshotView T;
  os_open : O → bool;
  os_channel_law : os_view os_channel = OsEmpty ∧ os_open os_channel = true;
  os_send_law o v : os_view o = OsEmpty →
    let '(r, o') := os_send o v in
    if os_open o then r = Ok tt ∧ os_view o' = OsValue v ∧ os_open o' = true
    else r = Err v ∧ os_view o' = OsGone ∧ os_open o' = false;
  os_drop_sender_law o :
    os_view (os_drop_sender o) = match os_view o with OsEmpty => OsGone | x => x end ∧
    os_open (os_drop_sender o) = os_open o;
  os_drop_receiver_law o :
    os_view (os_drop_receiver o) = match os_view o with OsEmpty => OsEmpty | _ => OsGone end ∧
    os_open (os_drop_receiver o) = false;
  os_poll_law o k :
    let '(p, o') := os_poll o k in
    os_open o' = os_open o ∧
    match os_view o with
    | OsEmpty => p = Pending ∧ os_view o' = OsEmpty
    | OsValue v => p = Ready (Ok v) ∧ os_view o' = OsGone
    | OsGone => p = Ready (Err tt) ∧ os_view o' = OsGone
    end;
}.

(** An instance, for the examples. *)
Section slot.
Context {T K : Type}.

#[export] Instance slot_oneshot : Oneshot (OneshotView T * bool) T K := {|
  os_channel := (OsEmpty, true);
  os_send o v := if o.2 then (Ok tt, (OsValue v, o.2)) else (Err v, (OsGone, o.2));
  os_drop_sender o := (match o.1 with OsEmpty => OsGone | x => x end, o.2);
  os_drop_receiver o := (match o.1 with OsEmpty => OsEmpty | _ => OsGone end, false);
  os_poll o _ :=
    match o.1 with
    | OsEmpty => (Pending, o)
    | OsValue v => (Ready (Ok v), (OsGone, o.2))
    | OsGone => (Ready (Err tt), o)
    end;
|}.

#[export] Instance slot_oneshot_laws : OneshotLaws (OneshotView T * bool) T K.
Proof.
  refine {| os_view o := o.1; os_open o := o.2 |}; try done.
  - intros [view []] v Hv; simpl in *; done.
  - intros [[] b] k; done.
Defined.
End slot.

(** ** Data *)

(** [Completion]: the end of a channel that the reactor completes; [c] is the
    channel's place in the store. *)
Inductive Completion :=
| Unary (c : nat)
| RemoteStreaming (sender : Sender) (c : nat).

Definition completion_cell (x : Completion) : nat :=
  match x with Unary c => c | RemoteStreaming _ c => c end.

Record CompletableRpc (Req : Type) := mkCompletableRpc {
  cr_message_id : u64;
  cr_completion : Completion;
  cr_request : Req;
}.
Arguments mkCompletableRpc {Req} _ _ _.
Arguments cr_message_id {Req} _.
Arguments cr_completion {Req} _.
Arguments cr_request {Req} _.

Inductive RpcNotification (Req : Type) :=
| New (rpc : CompletableRpc Req)
| CancelRpc (message_id : u64).
Arguments New {Req} _.
Arguments CancelRpc {Req} _.

(** A channel of the store. *)
Inductive Cell (O W Res : Type) :=
| OneshotCell (o : O)
| StreamCell (s : Shared W Res) (r : Receiver Res).
Arguments OneshotCell {O W Res} _.
Arguments StreamCell {O W Res} _ _.

(** [CompletionRegistry]. *)
Abbreviation CompletionRegistry := (gmap u64 Completion).

(** [RpcCompletionReactor], with the store its completions point into. *)
Record RpcCompletionReactor (O W Res : Type) := mkReactor {
  rpc_registry : CompletionRegistry;
  is_alive : bool;
  cells : list (Cell O W Res);
}.
Arguments mkReactor {O W Res} _ _ _.
Arguments rpc_registry {O W Res} _.
Arguments is_alive {O W Res} _.
Arguments cells {O W Res} _.

(** [CompletionGuard], with its sender on the submission queue. *)
Record CompletionGuard := mkCompletionGuard {
  cg_closed : bool;
  cg_message_id : u64;
  raw_submission_queue : Sender;
}.

Record UnaryCompletion := mkUnaryCompletion {
  uc_completion : nat;
  uc_guard : CompletionGuard;
}.

Record StreamingCompletion := mkStreamingCompletion {
  sc_completion : nat;
  sc_guard : CompletionGuard;
  sc_closed : bool;
}.

(** [RpcClient]: its flag is the reactor's. *)
Record RpcClient := mkRpcClient { submission_queue : Sender }.

Section client.
Context {O W K Req Res : Type} `{AtomicWaker W K} `{Oneshot O (result Res RpcError) K}.
Context `{!Message Req} `{!Message Res}.
Abbreviation Cells := (list (Cell O W Res)).
Abbreviation Reactor := (RpcCompletionReactor O W Res).
Abbreviation Notification := (RpcNotification Req).
Abbreviation Queue := (Shared W Notification).
Implicit Types cs : Cells.
Implicit Types r : Reactor.
Implicit Types q : Queue.

(** ** Dropping a completion, a notification, a registry *)

(** [Drop] of the two kinds of sender in a [Completion]. *)
Definition close_cell (x : Completion) (cell : Cell O W Res) : Cell O W Res :=
  match x, cell with
  | Unary _, OneshotCell o => OneshotCell (os_drop_sender o)
  | RemoteStreaming sender _, StreamCell s v => StreamCell (sender_drop sender s).1 v
  | _, _ => cell
  end.

Definition drop_completion (x : Completion) cs : Cells :=
  alter (close_cell x) (completion_cell x) cs.

Definition drop_completions (xs : list Completion) cs : Cells :=
  foldr drop_completion cs xs.

Definition notification_completions (n : Notification) : list Completion :=
  match n with New rpc => [cr_completion rpc] | CancelRpc _ => [] end.

(** ** The registry ([completion_registry.rs]) *)

Definition set_registry r m cs : Reactor := mkReactor m (is_alive r) cs.
Definition set_cells r cs : Reactor := mkReactor (rpc_registry r) (is_alive r) cs.

(** [CompletionRegistry::deregister]: the completion that is removed is dropped. *)
Definition deregister r (message_id : u64) : Reactor :=
  set_registry r (delete message_id (rpc_registry r))
    (match rpc_registry r !! message_id with
     | Some x => drop_completion x (cells r)
     | None => cells r
     end).

(** ** The reactor ([completion_reactor.rs]) *)

(** [RpcCompletionReactor::new]. *)
Definition completion_reactor_new : Reactor := mkReactor ∅ true [].

(** [DoNothingMessageHandler::on_message]. *)
Definition do_nothing_on_message r (_ : Res) : Reactor := r.

(** [on_inbound_message]. *)
Definition completion_on_inbound r (message : Res) : run (ReactorStatus * Reactor) :=
  let id := message_id message in
  match control_code message with
  | Cancel | End => Return (StatusContinue, deregister r id)
  | Normal =>
      match rpc_registry r !! id with
      | Some (RemoteStreaming sender c) =>
          match cells r !! c with
          | Some (StreamCell s v) =>
              let* '(sent, s, _) := sender_send sender s message in
              let r := set_cells r (<[c := StreamCell s v]> (cells r)) in
              match sent with
              | Ok _ => Return (StatusContinue, r)
              | Err _ => Return (StatusContinue, deregister r id)
              end
          | _ => Panic
          end
      | Some (Unary c) =>
          match cells r !! c with
          | Some (OneshotCell o) =>
              let '(_, o) := os_send o (Ok message) in
              Return (StatusContinue,
                set_registry r (delete id (rpc_registry r)) (<[c := OneshotCell o]> (cells r)))
          | _ => Panic
          end
      | None => Return (StatusContinue, do_nothing_on_message r message)
      end
  end.

(** [on_outbound_message]: a completion that is replaced is dropped. *)
Definition completion_on_outbound r (notification : Notification) : Req * Reactor :=
  match notification with
  | New rpc =>
      let r := deregister r (cr_message_id rpc) in
      (cr_request rpc,
       set_registry r (<[cr_message_id rpc := cr_completion rpc]> (rpc_registry r)) (cells r))
  | CancelRpc id => (cancelled id, deregister r id)
  end.

(** The reactor; [poll] and [poll_outbound_many] are the trait's.  An inbound
    message never panics ([RpcClientSpec]), so the last case is never met. *)
#[export] Instance completion_reactor {C B}
  : MessageReactor Reactor K C B Res Req Notification := {|
  on_inbound_message r m :=
    match completion_on_inbound r m with Return x => x | _ => (StatusContinue, r) end;
  reactor_poll := reactor_poll_default;
  on_outbound_message r n := completion_on_outbound r n;
  poll_outbound_many := poll_outbound_many_default;
|}.

(** [Drop for RpcCompletionReactor], and the drop of its registry. *)
Definition completion_reactor_drop r : Reactor :=
  mkReactor ∅ false (drop_completions (map_to_list (rpc_registry r)).*2 (cells r)).

(** ** The guard ([completion_registry.rs]) *)

(** [CompletionGuard::new] with its clone of the submission queue. *)
Definition guard_new (message_id : u64) (sender : Sender) q : run (CompletionGuard * Queue) :=
  let* '(x, q) := sender_clone sender q in
  Return (mkCompletionGuard false message_id x, q).

Definition set_closed (g : CompletionGuard) : CompletionGuard :=
  mkCompletionGuard true (cg_message_id g) (raw_submission_queue g).

(** [Drop for CompletionGuard], and the drop of its sender. *)
Definition guard_drop (g : CompletionGuard) q : run Queue :=
  let* q := if cg_closed g then Return q
            else let* '(_, q, _) := sender_send (raw_submission_queue g) q (CancelRpc (cg_message_id g)) in
                 Return q in
  Return (sender_drop (raw_submission_queue g) q).1.

(** ** The completions ([completion_unary.rs], [completion_streaming.rs]) *)

(** [Future::poll] of [UnaryCompletion].  The oneshot receiver panics when it is
    polled again after it was ready, which is when the guard is closed. *)
Definition unary_poll (u : UnaryCompletion) (k : K) cs
  : run (Poll (result Res RpcError) * UnaryCompletion * Cells) :=
  if cg_closed (uc_guard u) then Panic
  else match cs !! uc_completion u with
  | Some (OneshotCell o) =>
      let '(p, o) := os_poll o k in
      let cs := <[uc_completion u := OneshotCell o]> cs in
      match p with
      | Ready res =>
          let u := mkUnaryCompletion (uc_completion u) (set_closed (uc_guard u)) in
          match res with
          | Ok done => Return (Ready done, u, cs)
          | Err _ => Return (Ready (Err CancelledRemotely), u, cs)
          end
      | Pending => Return (Pending, u, cs)
      end
  | _ => Panic
  end.

(** [Drop] of a oneshot receiver. *)
Definition close_receiver (cell : Cell O W Res) : Cell O W Res :=
  match cell with
  | OneshotCell o => OneshotCell (os_drop_receiver o)
  | StreamCell _ _ => cell
  end.

(** The drop of a [UnaryCompletion]: its receiver, then its guard. *)
Definition unary_drop (u : UnaryCompletion) q cs : run (Queue * Cells) :=
  let cs := alter close_receiver (uc_completion u) cs in
  let* q := guard_drop (uc_guard u) q in Return (q, cs).

(** [Stream::poll_next] of [StreamingCompletion]. *)
Definition streaming_poll_next (x : StreamingCompletion) (k : K) cs
  : run (Poll (option (result Res RpcError)) * StreamingCompletion * Cells) :=
  if sc_closed x then Return (Ready None, x, cs)
  else
    match cs !! sc_completion x with
    | Some (StreamCell s v) =>
        let* '(p, s, v) := poll_next s v k in
        let cs := <[sc_completion x := StreamCell s v]> cs in
        match p with
        | Ready (Some next) => Return (Ready (Some (Ok next)), x, cs)
        | Ready None =>
            Return (Ready (Some (Err RpcFinished)),
                    mkStreamingCompletion (sc_completion x) (set_closed (sc_guard x)) true, cs)
        | Pending => Return (Pending, x, cs)
        end
    | _ => Panic
    end.

(** The drop of a [StreamingCompletion]: a receiver's drop does nothing that its
    senders can see. *)
Definition streaming_drop (x : StreamingCompletion) q : run Queue := guard_drop (sc_guard x) q.

(** ** The client ([rpc_client.rs]) *)

(** [RpcClient::clone] and its drop. *)
Definition client_clone (c : RpcClient) q : run (RpcClient * Queue) :=
  let* '(x, q) := sender_clone (submission_queue c) q in Return (mkRpcClient x, q).

Definition client_drop (c : RpcClient) q : Queue := (sender_drop (submission_queue c) q).1.

(** [RpcClient::send_message]: on an error the completion is dropped with the
    notification, and the guard with it. *)
Definition send_message (c : RpcClient) (completion : Completion) (request : Req) q r
  : run (result CompletionGuard RpcError * Queue * Reactor) :=
  if negb (is_alive r)
  then Return (Err ConnectionIsClosed, q, set_cells r (drop_completion completion (cells r)))
  else
    let id := message_id request in
    let* '(guard, q) := guard_new id (submission_queue c) q in
    let* '(sent, q, _) :=
      sender_send (submission_queue c) q (New (mkCompletableRpc id completion request)) in
    match sent with
    | Ok _ => Return (Ok guard, q, r)
    | Err _ =>
        let r := set_cells r (drop_completion completion (cells r)) in
        let* q := guard_drop guard q in
        Return (Err ConnectionIsClosed, q, r)
    end.

(** [RpcClient::send_unary]. *)
Definition send_unary (c : RpcClient) (request : Req) q r
  : run (result UnaryCompletion RpcError * Queue * Reactor) :=
  let cell := length (cells r) in
  let r := set_cells r (cells r ++ [OneshotCell os_channel]) in
  let* '(sent, q, r) := send_message c (Unary cell) request q r in
  match sent with
  | Ok guard => Return (Ok (mkUnaryCompletion cell guard), q, r)
  | Err e =>
      Return (Err e, q, set_cells r (alter close_receiver cell (cells r)))
  end.

(** [RpcClient::send_streaming]. *)
Definition send_streaming (c : RpcClient) (request : Req) q r
  : run (result StreamingCompletion RpcError * Queue * Reactor) :=
  let* '(sender, receiver, s) := channel_with_concurrency 1 in
  let cell := length (cells r) in
  let r := set_cells r (cells r ++ [StreamCell s receiver]) in
  let* '(sent, q, r) := send_message c (RemoteStreaming sender cell) request q r in
  match sent with
  | Ok guard => Return (Ok (mkStreamingCompletion cell guard false), q, r)
  | Err e => Return (Err e, q, r)
  end.
End client.
