(* ===== verification/RpcClientSpec.v ===== *)
(** * What the rpc client guarantees

    Ownership of completions along every run of a client and its connection, the
    correlation of responses with requests, cancellation, and what becomes of the
    requests that are in flight when the connection is lost. *)

From S2P Require Import Prelude Spillway Encoding Connection RpcMessage ExampleService RpcClient.
Local Open Scope N_scope.
Local Open Scope run_scope.

(** ** The store of channels *)

Section store.
Context {O W K Req Res : Type} `{AtomicWaker W K} `{OneshotLaws O (result Res RpcError) K}.
Abbreviation TheCell := (Cell O W Res).
Implicit Types cs : list TheCell.
Implicit Types xs : list Completion.

(** A completion in flight holds the open sending end of its channel. *)
Definition owns (x : Completion) (cell : TheCell) : Prop :=
  match x, cell with
  | Unary _, OneshotCell o => os_view o = OsEmpty
  | RemoteStreaming sender _, StreamCell s v => senders s = 1 ∧ chute sender < len (chutes s)
  | _, _ => False
  end.

(** A channel whose sending end is gone. *)
Definition cell_closed (cell : TheCell) : Prop :=
  match cell with
  | OneshotCell o => os_view o ≠ OsEmpty
  | StreamCell s _ => senders s = 0
  end.

Definition cell_ok (cell : TheCell) : Prop :=
  match cell with OneshotCell _ => True | StreamCell s v => unbounded s v ∧ length (chutes s) = 1%nat end.

(** The completions [xs] in flight own different channels, and every other
    channel is closed. *)
Record store_ok xs cs : Prop := {
  so_nodup : NoDup (completion_cell <$> xs);
  so_owns x : x ∈ xs → ∃ cell, cs !! completion_cell x = Some cell ∧ owns x cell;
  so_closed i cell : cs !! i = Some cell → i ∉ completion_cell <$> xs → cell_closed cell;
  so_cells : Forall cell_ok cs;
}.

#[export] Instance store_ok_proper : Proper ((≡ₚ) ==> (=) ==> iff) store_ok.
Proof.
  assert (∀ xs ys cs, xs ≡ₚ ys → store_ok xs cs → store_ok ys cs) as Himp.
  { intros xs ys cs Hp [H1' H2 H3 H4]. split; [by rewrite <-Hp| | |done].
    - intros x Hx. apply H2. by rewrite Hp.
    - intros i cell Hi Hn. apply (H3 i); [done|]. by rewrite Hp. }
  intros xs ys Hp cs ? <-. split; apply Himp; [done|by symmetry].
Qed.

(** A channel changes and keeps its status. *)
Lemma store_change xs cs i cell cell' :
  store_ok xs cs → cs !! i = Some cell →
  (∀ x, owns x cell → owns x cell') → (cell_closed cell → cell_closed cell') →
  (cell_ok cell → cell_ok cell') →
  store_ok xs (<[i := cell']> cs).
Proof.
  intros [H1' H2 H3 H4] Hi Ho Hc Hk.
  assert (i < length cs)%nat as Hlt by (by eapply lookup_lt_Some).
  split; [done| | |].
  - intros x Hx. destruct (H2 x Hx) as (d & Hd & Hown). destruct (decide (completion_cell x = i)) as [Heq|Hne].
    all: try rewrite Heq in *.
    + rewrite list_lookup_insert_eq by done. exists cell'. split; [done|]. apply Ho.
      rewrite Hi in Hd. by injection Hd as ->.
    + rewrite list_lookup_insert_ne by done. by exists d.
  - intros j d Hj Hn. apply list_lookup_insert_Some in Hj as [(-> & -> & _)|[Hne Hj]].
    + apply Hc. by apply (H3 j).
    + by apply (H3 j).
  - apply Forall_insert; [done|]. apply Hk. by eapply Forall_lookup_1.
Qed.

(** A completion is used up: its channel is closed. *)
Lemma store_retire x xs cs cell' :
  store_ok (x :: xs) cs → cell_closed cell' → cell_ok cell' →
  store_ok xs (<[completion_cell x := cell']> cs).
Proof.
  intros [H1' H2 H3 H4] Hc Hk. rewrite fmap_cons in *. apply NoDup_cons in H1' as [Hni H1'].
  destruct (H2 x) as (cell & Hcell & _); [by left|].
  assert (completion_cell x < length cs)%nat as Hlt by (by eapply lookup_lt_Some).
  split; [done| | |].
  - intros y Hy. destruct (H2 y) as (d & Hd & Hown); [by right|].
    rewrite list_lookup_insert_ne; [by exists d|]. intros Heq. apply Hni. rewrite Heq.
    by apply list_elem_of_fmap_2.
  - intros j d Hj Hn. apply list_lookup_insert_Some in Hj as [(_ & <- & _)|[Hne Hj]]; [done|].
    apply (H3 j); [done|]. by intros [?|?]%elem_of_cons.
  - by apply Forall_insert.
Qed.

Lemma close_cell_closed x cell :
  owns x cell → cell_ok cell → cell_closed (close_cell x cell) ∧ cell_ok (close_cell x cell).
Proof.
  destruct x as [c|sender c], cell as [o|s v]; simpl; try done.
  - intros Hv _. split; [|done]. destruct (os_drop_sender_law o) as [-> _]. by rewrite Hv.
  - intros [Hse Hch] [Hok Hl]. destruct (sender_drop_spec sender s v Hok) as (Hok' & Hcs & Hse').
    split; [by rewrite Hse', Hse|]. by rewrite Hcs.
Qed.

Lemma store_drop x xs cs :
  store_ok (x :: xs) cs → store_ok xs (drop_completion x cs).
Proof.
  intros Hok. destruct (so_owns _ _ Hok x) as (cell & Hcell & Hown); [by left|].
  unfold drop_completion. rewrite (alter_insert _ _ _ _ Hcell).
  destruct (close_cell_closed x cell Hown) as [Hc Hk].
  { eapply Forall_lookup_1; [apply Hok|done]. }
  by apply store_retire.
Qed.

Lemma store_drops ys xs cs :
  store_ok (ys ++ xs) cs → store_ok xs (drop_completions ys cs).
Proof.
  revert xs. induction ys as [|y ys IH]; intros xs Hok; [done|]. simpl.
  apply store_drop, IH. by rewrite <-Permutation_middle.
Qed.

(** A new channel comes with the completion that owns it. *)
Lemma store_alloc x xs cs cell :
  store_ok xs cs → completion_cell x = length cs → owns x cell → cell_ok cell →
  store_ok (x :: xs) (cs ++ [cell]).
Proof.
  intros [H1' H2 H3 H4] Hx Hown Hk.
  assert (∀ y, y ∈ xs → (completion_cell y < length cs)%nat) as Hlt.
  { intros y Hy. destruct (H2 y Hy) as (d & Hd & _). by eapply lookup_lt_Some. }
  split.
  - rewrite fmap_cons. apply NoDup_cons. split; [|done].
    intros (y & Hy & Hin)%list_elem_of_fmap. specialize (Hlt y Hin). lia.
  - intros y [->|Hy]%elem_of_cons.
    + exists cell. split; [|done]. rewrite Hx. by apply list_lookup_middle.
    + destruct (H2 y Hy) as (d & Hd & Ho). exists d. split; [|done].
      rewrite lookup_app_l; [done|by apply Hlt].
  - intros i d Hi Hn. apply lookup_app_Some in Hi as [Hi|[Hge Hi]].
    + apply (H3 i); [done|]. intros Hin. apply Hn. rewrite fmap_cons. by right.
    + exfalso. apply Hn. rewrite fmap_cons, Hx. apply lookup_lt_Some in Hi as Hl. simpl in Hl.
      assert (i = length cs) as -> by lia. by left.
  - apply Forall_app. by split; [|constructor].
Qed.

(** The completions of a registry. *)
Definition registered (m : CompletionRegistry) : list Completion := (map_to_list m).*2.

Lemma registered_insert m id x :
  m !! id = None → registered (<[id := x]> m) ≡ₚ x :: registered m.
Proof. intros Hm. unfold registered. by rewrite map_to_list_insert. Qed.

Lemma registered_delete m id x :
  m !! id = Some x → registered m ≡ₚ x :: registered (delete id m).
Proof. intros Hm. unfold registered. by rewrite <-(map_to_list_delete _ _ _ Hm). Qed.

(** Deregistering drops what it removes. *)
Lemma deregister_ok (r : RpcCompletionReactor O W Res) id xs :
  store_ok (registered (rpc_registry r) ++ xs) (cells r) →
  store_ok (registered (rpc_registry (deregister r id)) ++ xs) (cells (deregister r id)) ∧
  rpc_registry (deregister r id) !! id = None.
Proof.
  intros Hok. unfold deregister. simpl. split; [|apply lookup_delete_eq].
  destruct (rpc_registry r !! id) as [x|] eqn:Hx.
  - apply store_drop. by rewrite (registered_delete _ _ _ Hx) in Hok.
  - by rewrite delete_id.
Qed.
End store.

(** ** A client and its connection *)

(** The submission queue, its receiving end (which the connection owns), whether
    the connection still exists, and the reactor with the channels. *)
Record ClientWorld (O W Req Res : Type) := mkWorld {
  w_queue : Shared W (RpcNotification Req);
  w_receiver : Receiver (RpcNotification Req);
  w_connected : bool;
  w_reactor : RpcCompletionReactor O W Res;
}.
Arguments mkWorld {O W Req Res} _ _ _ _.
Arguments w_queue {O W Req Res} _.
Arguments w_receiver {O W Req Res} _.
Arguments w_connected {O W Req Res} _.
Arguments w_reactor {O W Req Res} _.

Section world.
Context {O W K Req Res : Type} `{AtomicWaker W K} `{OneshotLaws O (result Res RpcError) K}.
Context `{!Message Req} `{!Message Res}.
Abbreviation World := (ClientWorld O W Req Res).
Abbreviation Queue := (Shared W (RpcNotification Req)).
Implicit Types w : World.
Implicit Types q : Queue.
Implicit Types r : RpcCompletionReactor O W Res.

(** The completions in the submission queue. *)
Definition queued q (v : Receiver (RpcNotification Req)) : list Completion :=
  waiting q v ≫= notification_completions.

(** All completions in flight: queued or registered. *)
Definition in_flight w : list Completion :=
  registered (rpc_registry (w_reactor w)) ++ queued (w_queue w) (w_receiver w).

(** What can happen, in any order, to handles of any kind. *)
Inductive client_step w : World → Prop :=
| step_send_unary c request res q' r' :
    send_unary c request (w_queue w) (w_reactor w) = Return (res, q', r') →
    client_step w (mkWorld q' (w_receiver w) (w_connected w) r')
| step_send_streaming c request res q' r' :
    send_streaming c request (w_queue w) (w_reactor w) = Return (res, q', r') →
    client_step w (mkWorld q' (w_receiver w) (w_connected w) r')
| step_outbound k p q' v' :
    w_connected w = true → poll_next (w_queue w) (w_receiver w) k = Return (p, q', v') →
    client_step w (mkWorld q' v' true
      match p with
      | Ready (Some n) => (completion_on_outbound (w_reactor w) n).2
      | _ => w_reactor w
      end)
| step_inbound m status r' :
    w_connected w = true → completion_on_inbound (w_reactor w) m = Return (status, r') →
    client_step w (mkWorld (w_queue w) (w_receiver w) true r')
| step_poll_unary u k p u' cs' :
    unary_poll u k (cells (w_reactor w)) = Return (p, u', cs') →
    client_step w (mkWorld (w_queue w) (w_receiver w) (w_connected w) (set_cells (w_reactor w) cs'))
| step_drop_unary u q' cs' :
    unary_drop u (w_queue w) (cells (w_reactor w)) = Return (q', cs') →
    client_step w (mkWorld q' (w_receiver w) (w_connected w) (set_cells (w_reactor w) cs'))
| step_poll_streaming x k p x' cs' :
    streaming_poll_next x k (cells (w_reactor w)) = Return (p, x', cs') →
    client_step w (mkWorld (w_queue w) (w_receiver w) (w_connected w) (set_cells (w_reactor w) cs'))
| step_drop_streaming x q' :
    streaming_drop x (w_queue w) = Return q' →
    client_step w (mkWorld q' (w_receiver w) (w_connected w) (w_reactor w))
| step_clone c c' q' :
    client_clone c (w_queue w) = Return (c', q') →
    client_step w (mkWorld q' (w_receiver w) (w_connected w) (w_reactor w))
| step_drop_client c :
    client_step w (mkWorld (client_drop c (w_queue w)) (w_receiver w) (w_connected w) (w_reactor w))
| step_lost :
    w_connected w = true →
    client_step w (mkWorld (w_queue w) (mkReceiver (cursor (w_receiver w)) []) false
      (let r := completion_reactor_drop (w_reactor w) in
       set_cells r (drop_completions (buffer (w_receiver w) ≫= notification_completions) (cells r))))
| step_free :
    w_connected w = false → senders (w_queue w) = 0 →
    client_step w (mkWorld (set_chutes (w_queue w) ((λ _, chute_default) <$> chutes (w_queue w)))
      (mkReceiver (cursor (w_receiver w)) []) false
      (set_cells (w_reactor w)
         (drop_completions (queued (w_queue w) (w_receiver w)) (cells (w_reactor w))))).

Definition world_ok w : Prop :=
  unbounded (w_queue w) (w_receiver w) ∧ store_ok (in_flight w) (cells (w_reactor w)).

(** ** Every step keeps the accounts *)

Lemma queue_send q v i n res q' ks :
  unbounded q v → send q i n = Return (res, q', ks) →
  res = Ok tt ∧ unbounded q' v ∧ senders q' = senders q ∧ length (chutes q') = length (chutes q) ∧
  waiting q' v ≡ₚ n :: waiting q v ∧
  queued q' v ≡ₚ notification_completions n ++ queued q v.
Proof.
  intros Hun He. destruct (unbounded_send _ _ _ _ _ _ _ Hun He) as (Hr & Hun' & Hse & Hlen & Hw).
  split_and!; try done. unfold queued. by rewrite Hw.
Qed.

Lemma guard_drop_ok g q v q' :
  unbounded q v → guard_drop g q = Return q' →
  unbounded q' v ∧ queued q' v ≡ₚ queued q v ∧ senders q' = usize_sub (senders q) 1 ∧
  waiting q' v ≡ₚ (if cg_closed g then [] else [CancelRpc (cg_message_id g)]) ++ waiting q v.
Proof.
  intros Hun He. unfold guard_drop in He. apply run_bind_Return in He as (q1 & H1' & He).
  injection He as <-.
  assert (unbounded q1 v ∧ queued q1 v ≡ₚ queued q v ∧ senders q1 = senders q ∧
    waiting q1 v ≡ₚ (if cg_closed g then [] else [CancelRpc (cg_message_id g)]) ++ waiting q v)
    as (Hun1 & Hq1 & Hs1 & Hw1).
  { destruct (cg_closed g); [by injection H1' as <-|].
    apply run_bind_Return in H1' as ([[res q2] ks] & Hs & H1'). injection H1' as <-.
    by destruct (queue_send _ _ _ _ _ _ _ Hun Hs) as (_ & ? & ? & _ & ? & ?). }
  destruct (sender_drop_spec (raw_submission_queue g) q1 v Hun1) as (Hun2 & Hch & Hse).
  split; [done|]. unfold queued, waiting in *. rewrite Hch, Hse, Hs1. done.
Qed.

(** A request is queued with its completion while the reactor is alive; after
    that it is refused. *)
Lemma send_message_queued c x request q v r res q' r' :
  unbounded q v → send_message c x request q r = Return (res, q', r') →
  unbounded q' v ∧
  if is_alive r
  then ∃ g, res = Ok g ∧ r' = r ∧ cg_closed g = false ∧ cg_message_id g = message_id request ∧
    waiting q' v ≡ₚ New (mkCompletableRpc (message_id request) x request) :: waiting q v ∧
    queued q' v ≡ₚ x :: queued q v
  else res = Err ConnectionIsClosed ∧ q' = q ∧ r' = set_cells r (drop_completion x (cells r)).
Proof.
  intros Hun He. unfold send_message in He. destruct (is_alive r) eqn:Hal; simpl in He.
  - apply run_bind_Return in He as ([guard q1] & Hg & He).
    unfold guard_new in Hg. apply run_bind_Return in Hg as ([y q2] & Hcl & Hg). injection Hg as <- <-.
    destruct (sender_clone_spec _ _ v _ _ Hun Hcl) as (Hun1 & Hch & _).
    apply run_bind_Return in He as ([[sent q3] ks] & Hs & He).
    destruct (queue_send _ _ _ _ _ _ _ Hun1 Hs) as (-> & Hun3 & _ & _ & Hw & Hq). injection He as <- <- <-.
    assert (waiting q2 v = waiting q v) as Hq2 by (unfold waiting; by rewrite Hch).
    unfold queued in Hq |- *. rewrite Hq2 in Hq, Hw. simpl in Hq. split; [done|].
    by eexists.
  - injection He as <- <- <-. by split.
Qed.

Lemma send_message_ok c x request q v r res q' r' :
  unbounded q v → store_ok (x :: registered (rpc_registry r) ++ queued q v) (cells r) →
  send_message c x request q r = Return (res, q', r') →
  unbounded q' v ∧ store_ok (registered (rpc_registry r') ++ queued q' v) (cells r').
Proof.
  intros Hun Hok He. destruct (send_message_queued _ _ _ _ v _ _ _ _ Hun He) as [Hun' Hr].
  split; [done|]. destruct (is_alive r).
  - destruct Hr as (g & _ & -> & _ & _ & _ & Hq). by rewrite Hq, <-Permutation_middle.
  - destruct Hr as (_ & -> & ->). by apply store_drop.
Qed.

(** A call queues its request, with the completion of a new channel. *)
Lemma send_unary_queued c request q v r res q' r' :
  unbounded q v → is_alive r = true → send_unary c request q r = Return (res, q', r') →
  ∃ u, res = Ok u ∧
    waiting q' v ≡ₚ New (mkCompletableRpc (message_id request) (Unary (length (cells r))) request) :: waiting q v.
Proof.
  intros Hun Hal He. unfold send_unary in He. apply run_bind_Return in He as ([[sent q1] r1] & Hs & He).
  destruct (send_message_queued _ _ _ _ v _ _ _ _ Hun Hs) as [_ Hr]. simpl in Hr. rewrite Hal in Hr.
  destruct Hr as (g & -> & _ & _ & _ & Hw & _). injection He as <- <- _. by eexists.
Qed.

Lemma send_streaming_queued c request q v r res q' r' :
  unbounded q v → is_alive r = true → send_streaming c request q r = Return (res, q', r') →
  ∃ x sender, res = Ok x ∧
    waiting q' v ≡ₚ New (mkCompletableRpc (message_id request) (RemoteStreaming sender (length (cells r))) request)
      :: waiting q v.
Proof.
  intros Hun Hal He. unfold send_streaming in He. apply run_bind_Return in He as ([[x1 v1] s1] & _ & He).
  apply run_bind_Return in He as ([[sent q1] r1] & Hs & He).
  destruct (send_message_queued _ _ _ _ v _ _ _ _ Hun Hs) as [_ Hr]. simpl in Hr. rewrite Hal in Hr.
  destruct Hr as (g & -> & _ & _ & _ & Hw & _). injection He as <- <- _. by do 2 eexists.
Qed.

(** A unary request with a living reactor: a new channel, its completion in the
    queue. *)
Lemma send_unary_spec c request q v r :
  unbounded q v → is_alive r = true → chute (submission_queue c) < len (chutes q) →
  let cell := length (cells r) in
  ∃ g q1, send_unary c request q r
      = Return (Ok (mkUnaryCompletion cell g), q1, set_cells r (cells r ++ [OneshotCell os_channel])) ∧
    unbounded q1 v ∧ cg_closed g = false ∧ cg_message_id g = message_id request ∧
    waiting q1 v ≡ₚ New (mkCompletableRpc (message_id request) (Unary cell) request) :: waiting q v.
Proof.
  intros Hun Halive Hchute cell. unfold send_unary. fold cell.
  set (r0 := set_cells r (cells r ++ [OneshotCell os_channel])).
  assert (∃ g q1, send_message c (Unary cell) request q r0 = Return (Ok g, q1, r0)) as (g & q1 & Hs).
  { unfold send_message. change (is_alive r0) with (is_alive r). rewrite Halive. simpl negb. cbn match.
    assert (len (chutes q) ≠ 0) as Hz by lia.
    unfold guard_new, sender_clone, choose_chute.
    change (chutes (add_sender q)) with (chutes q).
    rewrite (proj2 (N.eqb_neq _ _) Hz). cbn [run_bind].
    set (q0 := set_chute_clock (add_sender q) _).
    assert (unbounded q0 v) as Hun0.
    { destruct Hun as [[Hcok Hdead Hcap Hsize] Hunb]. split; [|done]. split; try done.
      by apply (channel_ok_same q _ v). }
    destruct (send_unbounded q0 v (chute (submission_queue c))
      (New (mkCompletableRpc (message_id request) (Unary cell) request)) Hun0 Hchute)
      as (q1 & ks & He & _).
    unfold sender_send. rewrite He. cbn [run_bind]. by do 2 eexists. }
  destruct (send_message_queued _ _ _ _ v _ _ _ _ Hun Hs) as [Hun1 Hr].
  change (is_alive r0) with (is_alive r) in Hr. rewrite Halive in Hr.
  destruct Hr as (g' & Hgg & _ & Hclosed & Hgid & Hw & _). injection Hgg as <-.
  exists g, q1. rewrite Hs. by split_and!.
Qed.

(** An outbound notification moves from the queue to the registry. *)
Lemma client_outbound_ok r (n : RpcNotification Req) xs :
  store_ok (registered (rpc_registry r) ++ notification_completions n ++ xs) (cells r) →
  let r' := (completion_on_outbound r n).2 in
  store_ok (registered (rpc_registry r') ++ xs) (cells r').
Proof.
  intros Hok. destruct n as [[id x request]|id]; simpl in *.
  - rewrite (assoc_L (++) _ [x] xs), (Permutation_app_comm _ [x]), <-(assoc_L (++)) in Hok.
    rewrite Permutation_app_comm in Hok. rewrite <-(assoc_L (++)) in Hok.
    destruct (deregister_ok r id (xs ++ [x])) as [Hok' Hnone].
    { eapply store_ok_proper; [|reflexivity|exact Hok]. solve_Permutation. }
    eapply store_ok_proper; [|reflexivity|exact Hok'].
    rewrite registered_insert by done. solve_Permutation.
  - by apply deregister_ok.
Qed.

(** An inbound message uses up, or leaves, the completion of its rpc. *)
Lemma client_inbound_ok r (m : Res) xs status r' :
  store_ok (registered (rpc_registry r) ++ xs) (cells r) →
  completion_on_inbound r m = Return (status, r') →
  store_ok (registered (rpc_registry r') ++ xs) (cells r') ∧ is_alive r' = is_alive r.
Proof.
  intros Hok He. unfold completion_on_inbound in He.
  destruct (control_code m); [|injection He as <- <-; split; [by apply deregister_ok|done]..].
  destruct (rpc_registry r !! message_id m) as [[c|sender c]|] eqn:Hm; [| |by injection He as <- <-].
  - destruct (cells r !! c) as [[o|s v]|] eqn:Hc; try done.
    pose proof (registered_delete _ _ _ Hm) as Hperm. rewrite Hperm in Hok.
    destruct (so_owns _ _ Hok (Unary c)) as (cell & Hcell & Hown); [by left|].
    simpl in Hcell. rewrite Hc in Hcell. injection Hcell as <-. simpl in Hown.
    pose proof (os_send_law o (Ok m) Hown) as Hsend. destruct (os_send o (Ok m)) as [res o'].
    injection He as <- <-. simpl. split; [|done].
    apply (store_retire (Unary c)); [done| |done]. simpl.
    destruct (os_open o); destruct Hsend as (_ & -> & _); done.
  - destruct (cells r !! c) as [[o|s v]|] eqn:Hc; try done.
    apply run_bind_Return in He as ([[sent s'] ks] & Hs & He).
    destruct (Forall_lookup_1 _ _ _ _ (so_cells _ _ Hok) Hc) as [Hun Hone].
    destruct (send_index _ _ _ _ Hs) as [Hi|[Hd|Hcap]]; [|destruct Hun as [[]]; congruence..].
    destruct (send_unbounded s v _ m Hun Hi) as (s2 & ks2 & Hs2 & Hun2 & _ & Hse & Hlen & _).
    unfold sender_send in Hs. rewrite Hs in Hs2. simplify_eq. simpl. split; [|done].
    eapply store_change; [done|done| | |simpl; by rewrite Hlen].
    + intros [|sender' c']; simpl; [done|]. rewrite Hse. unfold len. by rewrite Hlen.
    + simpl. by rewrite Hse.
Qed.

(** It never panics, and a client's reactor never ends its connection. *)
Lemma client_inbound_total r (m : Res) xs :
  store_ok (registered (rpc_registry r) ++ xs) (cells r) →
  ∃ r', completion_on_inbound r m = Return (StatusContinue, r').
Proof.
  intros Hok. unfold completion_on_inbound. destruct (control_code m); [|by eexists..].
  destruct (rpc_registry r !! message_id m) as [x|] eqn:Hx; [|by eexists].
  rewrite (registered_delete _ _ _ Hx) in Hok.
  destruct (so_owns _ _ Hok x) as (cell & Hcell & Hown); [by left|].
  destruct x as [c|sender c], cell as [o|s v]; simpl in Hcell, Hown; try done; rewrite Hcell.
  - destruct (os_send o (Ok m)). by eexists.
  - destruct (Forall_lookup_1 _ _ _ _ (so_cells _ _ Hok) Hcell) as [Hun _].
    destruct (send_unbounded s v (chute sender) m Hun (proj2 Hown)) as (s2 & ks & He & _).
    unfold sender_send. rewrite He. by eexists.
Qed.

(** It touches one channel at most, the one registered under its id. *)
Lemma client_inbound_frame r (m : Res) status r' :
  completion_on_inbound r m = Return (status, r') →
  (∀ id, id ≠ message_id m → rpc_registry r' !! id = rpc_registry r !! id) ∧
  (∀ x, rpc_registry r' !! message_id m = Some x → rpc_registry r !! message_id m = Some x) ∧
  (∀ i, (∀ x, rpc_registry r !! message_id m = Some x → completion_cell x ≠ i) →
     cells r' !! i = cells r !! i).
Proof.
  assert (∀ x : option Completion, x = None → ∀ y, x = Some y → False) as Hnone by (by intros ? ->).
  assert (deregister r (message_id m) = r' →
    (∀ id, id ≠ message_id m → rpc_registry r' !! id = rpc_registry r !! id) ∧
    (∀ x, rpc_registry r' !! message_id m = Some x → rpc_registry r !! message_id m = Some x) ∧
    (∀ i, (∀ x, rpc_registry r !! message_id m = Some x → completion_cell x ≠ i) →
       cells r' !! i = cells r !! i)) as Hde.
  { intros <-. unfold deregister. simpl. split_and!.
    - intros id Hne. by rewrite lookup_delete_ne.
    - intros x. by rewrite lookup_delete_eq.
    - intros i Hi. destruct (rpc_registry r !! message_id m) as [x|]; [|done].
      apply list_lookup_alter_ne. by apply Hi. }
  intros He. unfold completion_on_inbound in He.
  destruct (control_code m); [|injection He as <- <-; by apply Hde..].
  destruct (rpc_registry r !! message_id m) as [[c|sender c]|] eqn:Hm;
    [| |injection He as <- <-; unfold do_nothing_on_message; split_and!; [done|congruence|done]].
  - destruct (cells r !! c) as [[o|s v]|] eqn:Hc; try done.
    destruct (os_send o (Ok m)) as [res o']. injection He as <- <-. simpl. split_and!.
    + intros id Hne. by rewrite lookup_delete_ne.
    + intros x. by rewrite lookup_delete_eq.
    + intros i Hi. apply list_lookup_insert_ne. by apply (Hi _ eq_refl).
  - destruct (cells r !! c) as [[o|s v]|] eqn:Hc; try done.
    apply run_bind_Return in He as ([[sent s'] ks] & Hs & He).
    assert (∀ i, c ≠ i → <[c:=StreamCell s' v]> (cells r) !! i = cells r !! i) as Hcs
      by (intros i Hi; by apply list_lookup_insert_ne).
    destruct sent; injection He as <- <-; simpl.
    + split_and!; try done; [congruence|]. intros i Hi. apply Hcs. by apply (Hi _ eq_refl).
    + split_and!.
      * intros id Hne. by rewrite lookup_delete_ne.
      * intros x. by rewrite lookup_delete_eq.
      * intros i Hi. pose proof (Hi _ eq_refl) as Hne. simpl in Hne. unfold drop_completion.
        rewrite Hm. rewrite list_lookup_alter_ne by done. by apply Hcs.
Qed.

(** So does an outbound notification. *)
Lemma client_outbound_frame r (n : RpcNotification Req) :
  let id := match n with New rpc => cr_message_id rpc | CancelRpc id => id end in
  let r' := (completion_on_outbound r n).2 in
  (∀ x, x ∈ registered (rpc_registry r') → x ∈ notification_completions n ++ registered (rpc_registry r)) ∧
  (∀ i, (∀ x, rpc_registry r !! id = Some x → completion_cell x ≠ i) → cells r' !! i = cells r !! i).
Proof.
  assert (∀ id i, (∀ x, rpc_registry r !! id = Some x → completion_cell x ≠ i) →
    cells (deregister r id) !! i = cells r !! i) as Hcells.
  { intros id i Hi. unfold deregister. simpl. destruct (rpc_registry r !! id) as [x|]; [|done].
    apply list_lookup_alter_ne. by apply Hi. }
  destruct n as [[id x request]|id]; simpl; split.
  - intros y Hy. unfold registered in *. apply list_elem_of_fmap in Hy as ([j z] & -> & Hz).
    apply elem_of_map_to_list in Hz. simpl.
    apply lookup_insert_Some in Hz as [[_ ->]|[Hne Hz]]; [by left|]. right.
    apply lookup_delete_Some in Hz as [_ Hz]. apply list_elem_of_fmap. exists (j, z). split; [done|].
    by apply elem_of_map_to_list.
  - apply Hcells.
  - intros y Hy. unfold registered in *. apply list_elem_of_fmap in Hy as ([j z] & -> & Hz).
    apply elem_of_map_to_list in Hz. apply lookup_delete_Some in Hz as [_ Hz].
    apply list_elem_of_fmap. exists (j, z). split; [done|]. by apply elem_of_map_to_list.
  - apply Hcells.
Qed.

(** What an inbound message does. *)
Lemma inbound_correlates r (m : Res) xs :
  store_ok (registered (rpc_registry r) ++ xs) (cells r) →
  let id := message_id m in
  ∃ r', completion_on_inbound r m = Return (StatusContinue, r') ∧
    match control_code m, rpc_registry r !! id with
    | _, None => r' = r
    | Normal, Some (Unary c) =>
        ∃ o o', cells r !! c = Some (OneshotCell o) ∧
          os_view o' = (if os_open o then OsValue (Ok m) else OsGone) ∧
          r' = mkReactor (delete id (rpc_registry r)) (is_alive r) (<[c := OneshotCell o']> (cells r))
    | Normal, Some (RemoteStreaming _ c) =>
        ∃ s v s', cells r !! c = Some (StreamCell s v) ∧
          pending_values s' v = pending_values s v ++ [m] ∧ senders s' = senders s ∧
          r' = mkReactor (rpc_registry r) (is_alive r) (<[c := StreamCell s' v]> (cells r))
    | _, Some x =>
        r' = mkReactor (delete id (rpc_registry r)) (is_alive r) (drop_completion x (cells r))
    end.
Proof.
  intros Hok id. unfold completion_on_inbound. fold id.
  destruct (rpc_registry r !! id) as [x|] eqn:Hx; cycle 1.
  { assert (deregister r id = r) as Hde.
    { unfold deregister. rewrite Hx, delete_id by done. by destruct r. }
    destruct (control_code m); eexists; split; try reflexivity; by rewrite ?Hde. }
  assert (deregister r id
    = mkReactor (delete id (rpc_registry r)) (is_alive r) (drop_completion x (cells r))) as Hde
    by (unfold deregister; by rewrite Hx).
  destruct (control_code m); [|by rewrite Hde; destruct x; eexists..].
  pose proof Hok as Hok2. rewrite (registered_delete _ _ _ Hx) in Hok2.
  destruct (so_owns _ _ Hok2 x) as (cell & Hcell & Hown); [by left|].
  destruct x as [c|sender c], cell as [o|s v]; simpl in Hcell, Hown; try done; rewrite Hcell.
  - pose proof (os_send_law o (Ok m) Hown) as Hsend. destruct (os_send o (Ok m)) as [res o'].
    eexists. split; [done|]. exists o, o'. split; [done|]. split; [|done].
    by destruct (os_open o); destruct Hsend as (_ & -> & _).
  - destruct (Forall_lookup_1 _ _ _ _ (so_cells _ _ Hok) Hcell) as [Hun Hone].
    destruct Hown as [_ Hch].
    destruct (send_unbounded s v _ m Hun Hch) as (s2 & ks & He & _ & _ & Hse & _ & Hpv).
    unfold sender_send. rewrite He. cbn [run_bind]. eexists. split; [done|].
    exists s, v, s2. split_and!; try done. by apply Hpv.
Qed.

(** The drop of the reactor and of the connection's end of the queue. *)
Lemma reactor_drop_ok r xs :
  store_ok (registered (rpc_registry r) ++ xs) (cells r) →
  store_ok xs (cells (completion_reactor_drop r)).
Proof. intros Hok. by apply store_drops in Hok. Qed.

Lemma drop_receiver_ok xs (cs : list (Cell O W Res)) c :
  store_ok xs cs → store_ok xs (alter close_receiver c cs).
Proof.
  intros Hok. destruct (cs !! c) as [cell|] eqn:Hc; [|by rewrite alter_absent].
  rewrite (alter_insert _ _ _ _ Hc).
  eapply store_change; [done|done| | |]; destruct cell as [o|s v]; simpl; try done.
  - intros [|]; simpl; [|done]. destruct (os_drop_receiver_law o) as [-> _]. by intros ->.
  - destruct (os_drop_receiver_law o) as [-> _]. by destruct (os_view o).
Qed.

Lemma unary_poll_ok u k xs (cs : list (Cell O W Res)) p u' cs' :
  store_ok xs cs → unary_poll u k cs = Return (p, u', cs') → store_ok xs cs'.
Proof.
  intros Hok He. unfold unary_poll in He. destruct (cg_closed (uc_guard u)); [done|].
  destruct (cs !! uc_completion u) as [[o|]|] eqn:Hc; try done.
  pose proof (os_poll_law o k) as Hp. destruct (os_poll o k) as [pr o']. destruct Hp as [_ Hp].
  assert (cs' = <[uc_completion u := OneshotCell o']> cs) as ->
    by (by destruct pr as [[|]|]; injection He).
  eapply store_change; [done|done| | |done].
  - intros [|]; simpl; [|done]. intros Hv. rewrite Hv in Hp. apply Hp.
  - simpl. intros Hv. destruct (os_view o); [done|destruct Hp as [_ ->]; done..].
Qed.

Lemma streaming_poll_ok x k xs (cs : list (Cell O W Res)) p x' cs' :
  store_ok xs cs → streaming_poll_next x k cs = Return (p, x', cs') → store_ok xs cs'.
Proof.
  intros Hok He. unfold streaming_poll_next in He. destruct (sc_closed x); [by injection He as _ _ <-|].
  destruct (cs !! sc_completion x) as [[|s v]|] eqn:Hc; try done.
  apply run_bind_Return in He as ([[pr s'] v'] & Hs & He).
  destruct (Forall_lookup_1 _ _ _ _ (so_cells _ _ Hok) Hc) as [Hun Hone].
  destruct (poll_unbounded _ _ _ _ _ _ Hun Hs) as (Hun' & Hse & Hlen & _).
  assert (cs' = <[sc_completion x := StreamCell s' v']> cs) as ->
    by (by destruct pr as [[|]|]; injection He).
  eapply store_change; [done|done| | |simpl; by rewrite Hlen].
  - intros [|]; simpl; [done|]. unfold len. by rewrite Hse, Hlen.
  - simpl. by rewrite Hse.
Qed.

(** A streaming call adds a channel that its completion owns. *)
Lemma send_streaming_ok w c request res q' r' :
  unbounded (w_queue w) (w_receiver w) → store_ok (in_flight w) (cells (w_reactor w)) →
  send_streaming c request (w_queue w) (w_reactor w) = Return (res, q', r') →
  unbounded q' (w_receiver w) ∧ store_ok (registered (rpc_registry r') ++ queued q' (w_receiver w)) (cells r').
Proof.
  intros Hun Hok He. unfold send_streaming in He.
  apply run_bind_Return in He as ([[sender receiver] s] & Hch & He).
  apply run_bind_Return in He as ([[sent q1] r1] & Hs & He).
  destruct (channel_new_inv (T:=Res) max_u64 1) as (x1 & v1 & s1 & Hch1 & Hinv1 & _ & Hs1 & Hcap1 & Hx1);
    [lia|done|].
  unfold channel_with_concurrency in Hch. rewrite Hch1 in Hch. injection Hch as <- <- <-.
  assert (owns (RemoteStreaming x1 (length (cells (w_reactor w)))) (StreamCell (O:=O) s1 v1)) as Hown.
  { split; [done|]. rewrite Hx1. pose proof (ok_cursor _ _ (inv_ok _ _ Hinv1)). lia. }
  assert (length (chutes s1) = 1%nat) as Hone by (by injection Hch1 as _ _ <-).
  eapply send_message_ok in Hs as (Hun1 & Hok1);
    [|exact Hun|apply store_alloc; [exact Hok|done|exact Hown|by split; [split|]]].
  by destruct sent as [g|e]; injection He as <- <- <-.
Qed.

(** The connection is lost with the reactor and what its receiver had taken. *)
Lemma connection_lost_ok w :
  unbounded (w_queue w) (w_receiver w) → store_ok (in_flight w) (cells (w_reactor w)) →
  let v := mkReceiver (cursor (w_receiver w)) [] in
  let r := completion_reactor_drop (w_reactor w) in
  unbounded (w_queue w) v ∧
  store_ok (registered (rpc_registry r) ++ queued (w_queue w) v)
    (drop_completions (buffer (w_receiver w) ≫= notification_completions) (cells r)).
Proof.
  intros Hun Hok v r. split.
  { destruct Hun as [[Hcok Hdead Hcap Hsize] Hunb]. split; [|done].
    split; try done. by apply (channel_ok_same (w_queue w) _ (w_receiver w)). }
  unfold r, v, completion_reactor_drop. simpl. apply store_drops.
  apply reactor_drop_ok in Hok. unfold registered. rewrite map_to_list_empty. simpl.
  unfold queued, waiting in *. simpl. by rewrite bind_app in Hok.
Qed.

(** The queue is freed with everything in it. *)
Lemma queue_freed_ok (q : Shared W (RpcNotification Req)) v n :
  unbounded q v →
  let q' := set_chutes q ((λ _, chute_default) <$> chutes q) in
  unbounded q' (mkReceiver (cursor v) []) ∧ queued q' (mkReceiver n []) = [].
Proof.
  intros [[Hcok Hdead Hcap Hsize] Hunb] q'. split.
  - split; [|done]. split; try done. destruct Hcok as [Hlen Hch Hcur].
    split; simpl; unfold len in *; rewrite ?length_fmap; try done.
    intros i ch Hi. apply list_lookup_fmap_Some_1 in Hi as (? & -> & _). by split.
  - unfold queued, waiting, q'. cbn [buffer chutes set_chutes app].
    assert (∀ l : list (Chute (RpcNotification Req)),
      concat (queue <$> ((λ _, chute_default (T:=RpcNotification Req)) <$> l)) = []) as ->; [|done].
    intros l. by induction l as [|ch l IH]; simpl.
Qed.

Lemma client_step_ok w w' : client_step w w' → world_ok w → world_ok w'.
Proof.
  intros Hstep [Hun Hok]. unfold in_flight in Hok.
  destruct Hstep as [c request res q' r' He|c request res q' r' He|k p q' v' Hc He|m status r' Hc He
    |u k p u' cs' He|u q' cs' He|x k p x' cs' He|x q' He|c c' q' He|c|Hc|Hc Hse];
    unfold world_ok, in_flight; cbn [w_queue w_receiver w_reactor].
  - unfold send_unary in He. apply run_bind_Return in He as ([[sent q1] r1] & Hs & He).
    eapply send_message_ok in Hs as (Hun1 & Hok1);
      [|exact Hun|apply store_alloc; [exact Hok|done|apply os_channel_law|done]].
    destruct sent as [g|e]; injection He as <- <- <-; [done|]. split; [done|].
    by apply drop_receiver_ok.
  - by eapply send_streaming_ok.
  - destruct (poll_unbounded _ _ _ _ _ _ Hun He) as (Hun' & _ & _ & Hp). split; [done|].
    assert (∀ q v, queued q v ≡ₚ pending_values q v ≫= notification_completions) as Hqp
      by (intros q v; unfold queued; by rewrite pending_waiting).
    rewrite Hqp in Hok |- *.
    destruct p as [[n|]|].
    + rewrite Hp in Hok. simpl in Hok. by apply client_outbound_ok.
    + destruct Hp as (Hp & Hp' & _). by rewrite Hp in Hok; rewrite Hp'.
    + destruct Hp as (Hp & Hp' & _). by rewrite Hp in Hok; rewrite Hp'.
  - destruct (client_inbound_ok _ _ _ _ _ Hok He) as [Hok' _]. done.
  - split; [done|]. by eapply unary_poll_ok.
  - unfold unary_drop in He. apply run_bind_Return in He as (q1 & Hg & He). injection He as <- <-.
    destruct (guard_drop_ok _ _ (w_receiver w) _ Hun Hg) as (Hun' & Hq & _). split; [done|].
    rewrite Hq. by apply drop_receiver_ok.
  - split; [done|]. by eapply streaming_poll_ok.
  - destruct (guard_drop_ok _ _ (w_receiver w) _ Hun He) as (Hun' & Hq & _). split; [done|]. by rewrite Hq.
  - unfold client_clone in He. apply run_bind_Return in He as ([y q1] & Hcl & He). injection He as <- <-.
    destruct (sender_clone_spec _ _ (w_receiver w) _ _ Hun Hcl) as (Hun' & Hch & _). split; [done|].
    unfold queued, waiting in *. by rewrite Hch.
  - destruct (sender_drop_spec (submission_queue c) _ _ Hun) as (Hun' & Hch & _). split; [done|].
    unfold client_drop, queued, waiting in *. by rewrite Hch.
  - by apply connection_lost_ok.
  - destruct (queue_freed_ok _ _ (cursor (w_receiver w)) Hun) as [Hun' ->]. split; [done|].
    rewrite app_nil_r. apply store_drops. by rewrite Permutation_app_comm.
Qed.

(** The state of a new connection. *)
Definition world_new q (v : Receiver (RpcNotification Req)) : World := mkWorld q v true completion_reactor_new.

(** The runs of a client. *)
Inductive client_reachable : World → Prop :=
| client_start x v q : channel = Return (x, v, q) → client_reachable (world_new q v)
| client_next w w' : client_reachable w → client_step w w' → client_reachable w'.

Lemma client_reachable_ok w : client_reachable w → world_ok w.
Proof.
  induction 1 as [x v q Hch|w w' _ IH Hstep]; [|by eapply client_step_ok].
  destruct (channel_new_inv (T:=RpcNotification Req) max_u64 8) as (x1 & v1 & q1 & Hch1 & Hinv & Hpv & _ & Hcap & _);
    [lia|done|].
  unfold channel, channel_with_concurrency in Hch. rewrite Hch1 in Hch. injection Hch as <- <- <-.
  split; [by split|]. unfold in_flight, queued. simpl. rewrite <-pending_waiting, Hpv. simpl.
  unfold registered. rewrite map_to_list_empty. split; simpl; [constructor|..]; try constructor; set_solver.
Qed.

Lemma send_queued_mono c y request q v r res q' r' (x : Completion) :
  unbounded q v → send_message c y request q r = Return (res, q', r') →
  x ∈ queued q v → x ∈ queued q' v.
Proof.
  intros Hun Hs Hx. destruct (send_message_queued _ _ _ _ v _ _ _ _ Hun Hs) as [_ Hr].
  destruct (is_alive r); [|by destruct Hr as (_ & -> & _)].
  destruct Hr as (g & _ & _ & _ & _ & _ & Hq). rewrite Hq. by right.
Qed.

(** Without the connection, what is in the queue stays there while somebody
    holds a sender. *)
Lemma stranded_step w w' x :
  client_step w w' → world_ok w → senders (w_queue w') ≠ 0 →
  w_connected w = false → x ∈ queued (w_queue w) (w_receiver w) →
  w_connected w' = false ∧ x ∈ queued (w_queue w') (w_receiver w').
Proof.
  intros Hstep [Hun Hok] Hse Hconn Hx. unfold in_flight in Hok.
  destruct Hstep as [c request res q' r' He|c request res q' r' He|k p q' v' Hc He|m status r' Hc He
    |u k p u' cs' He|u q' cs' He|x1 k p x' cs' He|x1 q' He|c c' q' He|c|Hc|Hc Hse'];
    try congruence; (split; [done|]); cbn [w_queue w_receiver w_reactor] in *; try done.
  - unfold send_unary in He. apply run_bind_Return in He as ([[sent q1] r1] & Hs & He).
    apply (send_queued_mono _ _ _ _ _ _ _ _ _ _ Hun Hs) in Hx. by destruct sent; simplify_eq.
  - unfold send_streaming in He. apply run_bind_Return in He as ([[sender receiver] s] & _ & He).
    apply run_bind_Return in He as ([[sent q1] r1] & Hs & He).
    apply (send_queued_mono _ _ _ _ _ _ _ _ _ _ Hun Hs) in Hx. by destruct sent; simplify_eq.
  - unfold unary_drop in He. apply run_bind_Return in He as (q1 & Hg & He). injection He as <- <-.
    destruct (guard_drop_ok _ _ (w_receiver w) _ Hun Hg) as (_ & Hq & _). by rewrite Hq.
  - destruct (guard_drop_ok _ _ (w_receiver w) _ Hun He) as (_ & Hq & _). by rewrite Hq.
  - unfold client_clone in He. apply run_bind_Return in He as ([y q1] & Hcl & He). injection He as <- <-.
    destruct (sender_clone_spec _ _ (w_receiver w) _ _ Hun Hcl) as (_ & Hch & _).
    unfold queued, waiting in *. by rewrite Hch.
  - destruct (sender_drop_spec (submission_queue c) _ _ Hun) as (_ & Hch & _).
    unfold client_drop, queued, waiting in *. by rewrite Hch.
Qed.
End world.

(** ** The properties *)

Module RpcClients.

Section claims.
Context {O W K Req Res : Type} `{AtomicWaker W K} `{OneshotLaws O (result Res RpcError) K}.
Context `{MessageLaws Req} `{!Message Res}.
Abbreviation World := (ClientWorld O W Req Res).
Implicit Types w : World.
Implicit Types r : RpcCompletionReactor O W Res.

(** A channel whose receiver has something to wait for. *)
Definition cell_waits (cell : Cell O W Res) : Prop :=
  match cell with
  | OneshotCell o => os_view o = OsEmpty
  | StreamCell s _ => senders s ≠ 0
  end.

(** C12: no completion is lost, duplicated or kept too long: in every reachable
    state, a caller still has something to wait for exactly when one completion of
    its rpc is queued for the connection or registered in the reactor; in
    particular everything the reactor let go of has told its caller. *)
Theorem every_wait_is_accounted w (Hreach : client_reachable w) :
  NoDup (completion_cell <$> in_flight w) ∧
  ∀ c cell, cells (w_reactor w) !! c = Some cell →
    cell_waits cell ↔ c ∈ completion_cell <$> in_flight w.
Proof.
  destruct (client_reachable_ok w Hreach) as [_ [Hnd Hown Hcl Hok]]. split; [done|].
  intros c cell Hc. split.
  - intros Hw. destruct (decide (c ∈ completion_cell <$> in_flight w)) as [|Hn]; [done|].
    specialize (Hcl c cell Hc Hn). by destruct cell.
  - intros (x & -> & Hx)%list_elem_of_fmap. destruct (Hown x Hx) as (d & Hd & Ho).
    rewrite Hc in Hd. injection Hd as <-.
    destruct x, cell; simpl in *; try done. destruct Ho as [-> _]. done.
Qed.

(** C18: responses are correlated by id: in every reachable state an inbound
    message is handled without a panic; a response completes the unary rpc that is
    registered under its id, which then leaves the registry, or is appended to the
    stream of the streaming one; a [Cancel] or an [End] drops the completion; a
    message for any other id changes nothing; no other channel is touched. *)
Theorem responses_correlate w (m : Res) (Hreach : client_reachable w) :
  let r := w_reactor w in
  let id := message_id m in
  ∃ r', completion_on_inbound r m = Return (StatusContinue, r') ∧
    match control_code m, rpc_registry r !! id with
    | _, None => r' = r
    | Normal, Some (Unary c) =>
        ∃ o o', cells r !! c = Some (OneshotCell o) ∧
          os_view o' = (if os_open o then OsValue (Ok m) else OsGone) ∧
          r' = mkReactor (delete id (rpc_registry r)) (is_alive r) (<[c := OneshotCell o']> (cells r))
    | Normal, Some (RemoteStreaming _ c) =>
        ∃ s v s', cells r !! c = Some (StreamCell s v) ∧
          pending_values s' v = pending_values s v ++ [m] ∧ senders s' = senders s ∧
          r' = mkReactor (rpc_registry r) (is_alive r) (<[c := StreamCell s' v]> (cells r))
    | _, Some x =>
        r' = mkReactor (delete id (rpc_registry r)) (is_alive r) (drop_completion x (cells r))
    end.
Proof.
  destruct (client_reachable_ok w Hreach) as [_ Hok]. exact (inbound_correlates _ m _ Hok).
Qed.

(** Dropping a completion that has not finished tells the server, once: it
    queues one cancellation for its id, which the connection turns into a [Cancel]
    message while the reactor forgets the rpc; a completion that has finished
    queues nothing. *)
Theorem drop_cancels_once (u : UnaryCompletion) (q : Shared W (RpcNotification Req))
  (v : Receiver (RpcNotification Req)) r
  (Hq : unbounded q v) (Hchute : chute (raw_submission_queue (uc_guard u)) < len (chutes q)) :
  ∃ q', unary_drop u q (cells r) = Return (q', alter close_receiver (uc_completion u) (cells r)) ∧
    waiting q' v ≡ₚ (if cg_closed (uc_guard u) then [] else [CancelRpc (cg_message_id (uc_guard u))])
                    ++ waiting q v ∧
    let id := cg_message_id (uc_guard u) in
    let '(m, r') := completion_on_outbound r (CancelRpc id) in
    control_code (m : Req) = Cancel ∧ message_id m = id ∧ rpc_registry r' = delete id (rpc_registry r).
Proof.
  assert (∃ q', guard_drop (uc_guard u) q = Return q') as (q' & Hg).
  { unfold guard_drop. destruct (cg_closed (uc_guard u)); [by eexists|].
    destruct (send_unbounded q v _ (CancelRpc (cg_message_id (uc_guard u))) Hq Hchute)
      as (q2 & ks & He & _). unfold sender_send. rewrite He. by eexists. }
  destruct (guard_drop_ok _ _ _ _ Hq Hg) as (_ & _ & _ & Hw).
  exists q'. unfold unary_drop. rewrite Hg. split; [done|]. split; [done|]. simpl.
  by rewrite control_code_cancelled, message_id_cancelled.
Qed.

(** The response of a registered unary call completes it, and its caller gets it. *)
Lemma unary_answered r cell g (response : Res) (k : K) :
  cg_closed g = false → cells r !! cell = Some (OneshotCell os_channel) →
  rpc_registry r !! message_id response = Some (Unary cell) → control_code response = Normal →
  ∃ cs2 cs3,
    completion_on_inbound r response
      = Return (StatusContinue, mkReactor (delete (message_id response) (rpc_registry r)) (is_alive r) cs2) ∧
    unary_poll (mkUnaryCompletion cell g) k cs2
      = Return (Ready (Ok response), mkUnaryCompletion cell (set_closed g), cs3).
Proof.
  intros Hg Hcell Hreg Hcode. destruct (os_channel_law (O:=O) (T:=result Res RpcError) (K:=K)) as [Hv0 Ho0].
  pose proof (os_send_law os_channel (Ok response) Hv0) as Hsend. rewrite Ho0 in Hsend.
  destruct (os_send os_channel (Ok response)) as [sent o'] eqn:Hos. destruct Hsend as (_ & Hv' & _).
  pose proof (os_poll_law o' k) as Hpoll. rewrite Hv' in Hpoll.
  destruct (os_poll o' k) as [po o2] eqn:Hop. destruct Hpoll as (_ & -> & _).
  eexists (<[cell := OneshotCell o']> (cells r)), _. split.
  - unfold completion_on_inbound. rewrite Hcode, Hreg, Hcell, Hos. reflexivity.
  - unfold unary_poll. simpl uc_guard. rewrite Hg. simpl uc_completion. rewrite list_lookup_insert_eq by (by eapply lookup_lt_Some).
    by rewrite Hop.
Qed.

(** A unary call, end to end, on a connection whose queue is empty: the
    request goes out as it was given; the response with its id completes the call,
    which polls to that response; the registry is as it was, and dropping the
    completion sends nothing more. *)
Theorem unary_call w (c : RpcClient) (request : Req) (response : Res) (k k2 : K)
  (Hreach : client_reachable w) (Halive : is_alive (w_reactor w) = true)
  (Hempty : pending_values (w_queue w) (w_receiver w) = [])
  (Hchute : chute (submission_queue c) < len (chutes (w_queue w)))
  (Hfree : rpc_registry (w_reactor w) !! message_id request = None)
  (Hcode : control_code response = Normal) (Hid : message_id response = message_id request) :
  ∃ u q1 r1 n q2 v2 r2 r3 u' cs q3 cs3,
    send_unary c request (w_queue w) (w_reactor w) = Return (Ok u, q1, r1) ∧
    poll_next q1 (w_receiver w) k = Return (Ready (Some n), q2, v2) ∧
    completion_on_outbound r1 n = (request, r2) ∧
    completion_on_inbound r2 response = Return (StatusContinue, r3) ∧
    rpc_registry r3 = rpc_registry (w_reactor w) ∧
    unary_poll u k2 (cells r3) = Return (Ready (Ok response), u', cs) ∧
    unary_drop u' q2 cs = Return (q3, cs3) ∧ pending_values q3 v2 = [].
Proof.
  destruct (client_reachable_ok w Hreach) as [Hun Hok].
  set (r := w_reactor w) in *. set (q := w_queue w) in *. set (v := w_receiver w) in *.
  set (cell := length (cells r)).
  set (r0 := set_cells r (cells r ++ [OneshotCell os_channel])).
  destruct (send_unary_spec c request q v r Hun Halive Hchute)
    as (g & q1 & Hs & Hun1 & Hg & _ & Hw). fold cell r0 in Hs.
  rewrite <-!pending_waiting, Hempty in Hw. apply Permutation_singleton_r in Hw.
  destruct (poll_next_spec q1 v k (inv_ok _ _ (proj1 Hun1))) as (p & q2 & v2 & Hp & _).
  destruct (poll_unbounded _ _ _ _ _ _ Hun1 Hp) as (Hun2 & _ & Hlen2 & Hpv).
  rewrite Hw in Hpv. destruct p as [[n|]|]; [|by destruct Hpv..]. injection Hpv as Hn Hpv.
  set (r2 := mkReactor (<[message_id request := Unary cell]> (rpc_registry r)) (is_alive r)
               (cells r ++ [OneshotCell os_channel])).
  assert (completion_on_outbound r0 n = (request, r2)) as Hout.
  { rewrite <-Hn. simpl. unfold deregister. simpl. rewrite Hfree.
    unfold r2, set_registry. simpl. by rewrite delete_id. }
  assert ((cells r ++ [OneshotCell os_channel]) !! cell = Some (OneshotCell os_channel)) as Hcell
    by (by apply list_lookup_middle).
  destruct (unary_answered r2 cell g response k2 Hg Hcell) as (cs2 & cs3 & Hin & Hup);
    [by rewrite Hid; apply lookup_insert_eq|done|].
  simpl in Hin. rewrite Hid, delete_insert_id in Hin by done.
  assert (guard_drop (set_closed g) q2 = Return (sender_drop (raw_submission_queue g) q2).1) as Hgd by done.
  destruct (guard_drop_ok _ _ _ _ Hun2 Hgd) as (_ & _ & _ & Hw3). simpl in Hw3.
  rewrite <-!pending_waiting, <-Hpv in Hw3. apply Permutation_nil_r in Hw3.
  do 12 eexists. split; [exact Hs|].
  split; [exact Hp|]. split; [exact Hout|]. split; [exact Hin|]. split; [done|].
  split; [exact Hup|]. split; [|exact Hw3]. unfold unary_drop. simpl uc_guard. by rewrite Hgd.
Qed.

(** A request that the connection has not taken yet when it is lost is never
    answered: as long as some sender of the queue is alive, the completion of the
    caller itself for one, nothing that can happen completes it or tells that it
    was cancelled; its polls are pending for ever. *)
Theorem stranded_request_hangs w w' (x : Completion) (u : UnaryCompletion) (k : K)
  (Hreach : client_reachable w) (Hlost : w_connected w = false)
  (Hqueued : x ∈ queued (w_queue w) (w_receiver w))
  (Hrun : rtc (λ a b, client_step a b ∧ senders (w_queue b) ≠ 0) w w')
  (Hu : x = Unary (uc_completion u)) (Hopen : cg_closed (uc_guard u) = false) :
  ∃ cs, unary_poll u k (cells (w_reactor w')) = Return (Pending, u, cs).
Proof.
  assert (client_reachable w' ∧ x ∈ queued (w_queue w') (w_receiver w')) as [Hreach' Hx].
  { induction Hrun as [w|w1 w2 w3 [Hstep Hse] _ IH]; [done|].
    destruct (stranded_step _ _ _ Hstep (client_reachable_ok _ Hreach) Hse Hlost Hqueued).
    apply IH; [|done|done]. by eapply client_next. }
  destruct (client_reachable_ok w' Hreach') as [_ Hok].
  destruct (so_owns _ _ Hok x) as (cell & Hc & Hown).
  { unfold in_flight. apply elem_of_app. by right. }
  subst x. simpl in Hc, Hown. destruct cell as [o|]; [|done]. unfold unary_poll. rewrite Hopen, Hc.
  pose proof (os_poll_law o k) as Hp. destruct (os_poll o k) as [p o']. rewrite Hown in Hp.
  destruct Hp as (_ & -> & _). by eexists.
Qed.
End claims.

(** ** Witnesses *)

Import WakerCell.
Abbreviation DemoSlot := (OneshotView (result Response RpcError) * bool)%type.
Abbreviation DemoWorld := (ClientWorld DemoSlot (option nat) Request Response).

Definition demo_request (id : u64) : Request := mkRequest id 0 None ExampleService.Unary.
Definition demo_response (id : u64) : Response := mkResponse id 0 None.
Definition demo_client : RpcClient := mkRpcClient (mkSender 0).

(** A new channel and connection. *)
Definition demo_queue : Shared (option nat) (RpcNotification Request) :=
  mkShared (replicate 8 chute_default) None 1 1 0 max_u64 false.
Definition demo_world : DemoWorld := world_new demo_queue receiver_new.

Lemma demo_world_reachable : client_reachable (K:=nat) demo_world.
Proof. by apply (client_start (mkSender 0)). Qed.

(** The reachable world after a unary request, sent through the caller [f]. *)
Definition after_unary (w : DemoWorld) (id : u64) : DemoWorld :=
  match send_unary demo_client (demo_request id) (w_queue w) (w_reactor w) with
  | Return (_, q, r) => mkWorld q (w_receiver w) (w_connected w) r
  | _ => w
  end.

Definition after_outbound (w : DemoWorld) : DemoWorld :=
  match poll_next (w_queue w) (w_receiver w) 5%nat with
  | Return (Ready (Some n), q, v) => mkWorld q v true (completion_on_outbound (w_reactor w) n).2
  | _ => w
  end.

Definition after_lost (w : DemoWorld) : DemoWorld :=
  mkWorld (w_queue w) (mkReceiver (cursor (w_receiver w)) []) false
    (let r := completion_reactor_drop (w_reactor w) in
     set_cells r (drop_completions (buffer (w_receiver w) ≫= notification_completions) (cells r))).

Lemma demo_sent_reachable : client_reachable (K:=nat) (after_unary demo_world 7).
Proof.
  eapply client_next; [exact demo_world_reachable|].
  by eapply (step_send_unary _ demo_client (demo_request 7)).
Qed.

Lemma demo_taken_reachable : client_reachable (K:=nat) (after_outbound (after_unary demo_world 7)).
Proof.
  eapply client_next; [exact demo_sent_reachable|].
  by eapply (step_outbound _ 5%nat (Ready (Some _))).
Qed.

Lemma demo_stranded_reachable : client_reachable (K:=nat) (after_lost (after_unary demo_world 7)).
Proof. eapply client_next; [exact demo_sent_reachable|]. by apply step_lost. Qed.

Lemma every_wait_is_accounted_witness :
  NoDup (completion_cell <$> in_flight (after_unary demo_world 7)) ∧
  in_flight (after_unary demo_world 7) = [Unary 0].
Proof.
  destruct (every_wait_is_accounted (after_unary demo_world 7) demo_sent_reachable) as [Hnd _].
  split; [exact Hnd|]. vm_compute. reflexivity.
Defined.

Lemma responses_correlate_witness :
  ∃ r', completion_on_inbound (w_reactor (after_outbound (after_unary demo_world 7))) (demo_response 7)
          = Return (StatusContinue, r') ∧ rpc_registry r' = ∅.
Proof.
  destruct (responses_correlate (after_outbound (after_unary demo_world 7)) (demo_response 7)
    demo_taken_reachable) as (r' & He & Hr).
  exists r'. split; [exact He|]. destruct Hr as (o & o' & _ & _ & ->). vm_compute. reflexivity.
Defined.

Lemma demo_unbounded : unbounded demo_queue receiver_new.
Proof. split; [by apply channel_invb_sound|done]. Qed.

Lemma drop_cancels_once_witness :
  ∃ q', unary_drop (mkUnaryCompletion 0 (mkCompletionGuard false 7 (mkSender 0))) demo_queue
          (cells (w_reactor demo_world)) = Return (q', []) ∧
    waiting q' receiver_new ≡ₚ [CancelRpc 7].
Proof.
  destruct (drop_cancels_once (mkUnaryCompletion 0 (mkCompletionGuard false 7 (mkSender 0)))
    demo_queue receiver_new (w_reactor demo_world)) as (q' & He & Hw & _);
    [exact demo_unbounded|reflexivity|].
  exists q'. split; [exact He|exact Hw].
Defined.

Lemma unary_call_witness :
  ∃ u q1 r1, send_unary demo_client (demo_request 7) demo_queue (w_reactor demo_world)
               = Return (Ok u, q1, r1).
Proof.
  destruct (unary_call demo_world demo_client (demo_request 7) (demo_response 7) 5%nat 6%nat)
    as (u & q1 & r1 & n & q2 & v2 & r2 & r3 & u' & cs & q3 & cs3 & He & _);
    [exact demo_world_reachable|reflexivity..|].
  exists u, q1, r1. exact He.
Defined.

Lemma stranded_request_hangs_witness :
  ∃ cs, unary_poll (mkUnaryCompletion 0 (mkCompletionGuard false 7 (mkSender 1))) 5%nat
          (cells (w_reactor (after_lost (after_unary demo_world 7)))) =
        Return (Pending, mkUnaryCompletion 0 (mkCompletionGuard false 7 (mkSender 1)), cs).
Proof.
  apply (stranded_request_hangs (after_lost (after_unary demo_world 7))
    (after_lost (after_unary demo_world 7)) (Unary 0)); [exact demo_stranded_reachable|reflexivity| | |reflexivity|reflexivity].
  - vm_compute. left.
  - apply rtc_refl.
Defined.

(** A stream that the server cancels reports [Finished], like one that ended: the
    receiver only sees that its sender is gone. *)
Example cancelled_stream_reports_finished :
  (let* '(x, q, r) := send_streaming demo_client (demo_request 7) demo_queue
                        (completion_reactor_new (O:=DemoSlot) (W:=option nat) (Res:=Response)) in
   match x with
   | Ok x =>
       let* '(p, q, v) := poll_next q receiver_new 5%nat in
       match p with
       | Ready (Some n) =>
           let* '(_, r) := completion_on_inbound (completion_on_outbound r n).2 (cancelled 7) in
           let* '(p, _, _) := streaming_poll_next x 6%nat (cells r) in Return p
       | _ => Panic
       end
   | Err _ => Panic
   end) = Return (Ready (Some (Err RpcFinished))).
Proof. vm_compute. reflexivity. Qed.
End RpcClients.
