(* ===== verification/ConnectionPool.v ===== *)
(** * The connection pool

    [protosocket-rpc/src/client/connection_pool.rs]: the slots of a pool and the
    tasks that ask it for a connection.  A task runs atomically between two locks
    of its slot's mutex; tasks, connection attempts and the deaths of connections
    interleave freely. *)

From S2P Require Import Prelude Connection RpcMessage.
Local Open Scope N_scope.
Local Open Scope run_scope.

(** A client handle, up to clones: the connection it shares. *)
Abbreviation Client := nat (only parsing).

(** [ConnectionState]; [j] names a spawned connection attempt. *)
Inductive ConnectionState :=
| Connecting (j : nat)
| Connected (c : Client)
| SlotDisconnected.

#[export] Instance ConnectionState_eq_dec : EqDecision ConnectionState.
Proof. solve_decision. Defined.

(** Where a task is in [get_connection_by_slot]: before the lock of its loop,
    awaiting an attempt, before the lock of [reconcile_client_slot], before the
    lock of the error branch, back with its result, or dropped with its future. *)
Inductive Task :=
| InLoop (slot : nat)
| Awaiting (slot j : nat)
| Reconciling (slot : nat) (client : Client)
| Failing (slot : nat) (e : RpcError)
| Done (slot : nat) (r : result Client RpcError)
| Dropped.

(** The pool, the attempts that were spawned with their outcomes, the connections
    that have died, and the tasks. *)
Record Pool := mkPool {
  connections : list ConnectionState;
  attempts : list (option (result Client RpcError));
  dead_clients : list Client;
  tasks : list Task;
}.

(** [ConnectionPool::new]. *)
Definition pool_new (connection_count : usize) : Pool :=
  mkPool (replicate (N.to_nat connection_count) SlotDisconnected) [] [] [].

(** [RpcClient::is_alive]. *)
Definition client_alive (p : Pool) (c : Client) : bool := bool_decide (c ∉ dead_clients p).

(** The slot of [get_connection_for_key]. *)
Definition slot_for_key (p : Pool) (key : usize) : run nat :=
  if len (connections p) =? 0 then Panic
  else Return (N.to_nat (key `mod` len (connections p))).

(** The slot of [get_connection], for the number that is drawn: an empty range
    panics. *)
Definition random_slot (p : Pool) (drawn : nat) : run nat :=
  if (drawn <? length (connections p))%nat then Return drawn else Panic.

(** One turn of the loop of [get_connection_by_slot], under the lock. *)
Definition loop_turn (p : Pool) (slot : nat) : option (Pool * Task) :=
  match connections p !! slot with
  | None => None
  | Some (Connected shared_connection) =>
      if client_alive p shared_connection
      then Some (p, Done slot (Ok shared_connection))
      else Some (mkPool (<[slot := SlotDisconnected]> (connections p)) (attempts p)
                   (dead_clients p) (tasks p), InLoop slot)
  | Some (Connecting join_handle) => Some (p, Awaiting slot join_handle)
  | Some SlotDisconnected =>
      Some (mkPool (<[slot := Connecting (length (attempts p))]> (connections p))
              (attempts p ++ [None]) (dead_clients p) (tasks p), InLoop slot)
  end.

(** [reconcile_client_slot]. *)
Definition reconcile_client_slot (p : Pool) (slot : nat) (client : Client) : option (Pool * Client) :=
  let take := mkPool (<[slot := Connected client]> (connections p)) (attempts p)
                (dead_clients p) (tasks p) in
  match connections p !! slot with
  | None => None
  | Some (Connecting _) => Some (take, client)
  | Some (Connected rpc_client) =>
      if client_alive p rpc_client then Some (p, rpc_client) else Some (take, client)
  | Some SlotDisconnected => Some (take, client)
  end.

(** [SpawnedConnect::poll]: a task that panicked counts as a closed connection. *)
Definition spawned_connect (joined : result (result Client RpcError) unit) : result Client RpcError :=
  match joined with
  | Ok client_result => client_result
  | Err _ => Err ConnectionIsClosed
  end.

(** The next step of a task. *)
Definition task_step (p : Pool) (t : Task) : option (Pool * Task) :=
  match t with
  | InLoop slot => loop_turn p slot
  | Awaiting slot j =>
      match attempts p !! j with
      | Some (Some (Ok client)) => Some (p, Reconciling slot client)
      | Some (Some (Err connect_error)) => Some (p, Failing slot connect_error)
      | _ => None
      end
  | Reconciling slot client =>
      '(p, client) ← reconcile_client_slot p slot client;
      Some (p, Done slot (Ok client))
  | Failing slot connect_error =>
      Some (mkPool (<[slot := SlotDisconnected]> (connections p)) (attempts p)
              (dead_clients p) (tasks p), Done slot (Err connect_error))
  | Done _ _ | Dropped => None
  end.

(** [DropTask]: the caller drops the future of [get_connection_by_slot] before it is
    polled, or while it awaits. *)
Inductive PoolLabel :=
| CallSlot (slot : nat)
| TaskStep (i : nat)
| DropTask (i : nat)
| AttemptDone (j : nat) (joined : result (result Client RpcError) unit)
| ClientDies (c : Client).

Definition pool_exec (l : PoolLabel) (p : Pool) : option Pool :=
  match l with
  | CallSlot slot =>
      if bool_decide (slot < length (connections p))%nat
      then Some (mkPool (connections p) (attempts p) (dead_clients p) (tasks p ++ [InLoop slot]))
      else None
  | TaskStep i =>
      t ← tasks p !! i;
      '(p, t) ← task_step p t;
      Some (mkPool (connections p) (attempts p) (dead_clients p) (<[i := t]> (tasks p)))
  | DropTask i =>
      match tasks p !! i with
      | Some (InLoop _ | Awaiting _ _) =>
          Some (mkPool (connections p) (attempts p) (dead_clients p) (<[i := Dropped]> (tasks p)))
      | _ => None
      end
  | AttemptDone j joined =>
      match attempts p !! j with
      | Some None =>
          Some (mkPool (connections p) (<[j := Some (spawned_connect joined)]> (attempts p))
                  (dead_clients p) (tasks p))
      | _ => None
      end
  | ClientDies c =>
      Some (mkPool (connections p) (attempts p) (c :: dead_clients p) (tasks p))
  end.

(** ** Single flight *)

(** A label of a run in which nothing goes wrong. *)
Definition fair_weather (l : PoolLabel) : Prop :=
  match l with
  | AttemptDone _ (Ok (Ok _)) => True
  | AttemptDone _ _ => False
  | ClientDies _ => False
  | _ => True
  end.

Definition busy (x : ConnectionState) : N := if decide (x = SlotDisconnected) then 0 else 1.

(** The slot is on the attempt [j], or connected with its outcome. *)
Definition slot_on (p : Pool) (slot j : nat) : Prop :=
  connections p !! slot = Some (Connecting j) ∨
  ∃ c, connections p !! slot = Some (Connected c) ∧ attempts p !! j = Some (Some (Ok c)).

Definition task_ok (p : Pool) (t : Task) : Prop :=
  match t with
  | InLoop _ | Dropped => True
  | Awaiting slot j => slot_on p slot j
  | Reconciling slot c => ∃ j, slot_on p slot j ∧ attempts p !! j = Some (Some (Ok c))
  | Failing _ _ => False
  | Done slot r => ∃ c, r = Ok c ∧ connections p !! slot = Some (Connected c)
  end.

Record pool_ok (p : Pool) : Prop := {
  pk_count : len (attempts p) = sum_by busy (connections p);
  pk_tasks i t : tasks p !! i = Some t → task_ok p t;
  pk_outcomes j e : attempts p !! j ≠ Some (Some (Err e));
  pk_alive : dead_clients p = [];
}.

Lemma task_ok_tasks p t ts :
  task_ok (mkPool (connections p) (attempts p) (dead_clients p) ts) t ↔ task_ok p t.
Proof. by destruct t. Qed.

(** What a step that keeps the other tasks in order has to show. *)
Lemma pool_ok_step p p' i t' :
  pool_ok p → len (attempts p') = sum_by busy (connections p') →
  (∀ t, task_ok p t → task_ok p' t) → task_ok p' t' →
  (∀ j e, attempts p' !! j ≠ Some (Some (Err e))) → dead_clients p' = [] →
  pool_ok (mkPool (connections p') (attempts p') (dead_clients p') (<[i := t']> (tasks p))).
Proof.
  intros [H1 H2 H3 H4] Hc Ht Ht' Ho Hd. split; try done. simpl.
  intros k t Hk. apply task_ok_tasks. apply list_lookup_insert_Some in Hk as [(_ & <- & _)|[_ Hk]].
  - done.
  - apply Ht. by eapply H2.
Qed.

(** The three ways in which the shared state moves, seen by the other tasks. *)
Lemma task_ok_spawn p slot t :
  connections p !! slot = Some SlotDisconnected → task_ok p t →
  task_ok (mkPool (<[slot := Connecting (length (attempts p))]> (connections p))
             (attempts p ++ [None]) (dead_clients p) (tasks p)) t.
Proof.
  intros Hslot Ht.
  assert (∀ s x, connections p !! s = Some x → x ≠ SlotDisconnected →
    <[slot := Connecting (length (attempts p))]> (connections p) !! s = Some x) as Hkeep.
  { intros s x Hs Hx. rewrite list_lookup_insert_ne; [done|]. intros ->. congruence. }
  assert (∀ s j, slot_on p s j → slot_on (mkPool (<[slot := Connecting (length (attempts p))]> (connections p))
    (attempts p ++ [None]) (dead_clients p) (tasks p)) s j) as Hon.
  { intros s j [Hs|(c & Hs & Hj)]; [left; by apply Hkeep|right].
    exists c. split; [by apply Hkeep|by apply lookup_app_l_Some]. }
  destruct t as [s|s j|s c|s e|s r|]; simpl in *; try done.
  - by apply Hon.
  - destruct Ht as (j & Hs & Hj). exists j. split; [by apply Hon|by apply lookup_app_l_Some].
  - destruct Ht as (c & -> & Hs). exists c. split; [done|]. by apply Hkeep.
Qed.

Lemma task_ok_connect p slot j c t :
  connections p !! slot = Some (Connecting j) → attempts p !! j = Some (Some (Ok c)) → task_ok p t →
  task_ok (mkPool (<[slot := Connected c]> (connections p)) (attempts p) (dead_clients p) (tasks p)) t.
Proof.
  intros Hslot Hj Ht.
  assert (<[slot := Connected c]> (connections p) !! slot = Some (Connected c)) as Hnew
    by (apply list_lookup_insert_eq; by eapply lookup_lt_Some).
  assert (∀ s i, slot_on p s i → slot_on (mkPool (<[slot := Connected c]> (connections p))
    (attempts p) (dead_clients p) (tasks p)) s i) as Hon.
  { intros s i Hs. unfold slot_on in *. simpl. destruct (decide (s = slot)) as [->|Hne].
    - rewrite Hslot in Hs. destruct Hs as [[= ->]|(? & [=] & _)]. right. by exists c.
    - by rewrite list_lookup_insert_ne by done. }
  destruct t as [s|s i|s d|s e|s r|]; simpl in *; try done.
  - by apply Hon.
  - destruct Ht as (i & Hs & Hi). exists i. split; [by apply Hon|done].
  - destruct Ht as (d & -> & Hs). exists d. split; [done|].
    rewrite list_lookup_insert_ne; [done|]. intros ->. congruence.
Qed.

Lemma task_ok_outcome p j r t :
  attempts p !! j = Some None → task_ok p t →
  task_ok (mkPool (connections p) (<[j := Some r]> (attempts p)) (dead_clients p) (tasks p)) t.
Proof.
  intros Hj Ht.
  assert (∀ i o, attempts p !! i = Some (Some o) → <[j := Some r]> (attempts p) !! i = Some (Some o)) as Hkeep.
  { intros i o Hi. rewrite list_lookup_insert_ne; [done|]. intros ->. congruence. }
  assert (∀ s i, slot_on p s i → slot_on (mkPool (connections p) (<[j := Some r]> (attempts p))
    (dead_clients p) (tasks p)) s i) as Hon.
  { intros s i [Hs|(c & Hs & Hi)]; [by left|right]. exists c. split; [done|by apply Hkeep]. }
  destruct t as [s|s i|s d|s e|s x|]; simpl in *; try done.
  - by apply Hon.
  - destruct Ht as (i & Hs & Hi). exists i. split; [by apply Hon|by apply Hkeep].
Qed.

Lemma alive_when_none_dead p c : dead_clients p = [] → client_alive p c = true.
Proof. intros Hd. unfold client_alive. rewrite Hd. by apply bool_decide_eq_true, not_elem_of_nil. Qed.

(** A task of a pool in order moves to a pool in order. *)
Lemma fair_task_ok p i t p1 t' :
  pool_ok p → task_ok p t → task_step p t = Some (p1, t') →
  pool_ok (mkPool (connections p1) (attempts p1) (dead_clients p1) (<[i := t']> (tasks p1))).
Proof.
  intros Hok Ht Hs. pose proof Hok as [Hcount _ Hout Halive].
  destruct t as [slot|slot j|slot c|slot e|slot r|]; simpl in Hs, Ht; try done.
  - unfold loop_turn in Hs. destruct (connections p !! slot) as [[j|c|]|] eqn:Hslot; try done.
    + simplify_eq. apply pool_ok_step; try done. by left.
    + rewrite alive_when_none_dead in Hs by done. simplify_eq. apply pool_ok_step; try done. by exists c.
    + simplify_eq. apply (pool_ok_step p (mkPool _ _ _ (tasks p))); try done; simpl.
      * pose proof (sum_by_insert busy _ _ _ (Connecting (length (attempts p))) Hslot) as Hsum.
        rewrite len_app, Hcount. unfold busy in *. rewrite decide_True, decide_False in Hsum by done.
        change (len [None]) with 1. lia.
      * intros t. by apply task_ok_spawn.
      * intros j e Hj. apply lookup_app_Some in Hj as [Hj|[_ Hj]]; [by eapply Hout|].
        by apply list_lookup_singleton_Some in Hj as [_ [=]].
  - destruct (attempts p !! j) as [[[c|e]|]|] eqn:Hj; simplify_eq; [|by apply Hout in Hj].
    apply pool_ok_step; try done. by exists j.
  - destruct Ht as (j & Hon & Hj). apply bind_Some in Hs as ([p2 d] & Hr & Hs). simplify_eq.
    unfold reconcile_client_slot in Hr. destruct Hon as [Hslot|(c' & Hslot & Hj')]; rewrite Hslot in Hr.
    + simplify_eq. apply (pool_ok_step p (mkPool _ _ _ (tasks p))); try done; simpl.
      * pose proof (sum_by_insert busy _ _ _ (Connected d) Hslot) as Hsum.
        unfold busy in *. rewrite !decide_False in Hsum by done. lia.
      * intros t. by eapply task_ok_connect.
      * eexists. split; [done|]. apply list_lookup_insert_eq. by eapply lookup_lt_Some.
    + rewrite alive_when_none_dead in Hr by done. simplify_eq.
      apply pool_ok_step; try done. by eexists.
Qed.

Lemma fair_step_ok l p p' : pool_ok p → fair_weather l → pool_exec l p = Some p' → pool_ok p'.
Proof.
  intros Hok Hfair He. pose proof Hok as [Hcount Htasks Hout Halive].
  destruct l as [slot|i|i|j joined|c]; simpl in He, Hfair; [| | | |done].
  - case_bool_decide; simplify_eq. split; try done. simpl.
    intros k t Hk. apply task_ok_tasks. apply lookup_app_Some in Hk as [Hk|[_ Hk]]; [by eapply Htasks|].
    by apply list_lookup_singleton_Some in Hk as [_ <-].
  - apply bind_Some in He as (t & Ht & He). apply bind_Some in He as ([p1 t'] & Hs & He).
    injection He as <-. eapply fair_task_ok; [exact Hok| |exact Hs]. by eapply Htasks.
  - assert (p' = mkPool (connections p) (attempts p) (dead_clients p) (<[i := Dropped]> (tasks p))) as ->
      by (by destruct (tasks p !! i) as [[]|]; simplify_eq).
    by apply pool_ok_step.
  - destruct joined as [[c|]|]; try done. destruct (attempts p !! j) as [[|]|] eqn:Hj; simplify_eq.
    split; simpl; [by rewrite len_insert| | |done].
    + intros k t Hk. apply (task_ok_outcome p j (Ok c)); [done|]. by eapply Htasks.
    + intros k e Hk. apply list_lookup_insert_Some in Hk as [(_ & [=] & _)|[_ Hk]]. by eapply Hout.
Qed.

Lemma pool_exec_length l p p' :
  pool_exec l p = Some p' → length (connections p') = length (connections p).
Proof.
  destruct l as [slot|i|i|j joined|c]; simpl; intros He; [by case_bool_decide; simplify_eq| | | |by simplify_eq].
  - apply bind_Some in He as (t & _ & He). apply bind_Some in He as ([p1 t'] & Hs & He).
    injection He as <-. simpl. destruct t as [slot|slot j|slot c|slot e|slot r|]; simpl in Hs; try done.
    + unfold loop_turn in Hs.
      destruct (connections p !! slot) as [[j|c|]|]; try destruct (client_alive p c); simplify_eq/=;
        by rewrite ?length_insert.
    + by destruct (attempts p !! j) as [[[|]|]|]; simplify_eq.
    + apply bind_Some in Hs as ([p2 d] & Hr & Hs). simplify_eq. unfold reconcile_client_slot in Hr.
      destruct (connections p !! slot) as [[j|c'|]|]; try destruct (client_alive p c'); simplify_eq/=;
        by rewrite ?length_insert.
    + simplify_eq/=. by rewrite length_insert.
  - by destruct (tasks p !! i) as [[]|]; simplify_eq.
  - by destruct (attempts p !! j) as [[|]|]; simplify_eq.
Qed.

Lemma pool_new_ok n : pool_ok (pool_new n).
Proof.
  split; simpl; try done. symmetry. apply sum_by_zero. intros i x Hx.
  by apply lookup_replicate in Hx as [-> _].
Qed.

(** ** In any weather *)

(** Where a connection and an error come from. *)
Definition made (p : Pool) (r : result Client RpcError) : Prop := ∃ j, attempts p !! j = Some (Some r).

Definition slot_sane (p : Pool) (x : ConnectionState) : Prop :=
  match x with
  | Connecting j => (j < length (attempts p))%nat
  | Connected c => made p (Ok c)
  | SlotDisconnected => True
  end.

Definition task_sane (p : Pool) (t : Task) : Prop :=
  match t with
  | InLoop slot => (slot < length (connections p))%nat
  | Awaiting slot j => (slot < length (connections p))%nat ∧ (j < length (attempts p))%nat
  | Reconciling slot c => (slot < length (connections p))%nat ∧ made p (Ok c)
  | Failing slot e => (slot < length (connections p))%nat ∧ made p (Err e)
  | Done _ r => made p r
  | Dropped => True
  end.

Record pool_sane (p : Pool) : Prop := {
  ps_slots : Forall (slot_sane p) (connections p);
  ps_tasks : Forall (task_sane p) (tasks p);
}.

(** Outcomes stay, and attempts are only added. *)
Definition grows (p p' : Pool) : Prop :=
  length (connections p') = length (connections p) ∧ (length (attempts p) ≤ length (attempts p'))%nat ∧
  ∀ r, made p r → made p' r.

Lemma grows_same p cs ds ts : length cs = length (connections p) → grows p (mkPool cs (attempts p) ds ts).
Proof. intros Hl. split; [done|]. by split. Qed.

Lemma slot_sane_grows p p' x : grows p p' → slot_sane p x → slot_sane p' x.
Proof. intros (Hc & Ha & Hm). destruct x; simpl; [lia|apply Hm|done]. Qed.

Lemma task_sane_grows p p' t : grows p p' → task_sane p t → task_sane p' t.
Proof.
  intros (Hc & Ha & Hm). destruct t; simpl; rewrite ?Hc; try done; [intros []; split; [done|lia]|..].
  - intros []. split; [done|by apply Hm].
  - intros []. split; [done|by apply Hm].
  - apply Hm.
Qed.

(** A task moves, and a slot with it. *)
Lemma pool_sane_move p p' i t' slot x :
  pool_sane p → grows p p' → connections p' = <[slot := x]> (connections p) → tasks p' = <[i := t']> (tasks p) →
  slot_sane p' x → task_sane p' t' → pool_sane p'.
Proof.
  intros [Hs Ht] Hg Hcs Hts Hx Ht'. split; rewrite ?Hcs, ?Hts; apply Forall_insert; try done.
  - eapply Forall_impl; [exact Hs|]. intros y. by apply slot_sane_grows.
  - eapply Forall_impl; [exact Ht|]. intros y. by apply task_sane_grows.
Qed.

Lemma pool_sane_stays p p' i t' :
  pool_sane p → grows p p' → connections p' = connections p → tasks p' = <[i := t']> (tasks p) →
  task_sane p' t' → pool_sane p'.
Proof.
  intros [Hs Ht] Hg Hcs Hts Ht'. split; rewrite ?Hcs, ?Hts; [|apply Forall_insert; [|done]].
  - eapply Forall_impl; [exact Hs|]. intros y. by apply slot_sane_grows.
  - eapply Forall_impl; [exact Ht|]. intros y. by apply task_sane_grows.
Qed.

(** What is left to do: the turns of the tasks, and the turns that the slots can
    still cost them. *)
Definition task_left (t : Task) : N :=
  match t with InLoop _ => 5 | Awaiting _ _ => 4 | Reconciling _ _ | Failing _ _ => 3 | Done _ _ | Dropped => 0 end.
Definition slot_left (x : ConnectionState) : N :=
  match x with Connected _ => 2 | SlotDisconnected => 1 | Connecting _ => 0 end.
Definition pool_left (p : Pool) : N := sum_by task_left (tasks p) + sum_by slot_left (connections p).

Definition pool_task (p : Pool) (i : nat) (t' : Task) : Pool :=
  mkPool (connections p) (attempts p) (dead_clients p) (<[i := t']> (tasks p)).

(** A turn keeps the pool sane and leaves less to do. *)
Definition good_turn (p : Pool) (i : nat) (p1 : Pool) (t' : Task) : Prop :=
  pool_sane (pool_task p1 i t') ∧ pool_left (pool_task p1 i t') + 1 ≤ pool_left p.

Lemma turn_moves_slot p i t t' slot x x' atts :
  pool_sane p → tasks p !! i = Some t → connections p !! slot = Some x →
  grows p (mkPool (<[slot := x']> (connections p)) atts (dead_clients p) (tasks p)) →
  slot_sane (mkPool (connections p) atts (dead_clients p) (tasks p)) x' →
  task_sane (mkPool (<[slot := x']> (connections p)) atts (dead_clients p) (tasks p)) t' →
  task_left t' + slot_left x' + 1 ≤ task_left t + slot_left x →
  good_turn p i (mkPool (<[slot := x']> (connections p)) atts (dead_clients p) (tasks p)) t'.
Proof.
  intros Hok Hi Hx Hg Hsx Hst Hle. split.
  - eapply (pool_sane_move p _ i t' slot x'); try done; by destruct x', t'.
  - unfold pool_left. simpl. pose proof (sum_by_insert task_left _ _ _ t' Hi).
    pose proof (sum_by_insert slot_left _ _ _ x' Hx). lia.
Qed.

Lemma turn_keeps_slots p i t t' :
  pool_sane p → tasks p !! i = Some t → task_sane p t' → task_left t' + 1 ≤ task_left t → good_turn p i p t'.
Proof.
  intros Hok Hi Hst Hle. split.
  - by eapply (pool_sane_stays p _ i t'); [..|by destruct t'].
  - unfold pool_left. simpl. pose proof (sum_by_insert task_left _ _ _ t' Hi). lia.
Qed.

Lemma reconcile_turn p i slot c p1 d :
  pool_sane p → tasks p !! i = Some (Reconciling slot c) → reconcile_client_slot p slot c = Some (p1, d) →
  good_turn p i p1 (Done slot (Ok d)).
Proof.
  intros Hok Hi He. destruct (Forall_lookup_1 _ _ _ _ (ps_tasks _ Hok) Hi) as [_ Hc].
  unfold reconcile_client_slot in He. destruct (connections p !! slot) as [x|] eqn:Hx; [|done].
  assert (good_turn p i (mkPool (<[slot := Connected c]> (connections p)) (attempts p) (dead_clients p) (tasks p))
    (Done slot (Ok c))) as Htake.
  { eapply turn_moves_slot; try done; [apply grows_same; apply length_insert|]. simpl. destruct x; simpl; lia. }
  destruct x as [j|d'|]; simplify_eq; try exact Htake.
  destruct (client_alive p d'); simplify_eq; [|exact Htake].
  eapply turn_keeps_slots; try done. exact (Forall_lookup_1 _ _ _ _ (ps_slots _ Hok) Hx).
Qed.

Lemma task_turn p i t p1 t' :
  pool_sane p → tasks p !! i = Some t → task_step p t = Some (p1, t') → good_turn p i p1 t'.
Proof.
  intros Hok Hi He. pose proof (Forall_lookup_1 _ _ _ _ (ps_tasks _ Hok) Hi) as Ht.
  destruct t as [slot|slot j|slot c|slot e|slot r|]; simpl in He, Ht; [| | | |done..].
  - unfold loop_turn in He. destruct (connections p !! slot) as [[j|c|]|] eqn:Hx; try done.
    + injection He as <- <-. pose proof (Forall_lookup_1 _ _ _ _ (ps_slots _ Hok) Hx) as Hj.
      by eapply turn_keeps_slots.
    + pose proof (Forall_lookup_1 _ _ _ _ (ps_slots _ Hok) Hx) as Hc.
      destruct (client_alive p c); injection He as <- <-; [by eapply turn_keeps_slots|].
      eapply turn_moves_slot; try done; [apply grows_same; apply length_insert|]. simpl. by rewrite length_insert.
    + injection He as <- <-. eapply turn_moves_slot; try done.
      * split; [apply length_insert|]. simpl. rewrite length_app. split; [lia|].
        intros r [j Hj]. exists j. by apply lookup_app_l_Some.
      * simpl. rewrite length_app. simpl. lia.
      * simpl. by rewrite length_insert.
  - destruct Ht as [Hs Hj]. destruct (attempts p !! j) as [[[c|e]|]|] eqn:Ha; simplify_eq.
    + eapply turn_keeps_slots; try done. split; [done|by exists j].
    + eapply turn_keeps_slots; try done. split; [done|by exists j].
  - apply bind_Some in He as ([p2 d] & Hr & He). injection He as <- <-. by eapply reconcile_turn.
  - injection He as <- <-. destruct Ht as [Hs He]. apply lookup_lt_is_Some in Hs as [x Hx].
    eapply turn_moves_slot; try done; [apply grows_same; apply length_insert|]. simpl. destruct x; simpl; lia.
Qed.

(** Turns and calls of a run. *)
Definition is_turn (l : PoolLabel) : N := match l with TaskStep _ => 1 | _ => 0 end.
Definition is_call (l : PoolLabel) : N := match l with CallSlot _ => 1 | _ => 0 end.

Lemma pool_exec_sane l p p' :
  pool_sane p → pool_exec l p = Some p' → pool_sane p' ∧ pool_left p' + is_turn l ≤ pool_left p + 5 * is_call l.
Proof.
  intros Hok He. pose proof Hok as [Hs Ht]. destruct l as [slot|i|i|j joined|c]; simpl in He.
  - case_bool_decide as Hlt; simplify_eq. split; [split; simpl; [exact Hs|]|].
    + apply Forall_app. by split; [|constructor].
    + unfold pool_left. simpl. rewrite sum_by_app. simpl. lia.
  - apply bind_Some in He as (t & Hi & He). apply bind_Some in He as ([p1 t'] & Hst & He).
    injection He as <-. destruct (task_turn _ _ _ _ _ Hok Hi Hst) as [Hok' Hle]. split; [exact Hok'|].
    unfold pool_task, pool_left in *. simpl in *. lia.
  - destruct (tasks p !! i) as [t|] eqn:Hi; [|done].
    assert (p' = pool_task p i Dropped ∧ task_left t ≠ 0) as [-> Hl] by (by destruct t; simplify_eq).
    destruct (turn_keeps_slots p i t Dropped) as [Hok' Hle]; try done; [simpl; lia|]. split; [done|]. simpl. lia.
  - destruct (attempts p !! j) as [[|]|] eqn:Hj; simplify_eq. split; [|unfold pool_left; simpl; lia].
    assert (grows p (mkPool (connections p) (<[j := Some (spawned_connect joined)]> (attempts p))
      (dead_clients p) (tasks p))) as Hg.
    { split; [done|]. simpl. rewrite length_insert. split; [lia|]. intros r [k Hk]. exists k. simpl.
      rewrite list_lookup_insert_ne; [done|]. intros ->. congruence. }
    split; simpl; (eapply Forall_impl; [done|]); intros y; [by apply slot_sane_grows|by apply task_sane_grows].
  - injection He as <-. split; [|unfold pool_left; simpl; lia]. by split.
Qed.

Lemma pool_run_sane n ls p :
  exec_all pool_exec ls (pool_new n) = Some p →
  pool_sane p ∧ sum_by is_turn ls ≤ n + 5 * sum_by is_call ls.
Proof.
  assert (∀ q, pool_sane q → exec_all pool_exec ls q = Some p →
    pool_sane p ∧ pool_left p + sum_by is_turn ls ≤ pool_left q + 5 * sum_by is_call ls) as Hgen.
  { induction ls as [|l ls IH]; intros q Hq Hr; [injection Hr as <-; split; [done|simpl; lia]|].
    apply bind_Some in Hr as (q1 & He & Hr). destruct (pool_exec_sane _ _ _ Hq He) as [Hq1 Hle].
    destruct (IH q1 Hq1 Hr) as [Hp Hle']. split; [done|]. simpl. lia. }
  intros Hr. destruct (Hgen (pool_new n)) as [Hp Hle]; [|done|].
  - split; [|constructor]. apply Forall_replicate. done.
  - split; [done|]. unfold pool_left in Hle at 2. simpl in Hle.
    assert (sum_by slot_left (replicate (N.to_nat n) SlotDisconnected) = n) as Hn; [|lia].
    assert (∀ m, sum_by slot_left (replicate m SlotDisconnected) = N.of_nat m) as ->; [|apply Nnat.N2Nat.id].
    induction m as [|m IHm]; [done|]. rewrite Nnat.Nat2N.inj_succ, <-IHm. simpl. lia.
Qed.

(** A task that is sane can go on, unless it waits for an attempt or is over. *)
Lemma task_goes_on p i t :
  pool_sane p → tasks p !! i = Some t →
  (∃ p', pool_exec (TaskStep i) p = Some p') ∨ (∃ slot j, t = Awaiting slot j ∧ attempts p !! j = Some None) ∨
  (∃ slot r, t = Done slot r) ∨ t = Dropped.
Proof.
  intros Hok Hi. pose proof (Forall_lookup_1 _ _ _ _ (ps_tasks _ Hok) Hi) as Ht. simpl. rewrite Hi. simpl.
  destruct t as [slot|slot j|slot c|slot e|slot r|]; simpl in Ht |- *.
  - left. apply lookup_lt_is_Some in Ht as [x Hx]. unfold loop_turn. rewrite Hx.
    destruct x as [j|c|]; [|destruct (client_alive p c)|]; by eexists.
  - destruct Ht as [_ Hj]. apply lookup_lt_is_Some in Hj as [o Ho]. rewrite Ho.
    destruct o as [[c|e]|]; [left; by eexists..|]. right; left. by eexists _, _.
  - left. destruct Ht as [Hs _]. apply lookup_lt_is_Some in Hs as [x Hx]. unfold reconcile_client_slot. rewrite Hx.
    destruct x as [j|d|]; [|destruct (client_alive p d)|]; by eexists.
  - left. by eexists.
  - right; right; left. by eexists _, _.
  - by right; right; right.
Qed.

Module Pools.

(** C27: one connection per slot: as long as no attempt fails and no connection
    dies, then however many tasks ask a pool for connections and however they
    interleave, at most one attempt is spawned for each slot, nobody gets an error,
    and all that ask for the same slot get the same connection, which is the one in
    the slot. *)
Theorem pool_single_flight (connection_count : usize) (ls : list PoolLabel) (p : Pool)
  (Hfair : Forall fair_weather ls) (Hrun : exec_all pool_exec ls (pool_new connection_count) = Some p) :
  len (attempts p) ≤ connection_count ∧
  (∀ i slot r, tasks p !! i = Some (Done slot r) →
     ∃ c, r = Ok c ∧ connections p !! slot = Some (Connected c)) ∧
  (∀ i k slot c d, tasks p !! i = Some (Done slot (Ok c)) → tasks p !! k = Some (Done slot (Ok d)) → c = d).
Proof.
  assert (pool_ok p ∧ length (connections p) = N.to_nat connection_count) as [Hok Hlen].
  { assert (∀ q, pool_ok q → exec_all pool_exec ls q = Some p →
      pool_ok p ∧ length (connections p) = length (connections q)) as Hgen.
    { clear Hrun. induction Hfair as [|l ls Hl _ IH]; intros q Hq Hr; [by simplify_eq/=|].
      apply bind_Some in Hr as (q1 & He & Hr).
      destruct (IH q1 (fair_step_ok _ _ _ Hq Hl He) Hr) as [Hp Hlen]. split; [done|].
      rewrite Hlen. by eapply pool_exec_length. }
    destruct (Hgen _ (pool_new_ok _) Hrun) as [Hp Hlen]. split; [done|].
    rewrite Hlen. simpl. by rewrite length_replicate. }
  assert (∀ i slot r, tasks p !! i = Some (Done slot r) →
     ∃ c, r = Ok c ∧ connections p !! slot = Some (Connected c)) as Hdone
    by (intros i slot r Hi; exact (pk_tasks _ Hok _ _ Hi)).
  split; [|split; [done|]].
  - rewrite (pk_count _ Hok). replace connection_count with (len (connections p)) by (unfold len; lia).
    generalize (connections p). intros l. induction l as [|x l IH]; [done|]. rewrite len_cons. simpl.
    unfold busy at 1. case_decide; lia.
  - intros i k slot c d Hi Hk. destruct (Hdone _ _ _ Hi) as (? & [= <-] & Hc).
    destruct (Hdone _ _ _ Hk) as (? & [= <-] & Hd). congruence.
Qed.

(** Two tasks share the connection that the first one made. *)
Definition demo_run : list PoolLabel :=
  [CallSlot 0; CallSlot 0; TaskStep 0; TaskStep 1; TaskStep 0; AttemptDone 0 (Ok (Ok 9%nat));
   TaskStep 1; TaskStep 1; TaskStep 0; TaskStep 0].

Lemma pool_single_flight_witness :
  ∃ p, exec_all pool_exec demo_run (pool_new 1) = Some p ∧ len (attempts p) ≤ 1 ∧
    tasks p = [Done 0 (Ok 9%nat); Done 0 (Ok 9%nat)].
Proof.
  destruct (exec_all pool_exec demo_run (pool_new 1)) as [p|] eqn:Hp; [|vm_compute in Hp; discriminate Hp].
  exists p. split; [reflexivity|].
  split; [apply (pool_single_flight 1 demo_run p); [repeat constructor|exact Hp]|].
  vm_compute in Hp. injection Hp as <-. reflexivity.
Defined.

(** C26: askers are served: whatever attempts fail, connections die and callers give
    up, in any order, the tasks of a pool take no more turns in all than its slots
    and five times the calls; each can take its next turn, unless it waits for an
    attempt that has not ended or is over; and what a task comes back with is what
    an attempt came to, a connection that was made or the error of one that was
    not. *)
Theorem askers_are_served (connection_count : usize) (ls : list PoolLabel) (p : Pool)
  (Hrun : exec_all pool_exec ls (pool_new connection_count) = Some p) :
  sum_by is_turn ls ≤ connection_count + 5 * sum_by is_call ls ∧
  (∀ i t, tasks p !! i = Some t →
     (∃ p', pool_exec (TaskStep i) p = Some p') ∨
     (∃ slot j, t = Awaiting slot j ∧ attempts p !! j = Some None) ∨
     (∃ slot r, t = Done slot r) ∨ t = Dropped) ∧
  (∀ i slot r, tasks p !! i = Some (Done slot r) → ∃ j, attempts p !! j = Some (Some r)).
Proof.
  destruct (pool_run_sane _ _ _ Hrun) as [Hok Hle]. split; [exact Hle|]. split.
  - intros i t. by apply task_goes_on.
  - intros i slot r Hi. exact (Forall_lookup_1 _ _ _ _ (ps_tasks _ Hok) Hi).
Qed.

(** One of two askers gives up, the connection dies, and a third makes a new one. *)
Definition stormy_run : list PoolLabel :=
  [CallSlot 0; CallSlot 0; TaskStep 0; TaskStep 0; TaskStep 1; DropTask 0; AttemptDone 0 (Ok (Ok 9%nat));
   TaskStep 1; TaskStep 1; ClientDies 9; CallSlot 0; TaskStep 2; TaskStep 2; TaskStep 2;
   AttemptDone 1 (Err tt); TaskStep 2; TaskStep 2].

Lemma askers_are_served_witness :
  ∃ p, exec_all pool_exec stormy_run (pool_new 1) = Some p ∧
    tasks p = [Dropped; Done 0 (Ok 9%nat); Done 0 (Err ConnectionIsClosed)] ∧
    (∃ j, attempts p !! j = Some (Some (Err ConnectionIsClosed))).
Proof.
  destruct (exec_all pool_exec stormy_run (pool_new 1)) as [p|] eqn:Hp; [|vm_compute in Hp; discriminate Hp].
  exists p. split; [reflexivity|].
  assert (tasks p = [Dropped; Done 0 (Ok 9%nat); Done 0 (Err ConnectionIsClosed)]) as Ht
    by (vm_compute in Hp; by injection Hp as <-).
  split; [exact Ht|]. destruct (askers_are_served 1 stormy_run p Hp) as (_ & _ & Hd).
  apply (Hd 2%nat 0%nat). by rewrite Ht.
Defined.

(** An attempt whose askers have all given up is looked at by the next asker: it is
    handed a connection that has died since, without a look at [is_alive]. *)
Lemma stale_attempt_is_handed_out :
  ∃ p, exec_all pool_exec
    [CallSlot 0; TaskStep 0; TaskStep 0; DropTask 0; AttemptDone 0 (Ok (Ok 9%nat)); ClientDies 9;
     CallSlot 0; TaskStep 1; TaskStep 1; TaskStep 1] (pool_new 1) = Some p ∧
    tasks p !! 1%nat = Some (Done 0 (Ok 9%nat)) ∧ client_alive p 9 = false.
Proof. eexists. split; [vm_compute; reflexivity|]. vm_compute. done. Qed.

(** A failed attempt that is noticed late throws away a healthy connection:
    three tasks, two of them waiting for the same failing attempt; the first sees
    the failure, the third connects anew and is handed a live connection, and then
    the second resets the slot, so that the next task dials again. *)
Theorem late_failure_drops_the_connection :
  ∃ p, exec_all pool_exec
    [CallSlot 0; CallSlot 0; TaskStep 0; TaskStep 0; TaskStep 1;
     AttemptDone 0 (Ok (Err ConnectionIsClosed)); TaskStep 0; TaskStep 1; TaskStep 0;
     CallSlot 0; TaskStep 2; TaskStep 2; AttemptDone 1 (Ok (Ok 9%nat)); TaskStep 2; TaskStep 2;
     TaskStep 1] (pool_new 1) = Some p ∧
    tasks p !! 2%nat = Some (Done 0 (Ok 9%nat)) ∧ client_alive p 9 = true ∧
    connections p = [SlotDisconnected].
Proof. eexists. split; [vm_compute; reflexivity|]. vm_compute. done. Qed.
End Pools.
