(* ===== verification/Codecs.v ===== *)
(** * The two codec crates

    [protosocket-messagepack/src/{decoder,serializer}.rs] and
    [protosocket-prost/src/{decoder,serializer}.rs].  The formats themselves are
    those of the libraries [rmp], [rmp_serde] and [prost], parameters here; the
    crates add the framing and its state machine. *)

From S2P Require Import Prelude Encoding.
Local Open Scope N_scope.

(** A decoder that is called on one buffer after the other: its verdicts and its
    last state. *)
Section attempts.
Context {D M : Type} `{Decoder D M}.

Fixpoint decode_attempts (d : D) (us : list bytes) : list (result (usize * M) DeserializeError) * D :=
  match us with
  | [] => ([], d)
  | u :: us =>
      let '(r, d) := decode d u in
      let '(rs, d) := decode_attempts d us in (r :: rs, d)
  end.

(** The verdicts on the beginnings of a message of [total] bytes that arrives in
    pieces: each asks for more than there is, and never for more than the message
    or the largest delimiter. *)
Definition asks_for_more (total : usize) (u : bytes) (r : result (usize * M) DeserializeError) : Prop :=
  ∃ n, r = Err (IncompleteBuffer n) ∧ len u < n ≤ N.max 10 total.
End attempts.

Definition strict_prefix (u w : bytes) : Prop := u `prefix_of` w ∧ len u < len w.

(** ** MessagePack *)

(** What the crate uses of [rmp] and [rmp_serde]. *)
Class Rmp (T : Type) := {
  write_u32 : u32 → bytes;
  read_u32 : bytes → result (u32 * bytes) unit;
  encode_write : T → bytes;
  from_read : bytes → result (T * bytes) unit;
}.

(** Their documentation: a [u32] is written as its tag and four bytes, and read
    back; a value is read back from the front of a stream.  What a read takes is the
    front of what it is given, whatever follows it: five bytes for a [u32]. *)
Class RmpLaws (T : Type) `{Rmp T} := {
  write_u32_len n : len (write_u32 n) = 5;
  read_write_u32 n rest : n < 2 ^ 32 → read_u32 (write_u32 n ++ rest) = Ok (n, rest);
  from_read_write m rest : from_read (encode_write m ++ rest) = Ok (m, rest);
  encode_write_len m : len (encode_write m) < 2 ^ 62;
  read_u32_front u n rest : read_u32 u = Ok (n, rest) →
    5 ≤ len u ∧ rest = drop 5 u ∧ ∀ v, read_u32 (u ++ v) = Ok (n, rest ++ v);
  from_read_front u m rest : from_read u = Ok (m, rest) →
    rest `suffix_of` u ∧ ∀ v, from_read (u ++ v) = Ok (m, rest ++ v);
}.

(** [State] and [MessagePackDecoder]. *)
Inductive State :=
| Waiting
| ReadingLength (length : u32).

Record MessagePackDecoder := mkMessagePackDecoder { state : State }.

Definition messagepack_decoder_default : MessagePackDecoder := mkMessagePackDecoder Waiting.

(** [MessagePackSerializer]; it has no state. *)
Inductive MessagePackSerializer := mkMessagePackSerializer.

Section messagepack.
Context {T : Type} `{Rmp T}.

(** The second half of [decode]: the length is known and the reader [rest] is
    past it. *)
Definition messagepack_decode_body (length : u32) (buffer rest : bytes)
  : result (usize * T) DeserializeError * MessagePackDecoder :=
  let start_remaining := len buffer in
  if start_remaining <? u32_add length 5
  then (Err (IncompleteBuffer (u32_add length 5)), mkMessagePackDecoder (ReadingLength length))
  else (match from_read rest with
        | Ok (message, rest) => Ok (usize_sub start_remaining (len rest), message)
        | Err _ => Err InvalidBuffer
        end, mkMessagePackDecoder Waiting).

(** [MessagePackDecoder::decode]. *)
Definition messagepack_decode (d : MessagePackDecoder) (buffer : bytes)
  : result (usize * T) DeserializeError * MessagePackDecoder :=
  match state d with
  | Waiting =>
      if len buffer <? 5 then (Err (IncompleteBuffer 5), d)
      else
        match read_u32 buffer with
        | Ok (length, rest) => messagepack_decode_body length buffer rest
        | Err _ => (Err InvalidBuffer, d)
        end
  | ReadingLength length => messagepack_decode_body length buffer (drop 5 buffer)
  end.

#[export] Instance messagepack_decoder : Decoder MessagePackDecoder T := {| decode := messagepack_decode |}.

(** [MessagePackSerializer::serialize_into_buffer]: five bytes are reserved at the
    end of the buffer, the message is appended, and the length is written over the
    first five bytes. *)
Definition messagepack_serialize (s : MessagePackSerializer) (message : T) (buffer : bytes)
  : bytes * MessagePackSerializer :=
  let buffer := buffer ++ [0; 0; 0; 0; 0] ++ encode_write message in
  let prefix := write_u32 (u32_sub (wrap 32 (len buffer)) 5) in
  (prefix ++ drop (length prefix) buffer, s).

#[export] Instance messagepack_serializer : Serialize MessagePackSerializer T :=
  {| serialize_into_buffer := messagepack_serialize |}.
End messagepack.

Section messagepack_spec.
Context {T : Type} `{RmpLaws T}.

Lemma write_u32_length n : length (write_u32 n) = 5%nat.
Proof. pose proof (write_u32_len n) as Hl. unfold len in Hl. lia. Qed.

(** A message on the wire. *)
Definition messagepack_wire (m : T) : bytes := write_u32 (wrap 32 (len (encode_write m))) ++ encode_write m.

Lemma messagepack_wire_len m : len (messagepack_wire m) = 5 + len (encode_write m).
Proof. unfold messagepack_wire. by rewrite len_app, write_u32_len. Qed.

Lemma wsub_wadd32 x : wsub 32 (wrap 32 (5 + x)) 5 = wrap 32 x.
Proof. rewrite wsub_wrap by lia. f_equal. lia. Qed.

Lemma messagepack_serialize_fresh s m :
  (messagepack_serialize s m []).1 = messagepack_wire m.
Proof.
  unfold messagepack_serialize, messagepack_wire. cbn [app fst].
  change (0 :: 0 :: 0 :: 0 :: 0 :: encode_write m) with ([0; 0; 0; 0; 0] ++ encode_write m).
  rewrite len_app. change (len [0; 0; 0; 0; 0]) with 5. rewrite wsub_wadd32.
  by rewrite write_u32_length.
Qed.

#[export] Instance messagepack_serialize_laws : SerializeLaws MessagePackSerializer T.
Proof.
  refine {| serialized := messagepack_wire |}; [apply messagepack_serialize_fresh|].
  intros m. rewrite messagepack_wire_len. pose proof (encode_write_len m). lia.
Defined.

(** The states in which a decoder may be while a message arrives. *)
Definition waits_for (d : MessagePackDecoder) (m : T) (u : bytes) : Prop :=
  state d = Waiting ∨ (state d = ReadingLength (len (encode_write m)) ∧ 5 ≤ len u).

Lemma prefix_take5 u (w : bytes) :
  u `prefix_of` w → 5 ≤ len u → ∃ v, u = take 5 w ++ v.
Proof.
  intros [v ->] Hl. exists (drop 5 u). unfold len in *.
  rewrite take_app_le by lia. by rewrite take_drop.
Qed.

Lemma messagepack_read_length m u :
  5 + len (encode_write m) < 2 ^ 32 → u `prefix_of` messagepack_wire m → 5 ≤ len u →
  read_u32 u = Ok (len (encode_write m), drop 5 u).
Proof.
  intros Hlen Hpre H5. destruct (prefix_take5 _ _ Hpre H5) as [v ->].
  unfold messagepack_wire. rewrite wrap_small by lia. set (n := len (encode_write m)) in *.
  rewrite take_app_length' by (symmetry; apply write_u32_length).
  rewrite drop_app_length' by (symmetry; apply write_u32_length).
  by rewrite read_write_u32 by lia.
Qed.

(** One attempt on a beginning of the message. *)
Lemma messagepack_incomplete d m u :
  5 + len (encode_write m) < 2 ^ 32 → strict_prefix u (messagepack_wire m) → waits_for d m u →
  let '(r, d') := messagepack_decode d u in
  asks_for_more (5 + len (encode_write m)) u r ∧
  ∀ u', u `prefix_of` u' → waits_for d' m u'.
Proof.
  intros Hlen [Hpre Hlt] Hd. rewrite messagepack_wire_len in Hlt.
  assert (∀ n rest, n = len (encode_write m) → 5 ≤ len u →
    let '(r, d') := messagepack_decode_body (T:=T) n u rest in
    asks_for_more (5 + len (encode_write m)) u r ∧ ∀ u', u `prefix_of` u' → waits_for d' m u') as Hbody.
  { intros n rest -> H5. unfold messagepack_decode_body. rewrite wadd_small by lia.
    rewrite (proj2 (N.ltb_lt _ _)) by lia. split; [eexists; split; [done|lia]|].
    intros u' [v ->]. right. split; [done|]. rewrite len_app. lia. }
  unfold messagepack_decode. destruct Hd as [Hd|[Hd H5]]; rewrite Hd.
  - destruct (N.ltb_spec (len u) 5) as [Hl|Hl].
    + split; [eexists; split; [done|lia]|]. intros u' _. by left.
    + rewrite (messagepack_read_length m u Hlen Hpre Hl). by apply Hbody.
  - by apply Hbody.
Qed.

(** The attempt on the whole message, whatever follows it. *)
Lemma messagepack_complete d m rest :
  5 + len (encode_write m) < 2 ^ 32 → len rest < 2 ^ 62 → waits_for d m (messagepack_wire m ++ rest) →
  messagepack_decode d (messagepack_wire m ++ rest)
    = (Ok (len (messagepack_wire m), m), messagepack_decoder_default).
Proof.
  intros Hlen Hrest Hd.
  assert (∀ n rd, n = len (encode_write m) → rd = encode_write m ++ rest →
    messagepack_decode_body n (messagepack_wire m ++ rest) rd
      = (Ok (len (messagepack_wire m), m), messagepack_decoder_default)) as Hbody.
  { intros n rd -> ->. unfold messagepack_decode_body. rewrite len_app, messagepack_wire_len.
    rewrite wadd_small by lia. rewrite (proj2 (N.ltb_ge _ _)) by lia.
    rewrite from_read_write. pose proof (encode_write_len m). rewrite wsub_small by lia.
    unfold messagepack_decoder_default. f_equal. f_equal. f_equal. lia. }
  unfold messagepack_decode. destruct Hd as [Hd|[Hd H5]]; rewrite Hd.
  - assert ((len (messagepack_wire m ++ rest) <? 5) = false) as ->
      by (rewrite len_app, messagepack_wire_len; apply N.ltb_ge; lia).
    unfold messagepack_wire at 1. rewrite <-app_assoc, wrap_small by lia.
    rewrite read_write_u32 by lia. by apply Hbody.
  - apply Hbody; [done|]. unfold messagepack_wire. rewrite <-app_assoc. by rewrite drop_app_length' by (symmetry; apply write_u32_length).
Qed.

(** *** The decoder of a connection

    However the bytes arrive, a message is decoded as it would be from the whole
    stream: the state of the decoder is the length that it has read from the bytes
    that wait. *)
Definition messagepack_frame (u : bytes) : result (usize * T) DeserializeError :=
  if len u <? 5 then Err (IncompleteBuffer 5)
  else
    match read_u32 u with
    | Ok (length, rest) =>
        if len u <? u32_add length 5 then Err (IncompleteBuffer (u32_add length 5))
        else match from_read rest with
             | Ok (message, rest) => Ok (len u - len rest, message)
             | Err _ => Err InvalidBuffer
             end
    | Err _ => Err InvalidBuffer
    end.

Definition length_read (d : MessagePackDecoder) (u : bytes) : Prop :=
  match state d with
  | Waiting => True
  | ReadingLength length => ∃ rest, read_u32 u = Ok (length, rest)
  end.

Lemma suffix_len {A} (l k : list A) : l `suffix_of` k → len l ≤ len k.
Proof. intros [r ->]. rewrite len_app. lia. Qed.

Lemma messagepack_body_frame length u rest :
  read_u32 u = Ok (length, rest) → len u < 2 ^ 63 →
  let '(r, d) := messagepack_decode_body (T:=T) length u rest in
  r = messagepack_frame u ∧ length_read d u ∧ (∀ n m, r = Ok (n, m) → state d = Waiting) ∧
  ∀ n, r ≠ Err (SkipMessage n).
Proof.
  intros Hr Hl. destruct (read_u32_front _ _ _ Hr) as (H5 & Hrest & _).
  unfold messagepack_decode_body, messagepack_frame. rewrite (proj2 (N.ltb_ge _ _) H5), Hr.
  destruct (len u <? u32_add length 5); [split; [done|]; split; [by exists rest|done]|].
  destruct (from_read rest) as [[m rest']|e] eqn:Hf; [|done].
  destruct (from_read_front _ _ _ Hf) as [Hs%suffix_len _]. pose proof (len_drop u 5) as Hd. change (N.to_nat 5) with 5%nat in Hd.
  rewrite Hrest, Hd in Hs.
  rewrite wsub_small by lia. done.
Qed.

Lemma messagepack_decode_frame d u :
  length_read d u → len u < 2 ^ 63 →
  let '(r, d') := messagepack_decode (T:=T) d u in
  r = messagepack_frame u ∧
  match r with
  | Ok _ => state d' = Waiting
  | Err (IncompleteBuffer _) => length_read d' u
  | Err InvalidBuffer => True
  | Err (SkipMessage _) => False
  end.
Proof.
  intros Hd Hl. unfold messagepack_decode. unfold length_read in Hd. destruct (state d) as [|length] eqn:Hs.
  - destruct (N.ltb_spec (len u) 5) as [H5|H5].
    { split; [|by unfold length_read; rewrite Hs]. unfold messagepack_frame. by rewrite (proj2 (N.ltb_lt _ _) H5). }
    destruct (read_u32 u) as [[length rest]|e] eqn:Hr.
    + pose proof (messagepack_body_frame length u rest Hr Hl) as Hb.
      destruct (messagepack_decode_body length u rest) as [[[n m]|[]] d']; destruct Hb as (Hf & Hd' & Hw & Hn);
        (split; [done|]); try done; [by eapply Hw|by eapply Hn].
    + split; [|done]. unfold messagepack_frame. by rewrite (proj2 (N.ltb_ge _ _) H5), Hr.
  - destruct Hd as [rest Hr]. destruct (read_u32_front _ _ _ Hr) as (_ & <- & _).
    pose proof (messagepack_body_frame length u rest Hr Hl) as Hb.
    destruct (messagepack_decode_body length u rest) as [[[n m]|[]] d']; destruct Hb as (Hf & Hd' & Hw & Hn);
      (split; [done|]); try done; [by eapply Hw|by eapply Hn].
Qed.

#[export] Instance messagepack_decoder_laws (limit : usize) : DecoderLaws MessagePackDecoder T limit.
Proof.
  refine {| frame := messagepack_frame; dec_ok := length_read |}.
  - intros d u v. unfold length_read. destruct (state d); [done|]. intros [rest Hr].
    destruct (read_u32_front _ _ _ Hr) as (_ & _ & Hv). eauto.
  - intros d u Hd _ Hl. pose proof (messagepack_decode_frame d u Hd Hl) as Hm.
    change (decode d u) with (messagepack_decode (T:=T) d u).
    destruct (messagepack_decode d u) as [r d']. destruct Hm as [<- Hm]. simpl. split; [done|].
    destruct r as [[n m]|[n| |n]] eqn:Hr; simpl; [unfold length_read; by rewrite Hm|done..].
  - intros u n m. unfold messagepack_frame. destruct (N.ltb_spec (len u) 5) as [|H5]; [done|].
    destruct (read_u32 u) as [[length rest]|] eqn:Hr; [|done]. destruct (len u <? _); [done|].
    destruct (from_read rest) as [[m' rest']|] eqn:Hf; [|done]. intros [= <- _].
    destruct (read_u32_front _ _ _ Hr) as (_ & -> & _). destruct (from_read_front _ _ _ Hf) as [Hs%suffix_len _].
    pose proof (len_drop u 5) as Hd. change (N.to_nat 5) with 5%nat in Hd. lia.
  - intros u n. unfold messagepack_frame. destruct (N.ltb_spec (len u) 5) as [|H5]; [by intros [= <-]|].
    destruct (read_u32 u) as [[length rest]|]; [|done]. destruct (N.ltb_spec (len u) (u32_add length 5)).
    + by intros [= <-].
    + by destruct (from_read rest) as [[m' rest']|].
  - intros u n. unfold messagepack_frame. destruct (len u <? 5); [done|].
    destruct (read_u32 u) as [[length rest]|]; [|done]. destruct (len u <? _); [done|].
    by destruct (from_read rest) as [[m' rest']|].
  - intros u v r _ <- Hinc Hinv. unfold messagepack_frame in *. rewrite len_app.
    destruct (N.ltb_spec (len u) 5) as [|H5]; [by destruct (Hinc 5)|].
    destruct (N.ltb_spec (len u + len v) 5); [lia|].
    destruct (read_u32 u) as [[length rest]|] eqn:Hr; [|done].
    destruct (read_u32_front _ _ _ Hr) as (_ & _ & ->).
    destruct (N.ltb_spec (len u) (u32_add length 5)) as [|Hn]; [by destruct (Hinc (u32_add length 5))|].
    destruct (N.ltb_spec (len u + len v) (u32_add length 5)); [lia|].
    destruct (from_read rest) as [[m rest']|] eqn:Hf; [|done].
    destruct (from_read_front _ _ _ Hf) as [Hs ->]. f_equal. f_equal. rewrite len_app. lia.
Defined.

(** A message on the wire is its frame. *)
Lemma messagepack_frame_wire m v :
  5 + len (encode_write m) < 2 ^ 32 →
  messagepack_frame (messagepack_wire m ++ v) = Ok (len (messagepack_wire m), m).
Proof.
  intros Hlen. unfold messagepack_frame. rewrite len_app, messagepack_wire_len.
  destruct (N.ltb_spec (5 + len (encode_write m) + len v) 5); [lia|].
  unfold messagepack_wire. rewrite <-app_assoc, wrap_small by lia. rewrite read_write_u32 by lia.
  rewrite wadd_small by lia. destruct (N.ltb_spec (5 + len (encode_write m) + len v) (len (encode_write m) + 5)); [lia|].
  rewrite from_read_write. f_equal. f_equal. lia.
Qed.
End messagepack_spec.

(** ** Prost *)

(** What the crate uses of [prost]; a message that is encoded into a vector, which
    grows, never fails. *)
Class Prost (T : Type) := {
  encode_length_delimited : T → bytes → result bytes unit;
  decode_length_delimiter : bytes → result usize unit;
  length_delimiter_len : usize → usize;
  decode_length_delimited : bytes → result (T * bytes) unit;
}.

(** Its documentation, with [prost_delimiter] the varint of a length and
    [prost_body] the fields of a message. *)
Class ProstLaws (T : Type) `{Prost T} := {
  prost_delimiter : usize → bytes;
  prost_body : T → bytes;
  prost_encode m buffer :
    encode_length_delimited m buffer
      = Ok (buffer ++ prost_delimiter (len (prost_body m)) ++ prost_body m);
  prost_delimiter_len m : let n := len (prost_body m) in
    length_delimiter_len n = len (prost_delimiter n) ∧ 0 < len (prost_delimiter n) ≤ 10;
  prost_read_delimiter m rest : let n := len (prost_body m) in
    decode_length_delimiter (prost_delimiter n ++ rest) = Ok n;
  prost_short_delimiter m u :
    strict_prefix u (prost_delimiter (len (prost_body m))) → decode_length_delimiter u = Err tt;
  prost_decode m rest :
    decode_length_delimited (prost_delimiter (len (prost_body m)) ++ prost_body m ++ rest) = Ok (m, rest);
  prost_body_len m : len (prost_body m) < 2 ^ 62;
}.

Inductive ProstDecoder := mkProstDecoder.
Inductive ProstSerializer := mkProstSerializer.

Section prost.
Context {T : Type} `{Prost T}.

(** [ProstDecoder::decode]; the buffer is one chunk. *)
Definition prost_decode_buffer (buffer : bytes) : result (usize * T) DeserializeError :=
  let decode_message :=
    let start := len buffer in
    match decode_length_delimited buffer with
    | Ok (message, rest) => Ok (usize_sub start (len rest), message)
    | Err _ => Err InvalidBuffer
    end in
  match decode_length_delimiter buffer with
  | Ok message_length =>
      let framed_length := usize_add message_length (length_delimiter_len message_length) in
      if len buffer <? framed_length then Err (IncompleteBuffer framed_length) else decode_message
  | Err _ => Err (IncompleteBuffer 10)
  end.

#[export] Instance prost_decoder : Decoder ProstDecoder T :=
  {| decode d buffer := (prost_decode_buffer buffer, d) |}.

(** [ProstSerializer::serialize_into_buffer]: an error is logged. *)
Definition prost_serialize (s : ProstSerializer) (message : T) (buffer : bytes) : bytes * ProstSerializer :=
  match encode_length_delimited message buffer with
  | Ok buffer => (buffer, s)
  | Err _ => (buffer, s)
  end.

#[export] Instance prost_serializer : Serialize ProstSerializer T :=
  {| serialize_into_buffer := prost_serialize |}.
End prost.

Section prost_spec.
Context {T : Type} `{ProstLaws T}.

Definition prost_wire (m : T) : bytes := prost_delimiter (len (prost_body m)) ++ prost_body m.

#[export] Instance prost_serialize_laws : SerializeLaws ProstSerializer T.
Proof.
  refine {| serialized := prost_wire |}.
  - intros s m. simpl. unfold prost_serialize. by rewrite prost_encode.
  - intros m. unfold prost_wire. rewrite len_app.
    destruct (prost_delimiter_len m). pose proof (prost_body_len m). lia.
Defined.

(** What a beginning of a message says of its length. *)
Lemma prost_short_message m u :
  strict_prefix u (prost_wire m) →
  (decode_length_delimiter u = Err tt ∧ len u < 10) ∨
  (decode_length_delimiter u = Ok (len (prost_body m)) ∧ len u < len (prost_wire m)).
Proof.
  intros [Hpre Hlt]. destruct (prost_delimiter_len m) as [_ Hpos].
  pose proof (prost_read_delimiter m) as Hread. simpl in Hread. unfold prost_wire in Hpre.
  destruct (prefix_weak_total u (prost_delimiter (len (prost_body m))) _ Hpre (prefix_app_r _ _ _ (reflexivity _)))
    as [Hd|[w ->]]; [|right; by rewrite Hread].
  destruct (decide (len u < len (prost_delimiter (len (prost_body m))))) as [Hs|Hs].
  - left. split; [by apply (prost_short_delimiter m)|lia].
  - right. split; [|done]. destruct Hd as [w Hw]. rewrite Hw, len_app in Hs.
    assert (w = []) as -> by (apply len_zero; lia). rewrite app_nil_r in Hw. rewrite <-Hw.
    by rewrite <-(app_nil_r (prost_delimiter _)), Hread.
Qed.

Lemma prost_wire_len m :
  len (prost_body m) + length_delimiter_len (len (prost_body m)) = len (prost_wire m) ∧ 0 < len (prost_wire m) < 2 ^ 62 + 10.
Proof.
  destruct (prost_delimiter_len m) as [Hdl Hpos]. pose proof (prost_body_len m). unfold prost_wire.
  rewrite len_app, Hdl. lia.
Qed.

Lemma prost_incomplete m u :
  strict_prefix u (prost_wire m) → asks_for_more (len (prost_wire m)) u (prost_decode_buffer (T:=T) u).
Proof.
  intros Hs. destruct (prost_wire_len m) as [Hwl Hw]. unfold prost_decode_buffer.
  destruct (prost_short_message m u Hs) as [[-> Hl]|[-> Hl]]; [exists 10; split; [done|lia]|].
  rewrite wadd_small by lia. rewrite Hwl, (proj2 (N.ltb_lt _ _)) by lia. eexists. split; [done|lia].
Qed.

Lemma prost_complete m rest :
  len rest < 2 ^ 63 → prost_decode_buffer (prost_wire m ++ rest) = Ok (len (prost_wire m), m).
Proof.
  intros Hrest. destruct (prost_delimiter_len m) as [Hdl Hpos].
  pose proof (prost_body_len m) as Hbl. unfold prost_decode_buffer, prost_wire.
  rewrite <-app_assoc, prost_read_delimiter, prost_decode, Hdl, !len_app.
  rewrite wadd_small by lia. rewrite (proj2 (N.ltb_ge _ _)) by lia.
  rewrite wsub_small by lia. f_equal. f_equal. lia.
Qed.
End prost_spec.

(** ** The properties *)

(** Buffers that grow towards the whole message [w], one piece at a time. *)
Fixpoint growing (u w : bytes) (us : list bytes) : Prop :=
  match us with
  | [] => True
  | u' :: us => u `prefix_of` u' ∧ strict_prefix u' w ∧ growing u' w us
  end.

Module Formats.

Section claims.
Context {T : Type} `{RmpLaws T}.

(** C39: a MessagePack message survives fragmentation: whatever growing
    beginnings of a serialized message a new decoder is shown, it asks for more
    each time, never for more than the message, and then, shown the whole message
    with anything behind it, it gives the message and its exact length and is a
    new decoder again.  The message must be shorter than four gigabytes. *)
Theorem messagepack_survives_fragmentation (s : MessagePackSerializer) (m : T) (us : list bytes) (rest : bytes)
  (Hlen : 5 + len (encode_write m) < 2 ^ 32) (Hrest : len rest < 2 ^ 62)
  (Hus : growing [] (messagepack_serialize s m []).1 us) :
  let w := (messagepack_serialize s m []).1 in
  let attempts := decode_attempts messagepack_decoder_default us in
  Forall2 (asks_for_more (M:=T) (len w)) us attempts.1 ∧
  messagepack_decode attempts.2 (w ++ rest) = (Ok (len w, m), messagepack_decoder_default).
Proof.
  intros w. unfold w. rewrite messagepack_serialize_fresh in *. clear w.
  assert (waits_for messagepack_decoder_default m []) as Hd by (by left).
  revert Hus Hd. generalize (@nil N) as u, messagepack_decoder_default at 1 2 3 as d.
  induction us as [|u' us IH]; intros u d Hus Hd; simpl.
  - split; [constructor|]. destruct Hd as [Hd|[Hd H5]]; apply messagepack_complete; try done; [by left|].
    right. split; [done|]. rewrite len_app, messagepack_wire_len. lia.
  - destruct Hus as (Hpre & Hstrict & Hus).
    assert (waits_for d m u') as Hd'.
    { destruct Hd as [Hd|[Hd H5]]; [by left|right]. split; [done|].
      destruct Hpre as [v ->]. rewrite len_app. lia. }
    pose proof (messagepack_incomplete d m u' Hlen Hstrict Hd') as Hi.
    change (decode d u') with (messagepack_decode (T:=T) d u').
    destruct (messagepack_decode d u') as [r d']. destruct Hi as [Hr Hd2].
    specialize (IH u' d' Hus (Hd2 u' (reflexivity u'))).
    destruct (decode_attempts d' us) as [rs d2]. destruct IH as [IHr IHd]. split; [|done].
    constructor; [|done]. by rewrite messagepack_wire_len.
Qed.
End claims.

Section claims2.
Context {T : Type} `{ProstLaws T}.

(** The same for prost: every beginning of a serialized message makes the
    decoder ask for more, and the whole message, with anything behind it, gives
    the message and its exact length. *)
Theorem prost_survives_fragmentation (s : ProstSerializer) (m : T) (us : list bytes) (rest : bytes)
  (Hrest : len rest < 2 ^ 62) (Hus : growing [] (prost_serialize s m []).1 us) :
  let w := (prost_serialize s m []).1 in
  let attempts := decode_attempts mkProstDecoder us in
  Forall2 (asks_for_more (M:=T) (len w)) us attempts.1 ∧
  decode attempts.2 (w ++ rest) = (Ok (len w, m), mkProstDecoder).
Proof.
  assert ((prost_serialize s m []).1 = prost_wire m) as Hw by (unfold prost_serialize; by rewrite prost_encode).
  rewrite Hw in Hus |- *. simpl. revert Hus. generalize (@nil N) as u.
  induction us as [|u' us IH]; intros u Hus; simpl.
  - split; [constructor|]. by rewrite prost_complete by lia.
  - destruct Hus as (_ & Hstrict & Hus). specialize (IH u' Hus).
    destruct (decode_attempts mkProstDecoder us) as [rs d2]. destruct IH as [IHr IHd]. split; [|done].
    constructor; [by apply prost_incomplete|done].
Qed.
End claims2.

(** ** Two small formats, for the witnesses *)

(** A [u32] of MessagePack: the tag [0xce] and the bytes, the highest first. *)
Definition tagged_u32 (n : u32) : bytes :=
  [206; N.shiftr n 24 mod 256; N.shiftr n 16 mod 256; N.shiftr n 8 mod 256; n mod 256].

Definition read_tagged_u32 (u : bytes) : result (u32 * bytes) unit :=
  match u with
  | tag :: a :: b :: c :: d :: rest =>
      if tag =? 206 then Ok (a * 2 ^ 24 + b * 2 ^ 16 + c * 2 ^ 8 + d, rest) else Err tt
  | _ => Err tt
  end.

Lemma read_tagged n rest : n < 2 ^ 32 → read_tagged_u32 (tagged_u32 n ++ rest) = Ok (n, rest).
Proof.
  intros Hn. unfold read_tagged_u32, tagged_u32. cbn [app].
  rewrite N.eqb_refl, !N.shiftr_div_pow2. f_equal. f_equal.
  change (2 ^ 24) with 16777216. change (2 ^ 16) with 65536. change (2 ^ 8) with 256.
  change (2 ^ 32) with 4294967296 in Hn.
  pose proof (N.div_mod' n 256). pose proof (N.div_mod' (n / 256) 256).
  pose proof (N.div_mod' (n / 256 / 256) 256).
  rewrite !N.Div0.div_div in *.
  change (256 * 256) with 65536 in *. change (65536 * 256) with 16777216 in *.
  assert (n / 16777216 < 256) as Hs by (apply N.Div0.div_lt_upper_bound; lia).
  rewrite (N.mod_small (n / 16777216)) by done. lia.
Qed.

Lemma read_tagged_front u n rest :
  read_tagged_u32 u = Ok (n, rest) →
  5 ≤ len u ∧ rest = drop 5 u ∧ ∀ v, read_tagged_u32 (u ++ v) = Ok (n, rest ++ v).
Proof.
  unfold read_tagged_u32. destruct u as [|t [|a [|b [|c [|d u]]]]]; try done.
  destruct (t =? 206) eqn:Ht; [|done]. intros [= <- <-]. rewrite !len_cons. split; [lia|]. split; [done|].
  intros v. simpl. by rewrite Ht.
Qed.

(** MessagePack booleans. *)
#[export] Instance rmp_bool : Rmp bool := {|
  write_u32 := tagged_u32;
  read_u32 := read_tagged_u32;
  encode_write m := [if m : bool then 195 else 194];
  from_read u :=
    match u with
    | x :: rest => if x =? 195 then Ok (true, rest) else if x =? 194 then Ok (false, rest) else Err tt
    | [] => Err tt
    end;
|}.

#[export] Instance rmp_bool_laws : RmpLaws bool.
Proof.
  split; [done|apply read_tagged|by intros [] rest|done|apply read_tagged_front|].
  intros u m rest. unfold from_read, rmp_bool. destruct u as [|x u]; [done|].
  destruct (x =? 195) eqn:Hx; [|destruct (x =? 194) eqn:Hx'; [|done]]; intros [= <- <-];
    (split; [by exists [x]|]); intros v; simpl; rewrite Hx; [done|by rewrite Hx'].
Qed.

(** A protobuf message with one boolean field. *)
Fixpoint varint_read (fuel : nat) (u : bytes) : result (N * bytes) unit :=
  match fuel, u with
  | S fuel, x :: rest =>
      if x <? 128 then Ok (x, rest)
      else match varint_read fuel rest with
           | Ok (n, rest) => Ok (x - 128 + 128 * n, rest)
           | Err e => Err e
           end
  | _, _ => Err tt
  end.

Definition bool_body (m : bool) : bytes := if m then [8; 1] else [].

#[export] Instance prost_bool : Prost bool := {|
  encode_length_delimited m buffer := Ok (buffer ++ len (bool_body m) :: bool_body m);
  decode_length_delimiter u :=
    match varint_read 10 u with Ok (n, _) => Ok n | Err e => Err e end;
  length_delimiter_len n := if n <? 128 then 1 else 2;
  decode_length_delimited u :=
    match varint_read 10 u with
    | Ok (n, rest) =>
        if n =? 0 then Ok (false, rest)
        else match rest with
             | a :: b :: rest => if (n =? 2) && (a =? 8) && (b =? 1) then Ok (true, rest) else Err tt
             | _ => Err tt
             end
    | Err e => Err e
    end;
|}.

#[export] Instance prost_bool_laws : ProstLaws bool.
Proof.
  refine {| prost_delimiter n := [n]; prost_body := bool_body |}; try (by intros []).
  intros m u [[v Hv] Hl]. destruct u as [|x u]; [done|].
  rewrite len_cons in Hl. change (len [_]) with 1 in Hl. lia.
Qed.

Lemma messagepack_survives_fragmentation_witness :
  messagepack_decode (T:=bool) (decode_attempts (M:=bool) messagepack_decoder_default [[206; 0]; [206; 0; 0; 0; 1]]).2
    ([206; 0; 0; 0; 1; 195] ++ [7]) = (Ok (6, true), messagepack_decoder_default).
Proof.
  refine (proj2 (messagepack_survives_fragmentation mkMessagePackSerializer true
    [[206; 0]; [206; 0; 0; 0; 1]] [7] eq_refl eq_refl _)).
  split; [exists [206; 0]; reflexivity|]. split; [split; [exists [0; 0; 1; 195]; reflexivity|reflexivity]|].
  split; [exists [0; 0; 1]; reflexivity|]. split; [split; [exists [195]; reflexivity|reflexivity]|exact I].
Defined.

Lemma prost_survives_fragmentation_witness :
  decode (decode_attempts (M:=bool) mkProstDecoder [[2]; [2; 8]]).2 ([2; 8; 1] ++ [7])
    = (Ok (3, true), mkProstDecoder).
Proof.
  refine (proj2 (prost_survives_fragmentation mkProstSerializer true [[2]; [2; 8]] [7] eq_refl _)).
  split; [exists [2]; reflexivity|]. split; [split; [exists [8; 1]; reflexivity|reflexivity]|].
  split; [exists [8]; reflexivity|]. split; [split; [exists [1]; reflexivity|reflexivity]|exact I].
Defined.

(** The length prefix is not enforced: the sum [length + 5] wraps around, so that
    a frame that claims four gigabytes is taken after six bytes. *)
Example length_prefix_wraps :
  messagepack_decode (T:=bool) messagepack_decoder_default [206; 255; 255; 255; 255; 195]
    = (Ok (6, true), messagepack_decoder_default).
Proof. vm_compute. reflexivity. Qed.

(** Nor does it delimit the value: a frame that is too short for its value is an
    error alone, and a message when more bytes happen to have arrived. *)
Example verdict_depends_on_chunking :
  (messagepack_decode (T:=bool) messagepack_decoder_default [206; 0; 0; 0; 0]).1 = Err InvalidBuffer ∧
  (messagepack_decode (T:=bool) messagepack_decoder_default [206; 0; 0; 0; 0; 195]).1 = Ok (6, true).
Proof. vm_compute. done. Qed.

(** A delimiter that can never become valid makes the prost decoder ask for ten
    bytes, however many it has. *)
Example invalid_delimiter_asks_for_ten :
  prost_decode_buffer (T:=bool) (replicate 64 128) = Err (IncompleteBuffer 10).
Proof. vm_compute. reflexivity. Qed.
End Formats.
