(* ===== verification/Text.v ===== *)
(** * Strings

    What the repository's programs use of Rust's strings: a [String] is its
    bytes, which are UTF-8; [from_utf8], [trim] and [split_ascii_whitespace] as
    far as they are called, and the decimal numbers of [to_string] and [parse].
    [TextServers] and [ExampleClients] are built on them. *)

From S2P Require Import Prelude Encoding.
Local Open Scope N_scope.

(** ** UTF-8 *)

Definition in_range (lo hi c : u8) : bool := (lo <=? c) && (c <=? hi).

Definition continuation (c : u8) : bool := in_range 128 191 c.

(** The second byte of a three and of a four byte character depends on the first:
    no overlong forms, no surrogates, nothing above [10FFFF]. *)
Definition second_of_three (b c : u8) : bool :=
  if b =? 224 then in_range 160 191 c
  else if b =? 237 then in_range 128 159 c
  else in_range 225 239 b && continuation c.

Definition second_of_four (b c : u8) : bool :=
  if b =? 240 then in_range 144 191 c
  else if b =? 244 then in_range 128 143 c
  else in_range 241 243 b && continuation c.

(** [String::from_utf8] is [Ok] exactly on these bytes. *)
Fixpoint utf8_valid (s : bytes) : bool :=
  match s with
  | [] => true
  | b :: s =>
      if b <? 128 then utf8_valid s
      else match s with
      | [] => false
      | c :: s =>
          if in_range 194 223 b then continuation c && utf8_valid s
          else match s with
          | [] => false
          | d :: s =>
              if in_range 224 239 b then second_of_three b c && continuation d && utf8_valid s
              else match s with
              | [] => false
              | e :: s =>
                  in_range 240 244 b && second_of_four b c && continuation d && continuation e
                  && utf8_valid s
              end
          end
      end
  end.

Definition from_utf8 (s : bytes) : option bytes := if utf8_valid s then Some s else None.

(** A valid text in front does not change whether what follows is valid. *)
Lemma utf8_valid_app s t : utf8_valid s = true → utf8_valid (s ++ t) = utf8_valid t.
Proof.
  remember (length s) as n eqn:Hn. assert (length s ≤ n)%nat as Hle by lia. clear Hn.
  revert s Hle. induction n as [|n IH]; intros [|b s] Hle; simpl; try done; simpl in Hle; [lia|].
  destruct (b <? 128); [apply IH; lia|].
  destruct s as [|c s]; [done|]. simpl in *.
  destruct (in_range 194 223 b).
  { intros [-> Hs]%andb_prop. simpl. apply IH; [lia|done]. }
  destruct s as [|d s]; [done|]. simpl in *.
  destruct (in_range 224 239 b).
  { intros [[-> ->]%andb_prop Hs]%andb_prop. simpl. apply IH; [lia|done]. }
  destruct s as [|e s]; [done|]. simpl in *.
  intros [[[[-> ->]%andb_prop ->]%andb_prop ->]%andb_prop Hs]%andb_prop. simpl. apply IH; [lia|done].
Qed.

Lemma utf8_append s t : utf8_valid s = true → utf8_valid t = true → utf8_valid (s ++ t) = true.
Proof. intros Hs Ht. by rewrite utf8_valid_app. Qed.

Lemma utf8_concat ss : Forall (λ s, utf8_valid s = true) ss → utf8_valid (concat ss) = true.
Proof. induction 1 as [|s ss Hs _ IH]; [done|]. by apply utf8_append. Qed.

Lemma ascii_utf8 s : Forall (λ c, c < 128) s → utf8_valid s = true.
Proof. induction 1 as [|c s Hc Hs IH]; [done|]. simpl. by rewrite (proj2 (N.ltb_lt _ _) Hc). Qed.

(** ** Whitespace *)

(** [char::is_whitespace] on the ASCII characters, as [str::trim] uses it. *)
Definition is_whitespace (c : u8) : bool := in_range 9 13 c || (c =? 32).

(** [str::trim], of a text of ASCII characters. *)
Fixpoint trim_start (s : bytes) : bytes :=
  match s with
  | c :: s' => if is_whitespace c then trim_start s' else s
  | [] => []
  end.

Definition trim (s : bytes) : bytes := reverse (trim_start (reverse (trim_start s))).

(** [u8::is_ascii_whitespace], as [str::split_ascii_whitespace] uses it. *)
Definition is_ascii_whitespace (c : u8) : bool :=
  (c =? 9) || (c =? 10) || (c =? 12) || (c =? 13) || (c =? 32).

(** [s.split_ascii_whitespace().next()]. *)
Fixpoint skip_whitespace (s : bytes) : bytes :=
  match s with
  | c :: s' => if is_ascii_whitespace c then skip_whitespace s' else s
  | [] => []
  end.

Fixpoint until_whitespace (s : bytes) : bytes :=
  match s with
  | c :: s => if is_ascii_whitespace c then [] else c :: until_whitespace s
  | [] => []
  end.

Definition first_word (s : bytes) : option bytes :=
  match until_whitespace (skip_whitespace s) with
  | [] => None
  | word => Some word
  end.

(** ** Decimal numbers *)

Definition is_digit (c : u8) : bool := in_range 48 57 c.

Fixpoint parse_digits (acc : N) (s : bytes) : option N :=
  match s with
  | [] => Some acc
  | c :: s =>
      if is_digit c then
        let value := 10 * acc + (c - 48) in
        if value <? 2 ^ 64 then parse_digits value s else None
      else None
  end.

(** [str::parse::<u64>]: no empty text, one leading plus sign, no overflow. *)
Definition parse_u64 (s : bytes) : option u64 :=
  match s with
  | [] => None
  | c :: rest =>
      if c =? 43 then match rest with [] => None | _ => parse_digits 0 rest end
      else parse_digits 0 s
  end.

Fixpoint digits (fuel : nat) (n : N) : bytes :=
  match fuel with
  | O => []
  | S fuel => if n <? 10 then [48 + n] else digits fuel (n / 10) ++ [48 + n mod 10]
  end.

(** [u64::to_string]; no [u64] has more than twenty digits. *)
Definition u64_to_string (n : u64) : bytes := digits 20 n.

Lemma parse_digits_app acc s t :
  parse_digits acc (s ++ t) = a ← parse_digits acc s; parse_digits a t.
Proof.
  revert acc. induction s as [|c s IH]; intros acc; [done|]. cbn [app parse_digits].
  destruct (is_digit c); [|done]. destruct (10 * acc + (c - 48) <? 2 ^ 64); [apply IH|done].
Qed.

Lemma is_digit_of n : n < 10 → is_digit (48 + n) = true.
Proof. intros Hn. unfold is_digit, in_range. by rewrite !(proj2 (N.leb_le _ _)) by lia. Qed.

Lemma digits_S fuel n :
  digits (S fuel) n = if n <? 10 then [48 + n] else digits fuel (n / 10) ++ [48 + n mod 10].
Proof. done. Qed.

Lemma digits_digits fuel n : Forall (λ c, is_digit c = true) (digits fuel n).
Proof.
  revert n. induction fuel as [|fuel IH]; intros n; [constructor|]. simpl.
  destruct (N.ltb_spec n 10) as [Hn|Hn]; [by repeat constructor; apply is_digit_of|].
  apply Forall_app. split; [apply IH|]. repeat constructor. apply is_digit_of. by apply N.mod_lt.
Qed.

Lemma digits_ascii fuel n : Forall (λ c, c < 128) (digits fuel n).
Proof.
  eapply Forall_impl; [apply digits_digits|]. intros c Hc. simpl in Hc. unfold is_digit, in_range in Hc.
  apply andb_prop in Hc as [_ Hc]. apply N.leb_le in Hc. lia.
Qed.

Lemma parse_digits_of fuel n :
  n < 10 ^ N.of_nat (S fuel) → n < 2 ^ 64 → parse_digits 0 (digits (S fuel) n) = Some n.
Proof.
  assert (∀ m, m < 10 → m < 2 ^ 64 → parse_digits 0 [48 + m] = Some m) as Hone.
  { intros m Hm Hlt. cbn [parse_digits]. rewrite is_digit_of by done.
    replace (10 * 0 + (48 + m - 48)) with m by lia. by rewrite (proj2 (N.ltb_lt _ _) Hlt). }
  revert n. induction fuel as [|fuel IH]; intros n Hf Hn; rewrite digits_S.
  - replace (10 ^ N.of_nat 1) with 10 in Hf by done. rewrite (proj2 (N.ltb_lt _ _) Hf). by apply Hone.
  - destruct (N.ltb_spec n 10) as [Hs|Hs]; [by apply Hone|]. rewrite parse_digits_app.
    pose proof (N.div_mod n 10 ltac:(done)) as Hd. pose proof (N.mod_lt n 10 ltac:(done)) as Hm.
    rewrite IH; [|apply N.Div0.div_lt_upper_bound;
      rewrite <-N.pow_succ_r', <-Nnat.Nat2N.inj_succ; exact Hf
      |eapply N.le_lt_trans; [apply N.Div0.div_le_upper_bound|exact Hn]; lia].
    cbn [mbind option_bind parse_digits]. rewrite is_digit_of by done.
    rewrite (N.add_comm 48), N.add_sub, <-Hd.
    by rewrite (proj2 (N.ltb_lt _ _) Hn).
Qed.

(** A printed number parses back to itself. *)
Lemma parse_digits_to_string n : n < 2 ^ 64 → parse_digits 0 (u64_to_string n) = Some n.
Proof. intros Hn. apply parse_digits_of; [|done]. eapply N.lt_trans; [exact Hn|]. by vm_compute. Qed.

Lemma parse_to_string n : n < 2 ^ 64 → parse_u64 (u64_to_string n) = Some n.
Proof.
  intros Hn. pose proof (parse_digits_to_string n Hn) as Hp. pose proof (digits_digits 20 n) as Hd. fold (u64_to_string n) in Hd. unfold parse_u64.
  destruct (u64_to_string n) as [|c rest] eqn:Hs.
  - exfalso. revert Hs. unfold u64_to_string. cbn [digits]. destruct (n <? 10); [done|].
    by intros [_ ?]%app_eq_nil.
  - apply Forall_cons in Hd as [Hc _]. destruct (N.eqb_spec c 43) as [->|_]; [done|exact Hp].
Qed.

Lemma to_string_ascii n : Forall (λ c, c < 128) (u64_to_string n).
Proof. apply digits_ascii. Qed.
