(* ===== verification/LevelRuntime.v ===== *)
(** * The level runtime

    [level-runtime/src/{concurrency_tracker,worker,runtime,builder}.rs]: the load
    counters of the workers, the choice between two of them, and the names of
    their threads.  A task is here from when it is spawned until its future is
    dropped; [LevelThreads] has the threads that run it. *)

From S2P Require Import Prelude Encoding Text.
Local Open Scope N_scope.
Local Open Scope run_scope.

(** ** Load tracking *)

(** [ConcurrencyTracker]: a live task and the worker whose counter it holds. *)
Record ConcurrencyTracker := mkConcurrencyTracker { tracked_worker : nat }.

(** The counters of the workers ([LevelWorker]), and the tasks that are alive;
    a task that is gone is [None]. *)
Record LevelRuntime := mkLevelRuntime {
  counters : list usize;
  live_tasks : list (option ConcurrencyTracker);
}.

Implicit Types r : LevelRuntime.

(** [Builder::build] and [LevelWorker::from_runtime]. *)
Definition runtime_build (worker_threads : usize) : LevelRuntime :=
  mkLevelRuntime (replicate (N.to_nat worker_threads) 0) [].

(** [ConcurrencyTracker::wrap] and its [Drop]. *)
Definition tracker_wrap r (worker : nat) : ConcurrencyTracker * LevelRuntime :=
  (mkConcurrencyTracker worker,
   mkLevelRuntime (alter (λ n, usize_add n 1) worker (counters r)) (live_tasks r)).

Definition tracker_drop (t : ConcurrencyTracker) r : LevelRuntime :=
  mkLevelRuntime (alter (λ n, usize_sub n 1) (tracked_worker t) (counters r)) (live_tasks r).

(** [LevelWorkerHandle::spawn_local] and [concurrency]. *)
Definition worker_spawn_local r (worker : nat) : LevelRuntime :=
  let '(t, r) := tracker_wrap r worker in
  mkLevelRuntime (counters r) (live_tasks r ++ [Some t]).

Definition concurrency r (worker : nat) : run usize := expect (counters r !! worker).

(** The end of a task, finished or cancelled: its future is dropped. *)
Definition task_ends r (i : nat) : option LevelRuntime :=
  match live_tasks r !! i with
  | Some (Some t) =>
      let r := tracker_drop t r in
      Some (mkLevelRuntime (counters r) (<[i := None]> (live_tasks r)))
  | _ => None
  end.

(** [balance_workers], with the two random numbers: they are drawn below the
    number of workers, and drawing from an empty range panics. *)
Definition balance_workers r (a b : nat) : run nat :=
  if (length (counters r) =? 0)%nat then Panic
  else
    let* ca := concurrency r a in
    let* cb := concurrency r b in
    Return (if ca <? cb then a else b).

(** [LevelRuntimeHandle::spawn_balanced] and [spawn_on_each]. *)
Definition spawn_balanced r (a b : nat) : run LevelRuntime :=
  let* worker := balance_workers r a b in Return (worker_spawn_local r worker).

(** [LevelRuntimeHandle::pick_worker]. *)
Definition pick_worker : LevelRuntime → nat → nat → run nat := balance_workers.

Definition spawn_on_each r : LevelRuntime :=
  foldl worker_spawn_local r (seq 0 (length (counters r))).

(** [spawn_local] and [spawn_balanced] of the crate, through what [LOCAL_RUNTIME]
    and [GLOBAL_RUNTIME] hold. *)
Definition local_spawn r (local_runtime : option nat) : run LevelRuntime :=
  match local_runtime with
  | Some worker => Return (worker_spawn_local r worker)
  | None => Panic
  end.

Definition global_spawn_balanced r (global_runtime : bool) (a b : nat) : run LevelRuntime :=
  if global_runtime then spawn_balanced r a b else Panic.

(** ** Thread names ([builder.rs]) *)

(** [String::truncate]: it panics off a character boundary. *)
Definition string_truncate (s : bytes) (n : usize) : run bytes :=
  match s !! N.to_nat n with
  | Some x => if continuation x then Panic else Return (take (N.to_nat n) s)
  | None => Return s
  end.

(** [thread_name_prefix]: the prefix that the closure of the names captures. *)
Definition thread_name_prefix (name : bytes) : run bytes :=
  if 12 <? len name then string_truncate name 12 else Return name.

(** [format!("{:02}", i)]. *)
Definition two_digits (i : usize) : bytes :=
  if i <? 10 then 48 :: u64_to_string i else u64_to_string i.

(** The name of the [i]-th thread. *)
Definition thread_name (name : bytes) (i : usize) : bytes := name ++ [45] ++ two_digits i.

(** ** The counters are exact *)

Definition on_worker (worker : nat) (t : option ConcurrencyTracker) : N :=
  match t with Some t => if decide (tracked_worker t = worker) then 1 else 0 | None => 0 end.

(** How many live tasks a worker has. *)
Definition load r (worker : nat) : N := sum_by (on_worker worker) (live_tasks r).

Definition counters_ok r : Prop :=
  (∀ w n, counters r !! w = Some n → n = wrap 64 (load r w)) ∧
  Forall (λ t, match t with Some t => (tracked_worker t < length (counters r))%nat | None => True end)
    (live_tasks r).

Inductive RuntimeLabel :=
| SpawnLocal (worker : nat)
| SpawnBalanced (a b : nat)
| SpawnOnEach
| TaskEnds (i : nat).

Definition runtime_exec (l : RuntimeLabel) r : option LevelRuntime :=
  match l with
  | SpawnLocal worker =>
      if decide (worker < length (counters r))%nat then Some (worker_spawn_local r worker) else None
  | SpawnBalanced a b =>
      match spawn_balanced r a b with Return r => Some r | _ => None end
  | SpawnOnEach => Some (spawn_on_each r)
  | TaskEnds i => task_ends r i
  end.

Lemma runtime_build_ok n : counters_ok (runtime_build n).
Proof. split; [|constructor]. intros w x Hx. simpl in Hx. by apply lookup_replicate in Hx as [-> _]. Qed.

Lemma spawn_local_length r w : length (counters (worker_spawn_local r w)) = length (counters r).
Proof. simpl. by rewrite length_alter. Qed.

Lemma spawn_local_load r w v :
  load (worker_spawn_local r w) v = load r v + (if decide (w = v) then 1 else 0).
Proof. unfold load. simpl. rewrite sum_by_app. simpl. lia. Qed.

Lemma spawn_local_ok r w :
  (w < length (counters r))%nat → counters_ok r → counters_ok (worker_spawn_local r w).
Proof.
  intros Hw [Hc Ht]. split.
  - intros v n Hn. rewrite spawn_local_load. simpl in Hn. destruct (decide (w = v)) as [->|Hne].
    + rewrite list_lookup_alter_eq in Hn. destruct (counters r !! v) as [x|] eqn:Hx; [|done].
      injection Hn as <-. rewrite (Hc _ _ Hx). apply wadd_wrap.
    + rewrite list_lookup_alter_ne in Hn by done. rewrite N.add_0_r. by apply Hc.
  - simpl. apply Forall_app. rewrite length_alter. split; [done|]. by constructor.
Qed.

Lemma task_ends_ok r i r' : counters_ok r → task_ends r i = Some r' → counters_ok r'.
Proof.
  intros [Hc Ht] He. unfold task_ends in He.
  destruct (live_tasks r !! i) as [[[w]|]|] eqn:Hi; simplify_eq/=.
  assert (∀ v, load r v = sum_by (on_worker v) (<[i := None]> (live_tasks r)) + on_worker v (Some (mkConcurrencyTracker w)))
    as Hload.
  { intros v. pose proof (sum_by_insert (on_worker v) _ _ _ None Hi) as Hs. unfold load.
    change (on_worker v None) with 0 in Hs. lia. }
  split.
  - intros v n Hn. unfold load at 1. simpl in *. specialize (Hload v). simpl in Hload.
    destruct (decide (w = v)) as [->|Hne].
    + rewrite list_lookup_alter_eq in Hn. destruct (counters r !! v) as [x|] eqn:Hx; [|done].
      injection Hn as <-. rewrite (Hc _ _ Hx), wsub_wrap by lia. f_equal. lia.
    + rewrite list_lookup_alter_ne in Hn by done. rewrite (Hc _ _ Hn). f_equal. lia.
  - simpl. rewrite length_alter. by apply Forall_insert.
Qed.

Lemma balance_workers_spec r a b :
  (a < length (counters r))%nat → (b < length (counters r))%nat →
  ∃ w ca cb, counters r !! a = Some ca ∧ counters r !! b = Some cb ∧
    balance_workers r a b = Return w ∧ (w = a ∨ w = b) ∧
    counters r !! w = Some (N.min ca cb).
Proof.
  intros Ha Hb. destruct (lookup_lt_is_Some_2 _ _ Ha) as [ca Hca], (lookup_lt_is_Some_2 _ _ Hb) as [cb Hcb].
  unfold balance_workers, concurrency. rewrite Hca, Hcb. simpl.
  rewrite (proj2 (Nat.eqb_neq _ 0)) by lia.
  exists (if ca <? cb then a else b), ca, cb. split_and!; try done.
  - destruct (ca <? cb); auto.
  - destruct (N.ltb_spec ca cb); [rewrite N.min_l by lia|rewrite N.min_r by lia]; done.
Qed.

Lemma spawn_all_ok ws r :
  Forall (λ w, (w < length (counters r))%nat) ws → counters_ok r → counters_ok (foldl worker_spawn_local r ws).
Proof.
  revert r. induction ws as [|w ws IH]; intros r Hws Hr; [done|]. apply Forall_cons in Hws as [Hw Hws].
  simpl. apply IH; [|by apply spawn_local_ok]. by rewrite spawn_local_length.
Qed.

Lemma runtime_exec_ok l r r' : counters_ok r → runtime_exec l r = Some r' → counters_ok r'.
Proof.
  intros Hr He. destruct l as [w|a b| |i]; simpl in He.
  - case_decide; simplify_eq. by apply spawn_local_ok.
  - unfold spawn_balanced, balance_workers, concurrency in He.
    destruct (length (counters r) =? 0)%nat; [done|]. 
    destruct (counters r !! a) as [ca|] eqn:Ha; [|done]. destruct (counters r !! b) as [cb|] eqn:Hb; [|done].
    simpl in He. simplify_eq. apply spawn_local_ok; [|done].
    destruct (ca <? cb); by eapply lookup_lt_Some.
  - simplify_eq. apply spawn_all_ok; [|done]. apply Forall_forall. intros w Hw.
    apply elem_of_seq in Hw. lia.
  - by eapply task_ends_ok.
Qed.

Module Level.

(** The load heuristic sees the truth: however tasks are spawned, on one
    worker, on the better of two or on each, and whenever they end, each worker's
    counter is the number of its live tasks (as a machine word); and a balanced
    spawn goes to one of the two workers that were drawn, one whose counter is the
    smaller of the two. *)
Theorem counters_are_exact (worker_threads : usize) (ls : list RuntimeLabel) (r : LevelRuntime)
  (Hrun : exec_all runtime_exec ls (runtime_build worker_threads) = Some r) :
  (∀ w n, counters r !! w = Some n → n = wrap 64 (load r w)) ∧
  (∀ a b, (a < length (counters r))%nat → (b < length (counters r))%nat →
     ∃ w ca cb, counters r !! a = Some ca ∧ counters r !! b = Some cb ∧
       spawn_balanced r a b = Return (worker_spawn_local r w) ∧ (w = a ∨ w = b) ∧
       counters r !! w = Some (N.min ca cb)).
Proof.
  assert (counters_ok r) as [Hc _].
  { apply exec_all_rtc in Hrun. eapply (rtc_invariant runtime_exec counters_ok); [|exact Hrun|apply runtime_build_ok].
    intros l s s' Hs He. by eapply runtime_exec_ok. }
  split; [done|]. intros a b Ha Hb.
  destruct (balance_workers_spec r a b Ha Hb) as (w & ca & cb & Hca & Hcb & He & Hw & Hm).
  exists w, ca, cb. unfold spawn_balanced. by rewrite He.
Qed.

Lemma counters_are_exact_witness :
  ∃ r, exec_all runtime_exec [SpawnOnEach; SpawnLocal 1; SpawnBalanced 0 1; TaskEnds 2] (runtime_build 2) = Some r ∧
    counters r = [2; 1] ∧ load r 0 = 2.
Proof.
  destruct (exec_all runtime_exec [SpawnOnEach; SpawnLocal 1; SpawnBalanced 0 1; TaskEnds 2] (runtime_build 2))
    as [r|] eqn:Hr; [|vm_compute in Hr; discriminate Hr].
  destruct (counters_are_exact 2 _ r Hr) as [Hc _]. exists r. split; [reflexivity|].
  vm_compute in Hr. injection Hr as <-. split; [reflexivity|].
  specialize (Hc 0%nat 2 eq_refl). vm_compute. reflexivity.
Defined.

(** A name stays within the fifteen bytes that the comment in [builder.rs]
    allows, for the first hundred threads. *)
Lemma thread_name_short name prefix i :
  thread_name_prefix name = Return prefix → i < 100 → len (thread_name prefix i) ≤ 15.
Proof.
  intros Hp Hi. unfold thread_name. rewrite !len_app. change (len [45]) with 1.
  assert (len (two_digits i) = 2) as ->.
  { unfold two_digits, u64_to_string. rewrite digits_S. destruct (N.ltb_spec i 10) as [|Hge]; [done|].
    rewrite digits_S, (proj2 (N.ltb_lt (i / 10) 10)); [done|]. apply N.Div0.div_lt_upper_bound. lia. }
  assert (len prefix ≤ 12); [|lia]. unfold thread_name_prefix in Hp.
  destruct (N.ltb_spec 12 (len name)) as [Hl|Hl]; [|by injection Hp as <-].
  unfold string_truncate in Hp. destruct (name !! N.to_nat 12) as [x|] eqn:Hx.
  - destruct (continuation x); [done|]. injection Hp as <-. rewrite len_take. lia.
  - apply lookup_ge_None in Hx. unfold len in Hl. lia.
Qed.

(** The prefix "servidor-año", in UTF-8: its twelfth byte is inside a character,
    and setting it panics. *)
Example prefix_off_a_boundary_panics :
  thread_name_prefix ([115; 101; 114; 118; 105; 100; 111; 114; 45; 97; 110] ++ [195; 177; 111]) = Panic.
Proof. vm_compute. reflexivity. Qed.
End Level.
