(* ===== verification/LevelThreads.v ===== *)
(** * The threads of the level runtime

    [level-runtime/src/{builder,runtime,worker}.rs] and
    [protosocket-rpc/src/server/spawn.rs]: the builder, the threads that drive the
    workers' runtimes, what their [LOCAL_RUNTIME] and the process's
    [GLOBAL_RUNTIME] hold, and the spawners of the rpc server.  tokio's
    current-thread runtime is here by what its documentation says: a task runs on
    a thread that blocks on its runtime, and [tokio::spawn] spawns on that runtime.
    The load counters are those of [LevelRuntime]. *)

From S2P Require Import Prelude Encoding Text LevelRuntime.
Local Open Scope N_scope.
Local Open Scope run_scope.

(** ** The builder *)

(** What is passed on to tokio's builder, in its order. *)
Inductive TokioOption :=
| EnableAll
| EventInterval (interval : u32)
| GlobalQueueInterval (interval : u32)
| MaxIoEventsPerTick (capacity : usize)
| MaxBlockingThreads (capacity : usize)
| OnThreadPark
| OnThreadUnpark.

(** [Builder]; its closure for thread names is a name and a counter. *)
Record Builder := mkBuilder {
  tokio_options : list TokioOption;
  worker_threads : usize;
  builder_name : bytes;
  name_i : usize;
}.

(** [Builder::default]: the names are "level-00" and so on. *)
Definition builder_default : Builder := mkBuilder [] 1 [108; 101; 118; 101; 108] 0.

Definition set_worker_threads (threads : usize) (b : Builder) : Builder :=
  mkBuilder (tokio_options b) threads (builder_name b) (name_i b).

(** [thread_name_prefix]: a new name with a counter of its own. *)
Definition set_thread_name_prefix (name : bytes) (b : Builder) : run Builder :=
  let* name := thread_name_prefix name in
  Return (mkBuilder (tokio_options b) (worker_threads b) name 0).

Definition pass_option (o : TokioOption) (b : Builder) : Builder :=
  mkBuilder (tokio_options b ++ [o]) (worker_threads b) (builder_name b) (name_i b).

Definition enable_all : Builder → Builder := pass_option EnableAll.
Definition event_interval (interval : u32) : Builder → Builder := pass_option (EventInterval interval).
Definition global_queue_interval (interval : u32) : Builder → Builder := pass_option (GlobalQueueInterval interval).
Definition max_io_events_per_tick (capacity : usize) : Builder → Builder := pass_option (MaxIoEventsPerTick capacity).
Definition max_blocking_threads (capacity : usize) : Builder → Builder := pass_option (MaxBlockingThreads capacity).
Definition on_thread_park : Builder → Builder := pass_option OnThreadPark.
Definition on_thread_unpark : Builder → Builder := pass_option OnThreadUnpark.

(** ** Threads and processes *)

Inductive ThreadPhase := Starting | Blocking | Over.

(** A thread: its name, the worker that it runs, and its [LOCAL_RUNTIME]. *)
Record Thread := mkThread {
  th_name : bytes;
  th_worker : nat;
  local_runtime : option nat;
  th_phase : ThreadPhase;
}.

(** A process with one level runtime: the workers with their counters, the options
    that each tokio runtime was built with, the thread names, the threads, whether
    [GLOBAL_RUNTIME] is set, and the workers of the tasks that were spawned past
    the counters. *)
Record Process := mkProcess {
  pc_runtime : LevelRuntime;
  pc_options : list (list TokioOption);
  pc_name : bytes;
  pc_name_i : usize;
  pc_threads : list Thread;
  global_runtime : bool;
  untracked : list nat;
}.

Implicit Types p : Process.

Definition set_runtime p r : Process :=
  mkProcess r (pc_options p) (pc_name p) (pc_name_i p) (pc_threads p) (global_runtime p) (untracked p).
Definition set_threads p (ts : list Thread) (i : usize) : Process :=
  mkProcess (pc_runtime p) (pc_options p) (pc_name p) i ts (global_runtime p) (untracked p).
Definition set_global p : Process :=
  mkProcess (pc_runtime p) (pc_options p) (pc_name p) (pc_name_i p) (pc_threads p) true (untracked p).
Definition set_untracked p (ws : list nat) : Process :=
  mkProcess (pc_runtime p) (pc_options p) (pc_name p) (pc_name_i p) (pc_threads p) (global_runtime p) ws.

(** [Builder::build] and [LevelRuntime::from_workers]. *)
Definition build (b : Builder) : Process :=
  mkProcess (runtime_build (worker_threads b))
    (replicate (N.to_nat (worker_threads b)) (tokio_options b))
    (builder_name b) (name_i b) [] false [].

(** [LevelRuntime::handle]: the workers that it can spawn on. *)
Definition handle p : list nat := seq 0 (length (counters (pc_runtime p))).

(** [LevelRuntime::set_default]. *)
Definition set_default p : run Process := if global_runtime p then Panic else Return (set_global p).

(** One thread of [start] and [run_with_termination], which fails no spawn here, and
    all of them. *)
Definition start_thread p (worker : nat) : Process :=
  set_threads p (pc_threads p ++ [mkThread (thread_name (pc_name p) (pc_name_i p)) worker None Starting])
    (usize_add (pc_name_i p) 1).

Definition start p : Process := foldl start_thread p (handle p).

(** [run_with_termination] starts them in the same way and returns when they are all
    over; [run] gives it a termination that never comes. *)
Definition run_with_termination p : Process := start p.
Definition handles_joined p : bool :=
  forallb (λ th, match th_phase th with Over => true | _ => false end) (pc_threads p).

(** [LevelWorker::run] on thread [t], up to its [block_on]. *)
Definition worker_run p (t : nat) : run Process :=
  let* th := expect (pc_threads p !! t) in
  match local_runtime th with
  | Some _ => Panic
  | None =>
      Return (set_threads p
        (<[t := mkThread (th_name th) (th_worker th) (Some (th_worker th)) Blocking]> (pc_threads p)) (pc_name_i p))
  end.

(** The future that the thread blocks on is ready. *)
Definition terminate p (t : nat) : run Process :=
  let* th := expect (pc_threads p !! t) in
  Return (set_threads p
    (<[t := mkThread (th_name th) (th_worker th) (local_runtime th) Over]> (pc_threads p)) (pc_name_i p)).

(** ** Spawning *)

(** [spawn_local] on thread [t]. *)
Definition thread_spawn_local p (t : nat) : run Process :=
  let* th := expect (pc_threads p !! t) in
  let* r := local_spawn (pc_runtime p) (local_runtime th) in
  Return (set_runtime p r).

(** [spawn_balanced] and [spawn_on_each] of the crate. *)
Definition process_spawn_balanced p (a b : nat) : run Process :=
  let* r := global_spawn_balanced (pc_runtime p) (global_runtime p) a b in Return (set_runtime p r).

Definition process_spawn_on_each p : run Process :=
  if global_runtime p then Return (set_runtime p (spawn_on_each (pc_runtime p))) else Panic.

(** [tokio::spawn] on thread [t]: outside of a runtime it panics. *)
Definition tokio_spawn p (t : nat) : run Process :=
  let* th := expect (pc_threads p !! t) in
  match th_phase th with
  | Blocking => Return (set_untracked p (untracked p ++ [th_worker th]))
  | _ => Panic
  end.

(** [Spawn] of the rpc server, whose thread is [t], and its two strategies. *)
Class Spawn (Sp : Type) := spawn : Sp → Process → nat → run Process.

Inductive TokioSpawn := TheTokioSpawn.
Inductive LevelSpawn := TheLevelSpawn.
#[export] Instance tokio_spawner : Spawn TokioSpawn := λ _ p t, tokio_spawn p t.
#[export] Instance level_spawner : Spawn LevelSpawn := λ _ p t, thread_spawn_local p t.

(** ** What can happen *)

(** [TaskSpawns t i]: thread [t] polls task [i], which calls [spawn_local]. *)
Inductive ProcessLabel :=
| SetDefault
| Start
| RunWorker (t : nat)
| TaskSpawns (t i : nat)
| TaskSpawnsBalanced (a b : nat)
| TaskSpawnsOnEach
| HandleSpawns (worker : nat)
| TaskOver (i : nat)
| Terminate (t : nat).

(** A thread that blocks on its runtime polls that runtime's tasks. *)
Definition polls p (t i : nat) : bool :=
  match pc_threads p !! t, live_tasks (pc_runtime p) !! i with
  | Some th, Some (Some tr) =>
      match th_phase th with Blocking => (th_worker th =? tracked_worker tr)%nat | _ => false end
  | _, _ => false
  end.

Definition phase_is (phase : ThreadPhase) p (t : nat) : bool :=
  match pc_threads p !! t with
  | Some th => match th_phase th, phase with Starting, Starting | Blocking, Blocking | Over, Over => true | _, _ => false end
  | None => false
  end.

(** [None] when it cannot happen; the random numbers are below the number of
    workers. *)
Definition process_exec (l : ProcessLabel) p : option (run Process) :=
  let n := length (counters (pc_runtime p)) in
  match l with
  | SetDefault => Some (set_default p)
  | Start => Some (Return (start p))
  | RunWorker t => if phase_is Starting p t then Some (worker_run p t) else None
  | TaskSpawns t i => if polls p t i then Some (thread_spawn_local p t) else None
  | TaskSpawnsBalanced a b =>
      if ((a <? n) && (b <? n))%nat then Some (process_spawn_balanced p a b) else None
  | TaskSpawnsOnEach => Some (process_spawn_on_each p)
  | HandleSpawns w =>
      if (w <? n)%nat then Some (Return (set_runtime p (worker_spawn_local (pc_runtime p) w))) else None
  | TaskOver i => r ← task_ends (pc_runtime p) i; Some (Return (set_runtime p r))
  | Terminate t => if phase_is Blocking p t then Some (terminate p t) else None
  end.

(** The steps that do not panic. *)
Definition process_goes (l : ProcessLabel) p : option Process :=
  match process_exec l p with Some (Return p') => Some p' | _ => None end.

(** ** The invariant *)

Definition thread_ok (n : nat) (th : Thread) : Prop :=
  (th_worker th < n)%nat ∧
  local_runtime th = match th_phase th with Starting => None | _ => Some (th_worker th) end.

(** [first] is the first number of the thread names. *)
Record process_ok (first : usize) p : Prop := {
  po_counters : counters_ok (pc_runtime p);
  po_threads : Forall (thread_ok (length (counters (pc_runtime p)))) (pc_threads p);
  po_names i th : pc_threads p !! i = Some th →
    th_name th = thread_name (pc_name p) (wrap 64 (first + N.of_nat i));
  po_name_i : pc_name_i p = wrap 64 (first + len (pc_threads p));
}.

Lemma build_ok b : name_i b < 2 ^ 64 → process_ok (name_i b) (build b).
Proof.
  intros Hb. split; simpl; [apply runtime_build_ok|constructor|by intros i th|].
  rewrite N.add_0_r. unfold wrap. by rewrite N.mod_small.
Qed.

(** Only the runtime changes, and it keeps its workers. *)
Lemma set_runtime_ok first p r :
  process_ok first p → counters_ok r → length (counters r) = length (counters (pc_runtime p)) →
  process_ok first (set_runtime p r).
Proof. intros [Hc Ht Hn Hi] Hr Hl. split; simpl; [done| |done|done]. by rewrite Hl. Qed.

Lemma spawn_all_length ws r : length (counters (foldl worker_spawn_local r ws)) = length (counters r).
Proof. revert r. induction ws as [|w ws IH]; intros r; [done|]. simpl. by rewrite IH, spawn_local_length. Qed.

Lemma spawn_on_each_ok r :
  counters_ok r → counters_ok (spawn_on_each r) ∧ length (counters (spawn_on_each r)) = length (counters r).
Proof.
  intros Hr. split; [|apply spawn_all_length]. apply spawn_all_ok; [|done].
  apply Forall_forall. intros w Hw. apply elem_of_seq in Hw. lia.
Qed.

(** One thread changes its phase. *)
Lemma set_thread_ok first p t th th' :
  process_ok first p → pc_threads p !! t = Some th →
  th_name th' = th_name th → thread_ok (length (counters (pc_runtime p))) th' →
  process_ok first (set_threads p (<[t := th']> (pc_threads p)) (pc_name_i p)).
Proof.
  intros [Hc Ht Hn Hi] Hth Hname Hok. split; simpl; [done|by apply Forall_insert| |].
  - intros i th2 Hth2. apply list_lookup_insert_Some in Hth2 as [(<- & <- & _)|[_ Hth2]]; [|by apply Hn].
    rewrite Hname. by apply Hn.
  - unfold len. by rewrite length_insert.
Qed.

Lemma start_thread_ok first p w :
  process_ok first p → (w < length (counters (pc_runtime p)))%nat → process_ok first (start_thread p w).
Proof.
  intros [Hc Ht Hn Hi] Hw. split; simpl; [done| | |].
  - apply Forall_app. split; [done|]. by repeat constructor.
  - intros i th Hth. apply lookup_app_Some in Hth as [Hth|[Hge Hth]]; [by apply Hn|].
    apply list_lookup_singleton_Some in Hth as [Hz <-]. simpl. rewrite Hi. do 3 f_equal. unfold len. lia.
  - rewrite Hi, len_app. rewrite (wadd_wrap 64). f_equal. change (len [_]) with 1. lia.
Qed.

Lemma start_ok first p : process_ok first p → process_ok first (start p).
Proof.
  assert (∀ ws p, process_ok first p → Forall (λ w, (w < length (counters (pc_runtime p)))%nat) ws →
    process_ok first (foldl start_thread p ws)) as Hgo.
  { clear. induction ws as [|w ws IH]; intros p Hp Hws; [done|]. apply Forall_cons in Hws as [Hw Hws].
    simpl. apply IH; [by apply start_thread_ok|done]. }
  intros Hp. apply Hgo; [done|]. apply Forall_forall. intros w Hw. apply elem_of_seq in Hw. lia.
Qed.

Lemma phase_thread phase p t :
  phase_is phase p t = true → ∃ th, pc_threads p !! t = Some th ∧ th_phase th = phase.
Proof.
  unfold phase_is. destruct (pc_threads p !! t) as [th|]; [|done]. intros Hph. exists th. split; [done|].
  by destruct (th_phase th), phase.
Qed.

(** A thread that polls a task knows its worker, the task's. *)
Lemma polls_worker first p t i :
  process_ok first p → polls p t i = true →
  ∃ th tr, pc_threads p !! t = Some th ∧ live_tasks (pc_runtime p) !! i = Some (Some tr) ∧
    local_runtime th = Some (tracked_worker tr) ∧ (tracked_worker tr < length (counters (pc_runtime p)))%nat.
Proof.
  intros Hok Hp. unfold polls in Hp. destruct (pc_threads p !! t) as [th|] eqn:Hth; [|done].
  destruct (live_tasks (pc_runtime p) !! i) as [[tr|]|] eqn:Hi; try done.
  destruct (th_phase th) eqn:Hph; try done. apply Nat.eqb_eq in Hp.
  destruct (Forall_lookup_1 _ _ _ _ (po_threads _ _ Hok) Hth) as [Hw Hl]. rewrite Hph, Hp in Hl. rewrite Hp in Hw.
  by exists th, tr.
Qed.

Lemma task_ends_length r i r' : task_ends r i = Some r' → length (counters r') = length (counters r).
Proof.
  unfold task_ends. destruct (live_tasks r !! i) as [[t|]|]; intros; simplify_eq/=. by rewrite length_alter.
Qed.

Lemma process_goes_ok first l p p' : process_ok first p → process_goes l p = Some p' → process_ok first p'.
Proof.
  intros Hok He. unfold process_goes in He. destruct (process_exec l p) as [[q| |]|] eqn:Hx; simplify_eq.
  pose proof (po_counters _ _ Hok) as Hc. destruct l as [| |t|t i|a b| |w|i|t]; cbn [process_exec] in Hx.
  - injection Hx as Hx. unfold set_default in Hx. destruct (global_runtime p); [done|]. injection Hx as <-.
    by destruct Hok; split.
  - injection Hx as <-. by apply start_ok.
  - destruct (phase_is Starting p t) eqn:Hph; [|done]. apply phase_thread in Hph as (th & Hth & Hph).
    injection Hx as Hx. unfold worker_run in Hx. rewrite Hth in Hx. simpl in Hx.
    destruct (Forall_lookup_1 _ _ _ _ (po_threads _ _ Hok) Hth) as [Hw Hl]. rewrite Hph in Hl.
    rewrite Hl in Hx. injection Hx as <-. by eapply set_thread_ok.
  - destruct (polls p t i) eqn:Hp; [|done]. destruct (polls_worker _ _ _ _ Hok Hp) as (th & tr & Hth & _ & Hl & Hw).
    injection Hx as Hx. unfold thread_spawn_local, local_spawn in Hx. rewrite Hth in Hx. simpl in Hx.
    rewrite Hl in Hx. injection Hx as <-. apply set_runtime_ok; [done|by apply spawn_local_ok|apply spawn_local_length].
  - destruct ((a <? _) && (b <? _))%nat eqn:Hab; [|done]. apply andb_true_iff in Hab as [Ha%Nat.ltb_lt Hb%Nat.ltb_lt].
    injection Hx as Hx. unfold process_spawn_balanced, global_spawn_balanced, spawn_balanced in Hx.
    destruct (global_runtime p); [|done].
    destruct (balance_workers_spec _ a b Ha Hb) as (w & ca & cb & _ & _ & Hbw & Hw & _). rewrite Hbw in Hx.
    injection Hx as <-. apply set_runtime_ok; [done|apply spawn_local_ok; [by destruct Hw as [->| ->]|done]|apply spawn_local_length].
  - injection Hx as Hx. unfold process_spawn_on_each in Hx. destruct (global_runtime p); [|done]. injection Hx as <-.
    destruct (spawn_on_each_ok _ Hc). by apply set_runtime_ok.
  - destruct (w <? _)%nat eqn:Hw; [|done]. apply Nat.ltb_lt in Hw. injection Hx as <-.
    apply set_runtime_ok; [done|by apply spawn_local_ok|apply spawn_local_length].
  - apply bind_Some in Hx as (r & Hr & Hx). injection Hx as <-.
    apply set_runtime_ok; [done|by eapply task_ends_ok|by eapply task_ends_length].
  - destruct (phase_is Blocking p t) eqn:Hph; [|done]. apply phase_thread in Hph as (th & Hth & Hph).
    injection Hx as Hx. unfold terminate in Hx. rewrite Hth in Hx. injection Hx as <-.
    destruct (Forall_lookup_1 _ _ _ _ (po_threads _ _ Hok) Hth) as [Hw Hl]. rewrite Hph in Hl.
    by eapply set_thread_ok.
Qed.

Lemma process_run_ok b ls p :
  name_i b < 2 ^ 64 → exec_all process_goes ls (build b) = Some p → process_ok (name_i b) p.
Proof.
  intros Hb Hrun. apply exec_all_rtc in Hrun.
  eapply (rtc_invariant process_goes (process_ok (name_i b))); [|exact Hrun|by apply build_ok].
  intros l s s' Hs He. by eapply process_goes_ok.
Qed.

(** ** Names *)

Lemma parse_two_digits i : i < 2 ^ 64 → parse_digits 0 (two_digits i) = Some i.
Proof.
  intros Hi. unfold two_digits. destruct (i <? 10); [|by apply parse_digits_to_string].
  change (parse_digits 0 (u64_to_string i) = Some i). by apply parse_digits_to_string.
Qed.

Lemma thread_name_inj name i j :
  i < 2 ^ 64 → j < 2 ^ 64 → thread_name name i = thread_name name j → i = j.
Proof.
  intros Hi Hj He. unfold thread_name in He. do 2 apply app_inv_head in He.
  apply (f_equal (parse_digits 0)) in He. rewrite !parse_two_digits in He by done. by injection He.
Qed.

Lemma wrap_shift_inj f i j :
  i < 2 ^ 64 → j < 2 ^ 64 → wrap 64 (f + i) = wrap 64 (f + j) → i = j.
Proof.
  unfold wrap. intros Hi Hj He. pose proof (N.div_mod (f + i) (2 ^ 64) ltac:(done)) as Hdi.
  pose proof (N.div_mod (f + j) (2 ^ 64) ltac:(done)) as Hdj. rewrite He in Hdi. lia.
Qed.

Module Levels.

(** C30: tasks stay on their thread: in every state that a process with a level
    runtime reaches, whatever threads have started or ended and whatever was spawned
    where, a task that calls [spawn_local] is on a thread whose [LOCAL_RUNTIME] is
    that task's own worker, so that the call does not panic and the new task has the
    same worker; no thread that starts trips over the assertions of [run]; each
    worker's counter is the number of its live tasks; and no two threads, of as many
    as there are numbers, have the same name. *)
Theorem tasks_stay_on_their_worker (b : Builder) (ls : list ProcessLabel) p
  (Hname : name_i b < 2 ^ 64) (Hrun : exec_all process_goes ls (build b) = Some p) :
  (∀ t i, polls p t i = true → ∃ tr r,
     live_tasks (pc_runtime p) !! i = Some (Some tr) ∧
     process_exec (TaskSpawns t i) p = Some (Return (set_runtime p r)) ∧
     live_tasks r = live_tasks (pc_runtime p) ++ [Some (mkConcurrencyTracker (tracked_worker tr))]) ∧
  (∀ t, phase_is Starting p t = true → ∃ p', process_exec (RunWorker t) p = Some (Return p')) ∧
  (∀ w n, counters (pc_runtime p) !! w = Some n → n = wrap 64 (load (pc_runtime p) w)) ∧
  (len (pc_threads p) ≤ 2 ^ 64 → NoDup (th_name <$> pc_threads p)).
Proof.
  pose proof (process_run_ok b ls p Hname Hrun) as Hok. split_and!.
  - intros t i Hp. destruct (polls_worker _ _ _ _ Hok Hp) as (th & tr & Hth & Hi & Hl & _).
    exists tr, (worker_spawn_local (pc_runtime p) (tracked_worker tr)). split; [done|].
    cbn [process_exec]. rewrite Hp. unfold thread_spawn_local. rewrite Hth. cbn [expect run_bind].
    rewrite Hl. done.
  - intros t Hph. cbn [process_exec]. rewrite Hph. apply phase_thread in Hph as (th & Hth & Hph).
    destruct (Forall_lookup_1 _ _ _ _ (po_threads _ _ Hok) Hth) as [_ Hl]. rewrite Hph in Hl.
    unfold worker_run. rewrite Hth. cbn [expect run_bind]. rewrite Hl. by eexists.
  - apply (po_counters _ _ Hok).
  - intros Hlen. apply NoDup_alt. intros i j name Hi Hj. rewrite list_lookup_fmap in Hi, Hj.
    destruct (pc_threads p !! i) as [x|] eqn:Hx; [|done]. destruct (pc_threads p !! j) as [y|] eqn:Hy; [|done].
    injection Hi as Hi. injection Hj as Hj.
    rewrite (po_names _ _ Hok _ _ Hx) in Hi. rewrite (po_names _ _ Hok _ _ Hy) in Hj. subst name.
    apply thread_name_inj in Hj; [|by apply N.mod_lt..]. apply lookup_lt_Some in Hx, Hy. unfold len in Hlen.
    apply wrap_shift_inj in Hj; lia.
Qed.

(** Two workers: the runtime starts, a server task is put on each, and the one on
    worker 1 spawns the driver of a connection. *)
Definition demo_builder : Builder := set_worker_threads 2 builder_default.
Definition demo_labels : list ProcessLabel :=
  [SetDefault; Start; RunWorker 0; RunWorker 1; TaskSpawnsOnEach; TaskSpawns 1 1].

Lemma tasks_stay_on_their_worker_witness :
  ∃ p, exec_all process_goes demo_labels (build demo_builder) = Some p ∧
    counters (pc_runtime p) = [1; 2] ∧ polls p 1 2 = true ∧
    ∃ tr r, live_tasks (pc_runtime p) !! 2%nat = Some (Some tr) ∧
      process_exec (TaskSpawns 1 2) p = Some (Return (set_runtime p r)) ∧
      live_tasks r = live_tasks (pc_runtime p) ++ [Some (mkConcurrencyTracker (tracked_worker tr))].
Proof.
  destruct (exec_all process_goes demo_labels (build demo_builder)) as [p|] eqn:Hr;
    [|vm_compute in Hr; discriminate Hr].
  destruct (tasks_stay_on_their_worker demo_builder demo_labels p ltac:(done) Hr) as [Hp _].
  exists p. split; [reflexivity|]. assert (polls p 1 2 = true) as H12 by (vm_compute in Hr; by injection Hr as <-).
  split; [vm_compute in Hr; by injection Hr as <-|]. split; [exact H12|]. exact (Hp 1%nat 2%nat H12).
Defined.

(** A spawner is good for the load heuristic when the counters see what it spawns:
    [LevelSpawn] is, [TokioSpawn] is not. *)
Lemma level_spawn_is_counted p t th w :
  pc_threads p !! t = Some th → local_runtime th = Some w → (w < length (counters (pc_runtime p)))%nat →
  ∃ p', spawn TheLevelSpawn p t = Return p' ∧ untracked p' = untracked p ∧
    load (pc_runtime p') w = load (pc_runtime p) w + 1 ∧
    counters (pc_runtime p') !! w = (λ n, usize_add n 1) <$> counters (pc_runtime p) !! w.
Proof.
  intros Ht Hl Hw. unfold spawn, level_spawner, thread_spawn_local, local_spawn. rewrite Ht.
  cbn [expect run_bind]. rewrite Hl. eexists. split; [reflexivity|]. split; [done|]. cbn [pc_runtime set_runtime].
  rewrite spawn_local_load, decide_True by done. split; [done|]. apply list_lookup_alter_eq.
Qed.

Lemma tokio_spawn_is_not_counted p t th :
  pc_threads p !! t = Some th → th_phase th = Blocking →
  ∃ p', spawn TheTokioSpawn p t = Return p' ∧ untracked p' = untracked p ++ [th_worker th] ∧
    pc_runtime p' = pc_runtime p.
Proof.
  intros Ht Hph. unfold spawn, tokio_spawner, tokio_spawn. rewrite Ht. cbn [expect run_bind]. rewrite Hph.
  by eexists.
Qed.

(** [set_default] works once in a process. *)
Lemma set_default_once p p' : set_default p = Return p' → set_default p' = Panic.
Proof. unfold set_default. destruct (global_runtime p); [done|]. intros He. by injection He as <-. Qed.
End Levels.
