(* ===== verification/Server.v ===== *)
(** * Servers and their listeners

    [protosocket-server/src/connection_server.rs],
    [protosocket-rpc/src/server/{socket_server,server_traits}.rs] and
    [protosocket-connection/src/socket_listener.rs]: the accept loops, the
    configuration and the socket calls of a TCP listener.  The TLS listener is in
    [TlsListener]. *)

From S2P Require Import Prelude Spillway Encoding Connection ConnectionSpec RpcMessage ExampleService RpcServer RpcServerSpec.
Local Open Scope N_scope.
Local Open Scope run_scope.

(** ** Listeners ([socket_listener.rs]) *)

Inductive SocketResult (S : Type) :=
| SocketStream (stream : S)
| SocketDisconnect.
Arguments SocketStream {S} _.
Arguments SocketDisconnect {S}.

Class SocketListener (Li K S : Type) := {
  poll_accept : Li → K → Poll (SocketResult S) * Li;
}.

(** A listener is not ready for ever: the backlog it has is accepted, and it does
    not grow while a poll looks at it. *)
Class SocketListenerLaws (Li K S : Type) `{SocketListener Li K S} := {
  backlog : Li → nat;
  accept_law l k :
    match poll_accept l k with
    | (Ready (SocketStream _), l') => (backlog l' < backlog l)%nat
    | (Pending, l') => (backlog l' ≤ backlog l)%nat
    | (Ready SocketDisconnect, _) => True
    end;
}.

Inductive SocketAddr :=
| AddrV4 (ip : u32) (port : N)
| AddrV6 (ip : N) (port : N).

Record StreamWithAddress (S : Type) := mkStreamWithAddress {
  inner_stream : S;
  address : SocketAddr;
}.
Arguments mkStreamWithAddress {S} _ _.
Arguments inner_stream {S} _.
Arguments address {S} _.

(** [AsyncRead] and [AsyncWrite] of [StreamWithAddress]. *)
Section stream_with_address.
Context {S K : Type} `{AsyncStreamLaws S K}.

#[export] Instance address_stream : AsyncStream (StreamWithAddress S) K := {|
  poll_read s k room :=
    let '(p, i) := poll_read (inner_stream s) k room in (p, mkStreamWithAddress i (address s));
  poll_write_vectored s k slices :=
    let '(p, i) := poll_write_vectored (inner_stream s) k slices in (p, mkStreamWithAddress i (address s));
  poll_flush s k :=
    let '(p, i) := poll_flush (inner_stream s) k in (p, mkStreamWithAddress i (address s));
|}.

#[export] Instance address_stream_laws : AsyncStreamLaws (StreamWithAddress S) K.
Proof.
  refine {| inbound s := inbound (inner_stream s); outbound s := outbound (inner_stream s);
            patience s := patience (inner_stream s) |}.
  - intros [s a] k room. simpl. pose proof (read_law s k room) as Hl. by destruct (poll_read s k room).
  - intros [s a] k slices. simpl. pose proof (write_law s k slices) as Hl.
    by destruct (poll_write_vectored s k slices).
  - intros [s a] k. simpl. pose proof (flush_law s k) as Hl. by destruct (poll_flush s k).
Defined.
End stream_with_address.

(** [tokio::net::TcpListener], a library type. *)
Class TokioListener (T K S : Type) := {
  tokio_poll_accept : T → K → Poll (result (S * SocketAddr) IoError) * T;
}.

(** [TcpSocketListener::poll_accept]; a stream whose [nodelay] cannot be set is
    only logged. *)
#[export] Instance tcp_listener {T K S} `{TokioListener T K S} : SocketListener T K (StreamWithAddress S) := {|
  poll_accept l k :=
    let '(p, l) := tokio_poll_accept l k in
    (match p with
     | Ready (Ok (stream, address)) => Ready (SocketStream (mkStreamWithAddress stream address))
     | Ready (Err _) => Ready SocketDisconnect
     | Pending => Pending
     end, l);
|}.

(** [TcpSocketListener::listen]: the calls on the socket, in order; the first that
    fails ends it. *)
Inductive SocketCall :=
| NewSocket (v6 : bool)
| SetNonblocking (on : bool)
| SetTcpNodelay (on : bool)
| SetTcpKeepalive (time : option N)
| SetReusePort (on : bool)
| SetReuseAddress (on : bool)
| Bind (address : SocketAddr)
| Listen (backlog : N)
| FromStd.

Definition listen_calls (address : SocketAddr) (listen_backlog : u32) (tcp_keepalive_duration : option N)
  : list SocketCall :=
  [NewSocket match address with AddrV4 _ _ => false | AddrV6 _ _ => true end;
   SetNonblocking true; SetTcpNodelay true; SetTcpKeepalive tcp_keepalive_duration;
   SetReusePort true; SetReuseAddress true; Bind address;
   Listen (N.min listen_backlog 2147483647); FromStd].

Fixpoint perform (sys : SocketCall → result unit IoError) (calls : list SocketCall)
  : list SocketCall * result unit IoError :=
  match calls with
  | [] => ([], Ok tt)
  | call :: calls =>
      match sys call with
      | Ok _ => let '(made, r) := perform sys calls in (call :: made, r)
      | Err e => ([call], Err e)
      end
  end.

(** The calls are made in order up to the first that fails. *)
Lemma perform_spec sys calls :
  (Forall (λ call, sys call = Ok tt) calls ∧ perform sys calls = (calls, Ok tt)) ∨
  ∃ made call rest e, calls = made ++ call :: rest ∧ Forall (λ call, sys call = Ok tt) made ∧
    sys call = Err e ∧ perform sys calls = (made ++ [call], Err e).
Proof.
  induction calls as [|call calls IH]; [by left|]. simpl.
  destruct (sys call) as [[]|e] eqn:Hc; [|right; by exists [], call, calls, e].
  destruct IH as [[Hall ->]|(made & c & rest & e & -> & Hall & He & ->)].
  - left. split; [by constructor|done].
  - right. exists (call :: made), c, rest, e. split_and!; try done. by constructor.
Qed.

Definition tcp_listen (sys : SocketCall → result unit IoError) (address : SocketAddr)
  (listen_backlog : u32) (tcp_keepalive_duration : option N) : list SocketCall * result unit IoError :=
  perform sys (listen_calls address listen_backlog tcp_keepalive_duration).

(** ** Configuration ([connection_server.rs]) *)

Record ProtosocketSocketConfig := mkSocketConfig {
  nodelay : bool;
  reuse : bool;
  keepalive_duration : option N;
  listen_backlog : u32;
}.

Definition set_nodelay (x : bool) (c : ProtosocketSocketConfig) : ProtosocketSocketConfig :=
  mkSocketConfig x (reuse c) (keepalive_duration c) (listen_backlog c).
Definition set_reuse (x : bool) (c : ProtosocketSocketConfig) : ProtosocketSocketConfig :=
  mkSocketConfig (nodelay c) x (keepalive_duration c) (listen_backlog c).
Definition set_keepalive_duration (x : N) (c : ProtosocketSocketConfig) : ProtosocketSocketConfig :=
  mkSocketConfig (nodelay c) (reuse c) (Some x) (listen_backlog c).
Definition set_listen_backlog (x : u32) (c : ProtosocketSocketConfig) : ProtosocketSocketConfig :=
  mkSocketConfig (nodelay c) (reuse c) (keepalive_duration c) x.

Definition socket_config_default : ProtosocketSocketConfig := mkSocketConfig true true None 65536.

Record ProtosocketServerConfig := mkServerConfig {
  cfg_max_buffer_length : usize;
  cfg_max_queued_outbound_messages : usize;
  cfg_buffer_allocation_increment : usize;
  socket_config : ProtosocketSocketConfig;
}.

Definition server_config_default : ProtosocketServerConfig :=
  mkServerConfig (16 * (2 * 2 ^ 20)) 128 (2 ^ 20) socket_config_default.

(** Its setters. *)
Definition server_max_buffer_length (x : usize) (c : ProtosocketServerConfig) : ProtosocketServerConfig :=
  mkServerConfig x (cfg_max_queued_outbound_messages c) (cfg_buffer_allocation_increment c) (socket_config c).
Definition server_max_queued_outbound_messages (x : usize) (c : ProtosocketServerConfig)
  : ProtosocketServerConfig :=
  mkServerConfig (cfg_max_buffer_length c) x (cfg_buffer_allocation_increment c) (socket_config c).
Definition server_buffer_allocation_increment (x : usize) (c : ProtosocketServerConfig)
  : ProtosocketServerConfig :=
  mkServerConfig (cfg_max_buffer_length c) (cfg_max_queued_outbound_messages c) x (socket_config c).
Definition server_socket_config (x : ProtosocketSocketConfig) (c : ProtosocketServerConfig)
  : ProtosocketServerConfig :=
  mkServerConfig (cfg_max_buffer_length c) (cfg_max_queued_outbound_messages c)
    (cfg_buffer_allocation_increment c) x.

(** [bind_tcp]: the calls that it makes. *)
Definition bind_tcp_listen (sys : SocketCall → result unit IoError) (c : ProtosocketServerConfig)
  (address : SocketAddr) : list SocketCall * result unit IoError :=
  tcp_listen sys address (listen_backlog (socket_config c)) (keepalive_duration (socket_config c)).

(** ** The accept loop of a server

    Both servers run the same loop; [handle] makes the connection of a stream. *)
Section accept_loop.
Context {Li K S Srv Conn : Type} `{SocketListener Li K S}.
Context (handle : Srv → S → run (Conn * Srv)).

Fixpoint accept_loop (fuel : nat) (srv : Srv) (l : Li) (k : K)
  : run (Poll (result unit IoError) * Srv * Li * list Conn) :=
  match fuel with
  | O => OutOfFuel
  | Datatypes.S fuel =>
      let '(p, l) := poll_accept l k in
      match p with
      | Ready (SocketStream stream) =>
          let* '(connection, srv) := handle srv stream in
          let* '(p, srv, l, spawned) := accept_loop fuel srv l k in
          Return (p, srv, l, connection :: spawned)
      | Ready SocketDisconnect => Return (Ready (Ok tt), srv, l, [])
      | Pending => Return (Pending, srv, l, [])
      end
  end.

(** What a listener gives until it is pending or disconnects. *)
Inductive accepts (k : K) : Li → list S → Li → bool → Prop :=
| accepts_pending l l' : poll_accept l k = (Pending, l') → accepts k l [] l' false
| accepts_disconnect l l' : poll_accept l k = (Ready SocketDisconnect, l') → accepts k l [] l' true
| accepts_stream l l1 l' s ss closed :
    poll_accept l k = (Ready (SocketStream s), l1) → accepts k l1 ss l' closed →
    accepts k l (s :: ss) l' closed.

Lemma accept_loop_spec `{!SocketListenerLaws Li K S} (inv : Srv → Prop) (good : S → Conn → Prop) :
  (∀ srv s, inv srv → ∃ c srv', handle srv s = Return (c, srv') ∧ good s c ∧ inv srv') →
  ∀ fuel srv l k, inv srv → (backlog l < fuel)%nat →
  ∃ closed srv' l' ss spawned,
    accept_loop fuel srv l k
      = Return (if closed : bool then Ready (Ok tt) else Pending, srv', l', spawned) ∧
    accepts k l ss l' closed ∧ Forall2 good ss spawned ∧ inv srv'.
Proof.
  intros Hhandle fuel. induction fuel as [|fuel IH]; intros srv l k Hinv Hf; [lia|].
  cbn [accept_loop]. pose proof (accept_law l k) as Hlaw.
  destruct (poll_accept l k) as [[[s|]|] l1] eqn:Hp.
  - destruct (Hhandle srv s Hinv) as (c & srv1 & -> & Hg & Hinv1). cbn [run_bind].
    destruct (IH srv1 l1 k Hinv1) as (closed & srv' & l' & ss & spawned & -> & Ha & Hs & Hi); [lia|].
    cbn [run_bind]. exists closed, srv', l', (s :: ss), (c :: spawned).
    split; [done|]. split; [by eapply accepts_stream|]. split; [by constructor|done].
  - exists true, srv, l1, [], []. split; [done|]. split; [by apply accepts_disconnect|]. by split; [constructor|].
  - exists false, srv, l1, [], []. split; [done|]. split; [by apply accepts_pending|]. by split; [constructor|].
Qed.
End accept_loop.

(** ** The message server ([connection_server.rs]) *)

Class ServerConnector (Co C R W L S : Type) := {
  connector_codec : Co → C * Co;
  new_reactor : Co → Sender → Shared W L → S → R * Shared W L * Co;
}.

Record ProtosocketServer (Co : Type) := mkProtosocketServer {
  connector : Co;
  srv_max_buffer_length : usize;
  srv_buffer_allocation_increment : usize;
  srv_max_queued_outbound_messages : usize;
}.
Arguments mkProtosocketServer {Co} _ _ _ _.
Arguments connector {Co} _.
Arguments srv_max_buffer_length {Co} _.
Arguments srv_buffer_allocation_increment {Co} _.
Arguments srv_max_queued_outbound_messages {Co} _.

(** [ProtosocketServer::new]. *)
Definition protosocket_server_new {Co} (connector : Co) (config : ProtosocketServerConfig)
  : ProtosocketServer Co :=
  mkProtosocketServer connector (cfg_max_buffer_length config)
    (cfg_buffer_allocation_increment config) (cfg_max_queued_outbound_messages config).

(** [ProtosocketServerConfig::bind_tcp]: a server, or the error of the call that
    failed; and [build_server] with a listener that is there already. *)
Definition bind_tcp {Co} (sys : SocketCall → result unit IoError) (c : ProtosocketServerConfig)
  (address : SocketAddr) (connector : Co) : result (ProtosocketServer Co) IoError :=
  match (bind_tcp_listen sys c address).2 with
  | Ok _ => Ok (protosocket_server_new connector c)
  | Err e => Err e
  end.

Definition build_server {Co} (c : ProtosocketServerConfig) (connector : Co) : ProtosocketServer Co :=
  protosocket_server_new connector c.

Section message_server.
Context {Li K S Co C B R W L : Type} `{AtomicWaker W K} `{SocketListener Li K S}.
Context `{!ServerConnector Co C R W L S}.

(** One accepted stream: the reactor gets a clone of the sender of its outbound
    queue, and the loop's own sender is dropped once the connection is spawned. *)
Definition message_connection (srv : ProtosocketServer Co) (stream : S)
  : run (Connection S (Shared W L * Receiver L) C B R * ProtosocketServer Co) :=
  let* '(outbound_submission_queue, outbound_messages, s) := channel in
  let* '(clone, s) := sender_clone outbound_submission_queue s in
  let '(reactor, s, co) := new_reactor (connector srv) clone s stream in
  let '(codec, co) := connector_codec co in
  let s := (sender_drop outbound_submission_queue s).1 in
  Return (new stream codec (srv_max_buffer_length srv) (srv_buffer_allocation_increment srv)
            (srv_max_queued_outbound_messages srv) (s, outbound_messages) reactor,
          mkProtosocketServer co (srv_max_buffer_length srv) (srv_buffer_allocation_increment srv)
            (srv_max_queued_outbound_messages srv)).

(** [Future::poll] of [ProtosocketServer]. *)
Definition message_server_poll (fuel : nat) (srv : ProtosocketServer Co) (l : Li) (k : K) :=
  accept_loop message_connection fuel srv l k.
End message_server.

(** A connector's reactor gets a sender of the queue and may use it, but the queue
    stays in order. *)
Class ServerConnectorLaws (Co C R W L S : Type) `{AtomicWaker W K} `{!ServerConnector Co C R W L S} :=
  connector_law (co : Co) x (q : Shared W L) s (v : Receiver L) : unbounded q v →
    unbounded (new_reactor co x q s).1.2 v.

Section message_server_spec.
Context {Li K S Co C In Out B R W L : Type} {limit : usize}.
Context `{AtomicWakerLaws W K} `{SocketListenerLaws Li K S} `{!AsyncStream S K} `{!AsyncStreamLaws S K}.
Context `{!ServerConnector Co C R W L S} `{!ServerConnectorLaws Co C R W L S}.
Context `{CodecLaws C In Out B limit} `{!MessageReactor R K C B In Out L}.
Abbreviation MessageConnection := (Connection S (Shared W L * Receiver L) C B R).

(** The configuration as far as the connections depend on it. *)
Record message_server_ok (srv : ProtosocketServer Co) : Prop := {
  mo_limit : srv_max_buffer_length srv = limit;
  mo_pos : 0 < limit;
  mo_increment : 0 < srv_buffer_allocation_increment srv;
  mo_width : limit + srv_buffer_allocation_increment srv < 2 ^ 63;
  mo_queued : srv_max_queued_outbound_messages srv < 2 ^ 63;
}.

(** A spawned connection: for its stream, in order, with the reactor that a
    connector made of a sender of its queue and of the stream. *)
Definition connected (stream0 : S) (c : MessageConnection) : Prop :=
  stream c = stream0 ∧ conn_ok (L:=L) (In:=In) (Out:=Out) (limit:=limit) c ∧
  ∃ co x q, reactor c = (new_reactor co x q stream0).1.1 ∧ senders q = 2 ∧ waiting q receiver_new = [].

Lemma message_connection_spec srv s :
  message_server_ok srv → (∀ co, let '(codec, _) := connector_codec co in dec_ok codec [] ∧ enc_ok codec) →
  ∃ c srv', message_connection srv s = Return (c, srv') ∧ connected s c ∧ message_server_ok srv'.
Proof.
  intros [H1' H2' H3' H4' H5'] Hcodec. unfold message_connection.
  destruct (channel_new_inv (T:=L) max_u64 8) as (x & r & q & Hch & Hinv & Hpv & Hse & Hcap & _);
    [lia|done|].
  assert (r = receiver_new) as ->.
  { unfold channel_with_capacity_and_concurrency in Hch. apply run_bind_Return in Hch as ([? ?] & _ & Hch).
    by injection Hch as _ <- _. }
  unfold channel, channel_with_concurrency. rewrite Hch. cbn [run_bind].
  assert (unbounded q receiver_new) as Hun by by split.
  destruct (sender_clone x q) as [[y q1]| |] eqn:Hcl.
  2-3: unfold sender_clone, choose_chute in Hcl; destruct (inv_ok _ _ Hinv); simpl in Hcl;
    destruct (N.eqb_spec (len (chutes q)) 0); simpl in Hcl; first [done|lia].
  destruct (sender_clone_spec x q receiver_new y q1 Hun Hcl) as (Hun1 & Hcs & Hse1 & _). cbn [run_bind].
  pose proof (connector_law (connector srv) y q1 s receiver_new Hun1) as Hun2.
  destruct (new_reactor (connector srv) y q1 s) as [[re q2] co] eqn:Hr. simpl in Hun2.
  specialize (Hcodec co). destruct (connector_codec co) as [codec co']. destruct Hcodec as [Hd He].
  destruct (sender_drop_spec x q2 receiver_new Hun2) as ([Hinv' Hcap'] & _ & _).
  do 2 eexists. split; [done|]. split; [|by split].
  split; [done|]. split; [by apply new_ok|].
  exists (connector srv), y, q1. simpl. rewrite Hr. split; [done|]. split; [by rewrite Hse1, Hse|].
  apply Permutation_nil. unfold waiting. rewrite Hcs. fold (waiting q receiver_new).
  by rewrite <-pending_waiting, Hpv.
Qed.
End message_server_spec.

(** ** The rpc server ([socket_server.rs], [server_traits.rs]) *)

Class SocketService (V0 V C S : Type) := {
  service_codec : V0 → C * V0;
  new_stream_service : V0 → S → V * V0;
}.

Record SocketRpcServer (V0 : Type) := mkSocketRpcServer {
  socket_server : V0;
  rpc_max_buffer_length : usize;
  rpc_buffer_allocation_increment : usize;
  rpc_max_queued_outbound_messages : usize;
}.
Arguments mkSocketRpcServer {V0} _ _ _ _.
Arguments socket_server {V0} _.
Arguments rpc_max_buffer_length {V0} _.
Arguments rpc_buffer_allocation_increment {V0} _.
Arguments rpc_max_queued_outbound_messages {V0} _.

(** [new_with_spawner] and the setters. *)
Definition rpc_server_new {V0} (v : V0) (max_buffer_length buffer_allocation_increment
  max_queued_outbound_messages : usize) : SocketRpcServer V0 :=
  mkSocketRpcServer v max_buffer_length buffer_allocation_increment max_queued_outbound_messages.

Definition set_max_buffer_length {V0} (x : usize) (s : SocketRpcServer V0) : SocketRpcServer V0 :=
  mkSocketRpcServer (socket_server s) x (rpc_buffer_allocation_increment s)
    (rpc_max_queued_outbound_messages s).

Definition set_max_queued_outbound_messages {V0} (x : usize) (s : SocketRpcServer V0)
  : SocketRpcServer V0 :=
  mkSocketRpcServer (socket_server s) (rpc_max_buffer_length s) (rpc_buffer_allocation_increment s) x.

Section rpc_server.
Context {Li K S0 V0 V C B Req Res F S P W : Type} {limit : usize}.
Context `{AtomicWaker W K} `{FutureOp F K Res} `{StreamOp S K Res}.
Context `{ConnectionService V K Req F S}.
Context `{!Message Req} `{MessageLaws Res}.
Context `{FuturesUnorderedLaws P (RpcStream F S) (u64 * RpcStreamEvent Res) (list (AbortCell W))}.
Context `{SocketListenerLaws Li K S0} `{!AsyncStream S0 K} `{!AsyncStreamLaws S0 K}.
Context `{CodecLaws C Req Res B limit} `{!SocketService V0 V C S0}.
Abbreviation RpcConnection :=
  (Connection S0 (Shared W Res * Receiver Res) C B (RpcSubmitter V P W)).

(** One accepted stream: all responses go through the submitter, so the queue's
    only sender is dropped once the connection is spawned. *)
Definition rpc_connection (srv : SocketRpcServer V0) (stream : S0)
  : run (RpcConnection * SocketRpcServer V0) :=
  let '(connection_service, v) := new_stream_service (socket_server srv) stream in
  let* '(no_senders, outbound_messages_receiver, s) := channel in
  let submitter := submitter_new connection_service in
  let '(codec, v) := service_codec v in
  let s := (sender_drop no_senders s).1 in
  Return (new stream codec (rpc_max_buffer_length srv) (rpc_buffer_allocation_increment srv)
            (rpc_max_queued_outbound_messages srv) (s, outbound_messages_receiver) submitter,
          mkSocketRpcServer v (rpc_max_buffer_length srv) (rpc_buffer_allocation_increment srv)
            (rpc_max_queued_outbound_messages srv)).

(** [Future::poll] of [SocketRpcServer]. *)
Definition rpc_server_poll (fuel : nat) (srv : SocketRpcServer V0) (l : Li) (k : K) :=
  accept_loop rpc_connection fuel srv l k.

(** The configuration of a server as far as its connections depend on it. *)
Record server_ok (srv : SocketRpcServer V0) : Prop := {
  so_limit : rpc_max_buffer_length srv = limit;
  so_pos : 0 < limit;
  so_increment : 0 < rpc_buffer_allocation_increment srv;
  so_width : limit + rpc_buffer_allocation_increment srv < 2 ^ 63;
  so_queued : rpc_max_queued_outbound_messages srv < 2 ^ 63;
}.

(** A spawned connection: for its stream, in order, with a new reactor and an
    empty queue without senders. *)
Definition fresh_connection (stream0 : S0) (c : RpcConnection) : Prop :=
  stream c = stream0 ∧ conn_ok (L:=Res) (In:=Req) (Out:=Res) (limit:=limit) c ∧
  sub_ok (reactor c) ∧ pooled (reactor c) = [] ∧
  queue_waiting (outbound_messages c) = [] ∧ senders (outbound_messages c).1 = 0 ∧
  send_buffer c = [] ∧ unread_bytes c = [] ∧ ∃ v, reactor c = submitter_new v.

Lemma rpc_connection_spec srv s :
  server_ok srv → (∀ v, let '(co, _) := service_codec v in dec_ok co [] ∧ enc_ok co) →
  ∃ c srv', rpc_connection srv s = Return (c, srv') ∧ fresh_connection s c ∧ server_ok srv'.
Proof.
  intros [H1' H2' H3' H4' H5'] Hcodec. unfold rpc_connection.
  destruct (new_stream_service (socket_server srv) s) as [v v0].
  destruct (channel_new_inv (T:=Res) max_u64 8) as (x & r & q & Hch & Hinv & Hpv & Hse & Hcap & _);
    [lia|done|].
  unfold channel, channel_with_concurrency. rewrite Hch. cbn [run_bind].
  specialize (Hcodec v0). destruct (service_codec v0) as [co v1]. destruct Hcodec as [Hd He].
  destruct (sender_drop_spec x q r) as ([Hinv' Hcap'] & Hcs & Hse'); [by split|].
  do 2 eexists. split; [done|]. split; [|by split].
  split; [done|]. split; [|split; [apply submitter_new_ok|split_and!]].
  - apply new_ok; try done.
  - unfold pooled. simpl. by rewrite pool_contents_default.
  - simpl. unfold pending_values in *. by rewrite Hcs.
  - simpl. by rewrite Hse', Hse.
  - done.
  - done.
  - by exists v.
Qed.

(** What a poll of the server does. *)
Lemma rpc_server_poll_spec srv (l : Li) fuel k :
  server_ok srv → (∀ v : V0, dec_ok (service_codec v).1 [] ∧ enc_ok (service_codec v).1) → (backlog l < fuel)%nat →
  ∃ closed srv' l' ss spawned,
    rpc_server_poll fuel srv l k = Return (if closed : bool then Ready (Ok tt) else Pending, srv', l', spawned) ∧
    accepts k l ss l' closed ∧ Forall2 fresh_connection ss spawned ∧ server_ok srv'.
Proof.
  intros Hok Hcodec Hfuel. apply (accept_loop_spec rpc_connection server_ok fresh_connection); [|done|done].
  intros srv1 s Hok1. apply rpc_connection_spec; [done|]. intros v. specialize (Hcodec v). by destruct (service_codec v).
Qed.
End rpc_server.

(** ** The properties *)

Module Servers.
Import WakerCell Demo RpcReactor.

Section claims.
Context {Li K S0 V0 V C B Req Res F S P W : Type} {limit : usize}.
Context `{AtomicWaker W K} `{FutureOp F K Res} `{StreamOp S K Res}.
Context `{ConnectionService V K Req F S}.
Context `{!Message Req} `{MessageLaws Res}.
Context `{FuturesUnorderedLaws P (RpcStream F S) (u64 * RpcStreamEvent Res) (list (AbortCell W))}.
Context `{SocketListenerLaws Li K S0} `{!AsyncStream S0 K} `{!AsyncStreamLaws S0 K}.
Context `{CodecLaws C Req Res B limit} `{!SocketService V0 V C S0}.

(** C28: an rpc server takes everything its listener has: a poll returns, after
    accepting streams until the listener is pending or disconnects; for each of
    them, in order, it spawns a connection in order, on which the theorems about
    connections and reactors hold, with a new reactor and an outbound queue
    without senders; it ends, without an error, only when the listener
    disconnects. *)
Theorem rpc_server_spawns (srv : SocketRpcServer V0) (l : Li) (fuel : nat) (k : K)
  (Hok : server_ok (limit:=limit) srv)
  (Hcodec : ∀ v : V0, dec_ok (service_codec v).1 [] ∧ enc_ok (service_codec v).1)
  (Hfuel : (backlog l < fuel)%nat) :
  ∃ closed srv' l' ss spawned,
    rpc_server_poll (P:=P) fuel srv l k
      = Return (if closed : bool then Ready (Ok tt) else Pending, srv', l', spawned) ∧
    accepts k l ss l' closed ∧ Forall2 fresh_connection ss spawned ∧
    server_ok (limit:=limit) srv'.
Proof.
  by apply rpc_server_poll_spec.
Qed.
End claims.

Section message_claims.
Context {Li K S Co C In Out B R W L : Type} {limit : usize}.
Context `{AtomicWakerLaws W K} `{SocketListenerLaws Li K S} `{!AsyncStream S K} `{!AsyncStreamLaws S K}.
Context `{!ServerConnector Co C R W L S} `{!ServerConnectorLaws Co C R W L S}.
Context `{CodecLaws C In Out B limit} `{!MessageReactor R K C B In Out L}.

(** A message server takes everything its listener has: a poll returns, after
    accepting streams until the listener is pending or disconnects; for each of
    them, in order, it spawns a connection in order, whose reactor its connector
    made of the stream and of a sender of the connection's own queue, on which
    nothing waits. *)
Theorem message_server_spawns (srv : ProtosocketServer Co) (l : Li) (fuel : nat) (k : K)
  (Hok : message_server_ok (limit:=limit) srv)
  (Hcodec : ∀ co : Co, dec_ok (connector_codec co).1 [] ∧ enc_ok (connector_codec co).1)
  (Hfuel : (backlog l < fuel)%nat) :
  ∃ closed srv' l' ss spawned,
    message_server_poll fuel srv l k
      = Return (if closed : bool then Ready (Ok tt) else Pending, srv', l', spawned) ∧
    accepts k l ss l' closed ∧
    Forall2 (connected (In:=In) (Out:=Out) (limit:=limit)) ss spawned ∧
    message_server_ok (limit:=limit) srv'.
Proof.
  apply (accept_loop_spec message_connection (message_server_ok (limit:=limit))
    (connected (In:=In) (Out:=Out) (limit:=limit))); [|done|done].
  intros srv1 s Hok1. apply message_connection_spec; [done|].
  intros co. specialize (Hcodec co). by destruct (connector_codec co).
Qed.
End message_claims.

(** A listener that follows a script, and a codec of one byte per message. *)
#[export] Instance script_listener : TokioListener (list (result (ScriptedStream * SocketAddr) IoError)) nat ScriptedStream := {|
  tokio_poll_accept l _ :=
    match l with [] => (Pending, []) | r :: l => (Ready r, l) end;
|}.

#[export] Instance script_listener_laws :
  SocketListenerLaws (list (result (ScriptedStream * SocketAddr) IoError)) nat (StreamWithAddress ScriptedStream).
Proof. refine {| backlog := length |}. intros [|[[s a]|e] l] k; simpl; try done; lia. Defined.

#[export] Instance tag_decoder : Decoder unit Request := {|
  decode d u :=
    (match u with [] => Err (IncompleteBuffer 1) | x :: _ => Ok (1, mkRequest x 0 None Unary) end, d);
|}.

#[export] Instance tag_decoder_laws : DecoderLaws unit Request 16.
Proof.
  refine {| frame u := match u with [] => Err (IncompleteBuffer 1) | x :: _ => Ok (1, mkRequest x 0 None Unary) end;
            dec_ok _ _ := True |}; try done.
  - intros d [|x u] _ Hne _; done.
  - intros [|x u] n m He; simplify_eq. rewrite len_cons. lia.
  - intros [|x u] n He; simplify_eq. done.
  - intros [|x u] n He; simplify_eq.
  - intros [|x u] v r Hne <- _ _; done.
Defined.

#[export] Instance tag_serialize_laws : SerializeLaws unit Response.
Proof. by refine {| serialized m := [res_request_id m mod 256] |}. Defined.

#[export] Instance demo_service : SocketService unit unit (unit * unit) (StreamWithAddress ScriptedStream) := {|
  service_codec v := ((tt, tt), v);
  new_stream_service v _ := (tt, v);
|}.

Definition demo_server : SocketRpcServer unit := rpc_server_new tt 16 4 8.

Definition demo_peer : StreamWithAddress ScriptedStream :=
  mkStreamWithAddress (mkScriptedStream [] [] [] []) (AddrV4 0 9000).

Lemma rpc_server_spawns_witness :
  ∃ srv' spawned,
    rpc_server_poll (C:=unit * unit) (V:=unit) (B:=OwnedBuffer) (K:=nat) (W:=option nat) (Res:=Response)
      (F:=Response) (S:=list Response) (P:=list (RpcStream Response (list Response)))
      9 demo_server [Ok (mkScriptedStream [] [] [] [], AddrV4 0 9000)] 5%nat
      = Return (Pending, srv', [], spawned) ∧ length spawned = 1%nat.
Proof.
  destruct (rpc_server_spawns (limit:=16) (C:=unit * unit) (V:=unit) (B:=OwnedBuffer) (W:=option nat) (Req:=Request) (Res:=Response)
    (F:=Response) (S:=list Response) (P:=list (RpcStream Response (list Response)))
    demo_server [Ok (mkScriptedStream [] [] [] [], AddrV4 0 9000)] 9 5%nat)
    as (closed & srv' & l' & ss & spawned & He & Ha & Hs & _);
    [split; vm_compute; done|done|vm_compute; lia|].
  exists srv', spawned. revert He Hs.
  inversion Ha as [| |a l1 b s0 ss1 c Hp Ha1]; subst; [discriminate..|].
  simpl in Hp. injection Hp as <- <-.
  inversion Ha1 as [? ? Hp|? ? Hp|? ? ? ? ? ? Hp]; subst; simpl in Hp; try discriminate Hp.
  injection Hp as <-. intros He Hs. split; [exact He|].
  inversion Hs as [|? ? ? ? ? Hs1]; subst. by inversion Hs1.
Defined.

(** A connector of the echo reactor of [ConnectionSpec], which keeps no sender. *)
#[export] Instance echo_connector {W} `{AtomicWaker W nat}
  : ServerConnector unit (unit * unit) EchoReactor W u8 (StreamWithAddress ScriptedStream) := {|
  connector_codec co := ((tt, tt), co);
  new_reactor co x q _ := (mkEchoReactor [] [], (sender_drop x q).1, co);
|}.

#[export] Instance echo_connector_laws {W} `{AtomicWakerLaws W nat}
  : ServerConnectorLaws unit (unit * unit) EchoReactor W u8 (StreamWithAddress ScriptedStream).
Proof. intros co x q s v Hq. by apply (sender_drop_spec x q v). Qed.

Lemma message_server_spawns_witness :
  ∃ srv' spawned,
    message_server_poll (K:=nat) (B:=OwnedBuffer) (W:=option nat) 9
      (protosocket_server_new tt (server_max_buffer_length frame_limit server_config_default))
      [Ok (mkScriptedStream [] [] [] [], AddrV4 0 9000); Ok (mkScriptedStream [] [] [] [], AddrV4 0 9001)] 5%nat
      = Return (Pending, srv', [], spawned) ∧ length spawned = 2%nat.
Proof.
  destruct (message_server_spawns (limit:=frame_limit) (In:=u8) (Out:=u8) (B:=OwnedBuffer) (W:=option nat)
    (protosocket_server_new tt (server_max_buffer_length frame_limit server_config_default))
    [Ok (mkScriptedStream [] [] [] [], AddrV4 0 9000); Ok (mkScriptedStream [] [] [] [], AddrV4 0 9001)] 9 5%nat)
    as (closed & srv' & l' & ss & spawned & He & Ha & Hs & _);
    [split; vm_compute; done|done|vm_compute; lia|].
  exists srv', spawned. revert He Hs.
  inversion Ha as [| |a l1 b s0 ss1 c Hp Ha1]; subst; [discriminate..|].
  simpl in Hp. injection Hp as <- <-.
  inversion Ha1 as [| |a l2 b s1 ss2 c Hp Ha2]; subst; [discriminate..|].
  simpl in Hp. injection Hp as <- <-.
  inversion Ha2 as [? ? Hp|? ? Hp|? ? ? ? ? ? Hp]; subst; simpl in Hp; try discriminate Hp.
  injection Hp as <-. intros He Hs. split; [exact He|]. by apply Forall2_length in Hs.
Defined.

(** The default configuration is one that the connections can work with. *)
Lemma default_configuration_ok :
  0 < cfg_max_buffer_length server_config_default ∧
  0 < cfg_buffer_allocation_increment server_config_default ∧
  cfg_max_buffer_length server_config_default + cfg_buffer_allocation_increment server_config_default < 2 ^ 63.
Proof. vm_compute. done. Qed.

(** [bind_tcp] makes the same calls whatever [nodelay] and [reuse] are. *)
Lemma bind_tcp_ignores_options sys c address on on' :
  bind_tcp_listen sys
    (mkServerConfig (cfg_max_buffer_length c) (cfg_max_queued_outbound_messages c)
       (cfg_buffer_allocation_increment c) (set_nodelay on (set_reuse on' (socket_config c)))) address
  = bind_tcp_listen sys c address.
Proof. done. Qed.

(** A connection attempt that the system aborts before it is accepted ends the
    whole server, and without an error. *)
Example accept_error_ends_the_server :
  match rpc_server_poll (C:=unit * unit) (V:=unit) (B:=OwnedBuffer) (K:=nat) (W:=option nat) (Res:=Response)
      (F:=Response) (S:=list Response) (P:=list (RpcStream Response (list Response)))
      9 demo_server [Err (OtherIo 53); Ok (mkScriptedStream [] [] [] [], AddrV4 0 9000)] 5%nat with
  | Return (p, _, _, spawned) => p = Ready (Ok tt) ∧ spawned = []
  | _ => False
  end.
Proof. vm_compute. done. Qed.
End Servers.
