(* ===== verification/TlsListener.v ===== *)
(** * The TLS listener

    [TlsSocketListener] of [protosocket-connection/src/socket_listener.rs]: it
    accepts streams from a TCP listener, lets their handshakes run in a join set,
    and hands out the streams whose handshake has succeeded.  It is a listener
    itself, so the theorems about the servers hold for it. *)

From S2P Require Import Prelude Encoding Connection ConnectionSpec Server.
Local Open Scope N_scope.
Local Open Scope run_scope.

(** [tokio::task::JoinSet] of tasks [A] with outputs [T]; [Err tt] is a task that
    panicked or was aborted.  [completes a x] says that [x] can be the output
    of [a]. *)
Class JoinSet (J A T K : Type) := {
  join_spawn : J → A → J;
  poll_join_next : J → K → Poll (option (result T unit)) * J;
}.

Class JoinSetLaws (J A T K : Type) (completes : A → T → Prop) `{JoinSet J A T K} := {
  in_set : J → list A;
  spawn_law j a : in_set (join_spawn j a) ≡ₚ a :: in_set j;
  join_next_law j k :
    match poll_join_next j k with
    | (Ready None, j') => in_set j = [] ∧ in_set j' = []
    | (Ready (Some r), j') =>
        ∃ a, in_set j ≡ₚ a :: in_set j' ∧ match r with Ok x => completes a x | Err _ => True end
    | (Pending, j') => in_set j' ≡ₚ in_set j
    end;
}.

(** [tokio_rustls::TlsAcceptor::accept]: the handshake of a stream. *)
Class TlsAcceptor (Ac S H : Type) := tls_accept : Ac → S → H.

(** The task of an accepted stream: [async move { (accept.await, address) }]. *)
Record TlsTask (H : Type) := mkTlsTask {
  task_handshake : H;
  task_address : SocketAddr;
}.
Arguments mkTlsTask {H} _ _.
Arguments task_handshake {H} _.
Arguments task_address {H} _.

Record TlsSocketListener (Li Ac J : Type) := mkTlsSocketListener {
  tls_listener : Li;
  tls_acceptor : Ac;
  in_flight_connections : J;
}.
Arguments mkTlsSocketListener {Li Ac J} _ _ _.
Arguments tls_listener {Li Ac J} _.
Arguments tls_acceptor {Li Ac J} _.
Arguments in_flight_connections {Li Ac J} _.

Section tls.
Context {Li Ac J K S H Tls : Type} `{SocketListener Li K (StreamWithAddress S)}.
Context `{!JoinSet J (TlsTask H) (result Tls IoError * SocketAddr) K} `{!TlsAcceptor Ac S H}.
Abbreviation Tl := (TlsSocketListener Li Ac J).
Implicit Types t : Tl.

(** [TlsSocketListener::wrap]; [no_tasks] is the default join set. *)
Definition tls_wrap (no_tasks : J) (listener : Li) (server_config : Ac) : Tl :=
  mkTlsSocketListener listener server_config no_tasks.

Definition tls_task (acceptor : Ac) (s : StreamWithAddress S) : TlsTask H :=
  mkTlsTask (tls_accept acceptor (inner_stream s)) (address s).

(** The first loop of [poll_accept]: every accepted stream starts its handshake. *)
Fixpoint tls_accept_loop (fuel : nat) t (k : K) : run (bool * Tl) :=
  match fuel with
  | O => OutOfFuel
  | Datatypes.S fuel =>
      let '(p, l) := poll_accept (tls_listener t) k in
      match p with
      | Ready (SocketStream s) =>
          tls_accept_loop fuel
            (mkTlsSocketListener l (tls_acceptor t)
               (join_spawn (in_flight_connections t) (tls_task (tls_acceptor t) s))) k
      | Ready SocketDisconnect =>
          Return (true, mkTlsSocketListener l (tls_acceptor t) (in_flight_connections t))
      | Pending => Return (false, mkTlsSocketListener l (tls_acceptor t) (in_flight_connections t))
      end
  end.

(** The second loop: the next handshake that is over; failed ones are skipped. *)
Fixpoint tls_join_loop (fuel : nat) t (k : K) : run (Poll (SocketResult (StreamWithAddress Tls)) * Tl) :=
  match fuel with
  | O => OutOfFuel
  | Datatypes.S fuel =>
      let '(p, j) := poll_join_next (in_flight_connections t) k in
      let t := mkTlsSocketListener (tls_listener t) (tls_acceptor t) j in
      match p with
      | Ready None => Return (Pending, t)
      | Ready (Some (Err _)) => Return (Ready SocketDisconnect, t)
      | Ready (Some (Ok (Ok stream, address))) =>
          Return (Ready (SocketStream (mkStreamWithAddress stream address)), t)
      | Ready (Some (Ok (Err _, _))) => tls_join_loop fuel t k
      | Pending => Return (Pending, t)
      end
  end.

(** [TlsSocketListener::poll_accept]. *)
Definition tls_poll_accept (fuel : nat) t (k : K)
  : run (Poll (SocketResult (StreamWithAddress Tls)) * Tl) :=
  let* '(disconnected, t) := tls_accept_loop fuel t k in
  if disconnected then Return (Ready SocketDisconnect, t) else tls_join_loop fuel t k.
End tls.

(** ** The loops end, and lose nothing *)

Section spec.
Context {Li Ac J K S H Tls : Type} `{SocketListenerLaws Li K (StreamWithAddress S)}.
(** What a handshake can come to. *)
Context (handshake : H → result Tls IoError → Prop).

Definition task_completes (a : TlsTask H) (x : result Tls IoError * SocketAddr) : Prop :=
  handshake (task_handshake a) x.1 ∧ x.2 = task_address a.

Context `{JL : JoinSetLaws J (TlsTask H) (result Tls IoError * SocketAddr) K task_completes}.
Context `{!TlsAcceptor Ac S H}.
Abbreviation Tl := (TlsSocketListener Li Ac J).
Implicit Types t : Tl.

Abbreviation handshakes t := (in_set (in_flight_connections t)).

(** The handshake of [a] is over and has failed. *)
Definition refused (a : TlsTask H) : Prop := ∃ e, handshake (task_handshake a) (Err e).

Lemma tls_accept_loop_spec fuel t k :
  (backlog (tls_listener t) < fuel)%nat →
  ∃ closed t' ss, tls_accept_loop fuel t k = Return (closed, t') ∧
    accepts k (tls_listener t) ss (tls_listener t') closed ∧ tls_acceptor t' = tls_acceptor t ∧
    handshakes t' ≡ₚ (tls_task (tls_acceptor t) <$> ss) ++ handshakes t ∧
    (closed = false → (backlog (tls_listener t') + length ss ≤ backlog (tls_listener t))%nat).
Proof.
  revert t. induction fuel as [|fuel IH]; intros t Hf; [lia|]. cbn [tls_accept_loop].
  pose proof (accept_law (tls_listener t) k) as Hlaw.
  destruct (poll_accept (tls_listener t) k) as [[[s|]|] l] eqn:Hp.
  - set (t1 := mkTlsSocketListener l (tls_acceptor t)
      (join_spawn (in_flight_connections t) (tls_task (tls_acceptor t) s)) : Tl).
    destruct (IH t1) as (closed & t' & ss & He & Ha & Hac & Hj & Hb); [simpl; lia|].
    exists closed, t', (s :: ss). split; [exact He|]. split; [by eapply accepts_stream|].
    split; [done|]. split.
    + rewrite Hj. simpl. rewrite (spawn_law (in_flight_connections t) (tls_task (tls_acceptor t) s)).
      apply Permutation_sym, Permutation_middle.
    + intros Hc. specialize (Hb Hc). simpl in *. lia.
  - exists true, (mkTlsSocketListener l (tls_acceptor t) (in_flight_connections t)), [].
    split; [done|]. split; [by apply accepts_disconnect|]. done.
  - exists false, (mkTlsSocketListener l (tls_acceptor t) (in_flight_connections t)), [].
    split; [done|]. split; [by apply accepts_pending|]. simpl. split_and!; try done. intros _. lia.
Qed.

(** What a poll says of the handshake that it took from the set. *)
Definition tls_outcome (p : Poll (SocketResult (StreamWithAddress Tls))) (taken : list (TlsTask H)) : Prop :=
  match p with
  | Ready (SocketStream s) =>
      ∃ a, taken = [a] ∧ handshake (task_handshake a) (Ok (inner_stream s)) ∧ address s = task_address a
  | Ready SocketDisconnect => length taken = 1%nat
  | Pending => taken = []
  end.

Lemma tls_join_loop_spec fuel t k :
  (length (handshakes t) < fuel)%nat →
  ∃ p t' taken failed, tls_join_loop fuel t k = Return (p, t') ∧
    tls_listener t' = tls_listener t ∧ tls_acceptor t' = tls_acceptor t ∧
    handshakes t ≡ₚ taken ++ failed ++ handshakes t' ∧ Forall refused failed ∧ tls_outcome p taken.
Proof.
  revert t. induction fuel as [|fuel IH]; intros t Hf; [lia|]. cbn [tls_join_loop].
  pose proof (join_next_law (in_flight_connections t) k) as Hlaw.
  destruct (poll_join_next (in_flight_connections t) k) as [[[[[[s|e] a]|[]]|]|] j].
  - destruct Hlaw as (x & Hset & Hs & Ha). do 2 eexists. exists [x], []. split; [done|]. simpl in *.
    split_and!; try done. by exists x.
  - destruct Hlaw as (x & Hset & He & _).
    destruct (IH (mkTlsSocketListener (tls_listener t) (tls_acceptor t) j))
      as (p & t' & taken & failed & Hr & Hl & Hac & Hj & Hfail & Ho).
    { apply Permutation_length in Hset. simpl in *. lia. }
    exists p, t', taken, (x :: failed). split; [exact Hr|]. simpl in *. split_and!; try done.
    + rewrite Hset, Hj. simpl. by rewrite Permutation_middle.
    + constructor; [by exists e|done].
  - destruct Hlaw as (x & Hset & _). do 2 eexists. exists [x], []. split; [done|]. simpl. by split_and!.
  - destruct Hlaw as [Hs Hs']. do 2 eexists. exists [], []. split; [done|]. simpl. rewrite Hs, Hs'. by split_and!.
  - do 2 eexists. exists [], []. split; [done|]. simpl. by split_and!.
Qed.

(** Both loops together. *)
Lemma tls_poll_accept_spec fuel t k :
  (backlog (tls_listener t) + length (handshakes t) < fuel)%nat →
  ∃ p t' closed ss taken failed, tls_poll_accept fuel t k = Return (p, t') ∧
    accepts k (tls_listener t) ss (tls_listener t') closed ∧
    handshakes t ++ (tls_task (tls_acceptor t) <$> ss) ≡ₚ taken ++ failed ++ handshakes t' ∧
    Forall refused failed ∧
    (if closed then p = Ready SocketDisconnect ∧ taken = [] else tls_outcome p taken) ∧
    (closed = false → (backlog (tls_listener t') + length ss ≤ backlog (tls_listener t))%nat).
Proof.
  intros Hf. destruct (tls_accept_loop_spec fuel t k) as (closed & t1 & ss & He & Ha & Hac & Hj & Hb); [lia|].
  unfold tls_poll_accept. rewrite He. cbn [run_bind]. destruct closed.
  { do 2 eexists. exists true, ss, [], []. split; [done|]. rewrite Hj. split_and!; try done.
    simpl. apply Permutation_app_comm. }
  specialize (Hb eq_refl).
  destruct (tls_join_loop_spec fuel t1 k) as (p & t' & taken & failed & Hr & Hl & _ & Hj' & Hfail & Ho).
  { apply Permutation_length in Hj. rewrite length_app, length_fmap in Hj. lia. }
  exists p, t', false, ss, taken, failed. rewrite Hl. split_and!; try done.
  by rewrite <-Hj', Hj, Permutation_app_comm.
Qed.

(** The TLS listener as a listener: the fuel that its loops need is there. *)
Definition tls_backlog t : nat := (backlog (tls_listener t) + length (handshakes t))%nat.

#[local] Instance tls_socket_listener : SocketListener Tl K (StreamWithAddress Tls) := {|
  poll_accept t k :=
    match tls_poll_accept (Datatypes.S (tls_backlog t)) t k with Return x => x | _ => (Pending, t) end;
|}.

#[local] Instance tls_socket_listener_laws : SocketListenerLaws Tl K (StreamWithAddress Tls).
Proof.
  refine {| backlog := tls_backlog |}. intros t k. cbn [poll_accept tls_socket_listener].
  destruct (tls_poll_accept_spec (Datatypes.S (tls_backlog t)) t k)
    as (p & t' & closed & ss & taken & failed & -> & _ & Hj & _ & Ho & Hb); [unfold tls_backlog; lia|].
  apply Permutation_length in Hj. rewrite !length_app, length_fmap in Hj. unfold tls_backlog.
  destruct p as [[s|]|]; [|done|]; (destruct closed; [by destruct Ho|]); specialize (Hb eq_refl).
  - destruct Ho as (a & -> & _). simpl in Hj. lia.
  - simpl in Ho. subst. simpl in Hj. lia.
Defined.
End spec.

(** ** The property *)

Module Tls.
Section claims.
Context {Li Ac J K S H Tls : Type} `{SocketListenerLaws Li K (StreamWithAddress S)}.
Context (handshake : H → result Tls IoError → Prop).
Context `{JL : JoinSetLaws J (TlsTask H) (result Tls IoError * SocketAddr) K (task_completes handshake)}.
Context `{!TlsAcceptor Ac S H}.

(** C34: a TLS listener accounts for every stream: a poll returns; every stream
    that its TCP listener gives starts a handshake, under the address of its peer;
    of the handshakes at most one leaves the set as the stream that is handed
    out, which is what that handshake came to, the others that leave it have been
    refused, and the rest stay; it disconnects only when the TCP listener does or
    when a task is lost, and is pending only when nothing has left but refused
    handshakes. *)
Theorem tls_accounts_for_every_stream (t : TlsSocketListener Li Ac J) (fuel : nat) (k : K)
  (Hfuel : (backlog (tls_listener t) + length (in_set (in_flight_connections t)) < fuel)%nat) :
  ∃ p t' closed ss taken failed,
    tls_poll_accept fuel t k = Return (p, t') ∧
    accepts k (tls_listener t) ss (tls_listener t') closed ∧
    in_set (in_flight_connections t) ++ (tls_task (tls_acceptor t) <$> ss)
      ≡ₚ taken ++ failed ++ in_set (in_flight_connections t') ∧
    Forall (refused handshake) failed ∧
    match p with
    | Ready (SocketStream s) =>
        closed = false ∧
        ∃ a, taken = [a] ∧ handshake (task_handshake a) (Ok (inner_stream s)) ∧ address s = task_address a
    | Ready SocketDisconnect => (closed = true ∧ taken = []) ∨ (closed = false ∧ length taken = 1%nat)
    | Pending => closed = false ∧ taken = []
    end.
Proof.
  destruct (tls_poll_accept_spec handshake fuel t k Hfuel)
    as (p & t' & closed & ss & taken & failed & He & Ha & Hj & Hfail & Ho & _).
  exists p, t', closed, ss, taken, failed. split_and!; try done.
  destruct closed; [destruct Ho as [-> ->]; by left|].
  destruct p as [[s|]|]; [by split|by right|by split].
Qed.
End claims.

(** ** Witness: three peers, one of which does not speak TLS *)

Import Demo Servers.

(** A handshake that is known at once, and a set whose tasks end in order. *)
Abbreviation DemoHandshake := (result ScriptedStream IoError).

#[export] Instance demo_acceptor : TlsAcceptor unit ScriptedStream DemoHandshake := λ _ s,
  match poll_read s 0%nat 1 with (Pending, s) => Ok s | _ => Err (OtherIo 71) end.

#[export] Instance ordered_set : JoinSet (list (TlsTask DemoHandshake)) (TlsTask DemoHandshake)
  (result ScriptedStream IoError * SocketAddr) nat := {|
  join_spawn j a := j ++ [a];
  poll_join_next j _ :=
    match j with
    | [] => (Ready None, [])
    | a :: j => (Ready (Some (Ok (task_handshake a, task_address a))), j)
    end;
|}.

#[export] Instance ordered_set_laws : JoinSetLaws (list (TlsTask DemoHandshake)) (TlsTask DemoHandshake)
  (result ScriptedStream IoError * SocketAddr) nat (task_completes eq).
Proof.
  refine {| in_set j := j |}.
  - intros j a. simpl. by rewrite Permutation_app_comm.
  - intros [|a j] k; simpl; [done|]. exists a. by split.
Defined.

Definition demo_peers : list (result (ScriptedStream * SocketAddr) IoError) :=
  [Ok (mkScriptedStream [Ok [71]] [] [] [], AddrV4 1 1); Ok (mkScriptedStream [] [] [] [], AddrV4 2 2);
   Ok (mkScriptedStream [] [] [] [], AddrV4 3 3)].

Definition demo_tls : TlsSocketListener (list (result (ScriptedStream * SocketAddr) IoError)) unit
  (list (TlsTask DemoHandshake)) := tls_wrap [] demo_peers tt.

Lemma tls_accounts_for_every_stream_witness :
  ∃ t', tls_poll_accept 9 demo_tls 5%nat
      = Return (Ready (SocketStream (mkStreamWithAddress (mkScriptedStream [] [] [] []) (AddrV4 2 2))), t') ∧
    length (in_flight_connections t') = 1%nat.
Proof.
  destruct (tls_accounts_for_every_stream eq demo_tls 9 5%nat)
    as (p & t' & closed & ss & taken & failed & He & _); [vm_compute; lia|].
  assert (tls_poll_accept 9 demo_tls 5%nat
      = Return (Ready (SocketStream (mkStreamWithAddress (mkScriptedStream [] [] [] []) (AddrV4 2 2))),
          mkTlsSocketListener [] tt [mkTlsTask (Ok (mkScriptedStream [] [] [] [])) (AddrV4 3 3)])) as Hc
    by (vm_compute; reflexivity).
  rewrite Hc in He. injection He as <- <-. eexists. split; [exact Hc|reflexivity].
Defined.
End Tls.
