(* ===== verification/TextServers.v ===== *)
(** * The text servers

    [example-telnet/src/main.rs] and [example-pool/src/server.rs]: two servers on
    the bare connection, without rpcs.  Each has a codec of its own; their
    reactors are the same: an inbound text is given to a task, which sleeps for
    the number of seconds that the text begins with and then sends the text back.
    A [String] is its bytes ([Text]). *)

From stdpp Require Import strings.
From S2P Require Import Prelude Spillway Encoding Connection ConnectionSpec Server Text.
Local Open Scope N_scope.
Local Open Scope run_scope.

(** The bytes of an ASCII literal. *)
Definition literal (s : String.string) : bytes :=
  Ascii.N_of_ascii <$> String.list_ascii_of_string s.

(** ** The codec of the telnet server ([StringCodec]) *)

(** [Decoder for StringCodec]: one byte is read; [read_buffer] holds a zero when
    there is none. *)
Definition string_decode (buffer : bytes) : result (usize * bytes) DeserializeError :=
  let '(read, read_buffer) := match buffer with [] => (0, 0) | c :: _ => (1, c) end in
  match from_utf8 [read_buffer] with
  | Some s =>
      match trim s with
      | [] => Err (SkipMessage read)
      | s => Ok (read, s ++ literal " DECODED"%string)
      end
  | None => Err InvalidBuffer
  end.

(** [Encoder for StringCodec]; [into] is the conversion of a vector into the
    [VecDeque] that is sent. *)
Definition string_encode {B} (into : bytes → B) (response : bytes) : B :=
  into (response ++ literal " ENCODED"%string ++ [10]).

#[export] Instance string_decoder : Decoder unit bytes := {|
  decode codec buffer := (string_decode buffer, codec);
|}.

(** What one byte is to the telnet server. *)
Definition typed (c : u8) : list bytes :=
  if is_whitespace c then [] else [c :: literal " DECODED"%string].

Lemma trim_one c : trim [c] = if is_whitespace c then [] else [c].
Proof. unfold trim. simpl. destruct (is_whitespace c) eqn:Hc; simpl; [done|]. by rewrite Hc. Qed.

Lemma string_decode_cons c u :
  string_decode (c :: u) =
    if c <? 128 then match typed c with [] => Err (SkipMessage 1) | m :: _ => Ok (1, m) end
    else Err InvalidBuffer.
Proof.
  unfold string_decode, from_utf8. cbn [utf8_valid]. destruct (c <? 128); [|done].
  rewrite trim_one. unfold typed. by destruct (is_whitespace c).
Qed.

(** The codec keeps the promise of a decoder: the verdict on a byte is final. *)
#[export] Instance string_decoder_laws (p : positive) : DecoderLaws unit bytes (N.pos p).
Proof.
  refine {| frame u := match u with [] => Err (IncompleteBuffer 1) | _ => string_decode u end;
            dec_ok _ _ := True |}; try done.
  - intros d [|c u] _ Hne _; [done|]. split; [done|]. by destruct (string_decode (c :: u)) as [[]|[]].
  - intros [|c u] n m; [done|]. rewrite string_decode_cons.
    destruct (c <? 128); [|done]. destruct (typed c); [done|]. intros [= <- _]. rewrite len_cons. lia.
  - intros [|c u] n; [by intros [= <-]|]. rewrite string_decode_cons.
    destruct (c <? 128); [|done]. by destruct (typed c).
  - intros [|c u] n; [done|]. rewrite string_decode_cons.
    destruct (c <? 128); [|done]. destruct (typed c); [|done]. intros [= <-]. lia.
  - intros [|c u] v r Hne; [done|]. intros <- _. simpl. by rewrite !string_decode_cons.
Defined.

(** A text up to its first byte that is not ASCII. *)
Lemma ascii_front (u : bytes) :
  ∃ a b, u = a ++ b ∧ Forall (λ c, c < 128) a ∧ match b with [] => True | c :: _ => 128 ≤ c end.
Proof.
  induction u as [|c u (a & b & -> & Ha & Hb)]; [by exists [], []|]. destruct (N.ltb_spec c 128) as [Hc|Hc].
  - exists (c :: a), b. split_and!; [done|by constructor|done].
  - by exists [], (c :: a ++ b).
Qed.

(** What the server makes of what is typed: a text of each character that is not
    whitespace; a byte that is not ASCII ends the connection. *)
Lemma string_frames p a b :
  Forall (λ c, c < 128) a → match b with [] => True | c :: _ => 128 ≤ c end →
  frames (limit:=N.pos p) (a ++ b)
    = (a ≫= typed, b, match b with [] => true | _ => false end).
Proof.
  intros Ha Hb. induction Ha as [|c u Hc Hu IH]; simpl app.
  { destruct b as [|c b]; [done|]. rewrite frames_eq by done.
    change (frame (c :: b)) with (string_decode (c :: b)). rewrite string_decode_cons.
    by destruct (N.ltb_spec c 128); [lia|]. }
  rewrite frames_eq by done.
  change (frame (c :: u ++ b)) with (string_decode (c :: u ++ b)). rewrite string_decode_cons.
  rewrite (proj2 (N.ltb_lt _ _) Hc). change ((c :: u) ≫= typed) with (typed c ++ (u ≫= typed)).
  unfold typed at 1 2. destruct (is_whitespace c).
  - rewrite len_cons. destruct (N.ltb_spec (1 + len (u ++ b)) 1) as [|_]; [lia|]. exact IH.
  - change (drop (N.to_nat 1) (c :: u ++ b)) with (u ++ b). by rewrite IH.
Qed.

(** ** The codec of the pool server ([ByteBufferRingCodec]) *)

Definition ByteBufferRingCodec : Type := list bytes.

(** [Encoder::encode] and [Encoder::return_buffer]; a cleared [VecDeque] becomes
    an empty vector. *)
Definition ring_encode {B} (into : bytes → B) (p : ByteBufferRingCodec) (response : bytes)
  : B * ByteBufferRingCodec := (into response, p).

Definition ring_return_buffer {B} (p : ByteBufferRingCodec) (buffer : B) : ByteBufferRingCodec :=
  if 31 <? len p then p else p ++ [[]].

(** [Vec::resize], and [Buf::copy_to_slice]: it panics when there is too little. *)
Definition vec_resize (v : bytes) (n : usize) : bytes :=
  take (N.to_nat n) v ++ replicate (N.to_nat n - length v) 0.

Definition copy_to_slice (buffer dst : bytes) : run bytes :=
  if len buffer <? len dst then Panic
  else Return (take (length dst) buffer ++ drop (length dst) dst).

(** [Decoder::decode]. *)
Definition ring_decode (p : ByteBufferRingCodec) (buffer : bytes)
  : run (result (usize * bytes) DeserializeError * ByteBufferRingCodec) :=
  let '(read_buffer, p) := default ([], p) (vec_pop p) in
  let remaining := len buffer in
  let read_buffer := vec_resize read_buffer remaining in
  let* read_buffer := copy_to_slice buffer read_buffer in
  match from_utf8 read_buffer with
  | Some s => Return (Ok (remaining, s), p)
  | None => Return (Err InvalidBuffer, p)
  end.

Lemma length_vec_resize v n : length (vec_resize v n) = N.to_nat n.
Proof. unfold vec_resize. rewrite length_app, length_take, length_replicate. lia. Qed.

(** Whatever the pooled vector held, the text is what was read. *)
Lemma ring_decode_spec p u :
  ∃ p', ring_decode p u = Return (if utf8_valid u then Ok (len u, u) else Err InvalidBuffer, p') ∧
    (len p' ≤ len p).
Proof.
  unfold ring_decode. destruct (default ([], p) (vec_pop p)) as [v p'] eqn:Hp.
  assert (Hl : length (vec_resize v (len u)) = length u) by (rewrite length_vec_resize; unfold len; lia).
  exists p'. unfold copy_to_slice. split.
  - unfold len at 1 2. rewrite Hl, N.ltb_irrefl. cbn [run_bind].
    rewrite take_ge by lia. rewrite drop_ge by lia. rewrite app_nil_r. unfold from_utf8.
    by destruct (utf8_valid u).
  - unfold vec_pop in Hp. destruct (reverse p) as [|x r] eqn:Hr; simpl in Hp; [by injection Hp as _ <-|].
    injection Hp as _ <-. apply (f_equal length) in Hr. rewrite length_reverse in Hr. simpl in Hr.
    unfold len. rewrite length_reverse. lia.
Qed.

(** A panic never happens ([ring_decode_spec]), so the last case is never met. *)
#[export] Instance ring_decoder : Decoder ByteBufferRingCodec bytes := {|
  decode p buffer :=
    match ring_decode p buffer with Return x => x | _ => (Err InvalidBuffer, p) end;
|}.

(** At most thirty-two vectors are kept. *)
Lemma ring_pool_bounded {B} p (buffer : B) : len p ≤ 32 → len (ring_return_buffer p buffer) ≤ 32.
Proof.
  intros Hp. unfold ring_return_buffer. destruct (N.ltb_spec 31 (len p)); [done|].
  rewrite len_app. change (len [[]]) with 1. lia.
Qed.

(** ** The reactor ([StringReactor], [PooledReactor]) *)

(** A task that the reactor spawned, with its clone of the reactor's sender: it
    has not run yet, or it sleeps until its timer fires. *)
Inductive TextTask :=
| TaskSpawned (outbound : Sender) (message : bytes)
| TaskSleeping (outbound : Sender) (message : bytes) (until : N).

Definition task_message (t : TextTask) : bytes :=
  match t with TaskSpawned _ m | TaskSleeping _ m _ => m end.

(** The seconds that a text begins with. *)
Definition task_seconds (message : bytes) : u64 :=
  default 0 (parse_u64 (default (literal "0"%string) (first_word message))).

(** [message.push_str(" RAN")]. *)
Definition ran (message : bytes) : bytes := message ++ literal " RAN"%string.

Section reactor.
Context {W K : Type} `{AtomicWakerLaws W K}.
(** When a timer fires that is set for some seconds at some time. *)
Context (deadline : N → u64 → N).
Abbreviation Queue := (Shared W bytes).

(** [on_inbound_message]: a new task with a clone of the sender. *)
Definition text_on_inbound (outbound : Sender) (q : Queue) (message : bytes)
  : run (ReactorStatus * Queue * TextTask) :=
  let* '(outbound, q) := sender_clone outbound q in
  Return (StatusContinue, q, TaskSpawned outbound message).

(** [on_outbound_message]. *)
Definition text_on_outbound (message : bytes) : bytes := message.

(** One poll of a task: what is left of it, and the queue; at its end it drops
    its sender.  An error of the send is only logged. *)
Definition task_poll (now : N) (t : TextTask) (q : Queue) : run (option TextTask * Queue) :=
  match t with
  | TaskSpawned outbound message =>
      Return (Some (TaskSleeping outbound message (deadline now (task_seconds message))), q)
  | TaskSleeping outbound message until =>
      if now <? until then Return (Some t, q)
      else
        let* '(_, q, _) := sender_send outbound q (ran message) in
        Return (None, (sender_drop outbound q).1)
  end.

(** The queue of a connection, the reactor's sender, the tasks, and the time. *)
Record TextServer := mkTextServer {
  ts_queue : Queue;
  ts_receiver : Receiver bytes;
  ts_outbound : Sender;
  ts_tasks : list TextTask;
  ts_now : N;
}.

(** A text comes in, a task is polled, time passes, or the connection polls its
    queue, whose texts go out. *)
Inductive text_io (s : TextServer) : list bytes → list bytes → TextServer → Prop :=
| text_hears m status q' t :
    text_on_inbound (ts_outbound s) (ts_queue s) m = Return (status, q', t) →
    text_io s [m] [] (mkTextServer q' (ts_receiver s) (ts_outbound s) (ts_tasks s ++ [t]) (ts_now s))
| text_runs i t t' q' :
    ts_tasks s !! i = Some t → task_poll (ts_now s) t (ts_queue s) = Return (t', q') →
    text_io s [] []
      (mkTextServer q' (ts_receiver s) (ts_outbound s)
         match t' with Some t' => <[i:=t']> (ts_tasks s) | None => delete i (ts_tasks s) end (ts_now s))
| text_waits later :
    ts_now s ≤ later →
    text_io s [] [] (mkTextServer (ts_queue s) (ts_receiver s) (ts_outbound s) (ts_tasks s) later)
| text_takes k p q' v' :
    poll_next (ts_queue s) (ts_receiver s) k = Return (p, q', v') →
    text_io s [] match p with Ready (Some m) => [text_on_outbound m] | _ => [] end
      (mkTextServer q' v' (ts_outbound s) (ts_tasks s) (ts_now s)).

Definition task_outbound (t : TextTask) : Sender :=
  match t with TaskSpawned x _ | TaskSleeping x _ _ => x end.

(** The texts that are still to go out. *)
Definition unanswered (s : TextServer) : list bytes :=
  waiting (ts_queue s) (ts_receiver s) ++ ((λ t, ran (task_message t)) <$> ts_tasks s).

(** The senders belong to the channel, and it is in order. *)
Record text_ok (s : TextServer) : Prop := {
  to_queue : unbounded (ts_queue s) (ts_receiver s);
  to_lanes : 0 < len (chutes (ts_queue s));
  to_tasks : Forall (λ t, chute (task_outbound t) < len (chutes (ts_queue s))) (ts_tasks s);
}.

Lemma waiting_same (q q' : Queue) v : chutes q' = chutes q → waiting q' v = waiting q v.
Proof. unfold waiting. by intros ->. Qed.

(** One poll of a task keeps the promise of its text. *)
Lemma task_poll_spec s i t t' q' :
  text_ok s → ts_tasks s !! i = Some t → task_poll (ts_now s) t (ts_queue s) = Return (t', q') →
  unbounded q' (ts_receiver s) ∧ len (chutes q') = len (chutes (ts_queue s)) ∧
  match t' with
  | Some t' => task_message t' = task_message t ∧ task_outbound t' = task_outbound t ∧
               waiting q' (ts_receiver s) = waiting (ts_queue s) (ts_receiver s)
  | None => waiting q' (ts_receiver s) ≡ₚ ran (task_message t) :: waiting (ts_queue s) (ts_receiver s)
  end.
Proof.
  intros [Hq Hl Ht] Hi He. destruct t as [x m|x m until]; simpl in He; [by injection He as <- <-|].
  destruct (ts_now s <? until); [by injection He as <- <-|].
  apply run_bind_Return in He as ([[res q1] ks] & Hs & He). injection He as <- <-.
  destruct (unbounded_send _ _ _ _ _ _ _ Hq Hs) as (_ & Hq1 & _ & Hlen & Hw).
  destruct (sender_drop_spec x q1 _ Hq1) as (Hq2 & Hch & _).
  split; [done|]. split; [unfold len; by rewrite Hch, Hlen|]. by rewrite (waiting_same _ _ _ Hch).
Qed.

(** Every step keeps the account: what was asked is unanswered or has gone out. *)
Lemma text_io_ok s i o s' :
  text_io s i o s' → text_ok s → text_ok s' ∧ o ++ unanswered s' ≡ₚ unanswered s ++ (ran <$> i).
Proof.
  intros Hstep Hok. destruct Hstep as [m status q' t He|j t t' q' Hj He|later Hle|k p q' v' He];
    unfold unanswered; simpl.
  - unfold text_on_inbound in He. apply run_bind_Return in He as ([x q1] & Hcl & He). injection He as _ <- <-.
    destruct (sender_clone_spec _ _ _ _ _ (to_queue _ Hok) Hcl) as (Hq & Hch & _ & Hx).
    split; [split; simpl; rewrite ?Hch; [done|apply Hok|]|].
    + apply Forall_app. split; [apply Hok|]. by repeat constructor.
    + by rewrite (waiting_same _ _ _ Hch), fmap_app, app_assoc.
  - destruct (task_poll_spec _ _ _ _ _ Hok Hj He) as (Hq & Hlen & Hw). rewrite app_nil_r.
    destruct t' as [t'|]; (split; [split; simpl; rewrite ?Hlen; [done|apply Hok|]|]).
    + destruct Hw as (_ & Hx & _). apply Forall_insert; [apply Hok|]. rewrite Hx.
      by apply (Forall_lookup_1 _ _ _ _ (to_tasks _ Hok) Hj).
    + destruct Hw as (Hm & _ & ->). by rewrite (fmap_insert_same _ _ _ t) by (rewrite ?Hm; done).
    + apply Forall_delete, Hok.
    + rewrite Hw. rewrite (delete_Permutation (ts_tasks s) j t Hj) at 2. simpl. solve_Permutation.
  - split; [split; apply Hok|by rewrite app_nil_r].
  - destruct (poll_unbounded _ _ _ _ _ _ (to_queue _ Hok) He) as (Hq & _ & Hlen & Hp). rewrite app_nil_r.
    split; [split; simpl; unfold len; rewrite ?Hlen; [done|apply Hok..]|].
    rewrite <-!pending_waiting. destruct p as [[m|]|].
    + by rewrite Hp.
    + destruct Hp as (-> & -> & _). done.
    + destruct Hp as (-> & -> & _). done.
Qed.

Abbreviation TextRun := (io_run text_io).

Lemma text_run_ok s i o s' :
  TextRun s i o s' → text_ok s → text_ok s' ∧ o ++ unanswered s' ≡ₚ unanswered s ++ (ran <$> i).
Proof.
  induction 1 as [s|s i o s1 i' o' s2 Hs _ IH]; intros Hok; [by rewrite app_nil_r|].
  destruct (text_io_ok _ _ _ _ Hs Hok) as [Hok1 H1]. destruct (IH Hok1) as [Hok2 H2].
  split; [done|]. by rewrite fmap_app, (app_assoc (unanswered s)), <-H1, <-!app_assoc, H2.
Qed.

(** A task whose timer fires sends its text and is over. *)
Lemma task_ends s x m until rest :
  text_ok s → ts_tasks s = TaskSleeping x m until :: rest →
  ∃ s', TextRun s [] [] s' ∧ ts_tasks s' = rest.
Proof.
  intros Hok Ht. set (s1 := mkTextServer (ts_queue s) (ts_receiver s) (ts_outbound s) (ts_tasks s)
    (N.max (ts_now s) until)).
  assert (text_io s [] [] s1) as Hwait by (apply text_waits; lia).
  pose proof (to_tasks _ Hok) as Hl. rewrite Ht in Hl. apply Forall_cons in Hl as [Hx _].
  destruct (send_unbounded _ _ _ (ran m) (to_queue _ Hok) Hx) as (q1 & ks & He & _).
  exists (mkTextServer (sender_drop x q1).1 (ts_receiver s) (ts_outbound s) rest (ts_now s1)).
  split; [|done]. apply (io_next _ s [] [] s1 [] []); [done|]. apply io_once.
  replace rest with (delete 0%nat (ts_tasks s1)) by (simpl; by rewrite Ht).
  apply (text_runs s1 0 (TaskSleeping x m until) None); [simpl; by rewrite Ht|].
  cbn [task_poll]. destruct (N.ltb_spec (ts_now s1) until) as [Hlt|_]; [simpl in Hlt; lia|].
  unfold sender_send. change (ts_queue s1) with (ts_queue s). cbn [task_outbound] in He. by rewrite He.
Qed.

Lemma tasks_end s : text_ok s → ∃ s', TextRun s [] [] s' ∧ ts_tasks s' = [].
Proof.
  remember (length (ts_tasks s)) as n eqn:Hn. revert s Hn.
  induction n as [|n IH]; intros s Hn Hok.
  { exists s. split; [apply io_refl|]. by destruct (ts_tasks s). }
  destruct (ts_tasks s) as [|t rest] eqn:Ht; [done|]. injection Hn as Hn.
  assert (∃ s1, TextRun s [] [] s1 ∧ ts_tasks s1 = rest) as (s1 & Hr & Ht1).
  { destruct t as [x m|x m until]; [|by eapply task_ends].
    set (t' := TaskSleeping x m (deadline (ts_now s) (task_seconds m))).
    set (s0 := mkTextServer (ts_queue s) (ts_receiver s) (ts_outbound s) (<[0%nat:=t']> (ts_tasks s)) (ts_now s)).
    assert (text_io s [] [] s0) as Hstep by (apply (text_runs s 0 (TaskSpawned x m) (Some t')); by rewrite ?Ht).
    destruct (task_ends s0 x m (deadline (ts_now s) (task_seconds m)) rest) as (s1 & Hr & Hs1).
    - by apply (text_io_ok _ _ _ _ Hstep).
    - simpl. by rewrite Ht.
    - exists s1. split; [|done]. by apply (io_next _ s [] [] s0 [] []). }
  destruct (IH s1) as (s2 & Hr2 & Ht2); [by rewrite Ht1|by apply (text_run_ok _ _ _ _ Hr)|].
  exists s2. split; [|done]. by apply (io_trans _ s [] [] s1 [] []).
Qed.

(** The connection takes what waits in its queue. *)
Lemma queue_empties (k : K) s :
  text_ok s → ∃ o s', TextRun s [] o s' ∧ ts_tasks s' = ts_tasks s ∧
    waiting (ts_queue s') (ts_receiver s') = [].
Proof.
  remember (length (pending_values (ts_queue s) (ts_receiver s))) as n eqn:Hn. revert s Hn.
  induction n as [|n IH]; intros s Hn Hok.
  { exists [], s. split; [apply io_refl|]. split; [done|]. apply Permutation_nil.
    rewrite <-pending_waiting. by destruct (pending_values _ _). }
  destruct (poll_next_spec (ts_queue s) (ts_receiver s) k (inv_ok _ _ (proj1 (to_queue _ Hok))))
    as (p & q' & v' & He & _).
  pose proof (text_takes s k p q' v' He) as Hstep.
  destruct (poll_unbounded _ _ _ _ _ _ (to_queue _ Hok) He) as (_ & _ & _ & Hp).
  destruct p as [[m|]|]; [|destruct Hp as [Hp _]; rewrite Hp in Hn; done..].
  rewrite Hp in Hn. injection Hn as Hn.
  destruct (IH (mkTextServer q' v' (ts_outbound s) (ts_tasks s) (ts_now s))) as (o & s' & Hr & Ht & Hw);
    [done|by apply (text_io_ok _ _ _ _ Hstep)|].
  exists (text_on_outbound m :: o), s'. split; [|done].
  by apply (io_next _ s [] [text_on_outbound m] _ [] o s' Hstep).
Qed.

(** Given time, everything is answered. *)
Lemma everything_answered (k : K) s :
  text_ok s → ∃ o s', TextRun s [] o s' ∧ o ≡ₚ unanswered s.
Proof.
  intros Hok. destruct (tasks_end s Hok) as (s1 & Hr1 & Ht1).
  destruct (queue_empties k s1) as (o & s2 & Hr2 & Ht2 & Hw); [by apply (text_run_ok _ _ _ _ Hr1)|].
  exists o, s2. pose proof (io_trans _ _ _ _ _ _ _ _ Hr1 Hr2) as Hr. split; [exact Hr|].
  destruct (text_run_ok _ _ _ _ Hr Hok) as [_ Ho]. simpl in Ho.
  unfold unanswered at 1 in Ho. by rewrite Hw, Ht2, Ht1, !app_nil_r in Ho.
Qed.
End reactor.

(** ** What the servers promise *)

(** The [ServerContext]s: a codec for each connection, and a reactor that keeps the
    sender it is given; the connections are spawned onto tokio. *)
#[export] Instance telnet_connector {W S} : ServerConnector unit unit Sender W bytes S := {|
  connector_codec context := (tt, context);
  new_reactor context optional_outbound q _ := (optional_outbound, q, context);
|}.

Inductive PoolContext := ThePoolContext.

#[export] Instance pool_connector {W S} : ServerConnector PoolContext ByteBufferRingCodec Sender W bytes S := {|
  connector_codec context := ([], context);
  new_reactor context optional_outbound q _ := (optional_outbound, q, context);
|}.

#[export] Instance telnet_connector_laws {W K S} `{AtomicWaker W K} : ServerConnectorLaws unit unit Sender W bytes S.
Proof. by intros co x q s v Hq. Qed.
#[export] Instance pool_connector_laws {W K S} `{AtomicWaker W K}
  : ServerConnectorLaws PoolContext ByteBufferRingCodec Sender W bytes S.
Proof. by intros co x q s v Hq. Qed.

(** A server on a new connection, as the accept loop makes it ([message_connection]):
    the reactor has a clone of the sender, the sender itself is dropped. *)
Definition text_server_new {W} `{AtomicWaker W K} (now : N) : run (TextServer (W:=W)) :=
  let* '(submission, receiver, q) := channel in
  let* '(outbound, q) := sender_clone submission q in
  Return (mkTextServer (sender_drop submission q).1 receiver outbound [] now).

Lemma text_server_new_ok {W K} `{AtomicWakerLaws W K} now (s : TextServer (W:=W)) :
  text_server_new (K:=K) now = Return s → text_ok s ∧ unanswered s = [].
Proof.
  destruct (channel_new_inv (T:=bytes) (W:=W) max_u64 8) as (x & v & q & He & Hinv & Hp & _ & Hcap & Hx);
    [done..|].
  unfold text_server_new, channel, channel_with_concurrency. rewrite He. cbn [run_bind].
  intros Hnew. apply run_bind_Return in Hnew as ([y q1] & Hcl & Hnew). injection Hnew as <-.
  destruct (sender_clone_spec x q v y q1 ltac:(by split) Hcl) as (Hun & Hcs & _).
  destruct (sender_drop_spec x q1 v Hun) as (Hun' & Hcs' & _).
  assert (0 < len (chutes q)) as Hl by (destruct (inv_ok _ _ Hinv); lia).
  split; [split; simpl; [done|by rewrite Hcs', Hcs|constructor]|].
  unfold unanswered. simpl. rewrite app_nil_r. apply Permutation_nil. unfold waiting. rewrite Hcs', Hcs.
  fold (waiting q v). by rewrite <-pending_waiting, Hp.
Qed.

(** What comes back for a character. *)
Definition telnet_line (c : u8) : bytes :=
  [c] ++ literal " DECODED"%string ++ literal " RAN"%string ++ literal " ENCODED"%string ++ [10].

Lemma typed_lines u :
  (λ m, string_encode id (ran m)) <$> (u ≫= typed)
    = telnet_line <$> filter (λ c, is_whitespace c = false) u.
Proof.
  induction u as [|c u IH]; [done|].
  change ((c :: u) ≫= typed) with (typed c ++ (u ≫= typed)). rewrite fmap_app, IH.
  unfold typed. destruct (is_whitespace c) eqn:Hc.
  - by rewrite filter_cons_False by congruence.
  - by rewrite filter_cons_True.
Qed.

(** The texts that one of the two codecs can decode. *)
Definition decoded (m : bytes) : Prop :=
  (∃ b n, string_decode b = Ok (n, m)) ∨ (∃ p b n p', ring_decode p b = Return (Ok (n, m), p')).

Lemma decoded_utf8 m : decoded m → utf8_valid m = true.
Proof.
  intros [(b & n & He)|(p & b & n & p' & He)].
  - destruct b as [|c b]; [by vm_compute in He; injection He as _ <-|].
    rewrite string_decode_cons in He. destruct (N.ltb_spec c 128) as [Hc|]; [|done].
    unfold typed in He. destruct (is_whitespace c); [done|]. injection He as _ <-.
    simpl. by rewrite (proj2 (N.ltb_lt _ _) Hc).
  - destruct (ring_decode_spec p b) as (p2 & Hr & _). rewrite He in Hr.
    destruct (utf8_valid b) eqn:Hv; [|done]. by injection Hr as -> -> _.
Qed.

Lemma ran_utf8 m : utf8_valid m = true → utf8_valid (ran m) = true.
Proof. intros Hm. unfold ran. by apply utf8_append. Qed.

(** A text is in order however it is cut exactly if it is ASCII. *)
Lemma utf8_prefixes s : (∀ n, utf8_valid (take n s) = true) ↔ Forall (λ c, c < 128) s.
Proof.
  split; [|intros Ha n; by apply ascii_utf8, Forall_take].
  induction s as [|c s IH]; intros Hp; [constructor|].
  assert (c < 128) as Hc.
  { specialize (Hp 1%nat). simpl in Hp. by destruct (N.ltb_spec c 128). }
  constructor; [done|]. apply IH. intros n. specialize (Hp (S n)). simpl in Hp.
  by rewrite (proj2 (N.ltb_lt _ _) Hc) in Hp.
Qed.

Module Texts.
Section claims.
Context {W K : Type} `{AtomicWakerLaws W K}.
Context (deadline : N → u64 → N).
Abbreviation TextRun := (io_run (text_io (W:=W) (K:=K) deadline)).

(** C35: the telnet server answers every ASCII character: it takes what is typed up
    to the first byte from 128 on, a text for each character that is not whitespace.
    When there is no such byte, then whatever the order in which its tasks run, what
    has been sent and what can still be sent, given time, is one line for each of
    these characters, no more and no less; at such a byte, the first of a character
    that is not ASCII, the decoder fails ([live] is false), which ends the
    connection. *)
Theorem telnet_answers_everything (p : positive) (now : N) (k : K)
  (s s' : TextServer (W:=W)) (u : bytes) (ms o : list bytes) (rest : bytes) (live : bool)
  (Hnew : text_server_new (K:=K) now = Return s)
  (Hread : frames (limit:=N.pos p) u = (ms, rest, live))
  (Hrun : TextRun s ms o s') :
  ∃ a, u = a ++ rest ∧ Forall (λ c, c < 128) a ∧ ms = a ≫= typed ∧
  match rest with
  | [] => live = true ∧
      ∃ o' s'', TextRun s' [] o' s'' ∧ unanswered s'' = [] ∧
        string_encode id <$> o ++ o' ≡ₚ telnet_line <$> filter (λ c, is_whitespace c = false) u
  | c :: _ => 128 ≤ c ∧ live = false
  end.
Proof.
  destruct (ascii_front u) as (a & b & -> & Ha & Hb). rewrite (string_frames p a b Ha Hb) in Hread.
  injection Hread as <- <- <-. exists a. split_and!; [done..|]. destruct b as [|c b]; [|done]. split; [done|].
  rewrite app_nil_r. destruct (text_server_new_ok now s Hnew) as [Hok Hun].
  destruct (text_run_ok deadline _ _ _ _ Hrun Hok) as [Hok' Ho]. rewrite Hun in Ho.
  destruct (everything_answered deadline k s' Hok') as (o' & s'' & Hr & Ho').
  destruct (text_run_ok deadline _ _ _ _ Hr Hok') as [_ Hleft].
  exists o', s''. split; [done|]. split.
  { apply Permutation_nil. rewrite app_nil_r, <-Ho' in Hleft.
    apply (Permutation_app_inv_l o'). by rewrite app_nil_r, Hleft. }
  rewrite Ho', Ho. simpl. by rewrite <-list_fmap_compose, <-typed_lines.
Qed.

(** C36: strings stay strings: the texts that the servers decode, keep in their
    tasks and queues, send back and encode are all valid UTF-8. *)
Theorem texts_are_utf8 (now : N) (s s' : TextServer (W:=W)) (ms o : list bytes)
  (Hnew : text_server_new (K:=K) now = Return s) (Hdecoded : Forall decoded ms)
  (Hrun : TextRun s ms o s') :
  Forall (λ m, utf8_valid m = true) (ms ++ o ++ unanswered s' ++ (task_message <$> ts_tasks s')) ∧
  Forall (λ m, utf8_valid (string_encode id m) = true ∧ utf8_valid (ring_encode id [] m).1 = true) o.
Proof.
  destruct (text_server_new_ok now s Hnew) as [Hok Hun].
  destruct (text_run_ok deadline _ _ _ _ Hrun Hok) as [_ Ho]. rewrite Hun in Ho. simpl in Ho.
  assert (Forall (λ m, utf8_valid m = true) ms) as Hms by (eapply Forall_impl; [exact Hdecoded|apply decoded_utf8]).
  assert (Forall (λ m, utf8_valid m = true) (o ++ unanswered s')) as Hall.
  { rewrite Ho. apply Forall_fmap. eapply Forall_impl; [exact Hms|]. apply ran_utf8. }
  pose proof Hall as [Hsent _]%Forall_app. split.
  - apply Forall_app. split; [done|]. rewrite app_assoc. apply Forall_app. split; [done|].
    apply Forall_fmap, Forall_forall. intros t Ht. simpl.
    rewrite Forall_forall in Hms. apply Hms. apply (list_elem_of_fmap_inj_2 ran).
    rewrite <-Ho. apply elem_of_app. right. apply elem_of_app. right.
    by apply list_elem_of_fmap; exists t.
  - eapply Forall_impl; [exact Hsent|]. intros m Hm. simpl in Hm. split; [|done]. by apply utf8_append.
Qed.

(** The pool server reads whatever has arrived as one text, so a text comes
    through however the network cuts it exactly if it is ASCII: with any other
    character there is a cut inside it, where the codec reports an invalid buffer
    and the connection ends. *)
Theorem pool_codec_wants_whole_characters (p : ByteBufferRingCodec) (u : bytes)
  (Hvalid : utf8_valid u = true) :
  (decode p u).1 = Ok (len u, u) ∧
  ((∀ n, (decode p (take n u)).1 = Ok (len (take n u), take n u)) ↔ Forall (λ c, c < 128) u) ∧
  (∀ n, utf8_valid (take n u) = false → (decode p (take n u)).1 = Err InvalidBuffer).
Proof.
  assert (∀ v, (decode p v).1 = if utf8_valid v then Ok (len v, v) else Err InvalidBuffer) as Hd.
  { intros v. cbn [decode ring_decoder]. destruct (ring_decode_spec p v) as (p' & -> & _). done. }
  split; [by rewrite Hd, Hvalid|]. split.
  - rewrite <-utf8_prefixes. split; intros Hp n; specialize (Hp n); rewrite Hd in *.
    + by destruct (utf8_valid (take n u)).
    + by rewrite Hp.
  - intros n Hn. by rewrite Hd, Hn.
Qed.
End claims.

(** ** Witnesses *)

Import WakerCell.

Definition demo_deadline (now : N) (seconds : u64) : N := now + 1000 * seconds.

Definition demo_start : TextServer (W:=option nat) :=
  match text_server_new (K:=nat) 5 with
  | Return s => s
  | _ => mkTextServer (mkShared [] None 0 0 0 0 false) receiver_new (mkSender 0) [] 0
  end.

(** Two characters typed, with a space between them. *)
Definition demo_typed : bytes := [104; 32; 50].

Lemma demo_text_run :
  ∃ s', io_run (text_io (K:=nat) demo_deadline) demo_start (demo_typed ≫= typed) [] s'.
Proof.
  eexists. eapply (io_next _ _ [_] []); [eapply text_hears; vm_compute; reflexivity|].
  eapply (io_next _ _ [_] []); [eapply text_hears; vm_compute; reflexivity|]. apply io_refl.
Qed.

Lemma telnet_answers_everything_witness :
  ∃ s', io_run (text_io (K:=nat) demo_deadline) demo_start (demo_typed ≫= typed) [] s' ∧
  ∃ o' s'', io_run (text_io (K:=nat) demo_deadline) s' [] o' s'' ∧ unanswered s'' = [] ∧
    string_encode id <$> o' ≡ₚ [telnet_line 104; telnet_line 50].
Proof.
  destruct demo_text_run as [s' Hr]. exists s'. split; [exact Hr|].
  destruct (telnet_answers_everything demo_deadline 4096 5 7%nat demo_start s' demo_typed
    (demo_typed ≫= typed) [] [] true) as (a & _ & _ & _ & _ & o' & s'' & Hr' & Hun & Ho).
  - vm_compute. reflexivity.
  - vm_compute. reflexivity.
  - exact Hr.
  - exists o', s''. split; [exact Hr'|]. split; [exact Hun|exact Ho].
Defined.

Lemma texts_are_utf8_witness :
  ∃ s', io_run (text_io (K:=nat) demo_deadline) demo_start (demo_typed ≫= typed) [] s' ∧
    Forall (λ m, utf8_valid m = true) ((demo_typed ≫= typed) ++ unanswered s').
Proof.
  destruct demo_text_run as [s' Hr]. exists s'. split; [exact Hr|].
  destruct (texts_are_utf8 demo_deadline 5 demo_start s' (demo_typed ≫= typed) []) as [Hall _].
  - vm_compute. reflexivity.
  - change (Forall decoded [104 :: literal " DECODED"%string; 50 :: literal " DECODED"%string]).
    apply Forall_cons; split; [left; by exists [104], 1|].
    apply Forall_cons; split; [left; by exists [50], 1|constructor].
  - exact Hr.
  - apply Forall_app in Hall as [Hms Hall]. change ([] ++ ?l) with l in Hall.
    apply Forall_app in Hall as [Hun _]. apply Forall_app. split; [exact Hms|exact Hun].
Defined.

(** A two byte character, whole and cut. *)
Lemma pool_codec_wants_whole_characters_witness :
  (decode ([] : ByteBufferRingCodec) [195; 169]).1 = Ok (2, [195; 169]) ∧
  (decode ([] : ByteBufferRingCodec) [195]).1 = Err InvalidBuffer.
Proof.
  destruct (pool_codec_wants_whole_characters [] [195; 169]) as (Hok & _ & Hcut); [vm_compute; reflexivity|].
  split; [exact Hok|]. apply (Hcut 1%nat). vm_compute. reflexivity.
Defined.
End Texts.
