(* ===== verification/ExampleProto.v ===== *)
(** * The echo services over prost

    [example-proto/src/{messages,server}.rs] and [example-proto-tls/src/server.rs]:
    the echo service of [ExampleService] with messages that prost generates, whose
    response behaviour is a number; on TCP with a worker per thread, and on TLS.
    [example-proto-stream] repeats them. *)

From Stdlib Require Import ZArith.
From S2P Require Import Prelude Spillway Encoding Connection RpcMessage ExampleService RpcServer Codecs Server.
Local Open Scope N_scope.

(** ** Messages *)

(** [Request]; the other messages have the fields of [ExampleService]'s.  The
    behaviour is an [i32]. *)
Record ProtoRequest := mkProtoRequest {
  pq_request_id : u64;
  pq_code : u32;
  pq_body : option EchoRequest;
  pq_response_behavior : Z;
}.

#[export] Instance proto_request_eq : EqDecision ProtoRequest.
Proof. solve_decision. Defined.

(** [ResponseBehavior as i32], and the accessor that prost derives: a number that is
    no behaviour is the default. *)
Definition behavior_as_i32 (b : ResponseBehavior) : Z :=
  match b with Unary => 0 | Stream => 1 end.

Definition response_behavior (m : ProtoRequest) : ResponseBehavior :=
  if (pq_response_behavior m =? 1)%Z then Stream else Unary.

#[export] Instance proto_request_message : Message ProtoRequest := {|
  message_id m := pq_request_id m;
  control_code m := from_u8 (pq_code m mod 2 ^ 8);
  set_message_id m id := mkProtoRequest id (pq_code m) (pq_body m) (pq_response_behavior m);
  cancelled id := mkProtoRequest id (as_u8 Cancel) None (behavior_as_i32 Unary);
  ended id := mkProtoRequest id (as_u8 End) None (behavior_as_i32 Unary);
|}.

#[export] Instance proto_request_message_laws : MessageLaws ProtoRequest.
Proof. by split. Defined.

(** ** The services *)

(** [immediate_echo_response] of the TCP server. *)
Definition immediate_echo_response (request_id : u64) (echo : EchoRequest) : Response :=
  mkResponse request_id (as_u8 Normal)
    (Some (Echo (mkEchoResponse (er_message echo) (er_nanotime echo)))).

(** [echo_stream]. *)
Definition proto_echo_stream (request_id : u64) (echo : EchoRequest) : list Response :=
  imap (λ sequence c,
    mkResponse request_id (as_u8 Normal)
      (Some (EchoStreamed (mkEchoStream (latin1_to_utf8 c) (er_nanotime echo)
                             (N.of_nat sequence mod 2 ^ 64)))))
    (er_message echo).

(** [new_rpc] of the TCP server; its peer's address is only logged. *)
Definition proto_new_rpc (address : SocketAddr) (initiating_message : ProtoRequest)
  : RpcKind Response (list Response) * SocketAddr :=
  let request_id := pq_request_id initiating_message in
  let behavior := response_behavior initiating_message in
  (match pq_body initiating_message with
   | Some echo =>
       match behavior with
       | Unary => RpcUnary (immediate_echo_response request_id echo)
       | Stream => RpcStreaming (proto_echo_stream request_id echo)
       end
   | None => RpcCancelled
   end, address).

#[export] Instance proto_service {K} : ConnectionService SocketAddr K ProtoRequest Response (list Response) := {|
  new_rpc := proto_new_rpc;
  service_poll := service_poll_default;
|}.

(** The TLS server's unary rpc is an [async fn] without an await: it has not run, or
    it is over. *)
Inductive AsyncEcho :=
| EchoNotRun (request_id : u64) (echo : EchoRequest)
| EchoOver.

(** [echo_request] of the TLS server.  Polling it again when it is over would panic;
    [FutureOp] has no panic, and here it is pending.  [rpc_poll_next] never does: an
    rpc whose future was ready is [KindDone]. *)
Definition tls_echo_request {K} (f : AsyncEcho) (k : K) : Poll Response * AsyncEcho :=
  match f with
  | EchoNotRun request_id echo =>
      (Ready (mkResponse request_id (as_u8 Normal)
                (Some (Echo (mkEchoResponse (er_message echo) (er_nanotime echo))))), EchoOver)
  | EchoOver => (Pending, EchoOver)
  end.

#[export] Instance async_echo {K} : FutureOp AsyncEcho K Response := tls_echo_request.

(** [new_rpc] of the TLS server, which keeps no address. *)
Definition tls_new_rpc (initiating_message : ProtoRequest) : RpcKind AsyncEcho (list Response) :=
  let request_id := pq_request_id initiating_message in
  let behavior := response_behavior initiating_message in
  match pq_body initiating_message with
  | Some echo =>
      match behavior with
      | Unary => RpcUnary (EchoNotRun request_id echo)
      | Stream => RpcStreaming (proto_echo_stream request_id echo)
      end
  | None => RpcCancelled
  end.

#[export] Instance tls_service {K} : ConnectionService unit K ProtoRequest AsyncEcho (list Response) := {|
  new_rpc v m := (tls_new_rpc m, v);
  service_poll := service_poll_default;
|}.

(** ** The servers *)

Abbreviation ProtoCodec := (PooledEncoder ProstSerializer * ProstDecoder)%type.

(** [SocketService] of the TCP server: a pool of sixty-four vectors for each
    connection, and of the TLS server: the default. *)
#[export] Instance proto_socket_service {S}
  : SocketService unit SocketAddr ProtoCodec (StreamWithAddress S) := {|
  service_codec v := ((new_with_pool_size 64 mkProstSerializer, mkProstDecoder), v);
  new_stream_service v stream := (address stream, v);
|}.

Inductive TlsSocketService := TheTlsSocketService.

#[export] Instance tls_socket_service {S} : SocketService TlsSocketService unit ProtoCodec S := {|
  service_codec v := ((pooled_new mkProstSerializer, mkProstDecoder), v);
  new_stream_service v _ := (tt, v);
|}.

(** The limits of both servers ([run_main]). *)
Definition proto_server {V0} (v : V0) : SocketRpcServer V0 :=
  set_max_queued_outbound_messages 512
    (rpc_server_new v (N.shiftl 4 20) (N.shiftl 1 20) 128).

Lemma proto_server_ok {V0} (v : V0) : server_ok (limit:=4194304) (proto_server v).
Proof. by split; vm_compute. Qed.

(** ** The copies

    [messages.rs] is the same file in [example-proto-stream] and [example-proto-tls],
    and its responses are those of [ExampleService]; the service and the socket
    service of [example-proto-stream] are those of [example-proto], but for the order
    of imports. *)
Definition proto_response_message : Message Response := response_message.
Definition proto_stream_request_message : Message ProtoRequest := proto_request_message.
Definition proto_stream_response_message : Message Response := response_message.
Definition tls_request_message : Message ProtoRequest := proto_request_message.
Definition tls_response_message : Message Response := response_message.

Definition proto_stream_socket_service {S} : SocketService unit SocketAddr ProtoCodec (StreamWithAddress S) :=
  proto_socket_service.
Definition proto_stream_new_rpc : SocketAddr → ProtoRequest → RpcKind Response (list Response) * SocketAddr :=
  proto_new_rpc.
Definition proto_stream_immediate_echo_response : u64 → EchoRequest → Response := immediate_echo_response.
Definition proto_stream_echo_stream : u64 → EchoRequest → list Response := proto_echo_stream.

(** ** The services agree with the reference *)

(** What a prost request means to the service of [ExampleService]. *)
Definition to_request (m : ProtoRequest) : Request :=
  mkRequest (pq_request_id m) (pq_code m) (pq_body m) (response_behavior m).

(** The three services start the same rpcs: the same text for a unary call, the
    same stream for a streaming one, whatever number the behaviour is. *)
Lemma services_agree (k : nat) (m : ProtoRequest) (address : SocketAddr) :
  control_code (to_request m) = control_code m ∧ message_id (to_request m) = message_id m ∧
  (proto_new_rpc address m).1 = (new_rpc (K:=nat) (S:=list Response) tt (to_request m)).1 ∧
  match tls_new_rpc m, (proto_new_rpc address m).1 with
  | RpcUnary f, RpcUnary r => (poll_future f k).1 = Ready r
  | RpcStreaming x, RpcStreaming y => x = y
  | RpcCancelled, RpcCancelled => True
  | _, _ => False
  end.
Proof.
  split; [done|]. split; [done|]. unfold proto_new_rpc, tls_new_rpc. simpl.
  destruct (pq_body m); simpl; [|done]. by destruct (response_behavior m).
Qed.
