(* ===== verification/SpawnServices.v ===== *)
(** * Services that spawn their work

    [example-proto-spawn/src/{messages,server}.rs] and
    [example-proto-spawn-stream/src/{messages,server}.rs]: rpc services that do not
    leave their work to the connection but spawn it onto the runtime, the one
    behind a semaphore of sixteen slots, the other behind a channel of sixteen
    responses.  The semaphore, the channel and the runtime are tokio's: type
    classes with the laws of their documentation. *)

From S2P Require Import Prelude Encoding RpcMessage RpcServer ExampleService.
Local Open Scope N_scope.
Local Open Scope run_scope.

(** ** Messages ([messages.rs]) *)

Record SpawnEcho := mkSpawnEcho {
  se_message : bytes;
  se_nanotime : u64;
}.

Record SpawnRequest := mkSpawnRequest {
  sr_request_id : u64;
  sr_code : u32;
  sr_body : option SpawnEcho;
}.

(** The response of the unary service: its body has the fields of a request's. *)
Record SpawnEchoed := mkSpawnEchoed {
  sd_message : bytes;
  sd_nanotime : u64;
}.

Record SpawnResponse := mkSpawnResponse {
  sp_request_id : u64;
  sp_code : u32;
  sp_body : option SpawnEchoed;
}.

(** The response of the streaming service. *)
Record StreamedEcho := mkStreamedEcho {
  st_message : bytes;
  st_nanotime : u64;
  st_sequence : u64;
}.

Record StreamedResponse := mkStreamedResponse {
  ss_request_id : u64;
  ss_code : u32;
  ss_body : option StreamedEcho;
}.

#[export] Instance spawn_request_message : Message SpawnRequest := {|
  message_id m := sr_request_id m;
  control_code m := from_u8 (sr_code m mod 2 ^ 8);
  set_message_id m id := mkSpawnRequest id (sr_code m) (sr_body m);
  cancelled id := mkSpawnRequest id (as_u8 Cancel) None;
  ended id := mkSpawnRequest id (as_u8 End) None;
|}.

#[export] Instance spawn_response_message : Message SpawnResponse := {|
  message_id m := sp_request_id m;
  control_code m := from_u8 (sp_code m mod 2 ^ 8);
  set_message_id m id := mkSpawnResponse id (sp_code m) (sp_body m);
  cancelled id := mkSpawnResponse id (as_u8 Cancel) None;
  ended id := mkSpawnResponse id (as_u8 End) None;
|}.

#[export] Instance streamed_response_message : Message StreamedResponse := {|
  message_id m := ss_request_id m;
  control_code m := from_u8 (ss_code m mod 2 ^ 8);
  set_message_id m id := mkStreamedResponse id (ss_code m) (ss_body m);
  cancelled id := mkStreamedResponse id (as_u8 Cancel) None;
  ended id := mkStreamedResponse id (as_u8 End) None;
|}.

#[export] Instance spawn_request_message_laws : MessageLaws SpawnRequest.
Proof. by split. Defined.
#[export] Instance spawn_response_message_laws : MessageLaws SpawnResponse.
Proof. by split. Defined.
#[export] Instance streamed_response_message_laws : MessageLaws StreamedResponse.
Proof. by split. Defined.

(** ** Tokio's semaphore and bounded channel *)

Class Semaphore (Sm : Type) := {
  semaphore_new : nat → Sm;
  try_acquire_owned : Sm → option Sm;
  permit_drop : Sm → Sm;
}.

Class SemaphoreLaws (Sm : Type) `{Semaphore Sm} := {
  available_permits : Sm → nat;
  semaphore_new_law n : available_permits (semaphore_new n) = n;
  acquire_law s :
    match try_acquire_owned s with
    | Some s' => available_permits s = S (available_permits s')
    | None => available_permits s = 0%nat
    end;
  permit_drop_law s : available_permits (permit_drop s) = S (available_permits s);
}.

(** [mpsc::Sender::send], polled once, [Receiver::poll_recv], and the drops of the
    two ends; [mp_room] is what the channel can still take. *)
Class BoundedChannel (M T K : Type) := {
  mpsc_channel : nat → M;
  mpsc_send : M → T → K → Poll (result unit T) * M;
  mpsc_recv : M → K → Poll (option T) * M;
  mpsc_drop_sender : M → M;
  mpsc_drop_receiver : M → M;
}.

Record ChannelView (T : Type) := mkChannelView {
  mv_capacity : nat;
  mv_contents : list T;
  mv_sender : bool;
  mv_receiver : bool;
}.
Arguments mkChannelView {T} _ _ _ _.
Arguments mv_capacity {T} _.
Arguments mv_contents {T} _.
Arguments mv_sender {T} _.
Arguments mv_receiver {T} _.

Class BoundedChannelLaws (M T K : Type) `{BoundedChannel M T K} := {
  mpsc_view : M → ChannelView T;
  mpsc_channel_law n : mpsc_view (mpsc_channel n) = mkChannelView n [] true true;
  mpsc_send_law m x k :
    let v := mpsc_view m in
    let '(p, m') := mpsc_send m x k in
    if negb (mv_receiver v) then p = Ready (Err x) ∧ mpsc_view m' = v
    else if decide (length (mv_contents v) < mv_capacity v)%nat
    then p = Ready (Ok tt) ∧
         mpsc_view m' = mkChannelView (mv_capacity v) (mv_contents v ++ [x]) (mv_sender v) true
    else p = Pending ∧ mpsc_view m' = v;
  mpsc_recv_law m k :
    let v := mpsc_view m in
    let '(p, m') := mpsc_recv m k in
    match mv_contents v with
    | x :: rest => p = Ready (Some x) ∧
        mpsc_view m' = mkChannelView (mv_capacity v) rest (mv_sender v) (mv_receiver v)
    | [] => p = (if mv_sender v then Pending else Ready None) ∧ mpsc_view m' = v
    end;
  mpsc_drop_sender_law m :
    let v := mpsc_view m in
    mpsc_view (mpsc_drop_sender m) = mkChannelView (mv_capacity v) (mv_contents v) false (mv_receiver v);
  mpsc_drop_receiver_law m :
    let v := mpsc_view m in
    mpsc_view (mpsc_drop_receiver m) = mkChannelView (mv_capacity v) (mv_contents v) (mv_sender v) false;
}.

(** ** The unary service ([example-proto-spawn]) *)

(** A task of the runtime: it works on its request, or its [JoinHandle] has its
    output; [Err tt] is a task that panicked or was aborted. *)
Inductive SpawnTask :=
| TaskRunning (request_id : u64) (echo : SpawnEcho)
| TaskDone (output : result SpawnResponse unit).

(** What [echo_request] returns after its sleep. *)
Definition spawned_echo (request_id : u64) (echo : SpawnEcho) : SpawnResponse :=
  mkSpawnResponse request_id (as_u8 Normal) (Some (mkSpawnEchoed (se_message echo) (se_nanotime echo))).

(** The future of an rpc that got a slot: its [JoinHandle] and its id.  The slot
    is dropped when it resolves, or with it. *)
Record SpawnedRpc := mkSpawnedRpc {
  sf_work : nat;
  sf_request_id : u64;
}.

Section spawn.
Context {Sm : Type} `{SemaphoreLaws Sm}.

(** The service of a connection, the tasks of the runtime, and the unary futures
    that the connection still has. *)
Record SpawnServer := mkSpawnServer {
  spawn_limit : Sm;
  sw_tasks : list SpawnTask;
  sw_futures : list SpawnedRpc;
}.
Implicit Types w : SpawnServer.

Definition spawn_service_new : SpawnServer := mkSpawnServer (semaphore_new 16) [] [].

(** [new_rpc]. *)
Definition spawn_new_rpc w (initiating_message : SpawnRequest) : RpcKind SpawnedRpc Empty_set * SpawnServer :=
  let request_id := sr_request_id initiating_message in
  match sr_body initiating_message with
  | Some echo =>
      match try_acquire_owned (spawn_limit w) with
      | Some slot =>
          let work := length (sw_tasks w) in
          let rpc := mkSpawnedRpc work request_id in
          (RpcUnary rpc,
           mkSpawnServer slot (sw_tasks w ++ [TaskRunning request_id echo]) (sw_futures w ++ [rpc]))
      | None => (RpcCancelled, w)
      end
  | None => (RpcCancelled, w)
  end.

(** The end of a task of the runtime. *)
Definition task_ends (succeeds : bool) (t : SpawnTask) : SpawnTask :=
  match t with
  | TaskRunning request_id echo =>
      TaskDone (if succeeds then Ok (spawned_echo request_id echo) else Err tt)
  | TaskDone _ => t
  end.

(** One poll of the future of an rpc: the [async] block of [new_rpc]. *)
Definition spawned_poll w (f : SpawnedRpc) : run (Poll SpawnResponse) :=
  match sw_tasks w !! sf_work f with
  | None => Panic
  | Some (TaskRunning _ _) => Return Pending
  | Some (TaskDone (Ok response)) => Return (Ready response)
  | Some (TaskDone (Err _)) => Return (Ready (cancelled (sf_request_id f)))
  end.

(** A future that is over, or is dropped: its slot is free again. *)
Definition release_slot w (i : nat) : SpawnServer :=
  mkSpawnServer (permit_drop (spawn_limit w)) (sw_tasks w) (delete i (sw_futures w)).

Inductive spawn_io w : list SpawnRequest → list (RpcKind SpawnedRpc Empty_set + SpawnResponse) →
  SpawnServer → Prop :=
| spawn_starts m : spawn_io w [m] [inl (spawn_new_rpc w m).1] (spawn_new_rpc w m).2
| spawn_works i t succeeds :
    sw_tasks w !! i = Some t →
    spawn_io w [] [] (mkSpawnServer (spawn_limit w) (<[i:=task_ends succeeds t]> (sw_tasks w)) (sw_futures w))
| spawn_answers i f response :
    sw_futures w !! i = Some f → spawned_poll w f = Return (Ready response) →
    spawn_io w [] [inr response] (release_slot w i)
| spawn_waits i f :
    sw_futures w !! i = Some f → spawned_poll w f = Return Pending → spawn_io w [] [] w
| spawn_drops i f :
    sw_futures w !! i = Some f → spawn_io w [] [] (release_slot w i).

Abbreviation SpawnRun := (io_run spawn_io).

(** A task works on a request, or has answered it. *)
Definition works_on (t : SpawnTask) (id : u64) (echo : SpawnEcho) : Prop :=
  match t with
  | TaskRunning request_id e => request_id = id ∧ e = echo
  | TaskDone (Ok r) => r = spawned_echo id echo
  | TaskDone (Err _) => True
  end.

(** A future waits for a task that works on one of the requests. *)
Definition serves (ms : list SpawnRequest) (tasks : list SpawnTask) (f : SpawnedRpc) : Prop :=
  ∃ m echo t, m ∈ ms ∧ sr_body m = Some echo ∧ sf_request_id f = sr_request_id m ∧
    tasks !! sf_work f = Some t ∧ works_on t (sr_request_id m) echo.

(** Every live future holds a slot, and serves a request. *)
Record spawn_ok (ms : list SpawnRequest) w : Prop := {
  sk_slots : (available_permits (spawn_limit w) + length (sw_futures w))%nat = 16%nat;
  sk_tasks : Forall (serves ms (sw_tasks w)) (sw_futures w);
}.

(** What can answer a request: its echo, or a cancellation if its task failed. *)
Definition answers_one (ms : list SpawnRequest) (r : SpawnResponse) : Prop :=
  ∃ m echo, m ∈ ms ∧ sr_body m = Some echo ∧
    (r = spawned_echo (sr_request_id m) echo ∨ r = cancelled (sr_request_id m)).

Lemma spawn_new_ok : spawn_ok [] spawn_service_new.
Proof. split; simpl; [by rewrite semaphore_new_law|constructor]. Qed.

Lemma serves_more ms ms' tasks tasks' f :
  serves ms tasks f → serves (ms ++ ms') (tasks ++ tasks') f.
Proof.
  intros (m & echo & t & Hm & Hb & Hid & Ht & Hw). exists m, echo, t.
  split_and!; try done; [apply elem_of_app; by left|by apply lookup_app_l_Some].
Qed.

(** What [new_rpc] does, on every branch. *)
Lemma spawn_new_rpc_spec ms w m :
  spawn_ok ms w →
  let '(kind, w') := spawn_new_rpc w m in
  spawn_ok (ms ++ [m]) w' ∧
  match sr_body m with
  | Some echo =>
      if decide (length (sw_futures w) < 16)%nat
      then ∃ f, kind = RpcUnary f ∧ sw_futures w' = sw_futures w ++ [f] ∧ sf_request_id f = sr_request_id m ∧
             sw_tasks w' = sw_tasks w ++ [TaskRunning (sr_request_id m) echo] ∧ sf_work f = length (sw_tasks w)
      else kind = RpcCancelled ∧ w' = w
  | None => kind = RpcCancelled ∧ w' = w
  end.
Proof.
  intros [Hs Ht].
  assert (Forall (serves (ms ++ [m]) (sw_tasks w)) (sw_futures w)) as Ht'.
  { eapply Forall_impl; [exact Ht|]. intros f Hf. rewrite <-(app_nil_r (sw_tasks w)). by apply serves_more. }
  unfold spawn_new_rpc. destruct (sr_body m) as [echo|] eqn:Hb; [|by repeat split].
  pose proof (acquire_law (spawn_limit w)) as Hl.
  destruct (try_acquire_owned (spawn_limit w)) as [slot|].
  - destruct (decide _); [|lia]. split; [|by eexists]. split; simpl; [rewrite length_app; simpl; lia|].
    apply Forall_app. split.
    + eapply Forall_impl; [exact Ht|]. intros f. apply serves_more.
    + repeat constructor. exists m, echo, (TaskRunning (sr_request_id m) echo). simpl.
      split_and!; try done; [apply elem_of_app; right; by apply list_elem_of_singleton|by rewrite list_lookup_middle].
  - destruct (decide _); [lia|]. by repeat split.
Qed.

Lemma release_slot_ok ms w i f : spawn_ok ms w → sw_futures w !! i = Some f → spawn_ok ms (release_slot w i).
Proof.
  intros [Hs Ht] Hf. pose proof (lookup_lt_Some _ _ _ Hf).
  assert (length (delete i (sw_futures w)) = (length (sw_futures w) - 1)%nat) as Hl
    by (apply length_delete; by exists f).
  split; simpl; [rewrite permit_drop_law; lia|by apply Forall_delete].
Qed.

(** The poll of a live future finds its task, and what it yields is an answer. *)
Lemma spawned_poll_spec ms w i f :
  spawn_ok ms w → sw_futures w !! i = Some f →
  ∃ p, spawned_poll w f = Return p ∧ match p with Ready r => answers_one ms r | Pending => True end.
Proof.
  intros [_ Ht] Hf. destruct (Forall_lookup_1 _ _ _ _ Ht Hf) as (m & echo & t & Hm & Hb & Hid & Hlook & Hw).
  unfold spawned_poll. rewrite Hlook. destruct t as [|[r|[]]]; (eexists; split; [done|]); [done|..];
    exists m, echo; split_and!; try done; [by left|by rewrite Hid; right].
Qed.

Lemma spawn_io_ok ms w i o w' :
  spawn_io w i o w' → spawn_ok ms w →
  spawn_ok (ms ++ i) w' ∧ Forall (λ x, match x with inr r => answers_one ms r | inl _ => True end) o.
Proof.
  intros [m|j t succeeds Ht|j f response Hf He|j f Hf _|j f Hf] Hok; rewrite ?app_nil_r.
  - pose proof (spawn_new_rpc_spec ms w m Hok) as Hs. destruct (spawn_new_rpc w m), Hs as [Hs _].
    split; [done|by repeat constructor].
  - split; [|constructor]. destruct Hok as [Hs Hts]. split; [done|]. eapply Forall_impl; [exact Hts|]. simpl.
    intros f (m & echo & t' & Hm & Hb & Hid & Hf & Hr). destruct (decide (sf_work f = j)) as [Heq|Hne].
    + exists m, echo, (task_ends succeeds t). rewrite Heq in Hf |- *. rewrite Ht in Hf. injection Hf as <-.
      split_and!; try done; [apply list_lookup_insert_eq; by eapply lookup_lt_Some|].
      destruct t as [id e|]; [|done]. simpl in *. destruct Hr as [-> ->]. by destruct succeeds.
    + exists m, echo, t'. split_and!; try done. by rewrite list_lookup_insert_ne.
  - split; [by eapply release_slot_ok|]. repeat constructor.
    destruct (spawned_poll_spec ms w j f Hok Hf) as (p & He' & Hp). rewrite He in He'. by injection He' as <-.
  - split; [done|constructor].
  - split; [by eapply release_slot_ok|constructor].
Qed.

Lemma answers_one_more ms ms' r : answers_one ms r → answers_one (ms ++ ms') r.
Proof. intros (m & echo & Hm & Hr). exists m, echo. split; [apply elem_of_app; by left|done]. Qed.

Lemma spawn_run_ok ms w i o w' :
  SpawnRun w i o w' → spawn_ok ms w →
  spawn_ok (ms ++ i) w' ∧ Forall (λ x, match x with inr r => answers_one (ms ++ i) r | inl _ => True end) o.
Proof.
  intros Hr. revert ms. induction Hr as [w|w i o w1 i' o' w2 Hs _ IH]; intros ms Hok.
  { rewrite app_nil_r. by split; [|constructor]. }
  destruct (spawn_io_ok _ _ _ _ _ Hs Hok) as [Hok1 Ho]. destruct (IH _ Hok1) as [Hok2 Ho'].
  rewrite <-app_assoc in Hok2, Ho'. split; [done|]. apply Forall_app. split; [|done].
  eapply Forall_impl; [exact Ho|]. intros [|r]; [done|]. apply answers_one_more.
Qed.

(** A slot is free again when its future is dropped, whatever its task does. *)
Lemma dropped_tasks_run id n :
  ∃ ms o w, SpawnRun spawn_service_new ms o w ∧ sw_futures w = [] ∧
    sw_tasks w = replicate n (TaskRunning id (mkSpawnEcho [] 0)).
Proof.
  induction n as [|n (ms & o & w & Hr & Hf & Ht)]; [by exists [], [], spawn_service_new; split; [apply io_refl|]|].
  destruct (spawn_run_ok [] _ _ _ _ Hr spawn_new_ok) as [Hok _].
  set (m := mkSpawnRequest id 0 (Some (mkSpawnEcho [] 0))).
  pose proof (spawn_new_rpc_spec _ w m Hok) as Hn. pose proof (spawn_starts w m) as Hstart.
  destruct (spawn_new_rpc w m) as [kind w1]. simpl in Hn, Hstart. rewrite Hf in Hn. simpl in Hn.
  destruct Hn as (_ & f & -> & Hf1 & _ & Ht1 & _).
  eexists _, _, (release_slot w1 0). split; [|split].
  - eapply io_trans; [exact Hr|]. eapply io_trans; [apply io_once; exact Hstart|].
    apply io_once, (spawn_drops w1 0 f). by rewrite Hf1.
  - simpl. by rewrite Hf1.
  - simpl. rewrite Ht1, Ht. symmetry. apply replicate_cons_app.
Qed.
End spawn.
Arguments SpawnServer Sm : clear implicits.

(** ** The streaming service ([example-proto-spawn-stream]) *)

(** [echo_stream]. *)
Definition streamed_echo (request_id : u64) (echo : SpawnEcho) : list StreamedResponse :=
  imap (λ sequence c,
    mkStreamedResponse request_id (as_u8 Normal)
      (Some (mkStreamedEcho (latin1_to_utf8 c) (se_nanotime echo) (N.of_nat sequence mod 2 ^ 64))))
    (se_message echo).

Section spawn_stream.
Context {M K : Type} `{BoundedChannelLaws M StreamedResponse K}.

(** The channel of an rpc, its producer until that has ended, and whether the
    connection still has the receiver. *)
Record StreamRpc := mkStreamRpc {
  sx_channel : M;
  sx_producer : option (list StreamedResponse);
  sx_receiver : bool;
}.
Implicit Types w : StreamRpc.

(** [new_rpc]: a channel of sixteen, and a task that sends the stream into it. *)
Definition stream_new_rpc (initiating_message : SpawnRequest) : RpcKind Empty_set StreamRpc :=
  let request_id := sr_request_id initiating_message in
  match sr_body initiating_message with
  | Some echo => RpcStreaming (mkStreamRpc (mpsc_channel 16) (Some (streamed_echo request_id echo)) true)
  | None => RpcCancelled
  end.

(** One poll of the producer: it sends until the channel is full, its receiver is
    gone, or the stream is at its end; when it ends it drops its sender. *)
Fixpoint producer_poll (stream : list StreamedResponse) (sender : M) (k : K)
  : option (list StreamedResponse) * M :=
  match stream with
  | [] => (None, mpsc_drop_sender sender)
  | response :: rest =>
      match mpsc_send sender response k with
      | (Ready (Ok _), sender) => producer_poll rest sender k
      | (Ready (Err _), sender) => (None, mpsc_drop_sender sender)
      | (Pending, sender) => (Some stream, sender)
      end
  end.

(** The stream that the rpc answers with: [poll_fn] over [poll_recv]. *)
#[export] Instance spawned_stream : StreamOp StreamRpc K StreamedResponse := λ w k,
  let '(p, m) := mpsc_recv (sx_channel w) k in (p, mkStreamRpc m (sx_producer w) (sx_receiver w)).

(** The answers of the stream are the outputs, its end is [None]. *)
Inductive stream_io w : list Empty_set → list (option StreamedResponse) → StreamRpc → Prop :=
| stream_produces rest k :
    sx_producer w = Some rest →
    stream_io w [] []
      (mkStreamRpc (producer_poll rest (sx_channel w) k).2 (producer_poll rest (sx_channel w) k).1 (sx_receiver w))
| stream_receives k p w' :
    sx_receiver w = true → poll_stream w k = (p, w') →
    stream_io w [] match p with Ready x => [x] | Pending => [] end w'
| stream_dropped :
    sx_receiver w = true →
    stream_io w [] [] (mkStreamRpc (mpsc_drop_receiver (sx_channel w)) (sx_producer w) false).

Abbreviation StreamRun := (io_run stream_io).

(** What has come out of the stream: responses, and then only its end. *)
Definition produced (received : list StreamedResponse) (n : nat) : list (option StreamedResponse) :=
  (Some <$> received) ++ replicate n None.

(** What was received, what is in the channel and what the producer still has are
    together the whole stream. *)
Record stream_ok (all received : list StreamedResponse) (n : nat) w : Prop := {
  so_capacity : mv_capacity (mpsc_view (sx_channel w)) = 16%nat;
  so_bound : (length (mv_contents (mpsc_view (sx_channel w))) ≤ 16)%nat;
  so_sender : mv_sender (mpsc_view (sx_channel w)) = match sx_producer w with Some _ => true | None => false end;
  so_receiver : mv_receiver (mpsc_view (sx_channel w)) = sx_receiver w;
  so_whole : sx_receiver w = true →
    received ++ mv_contents (mpsc_view (sx_channel w)) ++ default [] (sx_producer w) = all;
  so_prefix : received `prefix_of` all;
  so_ended : n ≠ 0%nat → received = all;
}.

(** A poll of the producer fills the channel. *)
Lemma producer_poll_spec stream (m : M) k room :
  let v := mpsc_view m in
  mv_receiver v = true → mv_sender v = true → (length (mv_contents v) + room)%nat = mv_capacity v →
  let '(rest, m') := producer_poll stream m k in
  rest = (if decide (length stream ≤ room)%nat then None else Some (drop room stream)) ∧
  mpsc_view m' = mkChannelView (mv_capacity v) (mv_contents v ++ take room stream)
    (match rest with Some _ => true | None => false end) true.
Proof.
  revert m room. induction stream as [|x stream IH]; intros m room v Hr Hs Hroom; cbn [producer_poll].
  - split; [by rewrite decide_True by (simpl; lia)|].
    rewrite mpsc_drop_sender_law, take_nil, app_nil_r. fold v. by rewrite Hr.
  - pose proof (mpsc_send_law m x k) as Hl. cbn zeta in Hl. fold v in Hl. rewrite Hr in Hl. simpl negb in Hl.
    destruct (mpsc_send m x k) as [p m1]. cbn iota in Hl.
    destruct (decide (length (mv_contents v) < mv_capacity v)%nat) as [Hlt|Hfull]; destruct Hl as [-> Hv].
    + destruct room as [|room]; [lia|].
      specialize (IH m1 room). cbn zeta in IH. rewrite Hv in IH.
      cbn [mv_receiver mv_sender mv_contents mv_capacity] in IH. rewrite length_app in IH. cbn [length] in IH.
      specialize (IH eq_refl Hs ltac:(lia)).
      destruct (producer_poll stream m1 k) as [rest m']. destruct IH as [-> ->]. split.
      * cbn [length skipn]. repeat case_decide; try done; lia.
      * cbn [firstn]. rewrite <-app_assoc. cbn [app length]. repeat case_decide; try done; lia.
    + destruct room; [|lia]. cbn [length]. rewrite decide_False by lia. split; [done|].
      rewrite Hv, app_nil_r. clearbody v. destruct v. simpl in *. by subst.
Qed.

(** Without a receiver it ends. *)
Lemma producer_poll_gone stream (m : M) k :
  let v := mpsc_view m in
  mv_receiver v = false →
  (producer_poll stream m k).1 = None ∧
  mpsc_view (producer_poll stream m k).2 = mkChannelView (mv_capacity v) (mv_contents v) false false.
Proof.
  intros v Hr. destruct stream as [|x stream]; cbn [producer_poll].
  - split; [done|]. simpl. rewrite mpsc_drop_sender_law. fold v. by rewrite Hr.
  - pose proof (mpsc_send_law m x k) as Hl. cbn zeta in Hl. fold v in Hl. rewrite Hr in Hl. simpl in Hl.
    destruct (mpsc_send m x k) as [p m1]. destruct Hl as [-> Hv]. split; [done|]. simpl.
    rewrite mpsc_drop_sender_law, Hv. by rewrite Hr.
Qed.

Lemma produced_item received x n : n = 0%nat → produced received n ++ [Some x] = produced (received ++ [x]) n.
Proof. intros ->. unfold produced. simpl. by rewrite !app_nil_r, fmap_app. Qed.

Lemma produced_end received n : produced received n ++ [None] = produced received (S n).
Proof. unfold produced. by rewrite <-app_assoc, <-replicate_cons_app. Qed.

Lemma producer_step all received n w rest k :
  sx_producer w = Some rest → stream_ok all received n w →
  stream_ok all received n
    (mkStreamRpc (producer_poll rest (sx_channel w) k).2 (producer_poll rest (sx_channel w) k).1 (sx_receiver w)).
Proof.
  intros Hp [Hc Hb Hs Hr Hw Hpre He]. rewrite Hp in Hs. destruct (sx_receiver w) eqn:Hal.
  - pose proof (producer_poll_spec rest (sx_channel w) k
      (16 - length (mv_contents (mpsc_view (sx_channel w))))%nat Hr Hs ltac:(lia)) as Hspec.
    set (room := (16 - length (mv_contents (mpsc_view (sx_channel w))))%nat) in *.
    destruct (producer_poll rest (sx_channel w) k) as [rest' m']. destruct Hspec as [Hrest Hv].
    split; simpl; rewrite ?Hv; simpl; try done.
    + rewrite length_app, length_take. simpl. lia.
    + intros _. simpl. rewrite <-(Hw eq_refl), Hp. simpl. f_equal. rewrite <-app_assoc. f_equal.
      subst rest'. case_decide as Hd; simpl; [rewrite app_nil_r; by apply take_ge|apply take_drop].
  - destruct (producer_poll_gone rest (sx_channel w) k Hr) as [Hn Hv].
    split; simpl; rewrite ?Hv, ?Hn; simpl; try done.
Qed.

Lemma stream_io_ok all received n w i o w' :
  stream_io w i o w' → stream_ok all received n w →
  ∃ received' n', stream_ok all received' n' w' ∧ produced received n ++ o = produced received' n'.
Proof.
  intros [rest k Hp|k p w1 Hal He|Hal] Hok.
  - exists received, n. split; [by apply producer_step|by rewrite app_nil_r].
  - destruct Hok as [Hc Hb Hs Hr Hw Hpre Hend]. specialize (Hw Hal).
    unfold poll_stream, spawned_stream in He. pose proof (mpsc_recv_law (sx_channel w) k) as Hl. cbn zeta in Hl.
    destruct (mpsc_recv (sx_channel w) k) as [p1 m]. injection He as <- <-.
    destruct (mv_contents (mpsc_view (sx_channel w))) as [|x contents] eqn:Hcon.
    + destruct Hl as [-> Hv]. rewrite Hs. destruct (sx_producer w) as [rest|] eqn:Hp.
      * exists received, n. split; [|by rewrite app_nil_r]. by split; simpl; rewrite ?Hv, ?Hcon.
      * simpl in Hw. rewrite app_nil_r in Hw.
        exists received, (S n). split; [|apply produced_end].
        by split; simpl; rewrite ?Hv, ?Hcon, ?app_nil_r.
    + destruct Hl as [-> Hv].
      assert (n = 0%nat) as Hn.
      { destruct n as [|n]; [done|]. specialize (Hend ltac:(done)). rewrite <-Hw in Hend.
        apply (f_equal length) in Hend. rewrite !length_app in Hend. simpl in Hend. lia. }
      exists (received ++ [x]), n. split; [|by apply produced_item].
      split; simpl; rewrite ?Hv; simpl in *; try done; [lia|..].
      * intros _. by rewrite <-app_assoc.
      * exists (contents ++ default [] (sx_producer w)). by rewrite <-app_assoc.
  - destruct Hok as [Hc Hb Hs Hr Hw Hpre Hend]. exists received, n. split; [|by rewrite app_nil_r].
    split; simpl; rewrite ?mpsc_drop_receiver_law; done.
Qed.

Lemma stream_run_ok all received n w i o w' :
  StreamRun w i o w' → stream_ok all received n w →
  ∃ received' n', stream_ok all received' n' w' ∧ produced received n ++ o = produced received' n'.
Proof.
  intros Hr. revert received n. induction Hr as [w|w i o w1 i' o' w2 Hs _ IH]; intros received n Hok.
  { exists received, n. split; [done|by rewrite app_nil_r]. }
  destruct (stream_io_ok _ _ _ _ _ _ _ Hs Hok) as (r1 & n1 & Hok1 & H1).
  destruct (IH r1 n1 Hok1) as (r2 & n2 & Hok2 & H2). exists r2, n2. split; [done|].
  by rewrite app_assoc, H1, H2.
Qed.

Lemma stream_new_ok id echo :
  stream_ok (streamed_echo id echo) [] 0 (mkStreamRpc (mpsc_channel 16) (Some (streamed_echo id echo)) true).
Proof. split; simpl; rewrite ?mpsc_channel_law; simpl; try done; [lia|apply prefix_nil]. Qed.

Abbreviation in_channel w := (mv_contents (mpsc_view (sx_channel w))).

(** After a poll of the producer an empty channel is one that stays empty. *)
Lemma produce_first (k : K) all received w :
  sx_receiver w = true → stream_ok all received 0 w →
  ∃ w1, StreamRun w [] [] w1 ∧ sx_receiver w1 = true ∧ stream_ok all received 0 w1 ∧
    (in_channel w1 = [] → sx_producer w1 = None).
Proof.
  intros Hal Hok. destruct (sx_producer w) as [rest|] eqn:Hp; [|by exists w; split; [apply io_refl|]].
  eexists. split; [apply io_once; by apply (stream_produces w rest k)|]. split; [done|].
  split; [by apply producer_step|]. simpl.
  destruct Hok as [Hc Hb Hs Hr _ _ _]. rewrite Hp in Hs. rewrite Hal in Hr.
  pose proof (producer_poll_spec rest (sx_channel w) k (16 - length (in_channel w))%nat Hr Hs ltac:(lia)) as Hspec.
  destruct (producer_poll rest (sx_channel w) k) as [rest' m']. destruct Hspec as [-> Hv]. simpl. rewrite Hv. simpl.
  intros [Hnil Htake]%app_eq_nil. rewrite Hnil in Htake |- *. simpl in Htake.
  destruct rest; [|done]. by rewrite decide_True by (simpl; lia).
Qed.

(** While the rpc is there, the producer and the receiver finish the stream. *)
Lemma stream_finishes (k : K) all received w :
  sx_receiver w = true → stream_ok all received 0 w →
  ∃ o w', StreamRun w [] o w' ∧ produced received 0 ++ o = produced all 1.
Proof.
  intros Hal Hok. pose proof (so_prefix _ _ _ _ Hok) as [rest Hrest].
  revert received w Hal Hok Hrest. induction rest as [|x rest IH]; intros received w Hal Hok Hrest;
    destruct (produce_first k all received w Hal Hok) as (w1 & Hr1 & Hal1 & Hok1 & Hempty);
    pose proof (so_whole _ _ _ _ Hok1 Hal1) as Hw; rewrite Hrest in Hw; apply app_inv_head in Hw;
    destruct (poll_stream w1 k) as [p w2] eqn:He;
    pose proof (io_once _ _ _ _ _ (stream_receives w1 k p w2 Hal1 He)) as Hstep;
    pose proof (stream_run_ok _ _ _ _ _ _ _ Hstep Hok1) as (r2 & n2 & Hok2 & Hout);
    unfold poll_stream, spawned_stream in He;
    pose proof (mpsc_recv_law (sx_channel w1) k) as Hl; cbn zeta in Hl;
    destruct (mpsc_recv (sx_channel w1) k) as [p1 m]; injection He as <- <-.
  - apply app_eq_nil in Hw as [Hcon _]. rewrite Hcon in Hl. destruct Hl as [-> _].
    rewrite (so_sender _ _ _ _ Hok1), (Hempty Hcon) in *.
    eexists [None], _. split; [exact (io_trans _ _ _ _ _ _ _ _ Hr1 Hstep)|].
    rewrite app_nil_r in Hrest. subst all. apply produced_end.
  - destruct (in_channel w1) as [|y contents] eqn:Hcon.
    { rewrite (Hempty eq_refl) in Hw. done. }
    injection Hw as -> Hw. destruct Hl as [-> _]. rewrite produced_item in Hout by done.
    assert (r2 = received ++ [x] ∧ n2 = 0%nat) as [-> ->].
    { clear -Hout. unfold produced in Hout. simpl in Hout. rewrite app_nil_r in Hout.
      destruct n2 as [|n2].
      - split; [|done]. simpl in Hout. rewrite app_nil_r in Hout. symmetry. by apply (inj (fmap Some)) in Hout.
      - exfalso. rewrite replicate_S_end, app_assoc, fmap_app in Hout. apply app_inj_tail in Hout as [_ Hx]. done. }
    destruct (IH (received ++ [x]) (mkStreamRpc m (sx_producer w1) (sx_receiver w1)) Hal1 Hok2) as (o & w' & Hr & Ho); [by rewrite <-app_assoc|].
    exists (Some x :: o), w'. split.
    + exact (io_trans _ _ _ _ _ _ _ _ Hr1 (io_trans _ _ _ _ _ _ _ _ Hstep Hr)).
    + by rewrite <-Ho, <-produced_item, <-app_assoc.
Qed.
End spawn_stream.

(** ** The properties *)

Module Spawning.
Section claims.
Context {Sm : Type} `{SemaphoreLaws Sm}.

(** C33: the slots bound the rpcs of a connection: in every state that requests,
    tasks, polls and drops lead to, the free slots and the live futures are
    sixteen together; a request gets a slot exactly if it has a body and fewer
    than sixteen futures are alive, and is cancelled otherwise; polling a future
    never panics, and every answer is the echo of one of the requests, under its
    id, or its cancellation. *)
Theorem slots_bound_rpcs (ms : list SpawnRequest) o (w : SpawnServer Sm) (m : SpawnRequest)
  (Hrun : io_run spawn_io spawn_service_new ms o w) :
  (available_permits (spawn_limit w) + length (sw_futures w))%nat = 16%nat ∧
  ((∃ f, (spawn_new_rpc w m).1 = RpcUnary f) ↔ is_Some (sr_body m) ∧ (length (sw_futures w) < 16)%nat) ∧
  ((spawn_new_rpc w m).1 = RpcCancelled ↔ sr_body m = None ∨ length (sw_futures w) = 16%nat) ∧
  Forall (λ f, spawned_poll w f ≠ Panic) (sw_futures w) ∧
  Forall (λ x, match x with inr r => answers_one ms r | inl _ => True end) o.
Proof.
  destruct (spawn_run_ok [] _ _ _ _ Hrun spawn_new_ok) as [Hok Ho]. pose proof (sk_slots _ _ Hok) as Hs.
  pose proof (spawn_new_rpc_spec _ w m Hok) as Hn. split; [done|].
  destruct (spawn_new_rpc w m) as [kind w']. destruct Hn as [_ Hn]. simpl.
  split; [|split; [|split; [|exact Ho]]].
  - destruct (sr_body m) as [echo|]; [case_decide|].
    + destruct Hn as (f & -> & _). split; [done|]. by exists f.
    + destruct Hn as [-> _]. split; [by intros [f ?]|intros [_ ?]; lia].
    + destruct Hn as [-> _]. split; [by intros [f ?]|by intros [[? ?] _]].
  - destruct (sr_body m) as [echo|]; [case_decide|].
    + destruct Hn as (f & -> & _). split; [done|]. intros [|]; [done|lia].
    + destruct Hn as [-> _]. split; [intros _; right; lia|done].
    + destruct Hn as [-> _]. split; [by left|done].
  - apply Forall_forall. intros f (i & Hi)%list_elem_of_lookup.
    destruct (spawned_poll_spec _ _ _ _ Hok Hi) as (p & -> & _). done.
Qed.

(** The slots do not bound the work: a cancelled rpc gives its slot back while
    its task goes on, so there is no bound on the tasks that run for a connection
    without a single live rpc. *)
Theorem slots_do_not_bound_tasks (n : nat) :
  ∃ ms o (w : SpawnServer Sm), io_run spawn_io spawn_service_new ms o w ∧ sw_futures w = [] ∧
    length (sw_tasks w) = n ∧ Forall (λ t, ∃ id echo, t = TaskRunning id echo) (sw_tasks w).
Proof.
  destruct (dropped_tasks_run (Sm:=Sm) 7 n) as (ms & o & w & Hr & Hf & Ht). exists ms, o, w.
  rewrite Ht, length_replicate. split_and!; try done. apply Forall_replicate. by do 2 eexists.
Qed.
End claims.

Section stream_claims.
Context {M K : Type} `{BoundedChannelLaws M StreamedResponse K}.

(** C32: the stream behind the channel is the stream: whatever the producer's task
    and the connection do in whatever order, the rpc yields the responses of the
    echo stream, in order and without a gap, and its end only after all of them;
    at most sixteen wait in the channel; while the rpc is alive the rest can
    always be produced and received; once it is dropped, the producer's next poll
    is its last. *)
Theorem channel_keeps_the_stream (m : SpawnRequest) (echo : SpawnEcho) (w0 w : StreamRpc) (k : K) o
  (Hbody : sr_body m = Some echo) (Hnew : stream_new_rpc m = RpcStreaming w0)
  (Hrun : io_run stream_io w0 [] o w) :
  ∃ received n, let all := streamed_echo (sr_request_id m) echo in
    o = (Some <$> received) ++ replicate n None ∧ received `prefix_of` all ∧ (n ≠ 0%nat → received = all) ∧
    (length (mv_contents (mpsc_view (sx_channel w))) ≤ 16)%nat ∧
    (if sx_receiver w
     then ∃ o' w', io_run stream_io w [] o' w' ∧ ∃ n', o ++ o' = (Some <$> all) ++ replicate (S n') None
     else ∀ rest, sx_producer w = Some rest → (producer_poll rest (sx_channel w) k).1 = None).
Proof.
  unfold stream_new_rpc in Hnew. rewrite Hbody in Hnew. injection Hnew as <-.
  destruct (stream_run_ok _ _ _ _ _ _ _ Hrun (stream_new_ok _ echo)) as (received & n & Hok & Ho).
  simpl in Ho. exists received, n. cbn zeta.
  split; [exact Ho|]. split; [apply Hok|]. split; [apply Hok|]. split; [apply Hok|].
  destruct (sx_receiver w) eqn:Hal.
  - destruct n as [|n].
    + destruct (stream_finishes k _ _ _ Hal Hok) as (o' & w' & Hr & Hall). exists o', w'. split; [done|].
      exists 0%nat. by rewrite Ho.
    + exists [], w. split; [apply io_refl|]. exists n.
      rewrite app_nil_r, Ho. by rewrite (so_ended _ _ _ _ Hok).
  - intros rest _. apply producer_poll_gone. by rewrite (so_receiver _ _ _ _ Hok).
Qed.
End stream_claims.

(** ** Witnesses: a semaphore that is a number, a channel that is its view *)

#[export] Instance number_semaphore : Semaphore nat := {|
  semaphore_new n := n;
  try_acquire_owned n := match n with O => None | S n => Some n end;
  permit_drop := S;
|}.

#[export] Instance number_semaphore_laws : SemaphoreLaws nat.
Proof. refine {| available_permits n := n |}; [done| |done]. by intros [|n]. Defined.

#[export] Instance view_channel {T} : BoundedChannel (ChannelView T) T nat := {|
  mpsc_channel n := mkChannelView n [] true true;
  mpsc_send v x _ :=
    if negb (mv_receiver v) then (Ready (Err x), v)
    else if decide (length (mv_contents v) < mv_capacity v)%nat
    then (Ready (Ok tt), mkChannelView (mv_capacity v) (mv_contents v ++ [x]) (mv_sender v) true)
    else (Pending, v);
  mpsc_recv v _ :=
    match mv_contents v with
    | x :: rest => (Ready (Some x), mkChannelView (mv_capacity v) rest (mv_sender v) (mv_receiver v))
    | [] => (if mv_sender v then Pending else Ready None, v)
    end;
  mpsc_drop_sender v := mkChannelView (mv_capacity v) (mv_contents v) false (mv_receiver v);
  mpsc_drop_receiver v := mkChannelView (mv_capacity v) (mv_contents v) (mv_sender v) false;
|}.

#[export] Instance view_channel_laws {T} : BoundedChannelLaws (ChannelView T) T nat.
Proof.
  refine {| mpsc_view v := v |}; try done.
  - intros v x k. simpl. destruct (negb (mv_receiver v)); [done|]. by case_decide.
  - intros v k. simpl. by destruct (mv_contents v).
Defined.

Definition demo_spawn : SpawnRequest := mkSpawnRequest 7 0 (Some (mkSpawnEcho [104; 105] 3)).

Lemma slots_bound_rpcs_witness :
  ∃ o w, io_run (spawn_io (Sm:=nat)) spawn_service_new [demo_spawn] o w ∧
    available_permits (spawn_limit w) = 16%nat ∧ Forall (λ x, match x with inr r => answers_one [demo_spawn] r | inl _ => True end) o.
Proof.
  assert (∃ o w, io_run (spawn_io (Sm:=nat)) spawn_service_new [demo_spawn] o w ∧ sw_futures w = [])
    as (o & w & Hr & Hf).
  { eexists _, _. split.
    - eapply (io_next _ _ [demo_spawn]); [apply spawn_starts|].
      eapply (io_next _ _ []); [apply (spawn_works _ 0 (TaskRunning 7 (mkSpawnEcho [104; 105] 3)) true); reflexivity|].
      apply io_once. apply (spawn_answers _ 0 (mkSpawnedRpc 0 7)); reflexivity.
    - reflexivity. }
  destruct (slots_bound_rpcs [demo_spawn] o w demo_spawn Hr) as (Hs & _ & _ & _ & Ho).
  exists o, w. split; [exact Hr|]. split; [|exact Ho]. rewrite Hf in Hs. simpl in Hs. simpl. lia.
Defined.

Definition demo_rpc : StreamRpc (M:=ChannelView StreamedResponse) :=
  mkStreamRpc (mpsc_channel 16) (Some (streamed_echo 7 (mkSpawnEcho [104; 105] 3))) true.

Lemma channel_keeps_the_stream_witness :
  ∃ o' w' n', io_run (stream_io (K:=nat)) demo_rpc [] o' w' ∧
    o' = (Some <$> streamed_echo 7 (mkSpawnEcho [104; 105] 3)) ++ replicate (S n') None.
Proof.
  destruct (channel_keeps_the_stream demo_spawn (mkSpawnEcho [104; 105] 3) demo_rpc demo_rpc 5%nat [])
    as (received & n & _ & _ & _ & _ & o' & w' & Hr & n' & Ho); [reflexivity|reflexivity|apply io_refl|].
  exists o', w', n'. split; [exact Hr|exact Ho].
Defined.
End Spawning.
