(* ===== verification/ClientConnection.v ===== *)
(** * The client's connection

    [protosocket-rpc/src/client/{configuration,stream_connector}.rs], and what a
    [Connection] does when it hosts the rpc client's reactor: its polls are runs of
    the client of [RpcClientSpec], and a call goes over the wire and back. *)

From S2P Require Import Prelude Spillway Encoding Connection ConnectionSpec RpcMessage ExampleService.
From S2P Require Import RpcClient RpcClientSpec Server.
Local Open Scope N_scope.
Local Open Scope run_scope.

(** ** A connection as a client *)

Section hosted.
Context {S C B O W K Req Res : Type} {limit : usize}.
Context `{AsyncStreamLaws S K} `{AtomicWakerLaws W K} `{OneshotLaws O (result Res RpcError) K}.
Context `{CodecLaws C Res Req B limit} `{!BufWhole B}.
Context `{!Message Req} `{!Message Res}.
Abbreviation Queue := (Shared W (RpcNotification Req) * Receiver (RpcNotification Req))%type.
Abbreviation Reactor := (RpcCompletionReactor O W Res).
Abbreviation ClientConn := (Connection S Queue C B Reactor).
Abbreviation World := (ClientWorld O W Req Res).
Implicit Types r : Reactor.
Implicit Types q : Queue.
Implicit Types w : World.

#[export] Instance completion_reactor_laws
  : MessageReactorLaws Reactor K C B Res Req (RpcNotification Req).
Proof. split. intros r k b _. exists []. constructor. Qed.

(** What the client model sees of a connection. *)
Definition world_of (c : ClientConn) : World :=
  mkWorld (outbound_messages c).1 (outbound_messages c).2 true (reactor c).

(** The steps of a client that its connection makes: responses go in, requests come
    out. *)
Inductive client_io w : list Res → list Req → World → Prop :=
| client_takes k p s' v' :
    w_connected w = true → poll_next (w_queue w) (w_receiver w) k = Return (p, s', v') →
    client_io w []
      match p with Ready (Some n) => [(completion_on_outbound (w_reactor w) n).1] | _ => [] end
      (mkWorld s' v' true
         match p with Ready (Some n) => (completion_on_outbound (w_reactor w) n).2 | _ => w_reactor w end)
| client_hears m status r' :
    w_connected w = true → completion_on_inbound (w_reactor w) m = Return (status, r') →
    client_io w [m] [] (mkWorld (w_queue w) (w_receiver w) true r').

Lemma client_io_step w i o w' : client_io w i o w' → client_step (K:=K) w w'.
Proof. intros [k p q' v' Hc He|m status r' Hc He]; [by eapply step_outbound|by eapply step_inbound]. Qed.

Lemma client_io_ok w i o w' : io_run client_io w i o w' → world_ok w → world_ok w'.
Proof. apply io_invariant. eauto using client_step_ok, client_io_step. Qed.

Lemma client_run_reachable w i o w' :
  io_run client_io w i o w' → client_reachable (K:=K) w → client_reachable (K:=K) w'.
Proof. apply io_invariant. eauto using client_next, client_io_step. Qed.

(** Delivering messages and draining the queue are such steps. *)
Lemma deliver_hears (ms : list Res) q r :
  world_ok (mkWorld q.1 q.2 true r) →
  io_run client_io (mkWorld q.1 q.2 true r) ms []
    (mkWorld q.1 q.2 true (deliver (C:=C) (B:=B) (K:=K) r ms).1).
Proof.
  revert r. induction ms as [|m ms IH]; intros r Hok; [apply io_refl|]. simpl.
  destruct (client_inbound_total r m _ (proj2 Hok)) as (r' & He). rewrite He.
  assert (client_io (mkWorld q.1 q.2 true r) [m] [] (mkWorld q.1 q.2 true r')) as Hstep
    by (by eapply (client_hears (mkWorld q.1 q.2 true r))).
  apply (io_next _ _ [m] [] _ ms [] _ Hstep). apply IH.
  eapply client_step_ok; [|exact Hok]. by eapply client_io_step.
Qed.

Lemma sends_takes k r q (ls : list (RpcNotification Req)) (ms : list Req) r' q' :
  sends (C:=C) (B:=B) (In:=Res) k r q ls ms r' q' →
  io_run client_io (mkWorld q.1 q.2 true r) [] ms (mkWorld q'.1 q'.2 true r').
Proof.
  induction 1 as [r q|r q l q1 m r1 ls ms r2 q2 Hp Ho _ IH|r q p q1 ls ms r2 q2 Hp Hn _ IH
    |r q b b' p r1 ms1 ls ms r2 q2 Hp Hu _ _ _ IH]; [apply io_refl| | |].
  - simpl in Hp. apply run_bind_Return in Hp as ([[p s] v] & Hp & He). injection He as -> <-.
    pose proof (client_takes (mkWorld q.1 q.2 true r) k _ _ _ eq_refl Hp) as Hstep.
    simpl in Ho, Hstep. rewrite Ho in Hstep. exact (io_next _ _ [] [m] _ [] ms _ Hstep IH).
  - simpl in Hp. apply run_bind_Return in Hp as ([[p' s] v] & Hp & He). injection He as -> <-.
    pose proof (client_takes (mkWorld q.1 q.2 true r) k _ _ _ eq_refl Hp) as Hstep.
    simpl in Hstep. apply (io_next _ _ [] [] (mkWorld s v true r) [] ms _); [|exact IH].
    by destruct Hn as [-> | ->].
  - simpl in Hp. unfold poll_outbound_many_default in Hp. injection Hp as _ <- <-.
    apply budget_uses_length in Hu. assert (ms1 = []) as -> by (apply length_zero_iff_nil; lia). done.
Qed.

(** A poll, as a run of the client: the responses framed in what is read go in, and
    the requests that come out follow on the stream and in the send queue. *)
Lemma client_poll_runs (c : ClientConn) fuel k :
  conn_ok (In:=Res) (Out:=Req) (L:=RpcNotification Req) (limit:=limit) c → world_ok (world_of c) →
  (patience (stream c) < fuel)%nat →
  ∃ p c' read, poll (In:=Res) (Out:=Req) (L:=RpcNotification Req) fuel c k = Return (p, c') ∧
    inbound (stream c') = inbound (stream c) ++ read ∧
    let '(ms, rest, live) := frames (unread_bytes c ++ read) in
    ∃ out, io_run client_io (world_of c) ms out (world_of c') ∧
      (p = Pending → conn_ok (In:=Res) (Out:=Req) (L:=RpcNotification Req) (limit:=limit) c' ∧
         live = true ∧ unread_bytes c' = rest ∧
         outbound (stream c) `prefix_of` outbound (stream c') ∧
         outbound (stream c') ++ queued_bytes (send_buffer c')
           = outbound (stream c) ++ queued_bytes (send_buffer c) ++ wire_all out).
Proof.
  intros Hok Hw Hfuel.
  destruct (poll_spec (In:=Res) (Out:=Req) (L:=RpcNotification Req) fuel c k Hok Hfuel)
    as (p & c' & read & He & Hin & Hp).
  exists p, c', read. split; [done|]. split; [done|].
  destruct (frames (unread_bytes c ++ read)) as [[ms rest] live].
  assert (∀ ls out, sends (C:=C) (B:=B) (In:=Res) k (deliver (C:=C) (B:=B) (K:=K) (reactor c) ms).1 (outbound_messages c)
    ls out (reactor c') (outbound_messages c') → io_run client_io (world_of c) ms out (world_of c')) as Hrun.
  { intros ls out Hs. change out with ([] ++ out). rewrite <-(app_nil_r ms).
    eapply io_trans; [|exact (sends_takes _ _ _ _ _ _ _ Hs)].
    by apply (deliver_hears ms (outbound_messages c) (reactor c)). }
  destruct Hp as ((r & ls & out & Hr & Hs) & Hp).
  assert (r = (deliver (C:=C) (B:=B) (K:=K) (L:=RpcNotification Req) (Out:=Req) (reactor c) ms).1)
    as -> by (by destruct Hr).
  destruct p as [[]|]; [exists out; split; [by eapply Hrun|done]|].
  destruct (Hp eq_refl) as (Hok' & Hl & _ & Hu & _ & r & ls' & out' & Hrp & _ & Hs' & Hout & _ & _ & Hpre).
  injection Hrp as <-. exists out'. split; [by eapply Hrun|done].
Qed.
End hosted.

Section frames_of_a_host.
Context {S C B O W K Req Res : Type} {limit : usize}.
Context `{AsyncStreamLaws S K} `{AtomicWakerLaws W K} `{OneshotLaws O (result Res RpcError) K}.
Context `{CodecLaws C Res Req B limit} `{!BufWhole B}.
Context `{!Message Req} `{!Message Res}.
Abbreviation World := (ClientWorld O W Req Res).
Abbreviation ClientConn :=
  (Connection S (Shared W (RpcNotification Req) * Receiver (RpcNotification Req)) C B
     (RpcCompletionReactor O W Res)).
Implicit Types w : World.
Implicit Types r : RpcCompletionReactor O W Res.

Lemma inbound_registered r (m : Res) status r' x :
  completion_on_inbound r m = Return (status, r') →
  x ∈ registered (rpc_registry r') → x ∈ registered (rpc_registry r).
Proof.
  intros He. destruct (client_inbound_frame _ _ _ _ He) as (Hne & Heq & _). unfold registered.
  intros ([id y] & -> & Hy)%list_elem_of_fmap. apply elem_of_map_to_list in Hy.
  apply list_elem_of_fmap. exists (id, y). split; [done|]. apply elem_of_map_to_list.
  destruct (decide (id = message_id m)) as [->|Hid]; [by apply Heq|]. by rewrite <-Hne.
Qed.

(** A channel that nothing in flight owns is left alone. *)
Lemma client_io_frame w ms o w' i :
  client_io (K:=K) w ms o w' → world_ok w → i ∉ completion_cell <$> in_flight w →
  cells (w_reactor w') !! i = cells (w_reactor w) !! i ∧ i ∉ completion_cell <$> in_flight w'.
Proof.
  intros Hstep [Hun Hok] Hi.
  assert (∀ x, x ∈ in_flight w → completion_cell x ≠ i) as Hne.
  { intros x Hx <-. apply Hi. by apply list_elem_of_fmap_2. }
  assert (∀ w2 : World, (∀ x, x ∈ in_flight w2 → x ∈ in_flight w) → i ∉ completion_cell <$> in_flight w2)
    as Hsub by (intros w2 Hs (x & -> & Hx)%list_elem_of_fmap; by apply (Hne x (Hs x Hx))).
  assert (∀ id x, rpc_registry (w_reactor w) !! id = Some x → completion_cell x ≠ i) as Hreg.
  { intros id x Hx. apply Hne. unfold in_flight, registered. apply elem_of_app. left.
    apply list_elem_of_fmap. exists (id, x). split; [done|]. by apply elem_of_map_to_list. }
  destruct Hstep as [k p s' v' Hc He|m status r' Hc He].
  - destruct (poll_unbounded _ _ _ _ _ _ Hun He) as (Hun' & _ & _ & Hp).
    assert (∀ (q : Shared W (RpcNotification Req)) v,
      queued q v ≡ₚ pending_values q v ≫= notification_completions) as Hqp
      by (intros q v; unfold queued; by rewrite pending_waiting).
    destruct p as [[n|]|]; simpl.
    + destruct (client_outbound_frame (w_reactor w) n) as [Hr Hcells]. split.
      { apply Hcells. intros x. apply Hreg. }
      apply Hsub. intros x. unfold in_flight. simpl. rewrite !elem_of_app, !Hqp, Hp. simpl.
      intros [Hx|Hx]; [|right; apply elem_of_app; by right].
      apply Hr in Hx as [Hx|Hx]%elem_of_app; [right; apply elem_of_app; by left|by left].
    + split; [done|]. apply Hsub. intros x. unfold in_flight. simpl. rewrite !elem_of_app, !Hqp.
      destruct Hp as (-> & -> & _). done.
    + split; [done|]. apply Hsub. intros x. unfold in_flight. simpl. rewrite !elem_of_app, !Hqp.
      destruct Hp as (-> & -> & _). done.
  - destruct (client_inbound_frame _ _ _ _ He) as (_ & _ & Hcells). simpl. split.
    { apply Hcells. intros x. apply Hreg. }
    apply Hsub. intros x. unfold in_flight. simpl. rewrite !elem_of_app.
    intros [Hx|Hx]; [left; by eapply inbound_registered|by right].
Qed.

Lemma client_run_frame w ms o w' i :
  io_run (client_io (K:=K)) w ms o w' → world_ok w → i ∉ completion_cell <$> in_flight w →
  cells (w_reactor w') !! i = cells (w_reactor w) !! i.
Proof.
  induction 1 as [|w1 ms1 o1 w2 ms2 o2 w3 Hstep _ IH]; intros Hok Hi; [done|].
  destruct (client_io_frame _ _ _ _ _ Hstep Hok Hi) as [<- Hi2]. apply IH; [|done].
  eapply client_io_ok; [by apply io_once|done].
Qed.

(** Delivering messages goes on to the last of them, keeps the accounts, and does
    not touch the channels of completions that are not registered. *)
Lemma deliver_keeps (ms : list Res) r xs :
  store_ok (registered (rpc_registry r) ++ xs) (cells r) →
  let '(r', go) := deliver (C:=C) (B:=B) (K:=K) (L:=RpcNotification Req) (Out:=Req) r ms in
  go = true ∧ store_ok (registered (rpc_registry r') ++ xs) (cells r') ∧
  ∀ i, i ∈ completion_cell <$> xs → cells r' !! i = cells r !! i.
Proof.
  revert r. induction ms as [|m ms IH]; intros r Hok; [done|]. simpl.
  destruct (client_inbound_total r m _ Hok) as (r1 & He). rewrite He.
  destruct (client_inbound_ok _ _ _ _ _ Hok He) as [Hok1 _].
  destruct (client_inbound_frame _ _ _ _ He) as (_ & _ & Hcells).
  specialize (IH r1 Hok1). destruct (deliver r1 ms) as [r' go]. destruct IH as (-> & Hok' & Hc).
  split; [done|]. split; [done|]. intros i Hi. rewrite Hc by done. apply Hcells. intros x Hx <-.
  pose proof (so_nodup _ _ Hok) as Hnd. rewrite (registered_delete _ _ _ Hx), fmap_app in Hnd. simpl in Hnd.
  apply NoDup_cons in Hnd as [Hni _]. apply Hni, elem_of_app. by right.
Qed.

(** Messages with other ids leave a registered call and its channel as they are. *)
Lemma deliver_others (ms : list Res) r xs id c :
  store_ok (registered (rpc_registry r) ++ xs) (cells r) →
  rpc_registry r !! id = Some (Unary c) → Forall (λ m, message_id m ≠ id) ms →
  let r' := (deliver (C:=C) (B:=B) (K:=K) (L:=RpcNotification Req) (Out:=Req) r ms).1 in
  rpc_registry r' !! id = Some (Unary c) ∧ cells r' !! c = cells r !! c.
Proof.
  revert r. induction ms as [|m ms IH]; intros r Hok Hreg Hms; [done|]. simpl.
  apply Forall_cons in Hms as [Hm Hms].
  destruct (client_inbound_total r m _ Hok) as (r1 & He). rewrite He.
  destruct (client_inbound_ok _ _ _ _ _ Hok He) as [Hok1 _].
  destruct (client_inbound_frame _ _ _ _ He) as (Hne & _ & Hcells).
  assert (cells r1 !! c = cells r !! c) as <-.
  { apply Hcells. intros x Hx Heq.
    pose proof (so_nodup _ _ Hok) as Hnd. rewrite (registered_delete _ _ _ Hx) in Hnd. simpl in Hnd.
    apply NoDup_cons in Hnd as [Hni _]. apply Hni. rewrite fmap_app. apply elem_of_app. left.
    rewrite Heq. apply (list_elem_of_fmap_2 completion_cell _ (Unary c)). unfold registered.
    apply list_elem_of_fmap. exists (id, Unary c). split; [done|]. apply elem_of_map_to_list.
    rewrite lookup_delete_ne; [done|congruence]. }
  apply IH; [done| |done]. rewrite Hne; [done|congruence].
Qed.

(** A message cannot register anything. *)
Lemma deliver_unregistered (ms : list Res) r id :
  rpc_registry r !! id = None →
  rpc_registry (deliver (C:=C) (B:=B) (K:=K) (L:=RpcNotification Req) (Out:=Req) r ms).1 !! id = None.
Proof.
  revert r. induction ms as [|m ms IH]; intros r Hreg; [done|]. simpl.
  destruct (completion_on_inbound r m) as [[status r1]| |] eqn:He; [|by apply IH..].
  destruct (client_inbound_frame _ _ _ _ He) as (Hne & Heq & _).
  assert (rpc_registry r1 !! id = None) as Hr1.
  { destruct (decide (id = message_id m)) as [->|Hid]; [|by rewrite Hne].
    destruct (rpc_registry r1 !! message_id m) as [x|] eqn:Hx; [|done]. by rewrite (Heq x) in Hreg. }
  destruct status; [by apply IH|done].
Qed.

(** The response to a registered call goes into its channel. *)
Lemma response_completes r xs id c o (response : Res) :
  store_ok (registered (rpc_registry r) ++ xs) (cells r) →
  rpc_registry r !! id = Some (Unary c) → cells r !! c = Some (OneshotCell o) → os_open o = true →
  control_code response = Normal → message_id response = id →
  ∃ r' o', completion_on_inbound r response = Return (StatusContinue, r') ∧
    cells r' !! c = Some (OneshotCell o') ∧ os_view o' = OsValue (Ok response).
Proof.
  intros Hok Hreg Hcell Hopen Hcode <-.
  rewrite (registered_delete _ _ _ Hreg) in Hok.
  destruct (so_owns _ _ Hok (Unary c)) as (cell & Hc & Hown); [by left|].
  simpl in Hc. rewrite Hcell in Hc. injection Hc as <-. simpl in Hown.
  pose proof (os_send_law o (Ok response) Hown) as Hsend. rewrite Hopen in Hsend.
  unfold completion_on_inbound. rewrite Hcode, Hreg, Hcell.
  destruct (os_send o (Ok response)) as [sent o']. destruct Hsend as (_ & Hv & _).
  do 2 eexists. split; [done|]. simpl. split; [|done].
  apply list_lookup_insert_eq. by eapply lookup_lt_Some.
Qed.

(** A hosted reactor sends nothing of its own accord. *)
Lemma hosted_sends k r q (ls : list (RpcNotification Req)) (ms : list Req) r' q' :
  sends (C:=C) (B:=B) (In:=Res) k r q ls ms r' q' →
  match ls with
  | [] => ms = [] ∧ r' = r
  | [n] => ms = [(completion_on_outbound r n).1] ∧ r' = (completion_on_outbound r n).2
  | _ => True
  end.
Proof.
  induction 1 as [r q|r q l q1 m r1 ls ms r2 q2 Hp Ho _ IH|r q p q1 ls ms r2 q2 Hp Hn _ IH
    |r q b b' p r1 ms1 ls ms r2 q2 Hp Hu _ _ _ IH]; [done| |done|].
  - simpl in Ho. destruct ls as [|? ?]; [|done]. destruct IH as [-> ->]. by rewrite Ho.
  - simpl in Hp. unfold poll_outbound_many_default in Hp. injection Hp as _ <- <-.
    apply budget_uses_length in Hu. assert (ms1 = []) as -> by (apply length_zero_iff_nil; lia). done.
Qed.
End frames_of_a_host.

(** ** A call, poll by poll *)

Section calls.
Context {S C B O W K Req Res : Type} {limit : usize}.
Context `{AsyncStreamLaws S K} `{AtomicWakerLaws W K} `{OneshotLaws O (result Res RpcError) K}.
Context `{CodecLaws C Res Req B limit} `{!BufWhole B}.
Context `{!Message Req} `{!Message Res}.
Abbreviation ClientConn :=
  (Connection S (Shared W (RpcNotification Req) * Receiver (RpcNotification Req)) C B
     (RpcCompletionReactor O W Res)).
Abbreviation client_conn_ok :=
  (conn_ok (In:=Res) (Out:=Req) (L:=RpcNotification Req) (limit:=limit)).
Abbreviation client_poll := (poll (In:=Res) (Out:=Req) (L:=RpcNotification Req)).
Abbreviation Given := (deliver (C:=C) (B:=B) (K:=K) (L:=RpcNotification Req) (Out:=Req)).

(** The queue holds one request, and the send queue has room: the poll registers
    its completion and sends it. *)
Lemma poll_takes_request (c : ClientConn) fuel k request cell o :
  client_conn_ok c → world_ok (world_of c) → (patience (stream c) < fuel)%nat →
  queue_waiting (outbound_messages c) = [New (mkCompletableRpc (message_id request) (Unary cell) request)] →
  len (send_buffer c) < max_queued_send_messages c →
  rpc_registry (reactor c) !! message_id request = None →
  cells (reactor c) !! cell = Some (OneshotCell o) →
  ∃ p c', client_poll fuel c k = Return (p, c') ∧ world_ok (world_of c') ∧
    (p = Pending → client_conn_ok c' ∧
       outbound (stream c') ++ queued_bytes (send_buffer c')
         = outbound (stream c) ++ queued_bytes (send_buffer c) ++ wire (request : Req) ∧
       rpc_registry (reactor c') !! message_id request = Some (Unary cell) ∧
       cells (reactor c') !! cell = Some (OneshotCell o)).
Proof.
  intros Hok Hw Hfuel Hq Hroom Hfree Hcell.
  destruct (poll_spec (In:=Res) (Out:=Req) (L:=RpcNotification Req) fuel c k Hok Hfuel)
    as (p & c' & read & He & _ & Hp).
  destruct (frames (unread_bytes c ++ read)) as [[ms rest] live].
  destruct Hp as ((r & ls & out & Hr & Hs) & Hp).
  assert (r = (Given (reactor c) ms).1) as -> by (by destruct Hr).
  exists p, c'. split; [done|]. split.
  { eapply (client_io_ok (K:=K)); [|exact Hw].
    eapply io_trans; [|exact (sends_takes _ _ _ _ _ _ _ Hs)].
    by apply (deliver_hears (C:=C) (B:=B) (Req:=Req) (Res:=Res) ms (outbound_messages c) (reactor c)). }
  intros Hpend. clear Hs Hr ls out.
  destruct (Hp Hpend) as (Hok' & _ & _ & _ & Ht & r & ls & out & Hr & Hl & Hs & Hout & Hlen & Hmax).
  simpl in Hr. unfold reactor_poll_default in Hr. injection Hr as <-.
  apply hosted_sends in Hs. rewrite Hq in Hl.
  destruct ls as [|n ls].
  { destruct Hs as [-> _]. destruct Ht as [Ht|Ht]; [by rewrite Ht in Hl|]. rewrite len_nil in Hlen. lia. }
  destruct ls as [|? ?]; [|done]. injection Hl as <- _. destruct Hs as [-> ->].
  split; [done|]. split; [by rewrite Hout; unfold wire_all; simpl; rewrite app_nil_r|].
  pose proof (deliver_unregistered (C:=C) (B:=B) (K:=K) (Req:=Req) ms _ _ Hfree) as Hfree'.
  pose proof (deliver_keeps (C:=C) (B:=B) (K:=K) (Req:=Req) ms (reactor c) _ (proj2 Hw)) as Hk.
  destruct (Given (reactor c) ms) as [r1 go]. simpl in *. destruct Hk as (_ & _ & Hk).
  unfold deregister. simpl. rewrite Hfree'. split; [by rewrite lookup_insert_eq|].
  rewrite Hk; [done|]. apply (list_elem_of_fmap_2 completion_cell _ (Unary cell)).
  unfold queued. rewrite <-pending_waiting. simpl in Hq. rewrite Hq. by left.
Qed.

(** The poll that reads the response completes the call. *)
Lemma poll_reads_response (c : ClientConn) fuel k id cell o (response : Res) :
  client_conn_ok c → world_ok (world_of c) → (patience (stream c) < fuel)%nat →
  rpc_registry (reactor c) !! id = Some (Unary cell) →
  cells (reactor c) !! cell = Some (OneshotCell o) → os_open o = true →
  control_code response = Normal → message_id response = id →
  ∃ p c' read, client_poll fuel c k = Return (p, c') ∧
    inbound (stream c') = inbound (stream c) ++ read ∧
    ∀ before after rest live,
      frames (unread_bytes c ++ read) = (before ++ response :: after, rest, live) →
      Forall (λ m, message_id m ≠ id) before →
      ∃ o', cells (reactor c') !! cell = Some (OneshotCell o') ∧ os_view o' = OsValue (Ok response).
Proof.
  intros Hok Hw Hfuel Hreg Hcell Hopen Hcode Hid.
  destruct (poll_spec (In:=Res) (Out:=Req) (L:=RpcNotification Req) fuel c k Hok Hfuel)
    as (p & c' & read & He & Hin & Hp).
  exists p, c', read. split; [done|]. split; [done|]. intros before after rest live Hfr Hbefore.
  rewrite Hfr in Hp. destruct Hp as ((r & ls & out & Hr & Hs) & _).
  assert (r = (Given (reactor c) (before ++ response :: after)).1) as -> by (by destruct Hr).
  clear Hr. apply sends_takes in Hs.
  pose proof (deliver_keeps (C:=C) (B:=B) (K:=K) (Req:=Req) before (reactor c) _ (proj2 Hw)) as Hk.
  pose proof (deliver_others (C:=C) (B:=B) (K:=K) (Req:=Req) before (reactor c) _ id cell (proj2 Hw) Hreg Hbefore) as Ho.
  rewrite deliver_app in Hs. destruct (Given (reactor c) before) as [r1 go].
  destruct Hk as (-> & Hok1 & _). simpl in Ho. destruct Ho as [Hreg1 Hcell1]. rewrite Hcell in Hcell1.
  destruct (response_completes r1 _ id cell o response Hok1 Hreg1 Hcell1 Hopen Hcode Hid)
    as (r2 & o' & He2 & Hcell2 & Hv).
  cbn [deliver] in Hs. simpl on_inbound_message in Hs. rewrite He2 in Hs.
  destruct (client_inbound_ok _ _ _ _ _ Hok1 He2) as [Hok2 _].
  exists o'. split; [|done]. rewrite <-Hcell2.
  set (w := mkWorld (outbound_messages c).1 (outbound_messages c).2 true r2).
  assert (world_ok w) as Hw2 by (split; [apply Hw|exact Hok2]).
  assert (io_run (client_io (K:=K)) w (after ++ []) ([] ++ out) (world_of c')) as Hrun.
  { eapply io_trans; [|exact Hs].
    by apply (deliver_hears (C:=C) (B:=B) (Req:=Req) (Res:=Res) after (outbound_messages c) r2). }
  apply (client_run_frame w _ _ (world_of c') cell Hrun Hw2).
  intros (x & Hx & Hin2)%list_elem_of_fmap.
  destruct (so_owns _ _ (proj2 Hw2) x Hin2) as (d & Hd & Hown). simpl in Hd.
  rewrite <-Hx, Hcell2 in Hd. injection Hd as <-. destruct x; simpl in Hown; [|done]. by rewrite Hv in Hown.
Qed.
End calls.

(** ** Connecting ([stream_connector.rs], [configuration.rs]) *)

(** [StreamConnector]; [T] is [tokio::net::TcpStream], and the result is what the
    future of [connect_stream] comes to. *)
Class StreamConnector (X T S : Type) := connect_stream : X → T → result S IoError.

Inductive TcpStreamConnector := mkTcpStreamConnector.
#[export] Instance tcp_stream_connector {T} : StreamConnector TcpStreamConnector T T := λ _ stream, Ok stream.

(** [ServerCertVerifier] of [rustls]; times and signatures are numbers and bytes,
    [Scheme] is its enumeration of signature schemes. *)
Class ServerCertVerifier (Vf Scheme TlsError : Type) := {
  verify_server_cert : Vf → (* end entity *) bytes → (* intermediates *) list bytes →
    (* server name *) bytes → (* ocsp response *) bytes → (* now *) N → result unit TlsError;
  verify_tls12_signature : Vf → (* message *) bytes → (* certificate *) bytes → (* signature *) bytes →
    result unit TlsError;
  verify_tls13_signature : Vf → bytes → bytes → bytes → result unit TlsError;
  supported_verify_schemes : Vf → list Scheme;
}.

(** [DoNothingVerifier]; the schemes are those of the default provider of [rustls]. *)
Inductive DoNothingVerifier (Scheme : Type) := mkDoNothingVerifier (default_provider_schemes : list Scheme).
Arguments mkDoNothingVerifier {Scheme} _.

#[export] Instance do_nothing_verifier {Scheme TlsError}
  : ServerCertVerifier (DoNothingVerifier Scheme) Scheme TlsError := {|
  verify_server_cert _ _ _ _ _ _ := Ok tt;
  verify_tls12_signature _ _ _ _ := Ok tt;
  verify_tls13_signature _ _ _ _ := Ok tt;
  supported_verify_schemes '(mkDoNothingVerifier schemes) := schemes;
|}.

(** What the two TLS connectors ask of [rustls], which does the handshake. *)
Inductive CertificateCheck := WebpkiRoots | CustomDoNothing.
Record TlsClientConfig := mkTlsClientConfig {
  tls13_only : bool;
  certificate_check : CertificateCheck;
  client_auth : bool;
}.
Class TlsConnect (T Tls : Type) := tls_connect : TlsClientConfig → bytes → T → result Tls IoError.

Record TlsStreamConnector := mkTlsStreamConnector {
  tls_config : TlsClientConfig;
  servername : bytes;
}.
Definition webpki_connector_new (servername : bytes) : TlsStreamConnector :=
  mkTlsStreamConnector (mkTlsClientConfig true WebpkiRoots false) servername.
Definition unverified_connector_new (servername : bytes) : TlsStreamConnector :=
  mkTlsStreamConnector (mkTlsClientConfig true CustomDoNothing false) servername.
#[export] Instance tls_stream_connector {T Tls} `{TlsConnect T Tls}
  : StreamConnector TlsStreamConnector T Tls := λ x stream, tls_connect (tls_config x) (servername x) stream.

(** [Configuration]. *)
Record Configuration (X : Type) := mkConfiguration {
  cl_max_buffer_length : usize;
  cl_buffer_allocation_increment : usize;
  cl_max_queued_outbound_messages : usize;
  cl_tcp_keepalive_duration : option N;
  stream_connector : X;
}.
Arguments mkConfiguration {X} _ _ _ _ _.
Arguments cl_max_buffer_length {X} _.
Arguments cl_buffer_allocation_increment {X} _.
Arguments cl_max_queued_outbound_messages {X} _.
Arguments cl_tcp_keepalive_duration {X} _.
Arguments stream_connector {X} _.

Definition configuration_new {X} (connector : X) : Configuration X :=
  mkConfiguration (4 * 2 ^ 20) (2 ^ 20) 256 None connector.

(** Its setters. *)
Definition configure_max_buffer_length {X} (x : usize) (c : Configuration X) : Configuration X :=
  mkConfiguration x (cl_buffer_allocation_increment c) (cl_max_queued_outbound_messages c)
    (cl_tcp_keepalive_duration c) (stream_connector c).
Definition configure_max_queued_outbound_messages {X} (x : usize) (c : Configuration X) : Configuration X :=
  mkConfiguration (cl_max_buffer_length c) (cl_buffer_allocation_increment c) x
    (cl_tcp_keepalive_duration c) (stream_connector c).
Definition configure_buffer_allocation_increment {X} (x : usize) (c : Configuration X) : Configuration X :=
  mkConfiguration (cl_max_buffer_length c) x (cl_max_queued_outbound_messages c)
    (cl_tcp_keepalive_duration c) (stream_connector c).
Definition configure_tcp_keepalive_duration {X} (x : option N) (c : Configuration X) : Configuration X :=
  mkConfiguration (cl_max_buffer_length c) (cl_buffer_allocation_increment c)
    (cl_max_queued_outbound_messages c) x (stream_connector c).

Section connect.
Context {X T S C B O W K Req Res : Type} `{AtomicWaker W K} `{StreamConnector X T S}.
Abbreviation ClientConn :=
  (Connection S (Shared W (RpcNotification Req) * Receiver (RpcNotification Req)) C B
     (RpcCompletionReactor O W Res)).

(** The options that [connect] sets on the connected socket, in order. *)
Definition connect_calls (configuration : Configuration X) : list SocketCall :=
  [SetNonblocking true; SetTcpKeepalive (cl_tcp_keepalive_duration configuration);
   SetTcpNodelay true; SetReuseAddress true].

(** [connect]: [tcp_connect] is what [TcpStream::connect] comes to, [sys] the
    answers of the socket, and [codec_default] is [Codec::default()]; the calls
    that were made are in the result. *)
Definition connect (codec_default : C) (tcp_connect : SocketAddr → result T IoError)
  (sys : SocketCall → result unit IoError) (address : SocketAddr) (configuration : Configuration X)
  : run (list SocketCall * result (RpcClient * ClientConn) RpcError) :=
  match tcp_connect address with
  | Err e => Return ([], Err (IoFailure e))
  | Ok stream =>
      let '(calls, set) := perform sys (connect_calls configuration) in
      match set with
      | Err e => Return (calls, Err (IoFailure e))
      | Ok _ =>
          let message_reactor := completion_reactor_new in
          let* '(outbound, outbound_messages, s) := channel in
          let rpc_client := mkRpcClient outbound in
          match connect_stream (stream_connector configuration) stream with
          | Err e => Return (calls, Err (IoFailure e))
          | Ok stream =>
              let connection :=
                new stream codec_default (cl_max_buffer_length configuration)
                  (cl_buffer_allocation_increment configuration)
                  (cl_max_queued_outbound_messages configuration) (s, outbound_messages)
                  message_reactor in
              Return (calls, Ok (rpc_client, connection))
          end
      end
  end.
End connect.

(** ** The properties *)

Module ClientConnections.

Section claims.
Context {S C B O W K Req Res : Type} {limit : usize}.
Context `{AsyncStreamLaws S K} `{AtomicWakerLaws W K} `{OneshotLaws O (result Res RpcError) K}.
Context `{CodecLaws C Res Req B limit} `{!BufWhole B}.
Context `{!Message Req} `{!Message Res}.
Abbreviation ClientConn :=
  (Connection S (Shared W (RpcNotification Req) * Receiver (RpcNotification Req)) C B
     (RpcCompletionReactor O W Res)).

(** C19: a connection runs the client: a poll of a connection that hosts the
    completion reactor hands it exactly the responses framed in what was unread and
    what it reads, each once and in order, and is a run of the client in which these
    go in; the client's
    state stays one of those that the theorems about the client are about; when the
    connection goes on, the requests and cancellations that this run took from the
    queue, and nothing else, follow on the stream and in the send queue. *)
Theorem connection_runs_the_client (c : ClientConn) (fuel : nat) (k : K)
  (Hok : conn_ok (In:=Res) (Out:=Req) (L:=RpcNotification Req) (limit:=limit) c)
  (Hreach : client_reachable (K:=K) (world_of c)) (Hfuel : (patience (stream c) < fuel)%nat) :
  ∃ p c' read, poll (In:=Res) (Out:=Req) (L:=RpcNotification Req) fuel c k = Return (p, c') ∧
    inbound (stream c') = inbound (stream c) ++ read ∧
    let '(ms, rest, live) := frames (unread_bytes c ++ read) in
    ∃ out, io_run (client_io (K:=K)) (world_of c) ms out (world_of c') ∧ client_reachable (K:=K) (world_of c') ∧
      (p = Pending → conn_ok (In:=Res) (Out:=Req) (L:=RpcNotification Req) (limit:=limit) c' ∧ live = true ∧
         unread_bytes c' = rest ∧ outbound (stream c) `prefix_of` outbound (stream c') ∧
         outbound (stream c') ++ queued_bytes (send_buffer c')
           = outbound (stream c) ++ queued_bytes (send_buffer c) ++ wire_all out).
Proof.
  destruct (client_poll_runs c fuel k Hok (client_reachable_ok _ Hreach) Hfuel) as (p & c' & read & He & Hin & Hp).
  exists p, c', read. split; [done|]. split; [done|].
  destruct (frames (unread_bytes c ++ read)) as [[ms rest] live]. destruct Hp as (out & Hrun & Hp).
  exists out. split; [done|]. split; [|done]. by eapply client_run_reachable.
Qed.

(** C17: a call over the wire: on a connection in order whose queue is empty and
    whose send queue has room, a unary request is accepted; when the connection
    then goes on after a poll, the bytes of the request, and nothing else, are
    behind what it had to send; and whatever the next poll reads, if the first of
    the messages with the request's id is its response, the caller's completion
    gives this response. *)
Theorem call_over_the_wire (c : ClientConn) (cl : RpcClient) (request : Req) (response : Res)
  (Hok : conn_ok (In:=Res) (Out:=Req) (L:=RpcNotification Req) (limit:=limit) c)
  (Hreach : client_reachable (K:=K) (world_of c)) (Halive : is_alive (reactor c) = true)
  (Hempty : queue_waiting (outbound_messages c) = [])
  (Hroom : len (send_buffer c) < max_queued_send_messages c)
  (Hchute : chute (submission_queue cl) < len (chutes (outbound_messages c).1))
  (Hfree : rpc_registry (reactor c) !! message_id request = None)
  (Hcode : control_code response = Normal) (Hid : message_id response = message_id request) :
  ∃ u q r, send_unary cl request (outbound_messages c).1 (reactor c) = Return (Ok u, q, r) ∧
  let c1 := set_outbound c (q, (outbound_messages c).2) (send_buffer c) (codec c) r in
  ∀ fuel1 k1, (patience (stream c) < fuel1)%nat →
  ∃ p c2, poll (In:=Res) (Out:=Req) (L:=RpcNotification Req) fuel1 c1 k1 = Return (p, c2) ∧
  (p = Pending →
   outbound (stream c2) ++ queued_bytes (send_buffer c2)
     = outbound (stream c) ++ queued_bytes (send_buffer c) ++ wire request ∧
   ∀ fuel2 k2 k3, (patience (stream c2) < fuel2)%nat →
   ∃ p' c3 read, poll (In:=Res) (Out:=Req) (L:=RpcNotification Req) fuel2 c2 k2 = Return (p', c3) ∧
     inbound (stream c3) = inbound (stream c2) ++ read ∧
     ∀ before after rest live,
       frames (unread_bytes c2 ++ read) = (before ++ response :: after, rest, live) →
       Forall (λ m, message_id m ≠ message_id request) before →
       ∃ u' cs, unary_poll u k3 (cells (reactor c3)) = Return (Ready (Ok response), u', cs)).
Proof.
  pose proof (client_reachable_ok _ Hreach) as [Hun Hst].
  destruct (send_unary_spec cl request _ _ (reactor c) Hun Halive Hchute)
    as (g & q & Hs & Hun1 & Hg & _ & Hw).
  set (r := set_cells (reactor c) (cells (reactor c) ++ [OneshotCell os_channel])) in *.
  do 3 eexists. split; [exact Hs|]. intros c1 fuel1 k1 Hf1.
  assert (queue_waiting (outbound_messages c1)
    = [New (mkCompletableRpc (message_id request) (Unary (length (cells (reactor c)))) request)]) as Hq1.
  { simpl. simpl in Hempty, Hw. rewrite <-!pending_waiting, Hempty in Hw.
    by apply Permutation_singleton_r in Hw. }
  assert (conn_ok (In:=Res) (Out:=Req) (L:=RpcNotification Req) (limit:=limit) c1) as Hok1.
  { destruct Hok as [Hr Hse]. split; [by apply (recv_ok_same c); destruct Hr|].
    destruct Hse as [S1 S2 S3 S4 S5]. split; try done. apply Hun1. }
  assert (world_ok (world_of c1)) as Hw1.
  { apply (client_reachable_ok (K:=K)). eapply client_next; [exact Hreach|].
    by eapply (step_send_unary (world_of c)). }
  destruct (os_channel_law (O:=O) (T:=result Res RpcError) (K:=K)) as [_ Hopen].
  destruct (poll_takes_request c1 fuel1 k1 request (length (cells (reactor c))) os_channel)
    as (p & c2 & He & Hw2 & Hp); try done; [by apply list_lookup_middle|].
  exists p, c2. split; [done|]. intros Hpend. destruct (Hp Hpend) as (Hok2 & Hout & Hreg & Hcell).
  split; [done|]. intros fuel2 k2 k3 Hf2.
  destruct (poll_reads_response c2 fuel2 k2 _ _ _ response Hok2 Hw2 Hf2 Hreg Hcell Hopen Hcode Hid)
    as (p' & c3 & read & He3 & Hin3 & Hdone).
  exists p', c3, read. split; [done|]. split; [done|]. intros before after rest live Hfr Hb.
  destruct (Hdone _ _ _ _ Hfr Hb) as (o' & Hc3 & Hv).
  unfold unary_poll. simpl uc_guard. rewrite Hg. simpl uc_completion. rewrite Hc3.
  pose proof (os_poll_law o' k3) as Hpoll. rewrite Hv in Hpoll.
  destruct (os_poll o' k3) as [po o2]. destruct Hpoll as (_ & -> & _). by do 2 eexists.
Qed.
End claims.

Section connecting.
Context {X T S C B O W K Req Res : Type} {limit : usize} `{StreamConnector X T S}.
Context `{AsyncStreamLaws S K} `{AtomicWakerLaws W K} `{OneshotLaws O (result Res RpcError) K}.
Context `{CodecLaws C Res Req B limit} `{!BufWhole B}.
Context `{!Message Req} `{!Message Res}.
Abbreviation ClientConn :=
  (Connection S (Shared W (RpcNotification Req) * Receiver (RpcNotification Req)) C B
     (RpcCompletionReactor O W Res)).

(** A new client with its connection, over the stream [s]. *)
Definition new_client (s : S) (cl : RpcClient) (c : ClientConn) : Prop :=
  stream c = s ∧ conn_ok (In:=Res) (Out:=Req) (L:=RpcNotification Req) (limit:=limit) c ∧
  (∃ x v q, channel = Return (x, v, q) ∧ cl = mkRpcClient x ∧ world_of c = world_new q v) ∧ unread_bytes c = [] ∧
  client_reachable (K:=K) (world_of c) ∧ is_alive (reactor c) = true ∧
  rpc_registry (reactor c) = ∅ ∧ queue_waiting (outbound_messages c) = [] ∧ send_buffer c = [] ∧
  chute (submission_queue cl) < len (chutes (outbound_messages c).1) ∧ senders (outbound_messages c).1 = 1.

(** [connect] fails with the first thing that fails, the TCP connection, an
    option of its socket or the connector's handshake, having done nothing after
    it; otherwise it has set all its options, in order, and gives a client whose
    connection is in order and runs the client model from its start, so that the
    theorems about calls hold for it. *)
Theorem connect_makes_a_client (codec_default : C) (tcp_connect : SocketAddr → result T IoError)
  (sys : SocketCall → result unit IoError) (address : SocketAddr) (cfg : Configuration X)
  (Hlimit : cl_max_buffer_length cfg = limit) (Hpos : 0 < limit)
  (Hincrement : 0 < cl_buffer_allocation_increment cfg)
  (Hwidth : limit + cl_buffer_allocation_increment cfg < 2 ^ 63)
  (Hqueue : cl_max_queued_outbound_messages cfg < 2 ^ 63)
  (Hcodec : dec_ok codec_default [] ∧ enc_ok codec_default) :
  ∃ calls res, connect (B:=B) (O:=O) codec_default tcp_connect sys address cfg = Return (calls, res) ∧
    match tcp_connect address with
    | Err e => calls = [] ∧ res = Err (IoFailure e)
    | Ok t =>
        (∃ made call rest e, connect_calls cfg = made ++ call :: rest ∧ sys call = Err e ∧
           Forall (λ call, sys call = Ok tt) made ∧ calls = made ++ [call] ∧ res = Err (IoFailure e)) ∨
        (Forall (λ call, sys call = Ok tt) (connect_calls cfg) ∧ calls = connect_calls cfg ∧
           match connect_stream (stream_connector cfg) t with
           | Err e => res = Err (IoFailure e)
           | Ok s => ∃ cl c, res = Ok (cl, c) ∧ new_client s cl c
           end)
    end.
Proof.
  unfold connect. destruct (tcp_connect address) as [t|e]; [|by do 2 eexists].
  destruct (perform_spec sys (connect_calls cfg))
    as [[Hall ->]|(made & call & rest & e & Hc & Hall & He & ->)]; cycle 1.
  { do 2 eexists. split; [done|]. left. by exists made, call, rest, e. }
  destruct (channel_new_inv (T:=RpcNotification Req) max_u64 8)
    as (x & v & q & Hch & Hinv & Hpv & Hse & _ & Hx); [lia|done|].
  unfold channel, channel_with_concurrency. rewrite Hch. cbn [run_bind].
  destruct (connect_stream (stream_connector cfg) t) as [s|e]; [|do 2 eexists; split; [done|by right]].
  do 2 eexists. split; [done|]. right. split; [done|]. split; [done|]. do 2 eexists. split; [done|].
  split; [done|]. split; [by apply new_ok; destruct Hcodec|].
  split; [by exists x, v, q|]. split; [done|].
  split; [by apply (client_start x)|]. split_and!; try done. simpl. rewrite Hx.
  pose proof (ok_cursor _ _ (inv_ok _ _ Hinv)). lia.
Qed.
End connecting.

(** ** Witnesses: one byte per message, over a stream that follows a script *)

Import WakerCell Demo.
Abbreviation DemoSlot := (OneshotView (result Response RpcError) * bool)%type.
Abbreviation DemoClientConn :=
  (Connection ScriptedStream
     (Shared (option nat) (RpcNotification Request) * Receiver (RpcNotification Request))
     (unit * unit) OwnedBuffer (RpcCompletionReactor DemoSlot (option nat) Response)).

Definition response_frame (u : bytes) : result (usize * Response) DeserializeError :=
  match u with [] => Err (IncompleteBuffer 1) | x :: _ => Ok (1, mkResponse x 0 None) end.

#[export] Instance response_decoder : Decoder unit Response := {| decode d u := (response_frame u, d) |}.
#[export] Instance response_decoder_laws : DecoderLaws unit Response 16.
Proof.
  refine {| frame := response_frame; dec_ok _ _ := True |}; try done.
  - intros d [|x u] _ Hne _; done.
  - intros [|x u] n m He; simplify_eq/=. rewrite len_cons. lia.
  - intros [|x u] n He; simplify_eq/=. done.
  - intros [|x u] n He; simplify_eq/=.
  - intros [|x u] v r Hne <- _ _; done.
Defined.

#[export] Instance request_serialize : Serialize unit Request :=
  {| serialize_into_buffer s m buffer := (buffer ++ [req_request_id m mod 256], s) |}.
#[export] Instance request_serialize_laws : SerializeLaws unit Request.
Proof. by refine {| serialized m := [req_request_id m mod 256] |}. Defined.

Definition demo_configuration : Configuration TcpStreamConnector :=
  configure_max_buffer_length 16 (configure_buffer_allocation_increment 4
    (configure_max_queued_outbound_messages 8 (configuration_new mkTcpStreamConnector))).

Definition demo_peer : SocketAddr := AddrV4 2130706433 9000.

(** A socket on which nothing is ready at first, and then a response to call 7. *)
Definition demo_socket : ScriptedStream := mkScriptedStream [Err WouldBlock; Ok [7]] [Ok 100] [] [].

Definition demo_connected : run (list SocketCall * result (RpcClient * DemoClientConn) RpcError) :=
  connect (K:=nat) (tt, tt) (λ _, Ok demo_socket) (λ _, Ok tt) demo_peer demo_configuration.

Lemma connect_makes_a_client_witness :
  ∃ cl c, demo_connected = Return (connect_calls demo_configuration, Ok (cl, c)) ∧
    new_client (K:=nat) (limit:=16) demo_socket cl c.
Proof.
  destruct (connect_makes_a_client (B:=OwnedBuffer) (K:=nat) (O:=DemoSlot) (W:=option nat) (Req:=Request)
    (Res:=Response) (S:=ScriptedStream) (limit:=16) (tt, tt) (λ _, Ok demo_socket) (λ _, Ok tt)
    demo_peer demo_configuration) as (calls & res & He & [Hl|Hr]);
    [reflexivity..|done| |].
  - exfalso. destruct Hl as (made & call & rest & e & _ & Hs & _). discriminate Hs.
  - destruct Hr as (_ & -> & Hr). simpl in Hr. destruct Hr as (cl & c & -> & Hn).
    exists cl, c. split; [exact He|exact Hn].
Defined.

Definition demo_conn : DemoClientConn :=
  new demo_socket (tt, tt) 16 4 8 (RpcClients.demo_queue, receiver_new) completion_reactor_new.

Lemma demo_conn_ok :
  conn_ok (K:=nat) (In:=Response) (Out:=Request) (L:=RpcNotification Request) (limit:=16) demo_conn.
Proof. apply new_ok; try done. by apply channel_invb_sound. Qed.

Lemma demo_conn_reachable : client_reachable (K:=nat) (world_of demo_conn).
Proof. exact RpcClients.demo_world_reachable. Qed.

(** A client whose call 7 has been sent and whose call 8 waits in the queue; the
    socket has the response to call 7. *)
Definition busy_world : RpcClients.DemoWorld :=
  RpcClients.after_unary (RpcClients.after_outbound (RpcClients.after_unary RpcClients.demo_world 7)) 8.

Definition busy_conn : DemoClientConn :=
  new (mkScriptedStream [Ok [7]] [Ok 100] [] []) (tt, tt) 16 4 8 (w_queue busy_world, w_receiver busy_world)
    (w_reactor busy_world).

Lemma busy_conn_ok :
  conn_ok (K:=nat) (In:=Response) (Out:=Request) (L:=RpcNotification Request) (limit:=16) busy_conn.
Proof. apply new_ok; try done. by apply channel_invb_sound. Qed.

Lemma busy_conn_reachable : client_reachable (K:=nat) (world_of busy_conn).
Proof.
  assert (world_of busy_conn = busy_world) as -> by reflexivity. unfold busy_world.
  eapply client_next; [exact RpcClients.demo_taken_reachable|].
  by eapply (step_send_unary _ RpcClients.demo_client (RpcClients.demo_request 8)).
Qed.

Lemma connection_runs_the_client_witness :
  ∃ c' out, poll (In:=Response) (Out:=Request) (L:=RpcNotification Request) 9 busy_conn 5%nat
          = Return (Pending, c') ∧
    io_run (client_io (K:=nat)) busy_world [RpcClients.demo_response 7] out (world_of c') ∧
    client_reachable (K:=nat) (world_of c') ∧
    rpc_registry (reactor c') !! 7 = None ∧ sc_outbound (stream c') = [8] ∧ wire_all (C:=unit * unit) (B:=OwnedBuffer) out = [8].
Proof.
  destruct (connection_runs_the_client (limit:=16) busy_conn 9 5%nat busy_conn_ok busy_conn_reachable)
    as (p & c' & read & He & Hin & Hp); [vm_compute; lia|].
  pose proof He as He'. vm_compute in He'. injection He' as Hpp Hc. subst p c'.
  simpl in Hin. subst read.
  destruct (frames _) as [[ms rest] live] eqn:Hfr. vm_compute in Hfr. injection Hfr as <- <- <-.
  destruct Hp as (out & Hrun & Hr & Hp). destruct (Hp eq_refl) as (_ & _ & _ & _ & Hout).
  do 2 eexists. split; [exact He|]. split; [exact Hrun|]. split; [exact Hr|]. split; [reflexivity|].
  split; [reflexivity|]. symmetry. exact Hout.
Defined.

Lemma call_over_the_wire_witness :
  ∃ u q r c2 c3 u' cs,
    send_unary RpcClients.demo_client (RpcClients.demo_request 7) RpcClients.demo_queue (reactor demo_conn)
      = Return (Ok u, q, r) ∧
    poll (In:=Response) (Out:=Request) (L:=RpcNotification Request) 9
      (set_outbound demo_conn (q, receiver_new) [] (tt, tt) r) 5%nat = Return (Pending, c2) ∧
    sc_outbound (stream c2) = [7] ∧
    poll (In:=Response) (Out:=Request) (L:=RpcNotification Request) 9 c2 6%nat = Return (Pending, c3) ∧
    unary_poll u 7%nat (cells (reactor c3)) = Return (Ready (Ok (RpcClients.demo_response 7)), u', cs).
Proof.
  destruct (call_over_the_wire (limit:=16) demo_conn RpcClients.demo_client (RpcClients.demo_request 7)
    (RpcClients.demo_response 7) demo_conn_ok demo_conn_reachable)
    as (u & q & r & Hs & Hcall); [reflexivity..|].
  pose proof Hs as Hs'. vm_compute in Hs'. injection Hs' as Hu Hq Hr. subst u q r.
  destruct (Hcall 9%nat 5%nat) as (p & c2 & He & Hp); [vm_compute; lia|].
  pose proof He as He'. vm_compute in He'. injection He' as Hpp Hc2. subst p c2.
  destruct (Hp eq_refl) as [_ Hnext].
  destruct (Hnext 9%nat 6%nat 7%nat) as (p' & c3 & read & He3 & Hin & Hdone); [vm_compute; lia|].
  pose proof He3 as He3'. vm_compute in He3'. injection He3' as Hp3 Hc3. subst p' c3.
  simpl in Hin. subst read.
  destruct (Hdone [] [] [] true) as (u' & cs & Hup); [vm_compute; reflexivity|constructor|].
  do 7 eexists. split; [exact Hs|]. split; [exact He|]. split; [reflexivity|]. split; [exact He3|].
  exact Hup.
Defined.
End ClientConnections.
