(* ===== verification/ServerConnection.v ===== *)
(** * The rpc server's connection

    What a [Connection] does when it hosts the rpc submitter
    ([protosocket-rpc/src/server/{socket_server,rpc_submitter}.rs] over
    [protosocket-connection/src/connection.rs]): its polls are runs of the
    submitter that take the messages it reads and give the messages it writes. *)

From S2P Require Import Prelude Spillway Encoding Connection ConnectionSpec RpcMessage ExampleService.
From S2P Require Import RpcServer RpcServerSpec.
Local Open Scope N_scope.
Local Open Scope run_scope.

(** ** The submitter as a component: requests go in, responses come out *)

(** The codec that keeps the messages as they are. *)
#[local] Instance recorder {M} : Encoder unit M M := {|
  encode _ m := (m, tt);
  return_buffer _ _ := tt;
|}.

(** What a budget with that codec has taken. *)
Lemma recorded_messages {M} (ms : list M) : ([] : list M) ++ (encode_all (B:=M) tt ms).1 = ms.
Proof. induction ms as [|m ms IH]; [done|]. simpl in *. destruct (encode_all tt ms). simpl in *. by subst. Qed.

Section server_io.
Context {V K Req Res F S P W : Type}.
Context `{AtomicWaker W K} `{FutureOp F K Res} `{StreamOp S K Res}.
Context `{ConnectionService V K Req F S}.
Context `{!Message Req} `{MessageLaws Res}.
Context `{FuturesUnorderedLaws P (RpcStream F S) (u64 * RpcStreamEvent Res) (list (AbortCell W))}.
Abbreviation Sub := (RpcSubmitter V P W).
Implicit Types s : Sub.

(** What [poll_outbound_many] sends when there is [room], before any codec. *)
Definition submitter_answers s (k : K) (room : usize) : run (Poll (option unit) * Sub * list Res) :=
  let* '(p, s', b) := submitter_poll_outbound_many s k (mkSendBudget tt [] room) in
  Return (p, s', budget_send_buffer b).

Inductive server_io s : list Req → list Res → Sub → Prop :=
| server_request m : server_io s [m] [] (on_inbound s m).1.2
| server_respond k room p s' out :
    room < 2 ^ 64 → submitter_answers s k room = Return (p, s', out) → server_io s [] out s'
| server_service k : server_io s [] [] (reactor_poll (C:=unit) (B:=Res) s k).2.

(** The states of [RpcServerSpec], whose peer uses no id that is in use. *)
Definition server_reachable : Sub → Prop :=
  RpcReactor.reachable (C:=unit) (B:=Res) (K:=K) (Res:=Res) (F:=F) (S:=S) (Req:=Req).

Lemma server_reachable_ok s : server_reachable s → sub_ok s.
Proof. apply RpcReactor.reachable_ok. Qed.

(** The ids of the requests that start an rpc. *)
Definition normal_ids (ms : list Req) : list u64 :=
  message_id <$> filter (λ m, control_code m = Normal) ms.

Lemma normal_ids_app ms ms' : normal_ids (ms ++ ms') = normal_ids ms ++ normal_ids ms'.
Proof. unfold normal_ids. by rewrite filter_app, fmap_app. Qed.

Definition ids_fresh s (ms : list Req) : Prop := NoDup (normal_ids ms ++ (tags s).*1).

(** What a request does to the pool. *)
Lemma inbound_tags s (m : Req) :
  let s' := (on_inbound s m).1.2 in
  match control_code m with
  | Normal =>
      (∃ u, tags s' ≡ₚ (message_id m, u) :: tags s ∧ rejections s' = rejections s ∧
            match (new_rpc (connection_server s) m).1 with
            | RpcUnary _ => u = true | RpcStreaming _ => u = false | RpcCancelled => False end) ∨
      (tags s' = tags s ∧ rejections s' = rejections s ++ [message_id m])
  | _ => tags s' = tags s ∧ rejections s' = rejections s
  end.
Proof.
  unfold on_inbound. destruct (control_code m).
  - destruct (new_rpc (connection_server s) m) as [[f|x|] v]; simpl; [left..|by right].
    + exists true. split; [|done]. unfold tags. simpl. by rewrite pool_contents_push.
    + exists false. split; [|done]. unfold tags. simpl. by rewrite pool_contents_push.
  - unfold take_abort. destruct (aborts s !! message_id m) as [h|]; [|done]. simpl.
    by destruct (mark_aborted h (flags s)).
  - done.
Qed.

(** What an answer does to the pool: it is made of [Cancelled] for the last
    rejections and of what the pooled rpcs sent, and it settles the rpcs that leave. *)
Lemma answers_spec s k room p s' out :
  sub_ok s → room < 2 ^ 64 → submitter_answers s k room = Return (p, s', out) →
  ∃ sent ms, out = (cancelled <$> sent) ++ ms ∧ rejections s = rejections s' ++ reverse sent ∧
    Forall (λ m, ∃ id, id ∈ (tags s).*1 ∧ sent_by (F:=F) (S:=S) (K:=K) id m) ms ∧
    settled (tags s) (tags s') ms ∧ (tags s').*1 ⊆+ (tags s).*1.
Proof.
  intros Hok Hroom He. unfold submitter_answers in He.
  apply run_bind_Return in He as ([[p1 s1] b1] & He1 & He). injection He as -> -> <-.
  destruct (submitter_poll_outbound_spec s k (mkSendBudget tt [] room) Hok Hroom)
    as (rest & sent & a & pl & st & b' & ms & He2 & Hu & Hok' & Hrej & Hids & Hset & Hss & _).
  rewrite He1 in He2. injection He2 as _ Hs Hb. subst b'.
  apply budget_uses_spec in Hu as [_ ->]; [|done].
  exists sent, ms. rewrite Hs, !tags_ids. split_and!; try done; [apply recorded_messages|].
  by apply fmap_submseteq.
Qed.

Lemma server_step_reachable s i o s' :
  server_io s i o s' → server_reachable s → ids_fresh s i → server_reachable s'.
Proof.
  intros [m|k room p s2 out Hw He|k] Hr Hf.
  - apply RpcReactor.reach_inbound; [done|]. intros Hm. unfold ids_fresh, normal_ids in Hf.
    rewrite filter_cons, decide_True in Hf by done. simpl in Hf. apply NoDup_cons in Hf as [Hn _].
    by rewrite tags_ids in Hn.
  - unfold submitter_answers in He. apply run_bind_Return in He as ([[p1 s1] b1] & He1 & He).
    injection He as -> <- _. by eapply RpcReactor.reach_outbound; [done| |exact He1].
  - by apply RpcReactor.reach_service.
Qed.
End server_io.

(** ** The submitter does not depend on the codec *)

Section codec_free.
Context {V K Req Res F S P W C B : Type}.
Context `{AtomicWaker W K} `{FutureOp F K Res} `{StreamOp S K Res}.
Context `{ConnectionService V K Req F S}.
Context `{!Message Req} `{!Message Res}.
Context `{!FuturesUnordered P (RpcStream F S) (u64 * RpcStreamEvent Res) (list (AbortCell W))}.
Context `{!Encoder C Res B}.
Abbreviation Sub := (RpcSubmitter V P W).
Implicit Types s : Sub.
Implicit Types b : SendBudget C B.
Implicit Types r : SendBudget unit Res.

(** Two budgets with the same room, and what each has become after the same
    messages. *)
Definition recorded b r b' r' : Prop :=
  budget_remaining r' = budget_remaining b' ∧
  ∃ ms, budget_uses b ms b' ∧ budget_send_buffer r' = budget_send_buffer r ++ ms.

Lemma recorded_refl b r : budget_remaining r = budget_remaining b → recorded b r b r.
Proof. intros Heq. split; [done|]. exists []. rewrite app_nil_r. split; [constructor|done]. Qed.

Lemma recorded_trans b r b1 r1 b2 r2 :
  recorded b r b1 r1 → recorded b1 r1 b2 r2 → recorded b r b2 r2.
Proof.
  intros (_ & ms1 & Hu1 & Hb1) (Hr & ms2 & Hu2 & Hb2). split; [done|]. exists (ms1 ++ ms2).
  split; [by eapply budget_uses_app|]. by rewrite Hb2, Hb1, app_assoc.
Qed.

Lemma reserve_recorded b r :
  budget_remaining r = budget_remaining b →
  match reserve b, reserve r with
  | Some p, Some p' => ∀ m, recorded b r (permit_send p m) (permit_send p' m)
  | None, None => True
  | _, _ => False
  end.
Proof.
  intros Heq. pose proof (λ p, uses_send b p) as Hu. unfold reserve in *. rewrite Heq in *.
  destruct (budget_remaining b =? 0); [done|]. intros m. specialize (Hu _ m eq_refl). split.
  - unfold permit_send. simpl. destruct (encode (budget_encoder b) m). simpl. by rewrite Heq.
  - exists [m]. split; [done|]. unfold permit_send. by simpl.
Qed.

Lemma rejections_recorded fuel s b r produced s' b' n :
  budget_remaining r = budget_remaining b →
  send_rejections fuel s b produced = Return (s', b', n) →
  ∃ r', send_rejections fuel s r produced = Return (s', r', n) ∧ recorded b r b' r'.
Proof.
  revert s b r produced. induction fuel as [|fuel IH]; intros s b r produced Hr He; [done|].
  cbn [send_rejections] in *. pose proof (reserve_recorded b r Hr) as Hres.
  assert (∀ x : Sub * SendBudget C B * usize, Return x = Return (s', b', n) → x = (s, b, produced) →
    ∃ r', Return (s, r, produced) = Return (s', r', n) ∧ recorded b r b' r') as Hstop.
  { intros x Hx ->. injection Hx as -> -> ->. exists r. split; [done|]. by apply recorded_refl. }
  destruct (rejections s) as [|id0 rej]; [by eapply Hstop|].
  destruct (reserve b) as [p|], (reserve r) as [p'|]; try done; [|by eapply Hstop].
  destruct (vec_pop _) as [[id rest]|]; [|by eapply Hstop].
  specialize (Hres (cancelled id)). destruct (IH _ _ (permit_send p' (cancelled id)) _ (proj1 Hres) He) as (r' & -> & Hr').
  exists r'. split; [done|]. by eapply recorded_trans.
Qed.

Lemma drain_recorded fuel s k b r produced x z s' b' n x' :
  budget_remaining r = budget_remaining b →
  drain_rpc fuel s k b produced x = Return (z, s', b', n, x') →
  ∃ r', drain_rpc fuel s k r produced x = Return (z, s', r', n, x') ∧ recorded b r b' r'.
Proof.
  revert s b r produced x. induction fuel as [|fuel IH]; intros s b r produced x Hr He; [done|].
  cbn [drain_rpc] in *. pose proof (reserve_recorded b r Hr) as Hres.
  assert (∀ z1 s1 x1, Return (z1, s1, b, produced, x1) = Return (z, s', b', n, x') →
    ∃ r', Return (z1, s1, r, produced, x1) = Return (z, s', r', n, x') ∧ recorded b r b' r') as Hstop.
  { intros z1 s1 x1 Hx. injection Hx as -> -> -> -> ->. exists r. split; [done|]. by apply recorded_refl. }
  destruct (reserve b) as [p|], (reserve r) as [p'|]; try done; [|by eapply Hstop].
  destruct (rpc_poll_next k (flags s) x) as [[[[[id e]|]|] st] x1]; [|by eapply Hstop..].
  destruct (message_for_event _ id e) as [m s2]. specialize (Hres m). destruct (is_terminal e).
  - injection He as <- <- <- <- <-. by eexists.
  - destruct (IH _ _ (permit_send p' m) _ _ (proj1 Hres) He) as (r' & -> & Hr').
    exists r'. split; [done|]. by eapply recorded_trans.
Qed.

Lemma responses_recorded fuel s k b r produced s' b' n :
  budget_remaining r = budget_remaining b →
  send_responses fuel s k b produced = Return (s', b', n) →
  ∃ r', send_responses fuel s k r produced = Return (s', r', n) ∧ recorded b r b' r'.
Proof.
  revert s b r produced. induction fuel as [|fuel IH]; intros s b r produced Hr He; [done|].
  cbn [send_responses] in *. pose proof (reserve_recorded b r Hr) as Hres.
  assert (∀ s1, Return (s1, b, produced) = Return (s', b', n) →
    ∃ r', Return (s1, r, produced) = Return (s', r', n) ∧ recorded b r b' r') as Hstop.
  { intros s1 Hx. injection Hx as -> -> ->. exists r. split; [done|]. by apply recorded_refl. }
  destruct (reserve b) as [p|], (reserve r) as [p'|]; try done; [|by eapply Hstop].
  destruct (pool_poll_next _ (rpcs s) (flags s)) as [[[[[[[id e]|] x]|]|] pool] st];
    [|by eapply IH|by eapply Hstop..].
  destruct (message_for_event _ id e) as [m s2]. specialize (Hres m). destruct (is_terminal e).
  - destruct (IH _ _ (permit_send p' m) _ (proj1 Hres) He) as (r' & -> & Hr').
    exists r'. split; [done|]. by eapply recorded_trans.
  - apply run_bind_Return in He as ([[[[z s3] b3] n3] x3] & Hd & He). rewrite (proj1 Hres).
    destruct (drain_recorded _ _ _ _ (permit_send p' m) _ _ _ _ _ _ _ (proj1 Hres) Hd) as (r3 & -> & Hr3).
    cbn [run_bind]. destruct (IH _ _ r3 _ (proj1 Hr3) He) as (r' & -> & Hr').
    exists r'. split; [done|]. eapply recorded_trans; [done|]. by eapply recorded_trans.
Qed.

(** A poll with any codec sends what the poll without one sends. *)
Lemma submitter_codec_free s k b p s' b' :
  submitter_poll_outbound_many s k b = Return (p, s', b') →
  ∃ out, submitter_answers s k (budget_remaining b) = Return (p, s', out) ∧ budget_uses b out b'.
Proof.
  intros He. unfold submitter_answers. set (r := mkSendBudget (E:=unit) (B:=Res) tt [] (budget_remaining b)).
  unfold submitter_poll_outbound_many in *.
  apply run_bind_Return in He as ([[s1 b1] n1] & He1 & He).
  apply run_bind_Return in He as ([[s2 b2] n2] & He2 & He). injection He as <- <- <-.
  destruct (rejections_recorded _ _ _ r _ _ _ _ eq_refl He1) as (r1 & -> & Hr1). cbn [run_bind].
  rewrite (proj1 Hr1). destruct (responses_recorded _ _ _ _ r1 _ _ _ _ (proj1 Hr1) He2) as (r2 & -> & Hr2).
  cbn [run_bind]. destruct (recorded_trans _ _ _ _ _ _ Hr1 Hr2) as (_ & ms & Hu & Hbuf).
  exists ms. split; [|done]. by rewrite Hbuf.
Qed.
End codec_free.

(** ** Runs with fresh ids *)

Section fresh.
Context {V K Req Res F S P W : Type}.
Context `{AtomicWaker W K} `{FutureOp F K Res} `{StreamOp S K Res}.
Context `{ConnectionService V K Req F S}.
Context `{!Message Req} `{MessageLaws Res}.
Context `{FuturesUnorderedLaws P (RpcStream F S) (u64 * RpcStreamEvent Res) (list (AbortCell W))}.
Abbreviation Sub := (RpcSubmitter V P W).
Implicit Types s : Sub.
Abbreviation ServerIo := (server_io (K:=K) (Req:=Req) (Res:=Res) (F:=F) (S:=S)).

(** A step uses up the ids that it takes in and frees those that it answers. *)
Lemma server_step_ids s i o s' :
  ServerIo s i o s' → sub_ok s → (tags s').*1 ⊆+ normal_ids i ++ (tags s).*1.
Proof.
  intros [m|k room p s2 out Hw He|k] Hok.
  - pose proof (inbound_tags s m) as Ht. unfold normal_ids. rewrite filter_cons, filter_nil. cbv zeta in Ht.
    destruct (control_code m).
    + rewrite decide_True by done. simpl. destruct Ht as [(u & -> & _)|[-> _]]; [done|by apply submseteq_cons].
    + rewrite decide_False by done. by destruct Ht as [-> _].
    + rewrite decide_False by done. by destruct Ht as [-> _].
  - by destruct (answers_spec _ _ _ _ _ _ Hok Hw He) as (_ & _ & _ & _ & _ & _ & Hs).
  - simpl. by destruct (service_poll (connection_server s) k).
Qed.

Lemma server_step_fresh s i o s' i' :
  ServerIo s i o s' → sub_ok s → ids_fresh s (i ++ i') → ids_fresh s i ∧ ids_fresh s' i'.
Proof.
  intros Hstep Hok. unfold ids_fresh. rewrite normal_ids_app. intros Hf. split.
  - rewrite <-(assoc_L (++)), (Permutation_app_comm (normal_ids i')), (assoc_L (++)) in Hf.
    by apply NoDup_app in Hf as [Hf _].
  - pose proof (server_step_ids _ _ _ _ Hstep Hok) as Hs.
    assert (normal_ids i' ++ (tags s').*1 ⊆+ (normal_ids i ++ normal_ids i') ++ (tags s).*1) as Hsub.
    { etrans; [apply submseteq_skips_l, Hs|]. apply Permutation_submseteq. solve_Permutation. }
    apply submseteq_Permutation in Hsub as [l Hl]. rewrite Hl in Hf. by apply NoDup_app in Hf as [Hf _].
Qed.

Lemma server_run_reachable s i o s' :
  io_run ServerIo s i o s' →
  server_reachable (K:=K) (Req:=Req) (Res:=Res) (F:=F) (S:=S) s → ids_fresh s i →
  server_reachable (K:=K) (Req:=Req) (Res:=Res) (F:=F) (S:=S) s'.
Proof.
  induction 1 as [s|s i o s1 i' o' s2 Hs _ IH]; [done|]. intros Hr Hf.
  destruct (server_step_fresh _ _ _ _ _ Hs (server_reachable_ok _ Hr) Hf) as [Hf1 Hf2].
  apply IH; [|done]. by eapply server_step_reachable.
Qed.
End fresh.

(** ** The connection *)

Section hosted.
Context {S0 V K Req Res F S P W C B : Type} {limit : usize}.
Context `{AsyncStreamLaws S0 K} `{AtomicWakerLaws W K}.
Context `{!FutureOp F K Res} `{!StreamOp S K Res} `{!ConnectionService V K Req F S}.
Context `{!Message Req} `{MessageLaws Res}.
Context `{FuturesUnorderedLaws P (RpcStream F S) (u64 * RpcStreamEvent Res) (list (AbortCell W))}.
Context `{CodecLaws C Req Res B limit} `{!BufWhole B}.
Abbreviation Sub := (RpcSubmitter V P W).
Abbreviation Queue := (Shared W Res * Receiver Res)%type.
Abbreviation ServerConn := (Connection S0 Queue C B Sub).
Abbreviation ServerIo := (server_io (K:=K) (Req:=Req) (Res:=Res) (F:=F) (S:=S)).
Implicit Types s : Sub.
Implicit Types q : Queue.

Lemma inbound_continues s (m : Req) : (on_inbound s m).1.1 = StatusContinue.
Proof.
  unfold on_inbound. destruct (control_code m); [|destruct (take_abort (aborts s) (message_id m)) as [[h|] a]|done].
  - by destruct (new_rpc (connection_server s) m) as [[]].
  - by destruct (mark_aborted h _).
  - done.
Qed.

Lemma deliver_serves (ms : list Req) s :
  let '(s', go) := deliver (C:=C) (B:=B) (K:=K) (L:=Res) (Out:=Res) s ms in
  go = true ∧ io_run ServerIo s ms [] s'.
Proof.
  revert s. induction ms as [|m ms IH]; intros s; [split; [done|apply io_refl]|]. simpl.
  pose proof (inbound_continues s m) as Hc. pose proof (server_request (K:=K) s m) as Hstep.
  destruct (on_inbound s m) as [[status s1] ks]. simpl in Hc, Hstep. subst status.
  specialize (IH s1). destruct (deliver s1 ms) as [s' go]. destruct IH as [-> IH]. split; [done|].
  exact (io_next _ _ _ _ _ _ _ _ Hstep IH).
Qed.

(** The queue of a server's connection is empty: what is sent is the submitter's. *)
Lemma sends_serves k s q (ls ms : list Res) s' q' :
  sends (C:=C) (B:=B) (In:=Req) k s q ls ms s' q' → queue_ok q → queue_waiting q = [] →
  queue_waiting q' = [] ∧ ∃ out, io_run ServerIo s [] out s' ∧ wire_all out = wire_all ms.
Proof.
  induction 1 as [s q|s q l q1 m s1 ls ms s2 q2 Hp Ho _ IH|s q p q1 ls ms s2 q2 Hp Hn _ IH
    |s q b b' p s1 ms1 ls ms s2 q2 Hp Hu He Hw _ IH]; intros Hq Hnil.
  - split; [done|]. exists []. split; [apply io_refl|done].
  - destruct (queue_poll_law q k Hq) as (p & q1' & Hp' & _ & Hr). rewrite Hnil in Hr.
    rewrite Hp in Hp'. injection Hp' as <- <-. destruct Hr as [[Hr|Hr] _]; discriminate.
  - destruct (queue_poll_law q k Hq) as (p' & q1' & Hp' & Hq1 & Hr). rewrite Hnil in Hr.
    rewrite Hp in Hp'. injection Hp' as <- <-. apply IH; [done|by apply Hr].
  - destruct (IH Hq Hnil) as (Hnil' & out & Hrun & Hwire). split; [done|]. simpl in Hp.
    destruct (submitter_poll_outbound_many s k b) as [[[p1 s3] b3]| |] eqn:Hpo.
    + injection Hp as -> -> ->. destruct (submitter_codec_free _ _ _ _ _ _ Hpo) as (out1 & Ha & Hu1).
      exists (out1 ++ out). split.
      { apply (io_next _ _ [] out1 s1 [] out); [|done]. by eapply server_respond. }
      rewrite !wire_all_app, Hwire. f_equal.
      destruct (budget_uses_spec _ _ _ Hw Hu) as [_ ->]. destruct (budget_uses_spec _ _ _ Hw Hu1) as [_ Heq].
      injection Heq as _ Heq _. apply app_inv_head in Heq.
      destruct (encode_all_ok ms1 _ He) as (_ & _ & Hw1). destruct (encode_all_ok out1 _ He) as (_ & _ & Hw2).
      unfold wire_all. by rewrite <-Hw1, <-Hw2, Heq.
    + injection Hp as _ <- <-. apply budget_uses_spec in Hu as [Hl Hb]; [|done].
      assert (ms1 = []) as ->; [|by exists out]. apply len_zero.
      apply (f_equal budget_remaining) in Hb. simpl in Hb. lia.
    + injection Hp as _ <- <-. apply budget_uses_spec in Hu as [Hl Hb]; [|done].
      assert (ms1 = []) as ->; [|by exists out]. apply len_zero.
      apply (f_equal budget_remaining) in Hb. simpl in Hb. lia.
Qed.

(** A poll, as a run of the submitter. *)
Lemma server_poll_runs (c : ServerConn) fuel k :
  conn_ok (In:=Req) (Out:=Res) (L:=Res) (limit:=limit) c → queue_waiting (outbound_messages c) = [] →
  (patience (stream c) < fuel)%nat →
  ∃ p c' read, poll (In:=Req) (Out:=Res) (L:=Res) fuel c k = Return (p, c') ∧
    inbound (stream c') = inbound (stream c) ++ read ∧
    let '(ms, rest, live) := frames (unread_bytes c ++ read) in
    ∃ out, io_run ServerIo (reactor c) ms out (reactor c') ∧
      (p = Pending → conn_ok (In:=Req) (Out:=Res) (L:=Res) (limit:=limit) c' ∧ live = true ∧
         unread_bytes c' = rest ∧ queue_waiting (outbound_messages c') = [] ∧
         outbound (stream c) `prefix_of` outbound (stream c') ∧
         outbound (stream c') ++ queued_bytes (send_buffer c')
           = outbound (stream c) ++ queued_bytes (send_buffer c) ++ wire_all out).
Proof.
  intros Hok Hnil Hfuel. assert (queue_ok (outbound_messages c)) as Hq by apply Hok.
  destruct (poll_spec (In:=Req) (Out:=Res) (L:=Res) fuel c k Hok Hfuel) as (p & c' & read & He & Hin & Hp).
  exists p, c', read. split; [done|]. split; [done|].
  destruct (frames (unread_bytes c ++ read)) as [[ms rest] live].
  pose proof (deliver_serves ms (reactor c)) as Hd.
  destruct (deliver (reactor c) ms) as [s1 go]. destruct Hd as [-> Hd]. destruct Hp as [Hany Hpend].
  assert (∀ s, s = s1 ∨ s = (reactor_poll s1 k).2 → io_run ServerIo (reactor c) ms [] s) as Hturn.
  { intros s [->| ->]; [done|]. rewrite <-(app_nil_r ms). change (@nil Res) with (@nil Res ++ []).
    eapply io_trans; [done|]. apply io_once. apply (server_service s1 k). }
  destruct p as [u|].
  { destruct Hany as (s & ls & out & Hs & Hsends). destruct (sends_serves _ _ _ _ _ _ _ Hsends Hq Hnil) as (_ & out' & Hrun & _).
    exists out'. split; [|done]. rewrite <-(app_nil_r ms). change out' with ([] ++ out').
    eapply io_trans; [|exact Hrun]. by apply Hturn. }
  destruct (Hpend eq_refl) as (Hok' & Hl & _ & Hu & _ & s & ls & out & Hrp & _ & Hsends & Hout & _ & _ & Hpre).
  destruct (sends_serves _ _ _ _ _ _ _ Hsends Hq Hnil) as (Hnil' & out' & Hrun & Hwire).
  exists out'. split.
  { rewrite <-(app_nil_r ms). change out' with ([] ++ out'). eapply io_trans; [|exact Hrun].
    apply Hturn. right. simpl in Hrp |- *. by rewrite Hrp. }
  intros _. rewrite Hwire. by split_and!.
Qed.
End hosted.

(** ** Notes, for the examples

    A note is an id and a control code, nine bytes on the wire. *)

Module Notes.

Record Note := mkNote { note_id : u64; note_code : ProtosocketControlCode }.

#[export] Instance note_message : Message Note := {|
  message_id := note_id;
  control_code := note_code;
  set_message_id m id := mkNote id (note_code m);
  cancelled id := mkNote id Cancel;
  ended id := mkNote id End;
|}.
#[export] Instance note_message_laws : MessageLaws Note.
Proof. by split. Defined.

(** The low [k] bytes of a number, lowest first, and back. *)
Fixpoint le_bytes (k : nat) (n : N) : bytes :=
  match k with O => [] | S k => n mod 256 :: le_bytes k (n / 256) end.
Fixpoint le_number (l : bytes) : N :=
  match l with [] => 0 | b :: l => b + 256 * le_number l end.

Lemma le_number_bytes k n : n < 256 ^ N.of_nat k → le_number (le_bytes k n) = n.
Proof.
  revert n. induction k as [|k IH]; intros n Hn; simpl; [simpl in Hn; lia|].
  rewrite IH; [pose proof (N.Div0.div_mod n 256); lia|].
  apply N.Div0.div_lt_upper_bound. rewrite Nat2N.inj_succ, N.pow_succ_r' in Hn. lia.
Qed.

Lemma length_le_bytes k n : length (le_bytes k n) = k.
Proof. revert n. induction k as [|k IH]; intros n; simpl; [done|]. by rewrite IH. Qed.

Definition note_bytes (m : Note) : bytes := as_u8 (note_code m) :: le_bytes 8 (note_id m).

Definition note_frame (u : bytes) : result (usize * Note) DeserializeError :=
  if len u <? 9 then Err (IncompleteBuffer 9)
  else Ok (9, mkNote (le_number (take 8 (drop 1 u))) (from_u8 (default 0 (u !! 0%nat)))).

#[export] Instance note_serialize : Serialize unit Note :=
  {| serialize_into_buffer s m buffer := (buffer ++ note_bytes m, s) |}.
#[export] Instance note_serialize_laws : SerializeLaws unit Note.
Proof.
  refine {| serialized := note_bytes |}; [done|].
  intros m. unfold note_bytes, len. cbn [length]. rewrite length_le_bytes. lia.
Defined.

#[export] Instance note_decoder : Decoder unit Note := {| decode d u := (note_frame u, d) |}.
#[export] Instance note_decoder_laws : DecoderLaws unit Note 32.
Proof.
  refine {| frame := note_frame; dec_ok _ _ := True |}; unfold note_frame.
  - done.
  - intros [] u _ _ _. simpl. unfold note_frame. by destruct (len u <? 9).
  - intros u n m. destruct (N.ltb_spec (len u) 9); intros; simplify_eq. lia.
  - intros u n. destruct (N.ltb_spec (len u) 9); intros; simplify_eq. done.
  - intros u n. by destruct (len u <? 9).
  - intros u v r _ <- Hr _. rewrite len_app. destruct (N.ltb_spec (len u) 9) as [|Hge]; [by destruct (Hr 9)|].
    destruct (N.ltb_spec (len u + len v) 9); [lia|].
    do 10 (destruct u as [|? u]; [by rewrite ?len_cons, len_nil in Hge|simpl; try done]).
Defined.

Lemma note_frames (m : Note) (v : bytes) :
  message_id m < 2 ^ 64 → note_frame (note_bytes m ++ v) = Ok (len (note_bytes m), m).
Proof.
  intros Hid. unfold note_frame. assert (len (note_bytes m) = 9) as Hlen
    by (unfold note_bytes, len; cbn [length]; by rewrite length_le_bytes).
  rewrite len_app, Hlen. destruct (N.ltb_spec (9 + len v) 9); [lia|].
  change (drop 1 (note_bytes m ++ v)) with (le_bytes 8 (note_id m) ++ v).
  rewrite take_app_length' by (by rewrite length_le_bytes).
  rewrite le_number_bytes by exact Hid. simpl. rewrite from_as_u8. by destruct m.
Qed.

(** The service: a note with an even id comes back, one with an odd id comes back
    twice. *)
#[export] Instance note_future : FutureOp Note nat Note := λ m _, (Ready m, m).
#[export] Instance note_stream : StreamOp (list Note) nat Note := λ ms _,
  match ms with [] => (Ready None, []) | m :: ms => (Ready (Some m), ms) end.
#[export] Instance note_service : ConnectionService unit nat Note Note (list Note) := {|
  new_rpc v m := (if N.even (note_id m) then RpcUnary m else RpcStreaming [m; m], v);
  service_poll := service_poll_default;
|}.

Definition odd_note (m : Note) : Prop := N.even (note_id m) = false.

Abbreviation NotePool := (list (RpcStream Note (list Note))).
End Notes.

(** ** The properties *)

Module ServerConnections.

Section claims.
Context {S0 V K Req Res F S P W C B : Type} {limit : usize}.
Context `{AsyncStreamLaws S0 K} `{AtomicWakerLaws W K}.
Context `{!FutureOp F K Res} `{!StreamOp S K Res} `{!ConnectionService V K Req F S}.
Context `{!Message Req} `{MessageLaws Res}.
Context `{FuturesUnorderedLaws P (RpcStream F S) (u64 * RpcStreamEvent Res) (list (AbortCell W))}.
Context `{CodecLaws C Req Res B limit} `{!BufWhole B}.
Abbreviation ServerConn := (Connection S0 (Shared W Res * Receiver Res) C B (RpcSubmitter V P W)).
Abbreviation ServerIo := (server_io (K:=K) (Req:=Req) (Res:=Res) (F:=F) (S:=S)).
Abbreviation Reachable := (server_reachable (K:=K) (Req:=Req) (Res:=Res) (F:=F) (S:=S)).

(** C20: a connection runs the rpc server: a poll of a connection that hosts the
    submitter takes exactly the requests framed in what it reads, in order, and is
    a run of the submitter; if the ids of these requests are not in use, its state
    stays one of those that the theorems about the submitter are about; when the
    connection goes on, what this run answered, and nothing else, follows on the
    stream and in the send queue. *)
Theorem connection_runs_the_server (c : ServerConn) (fuel : nat) (k : K)
  (Hok : conn_ok (In:=Req) (Out:=Res) (L:=Res) (limit:=limit) c)
  (Hqueue : queue_waiting (outbound_messages c) = []) (Hfuel : (patience (stream c) < fuel)%nat) :
  ∃ p c' read, poll (In:=Req) (Out:=Res) (L:=Res) fuel c k = Return (p, c') ∧
    inbound (stream c') = inbound (stream c) ++ read ∧
    let '(ms, rest, live) := frames (unread_bytes c ++ read) in
    ∃ out, io_run ServerIo (reactor c) ms out (reactor c') ∧
      (Reachable (reactor c) → ids_fresh (reactor c) ms → Reachable (reactor c')) ∧
      (p = Pending → conn_ok (In:=Req) (Out:=Res) (L:=Res) (limit:=limit) c' ∧ live = true ∧
         unread_bytes c' = rest ∧ queue_waiting (outbound_messages c') = [] ∧
         outbound (stream c) `prefix_of` outbound (stream c') ∧
         outbound (stream c') ++ queued_bytes (send_buffer c')
           = outbound (stream c) ++ queued_bytes (send_buffer c) ++ wire_all out).
Proof.
  destruct (server_poll_runs c fuel k Hok Hqueue Hfuel) as (p & c' & read & He & Hin & Hp).
  exists p, c', read. split; [done|]. split; [done|].
  destruct (frames (unread_bytes c ++ read)) as [[ms rest] live]. destruct Hp as (out & Hrun & Hp).
  exists out. split; [done|]. split; [|done]. intros Hr Hf. by eapply server_run_reachable.
Qed.
End claims.

(** ** Witness: two notes, one of them in two pieces *)

Import WakerCell Demo Notes.

Definition notes_conn : Connection ScriptedStream (Shared (option nat) Note * Receiver Note) (unit * unit)
    OwnedBuffer (RpcSubmitter unit NotePool (option nat)) :=
  new (mkScriptedStream [Ok (note_bytes (mkNote 6 Normal) ++ [0; 7]); Ok [0; 0; 0; 0; 0; 0; 0]] [Ok 5; Ok 100] [] [])
    (tt, tt) 32 16 8 (mkShared (replicate 8 chute_default) None 0 1 0 max_u64 false, receiver_new)
    (submitter_new (F:=Note) (S:=list Note) (Res:=Note) tt).

Lemma notes_conn_ok : conn_ok (K:=nat) (In:=Note) (Out:=Note) (L:=Note) (limit:=32) notes_conn.
Proof. apply new_ok; try done. by apply channel_invb_sound. Qed.

Lemma connection_runs_the_server_witness :
  ∃ c', poll (In:=Note) (Out:=Note) (L:=Note) 60 notes_conn 5%nat = Return (Pending, c') ∧
    server_reachable (K:=nat) (Req:=Note) (Res:=Note) (F:=Note) (S:=list Note) (reactor c') ∧
    outbound (stream c') = concat (note_bytes <$> [mkNote 6 Normal; mkNote 7 Normal; mkNote 7 Normal; mkNote 7 End]).
Proof.
  destruct (connection_runs_the_server (F:=Note) (S:=list Note) (limit:=32) notes_conn 60 5%nat notes_conn_ok)
    as (p & c' & read & He & Hin & Hp); [reflexivity|vm_compute; lia|].
  assert (∃ c2, poll (In:=Note) (Out:=Note) (L:=Note) 60 notes_conn 5%nat = Return (Pending, c2) ∧
    inbound (stream c2) = note_bytes (mkNote 6 Normal) ++ note_bytes (mkNote 7 Normal) ∧
    outbound (stream c2) = concat (note_bytes <$> [mkNote 6 Normal; mkNote 7 Normal; mkNote 7 Normal; mkNote 7 End]))
    as (c2 & He2 & Hin2 & Hout2) by (eexists; split; [vm_compute; reflexivity|by split]).
  rewrite He in He2. injection He2 as -> ->. rewrite Hin2 in Hin. simpl in Hin. subst read.
  exists c2. split; [exact He|]. split; [|exact Hout2].
  destruct (frames _) as [[ms rest] live] eqn:Hfr. vm_compute in Hfr. injection Hfr as <- <- <-.
  destruct Hp as (out & _ & Hr & _). apply Hr; [apply RpcReactor.reach_new|].
  change (NoDup [6; 7]). apply NoDup_cons. split; [by intros ?%list_elem_of_singleton|apply NoDup_singleton].
Defined.
End ServerConnections.
