(* ===== verification/ServiceContent.v ===== *)
(** * What the server says is what its service says

    The submitter of [RpcServer] passes on what the futures and streams of a
    service give, under the ids of their rpcs, and adds nothing but its own
    [Cancel] and [End] messages.  The theorem is about every service: what its
    futures and streams can give under an id is a parameter. *)

From S2P Require Import Prelude Spillway Encoding Connection ConnectionSpec RpcMessage ExampleService.
From S2P Require Import RpcServer RpcServerSpec ServerConnection.
Local Open Scope N_scope.
Local Open Scope run_scope.

(** What a service gives under an id: the responses, and the futures and streams
    that give only such responses. *)
Class ServiceContent (F S K Res : Type) `{FutureOp F K Res} `{StreamOp S K Res} := {
  good : u64 → Res → Prop;
  good_future : u64 → F → Prop;
  good_stream : u64 → S → Prop;
  good_future_law id f k :
    good_future id f →
    match poll_future f k with
    | (Ready r, _) => good id r
    | (Pending, f') => good_future id f'
    end;
  good_stream_law id x k :
    good_stream id x →
    match poll_stream x k with
    | (Ready (Some r), x') => good id r ∧ good_stream id x'
    | (Ready None, _) => True
    | (Pending, x') => good_stream id x'
    end;
}.

Section content.
Context {V K Req Res F S P W C B : Type}.
Context `{AtomicWaker W K} `{FutureOp F K Res} `{StreamOp S K Res} `{!ServiceContent F S K Res}.
Context `{ConnectionService V K Req F S}.
Context `{!Message Req} `{MessageLaws Res}.
Context `{FuturesUnorderedLaws P (RpcStream F S) (u64 * RpcStreamEvent Res) (list (AbortCell W))}.
Context `{!Encoder C Res B}.
Abbreviation Sub := (RpcSubmitter V P W).
Abbreviation Rpc := (RpcStream F S).
Implicit Types s : Sub.
Implicit Types b : SendBudget C B.

(** A message under an id that its service or the submitter can have said. *)
Definition said (m : Res) : Prop :=
  let id := message_id m in
  m = cancelled id ∨ m = ended id ∨ ∃ r, good id r ∧ m = set_message_id r id.

(** What a request may start. *)
Definition kind_good (id : u64) (kind : RpcKind F S) : Prop :=
  match kind with
  | RpcUnary f => good_future id f
  | RpcStreaming x => good_stream id x
  | RpcCancelled => True
  end.

Definition rpc_good (x : Rpc) : Prop :=
  match rs_kind x with
  | KindUnary f => good_future (rs_id x) f
  | KindStreaming y => good_stream (rs_id x) y
  | KindDone => True
  end.

Definition sub_good s : Prop := Forall rpc_good (pool_contents (rpcs s)).

Definition event_good (x : Rpc) (first : option (u64 * RpcStreamEvent Res)) : Prop :=
  match first with
  | Some (id, e) => id = rs_id x ∧ said (event_message id e)
  | None => True
  end.

Lemma said_cancelled id : said (cancelled id).
Proof. left. by rewrite message_id_cancelled. Qed.

Lemma said_ended id : said (ended id).
Proof. right; left. by rewrite message_id_ended. Qed.

Lemma said_response id r : good id r → said (set_message_id r id).
Proof. intros Hr. right; right. exists r. by rewrite message_id_set. Qed.

(** One poll of an rpc. *)
Lemma rpc_poll_good k st (x : Rpc) :
  rpc_good x →
  let '(r, _, x') := rpc_poll_next k st x in
  rs_id x' = rs_id x ∧ rpc_good x' ∧ match r with Ready first => event_good x first | Pending => True end.
Proof.
  intros Hx. unfold rpc_poll_next, rpc_good in *. destruct (cell_aborted _ _).
  { destruct (is_done (rs_kind x)); [done|]. split; [done|]. split; [done|]. split; [done|].
    apply said_cancelled. }
  destruct (rs_kind x) as [f|y|] eqn:Hk; simpl.
  - pose proof (good_future_law (rs_id x) f k Hx) as Hl. destruct (poll_future f k) as [[r|] f']; simpl; [|done].
    split; [done|]. split; [done|]. split; [done|]. by apply said_response.
  - pose proof (good_stream_law (rs_id x) y k Hx) as Hl.
    destruct (poll_stream y k) as [[[r|]|] y']; simpl; [| |done].
    + destruct Hl. split; [done|]. split; [done|]. split; [done|]. by apply said_response.
    + split; [done|]. split; [done|]. split; [done|]. apply said_ended.
  - rewrite Hk. by split_and!.
Qed.

(** One poll of the pool. *)
Lemma pool_polls_good k (xs : list Rpc) (st : list (AbortCell W)) r xs' st' :
  pool_polls (rpc_poll_next k) xs st r xs' st' → Forall rpc_good xs →
  Forall rpc_good xs' ∧
  match r with Ready (Some (first, x)) => rpc_good x ∧ event_good x first | _ => True end.
Proof.
  induction 1 as [st|xs st Hne|xs i x st item st' x' Hi Hp|xs i x st st' x' r xs2 st2 Hi Hp _ IH];
    intros Hg; [done|done| |].
  - pose proof (rpc_poll_good k st x (Forall_lookup_1 _ _ _ _ Hg Hi)) as Hx. rewrite Hp in Hx.
    destruct Hx as (Hid & Hx & He). split; [by apply Forall_delete|]. split; [done|].
    unfold event_good in *. by rewrite Hid.
  - pose proof (rpc_poll_good k st x (Forall_lookup_1 _ _ _ _ Hg Hi)) as Hx. rewrite Hp in Hx.
    apply IH, Forall_insert; [done|apply Hx].
Qed.

Lemma pool_turn_good k s r pool st :
  sub_good s → pool_poll_next (rpc_poll_next k) (rpcs s) (flags s) = (r, pool, st) →
  Forall rpc_good (pool_contents pool) ∧
  match r with Ready (Some (first, x)) => rpc_good x ∧ event_good x first | _ => True end.
Proof.
  intros Hg He. pose proof (pool_poll_law (rpc_poll_next k) (rpcs s) (flags s)) as Hl. rewrite He in Hl.
  destruct Hl as (xs & xs' & Hxs & Hxs' & Hp). unfold sub_good in Hg. rewrite Hxs in Hg. rewrite Hxs'.
  by eapply pool_polls_good.
Qed.

(** What an event becomes, and that it leaves the pool alone. *)
Lemma message_good s (x : Rpc) id e m s' :
  event_good x (Some (id, e)) → message_for_event s id e = (m, s') → said m ∧ rpcs s' = rpcs s.
Proof.
  intros [_ Hs] He. destruct (message_for_event_spec s id e) as [Hm Hs']. rewrite He in Hm, Hs'. simpl in *.
  subst. split; [done|]. by destruct (is_terminal e).
Qed.

(** Everything that is sent while rpcs are answered has been said. *)
Lemma drain_good fuel s k b produced (x : Rpc) z s' b' n x' :
  rpc_good x → drain_rpc fuel s k b produced x = Return (z, s', b', n, x') →
  ∃ ms, budget_uses b ms b' ∧ Forall said ms ∧ rpcs s' = rpcs s ∧ rpc_good x'.
Proof.
  revert s b produced x. induction fuel as [|fuel IH]; intros s b produced x Hx He; [done|].
  cbn [drain_rpc] in He. destruct (reserve b) as [p|] eqn:Hr; [|simplify_eq; exists []; split_and!; [apply uses_nothing|constructor|done..]].
  pose proof (rpc_poll_good k (flags s) x Hx) as Hpoll.
  destruct (rpc_poll_next k (flags s) x) as [[[[[id e]|]|] st] x1]; destruct Hpoll as (Hid & Hx1 & Hev);
    [|simplify_eq; exists []; split_and!; [apply uses_nothing|constructor|done..]..].
  destruct (message_for_event (set_pool s (rpcs s) st) id e) as [m s2] eqn:Hm.
  destruct (message_good _ _ _ _ _ _ Hev Hm) as [Hs Hp].
  destruct (is_terminal e).
  - simplify_eq. exists [m]. split; [by apply uses_send|]. split; [by constructor|done].
  - destruct (IH _ _ _ _ Hx1 He) as (ms & Hu & Hall & Hp' & Hx').
    exists (m :: ms). split; [by econstructor|]. split; [by constructor|]. split; [by rewrite Hp', Hp|done].
Qed.

Lemma responses_good fuel s k b produced s' b' n :
  sub_good s → send_responses fuel s k b produced = Return (s', b', n) →
  ∃ ms, budget_uses b ms b' ∧ Forall said ms ∧ sub_good s'.
Proof.
  revert s b produced. induction fuel as [|fuel IH]; intros s b produced Hg He; [done|].
  cbn [send_responses] in He. destruct (reserve b) as [p|] eqn:Hr; [|simplify_eq; exists []; split_and!; [apply uses_nothing|constructor|done..]].
  destruct (pool_poll_next _ (rpcs s) (flags s)) as [[r pool] st] eqn:Hp.
  destruct (pool_turn_good k s r pool st Hg Hp) as [Hpool Hev].
  destruct r as [[[[[id e]|] x]|]|]; [|exact (IH (set_pool s pool st) _ _ Hpool He)|simplify_eq; exists []; split_and!; [apply uses_nothing|constructor|done..]..].
  destruct Hev as [Hx Hev]. destruct (message_for_event (set_pool s pool st) id e) as [m s2] eqn:Hm.
  destruct (message_good _ _ _ _ _ _ Hev Hm) as [Hs Hp2]. simpl in Hp2.
  assert (sub_good s2) as Hg2 by (unfold sub_good; by rewrite Hp2).
  destruct (is_terminal e).
  - destruct (IH _ _ _ Hg2 He) as (ms & Hu & Hall & Hg'). exists (m :: ms).
    split; [by econstructor|]. by split; [constructor|].
  - apply run_bind_Return in He as ([[[[z s3] b3] n3] x3] & Hd & He).
    destruct (drain_good _ _ _ _ _ _ _ _ _ _ _ Hx Hd) as (ms1 & Hu1 & Hall1 & Hp3 & Hx3).
    assert (sub_good s3) as Hg3 by (unfold sub_good; by rewrite Hp3).
    assert (sub_good (if z then s3 else set_pool s3 (pool_push (rpcs s3) x3) (flags s3))) as Hg4.
    { destruct z; [done|]. unfold sub_good. simpl. rewrite pool_contents_push. by constructor. }
    destruct (IH _ _ _ Hg4 He) as (ms2 & Hu2 & Hall2 & Hg').
    exists (m :: ms1 ++ ms2). split; [econstructor; [done|]; by eapply budget_uses_app|].
    split; [constructor; [done|]; by apply Forall_app|done].
Qed.

Lemma rejections_good fuel s b produced s' b' n :
  send_rejections fuel s b produced = Return (s', b', n) →
  ∃ ms, budget_uses b ms b' ∧ Forall said ms ∧ rpcs s' = rpcs s.
Proof.
  revert s b produced. induction fuel as [|fuel IH]; intros s b produced He; [done|].
  cbn [send_rejections] in He. destruct (rejections s) as [|id0 rej0]; [simplify_eq; exists []; split_and!; [apply uses_nothing|constructor|done..]|].
  destruct (reserve b) as [p|] eqn:Hr; [|simplify_eq; exists []; split_and!; [apply uses_nothing|constructor|done..]].
  destruct (vec_pop _) as [[id rest]|]; [|simplify_eq; exists []; split_and!; [apply uses_nothing|constructor|done..]].
  destruct (IH _ _ _ He) as (ms & Hu & Hall & Hp). exists (cancelled id :: ms).
  split; [by econstructor|]. split; [constructor; [apply said_cancelled|done]|done].
Qed.

Lemma outbound_good s k b p s' b' :
  sub_good s → submitter_poll_outbound_many s k b = Return (p, s', b') →
  ∃ ms, budget_uses b ms b' ∧ Forall said ms ∧ sub_good s'.
Proof.
  intros Hg He. unfold submitter_poll_outbound_many in He.
  apply run_bind_Return in He as ([[s1 b1] n1] & H1' & He).
  apply run_bind_Return in He as ([[s2 b2] n2] & H2' & He). simplify_eq.
  destruct (rejections_good _ _ _ _ _ _ _ H1') as (ms1 & Hu1 & Hall1 & Hp).
  destruct (responses_good _ _ _ _ _ _ _ _ ltac:(by unfold sub_good; rewrite Hp) H2') as (ms2 & Hu2 & Hall2 & Hg2).
  exists (ms1 ++ ms2). split; [by eapply budget_uses_app|]. by split; [apply Forall_app|].
Qed.

(** A message that comes in. *)
Lemma inbound_good s (m : Req) :
  (control_code m = Normal → kind_good (message_id m) (new_rpc (connection_server s) m).1) →
  sub_good s → sub_good (on_inbound s m).1.2.
Proof.
  intros Hm Hg. unfold on_inbound, sub_good in *. destruct (control_code m).
  - specialize (Hm eq_refl). destruct (new_rpc (connection_server s) m) as [[f|x|] v]; simpl in *; try done;
      rewrite pool_contents_push; by constructor.
  - destruct (take_abort (aborts s) (message_id m)) as [[h|] a]; [|done]. simpl.
    by destruct (mark_aborted h (flags s)).
  - done.
Qed.
End content.

(** ** The property *)

Section runs.
Context {V K Req Res F S P W : Type}.
Context `{AtomicWaker W K} `{FutureOp F K Res} `{StreamOp S K Res} `{!ServiceContent F S K Res}.
Context `{ConnectionService V K Req F S}.
Context `{!Message Req} `{MessageLaws Res}.
Context `{FuturesUnorderedLaws P (RpcStream F S) (u64 * RpcStreamEvent Res) (list (AbortCell W))}.

(** The service keeps to its content on these requests. *)
Definition service_keeps (ms : list Req) : Prop :=
  Forall (λ m, control_code m = Normal → ∀ v : V,
    kind_good (F:=F) (S:=S) (K:=K) (Res:=Res) (message_id m) (new_rpc v m).1) ms.

Lemma server_io_good (s s' : RpcSubmitter V P W) i o :
  server_io (K:=K) (F:=F) (S:=S) s i o s' → service_keeps i → sub_good (K:=K) (Res:=Res) s →
  sub_good (K:=K) (Res:=Res) s' ∧ Forall (said (F:=F) (S:=S) (K:=K)) o.
Proof.
  intros [m|k room p s2 out Hw He|k] Hi Hg.
  - split; [|constructor]. apply inbound_good; [|done]. intros Hm. unfold service_keeps in Hi. rewrite Forall_singleton in Hi. by apply Hi.
  - unfold submitter_answers in He. apply run_bind_Return in He as ([[p1 s1] b1] & He1 & He).
    injection He as -> -> <-. destruct (outbound_good _ _ _ _ _ _ Hg He1) as (ms & Hu & Hall & Hg1).
    split; [done|]. apply budget_uses_spec in Hu as [_ ->]; [|done].
    eapply eq_ind_r; [exact Hall|apply recorded_messages].
  - split; [|constructor]. simpl. by destruct (service_poll (connection_server s) k).
Qed.

Lemma server_run_good (s s' : RpcSubmitter V P W) i o :
  io_run (server_io (K:=K) (F:=F) (S:=S)) s i o s' → service_keeps i → sub_good (K:=K) (Res:=Res) s →
  Forall (said (F:=F) (S:=S) (K:=K)) o.
Proof.
  induction 1 as [s|s i o s1 i' o' s2 Hs _ IH]; intros Hi Hg; [constructor|].
  unfold service_keeps in Hi. apply Forall_app in Hi as [Hi Hi'].
  destruct (server_io_good _ _ _ _ Hs Hi Hg) as [Hg1 Ho].
  apply Forall_app. split; [done|by apply IH].
Qed.
End runs.

Module Contents.
Section claims.
Context {V K Req Res F S P W : Type}.
Context `{AtomicWaker W K} `{FutureOp F K Res} `{StreamOp S K Res} `{!ServiceContent F S K Res}.
Context `{ConnectionService V K Req F S}.
Context `{!Message Req} `{MessageLaws Res}.
Context `{FuturesUnorderedLaws P (RpcStream F S) (u64 * RpcStreamEvent Res) (list (AbortCell W))}.

(** What the server says is what its service says: whatever requests come in
    and however the submitter is polled, every message it sends is its own [Cancel]
    or [End], or a response that the future or the stream of a request with that id
    can give, under that id. *)
Theorem answers_come_from_the_service (v : V) (s : RpcSubmitter V P W) (ms : list Req) (out : list Res)
  (Hservice : service_keeps (V:=V) (F:=F) (S:=S) (K:=K) (Res:=Res) ms)
  (Hrun : io_run (server_io (K:=K) (F:=F) (S:=S)) (submitter_new v) ms out s) :
  Forall (λ m, m = cancelled (message_id m) ∨ m = ended (message_id m) ∨
    ∃ r, good (F:=F) (S:=S) (K:=K) (message_id m) r ∧ m = set_message_id r (message_id m)) out.
Proof.
  eapply server_run_good; [exact Hrun|exact Hservice|].
  unfold sub_good. simpl. rewrite pool_contents_default. constructor.
Qed.
End claims.

(** ** Witness: the echo service answers a request with its own text *)

Import WakerCell RpcReactor.

(** What the echo service says to one request: the text of it, whole or in bytes. *)
Definition echoes (m : Request) (id : u64) (r : Response) : Prop :=
  id = req_request_id m ∧ ∃ echo, req_body m = Some echo ∧
    (r = echo_request id echo ∨ r ∈ echo_stream id echo).

Definition echo_content {K} (m : Request) : ServiceContent Response (list Response) K Response.
Proof.
  refine {| good := echoes m; good_future := echoes m; good_stream id items := Forall (echoes m id) items |}.
  - by intros id f k.
  - intros id [|r items] k Hall; simpl; [done|]. by apply Forall_cons in Hall.
Defined.

Definition echo_hello : Request := echo_msg 7 [104; 105] Stream.

Lemma answers_come_from_the_service_witness :
  ∃ s out, io_run (server_io (K:=nat) (F:=Response) (S:=list Response) (P:=list EchoRpc) (W:=option nat)
             (Req:=Request) (Res:=Response)) echo_new [echo_hello] out s ∧ length out = 3%nat ∧
    Forall (λ m, m = cancelled (message_id m) ∨ m = ended (message_id m) ∨
      ∃ r, echoes echo_hello (message_id m) r ∧ m = set_message_id r (message_id m)) out.
Proof.
  assert (∃ s out, io_run (server_io (K:=nat) (F:=Response) (S:=list Response) (P:=list EchoRpc) (W:=option nat)
             (Req:=Request) (Res:=Response)) echo_new [echo_hello] out s ∧ length out = 3%nat) as (s & out & Hr & Ho).
  { eexists _, _. split.
    - eapply (io_next _ _ [_] []); [apply server_request|].
      apply io_once. eapply (server_respond _ 5%nat 100); [done|]. vm_compute. reflexivity.
    - reflexivity. }
  exists s, out. split; [exact Hr|]. split; [exact Ho|].
  apply (@answers_come_from_the_service unit nat Request Response Response (list Response) (list EchoRpc)
    (option nat) _ _ _ (echo_content echo_hello) _ _ _ _ _ _ tt s [echo_hello] out); [|exact Hr].
  apply Forall_singleton. intros _ []. apply Forall_forall. intros r Hr'. split; [done|].
  exists (mkEchoRequest [104; 105] 42). split; [reflexivity|by right].
Defined.
End Contents.
