(* ===== verification/ExampleClients.v ===== *)
(** * The load generator of the echo example

    [example-messagepack/src/client.rs]: it calls the echo service with a number
    as text, every second call unary and every second streaming, keeps at most so
    many calls open as its semaphore has permits, and asserts that the responses
    repeat the number.  The assertions are checked against the service
    ([ExampleService]) through the submitter ([ServiceContent]).  The latencies
    that go to the histogram are kept in a list, and [LoadMetrics] has the lines that
    are printed; [now] is the clock. *)

From S2P Require Import Prelude Spillway Encoding Connection RpcMessage ExampleService RpcServer RpcServerSpec.
From S2P Require Import RpcClient RpcClientSpec ServerConnection ServiceContent Text SpawnServices.
Local Open Scope N_scope.
Local Open Scope run_scope.

(** ** Requests and responses *)

(** What is counted: the responses, and the latencies that go to the histogram. *)
Record Metrics := mkMetrics {
  response_count : usize;
  latencies : list u64;
}.

(** The request of call [i]: the same fields in both arms of [generate_traffic]. *)
Definition load_request (i : u64) (now : u64) (behavior : ResponseBehavior) : Request :=
  mkRequest i (as_u8 Normal) (Some (mkEchoRequest (u64_to_string i) now)) behavior.

Definition counted (m : Metrics) : Metrics := mkMetrics (usize_add (response_count m) 1) (latencies m).

(** The clock minus the time of the request, in [u64]. *)
Definition measured (m : Metrics) (now nanotime : u64) : Metrics :=
  mkMetrics (response_count m) (latencies m ++ [u64_sub now nanotime]).

(** [handle_response]; a failed assertion panics. *)
Definition handle_response (metrics : Metrics) (now : u64) (response : Response) : run Metrics :=
  let metrics := counted metrics in
  let request_id := res_request_id response in
  if request_id =? 0 then Panic
  else
    match res_kind response with
    | Some (Echo echo) =>
        if request_id =? default 0 (parse_u64 (es_message echo))
        then Return (measured metrics now (es_nanotime echo))
        else Panic
    | Some (EchoStreamed _) | None => Return metrics
    end.

(** Indexing a [str] with [n..=n]: it panics out of range, and off a character
    boundary. *)
Definition is_char_boundary (s : bytes) (n : nat) : bool :=
  match s !! n with
  | Some c => negb (continuation c)
  | None => (n =? length s)%nat
  end.

Definition str_at (s : bytes) (n : usize) : run bytes :=
  let start := N.to_nat n in
  if (n =? max_u64) || (length s <=? start)%nat
  then Panic
  else if is_char_boundary s start && is_char_boundary s (S start)
  then Return (take 1 (drop start s))
  else Panic.

(** [handle_stream_response]. *)
Definition handle_stream_response (metrics : Metrics) (now : u64) (response : Response) : run Metrics :=
  let metrics := counted metrics in
  let request_id := res_request_id response in
  if request_id =? 0 then Panic
  else
    match res_kind response with
    | Some (EchoStreamed char_response) =>
        let* place := str_at (u64_to_string request_id) (et_sequence char_response) in
        if bool_decide (place = et_message char_response)
        then Return (measured metrics now (et_nanotime char_response))
        else Panic
    | Some (Echo _) | None => Return metrics
    end.

(** ** The traffic ([generate_traffic]) *)

Section traffic.
Context {Os W K Sm : Type} `{AtomicWaker W K} `{Oneshot Os (result Response RpcError) K} `{SemaphoreLaws Sm}.
Abbreviation Queue := (Shared W (RpcNotification Request)).
Abbreviation Reactor := (RpcCompletionReactor Os W Response).

(** A task that waits for a response, or for the responses of a stream; it holds a
    permit. *)
Inductive TrafficTask :=
| UnaryTask (completion : UnaryCompletion)
| StreamTask (completion : StreamingCompletion).

Record Traffic := mkTraffic {
  tr_i : u64;
  tr_permits : Sm;
  tr_tasks : list TrafficTask;
}.
Implicit Types t : Traffic.

Definition traffic_new (concurrent_count : Sm) : Traffic := mkTraffic 1 concurrent_count [].

(** One turn of the loop: it waits for a permit; [None] is the return after a call
    that failed. *)
Definition traffic_turn (client : RpcClient) (now : u64) t (q : Queue) (r : Reactor)
  : run (option Traffic * Queue * Reactor) :=
  match try_acquire_owned (tr_permits t) with
  | None => Return (Some t, q, r)
  | Some permits =>
      let i := tr_i t in
      if i mod 2 =? 0 then
        let* '(sent, q, r) := send_unary client (load_request i now ExampleService.Unary) q r in
        match sent with
        | Ok completion =>
            Return (Some (mkTraffic (u64_add i 1) permits (tr_tasks t ++ [UnaryTask completion])), q, r)
        | Err _ => Return (None, q, r)
        end
      else
        let* '(sent, q, r) := send_streaming client (load_request i now Stream) q r in
        match sent with
        | Ok completion =>
            Return (Some (mkTraffic (u64_add i 1) permits (tr_tasks t ++ [StreamTask completion])), q, r)
        | Err _ => Return (None, q, r)
        end
  end.

(** The [while let Some(Ok(response))] loop of a stream's task: the flag says that
    it is over. *)
Fixpoint stream_task_loop (fuel : nat) (k : K) (now : u64) (m : Metrics) (x : StreamingCompletion)
  (cs : list (Cell Os W Response)) : run (bool * StreamingCompletion * Metrics * list (Cell Os W Response)) :=
  match fuel with
  | O => OutOfFuel
  | S fuel =>
      let* '(p, x, cs) := streaming_poll_next x k cs in
      match p with
      | Ready (Some (Ok response)) =>
          let* m := handle_stream_response m now response in stream_task_loop fuel k now m x cs
      | Ready (Some (Err _)) | Ready None => Return (true, x, m, cs)
      | Pending => Return (false, x, m, cs)
      end
  end.

(** One poll of a task: what is left of it.  A unary task that gets no response
    panics in its [expect]; a task that is over drops its completion. *)
Definition traffic_task_poll (fuel : nat) (k : K) (now : u64) (m : Metrics) (task : TrafficTask)
  (q : Queue) (r : Reactor) : run (option TrafficTask * Metrics * Queue * Reactor) :=
  match task with
  | UnaryTask u =>
      let* '(p, u, cs) := unary_poll u k (cells r) in
      match p with
      | Pending => Return (Some (UnaryTask u), m, q, set_cells r cs)
      | Ready (Err _) => Panic
      | Ready (Ok response) =>
          let* '(q, cs) := unary_drop u q cs in
          let* m := handle_response m now response in
          Return (None, m, q, set_cells r cs)
      end
  | StreamTask x =>
      let* '(over, x, m, cs) := stream_task_loop fuel k now m x (cells r) in
      if over : bool then
        let* q := streaming_drop x q in Return (None, m, q, set_cells r cs)
      else Return (Some (StreamTask x), m, q, set_cells r cs)
  end.

(** The end of task [j]: its permit is free again. *)
Definition traffic_task_over t (j : nat) : Traffic :=
  mkTraffic (tr_i t) (permit_drop (tr_permits t)) (delete j (tr_tasks t)).
End traffic.

(** ** The assertions hold *)

(** What the service can answer to the load generator under an id. *)
Definition load_answer (id : u64) (r : Response) : Prop :=
  0 < id < 2 ^ 64 ∧
  ∃ nanotime, let echo := mkEchoRequest (u64_to_string id) nanotime in
    if id mod 2 =? 0 then r = echo_request id echo else r ∈ echo_stream id echo.

#[local] Instance load_content {K} : ServiceContent Response (list Response) K Response.
Proof.
  refine {| good := load_answer; good_future := load_answer;
            good_stream id items := Forall (load_answer id) items |}.
  - by intros id f k.
  - intros id [|r items] k Hall; simpl; [done|]. by apply Forall_cons in Hall.
Defined.

(** The digits of a number, one by one. *)
Lemma str_at_digit s n c :
  Forall (λ c, c < 128) s → s !! n = Some c → N.of_nat n < max_u64 → str_at s (N.of_nat n) = Return [c].
Proof.
  intros Ha Hn Hlt. pose proof (lookup_lt_Some _ _ _ Hn) as Hl. unfold str_at. rewrite Nnat.Nat2N.id.
  rewrite (proj2 (N.eqb_neq _ _)) by lia. rewrite (proj2 (Nat.leb_gt _ _) Hl). simpl orb. cbn match.
  assert (∀ j, (j ≤ length s)%nat → is_char_boundary s j = true) as Hb.
  { intros j Hj. unfold is_char_boundary. destruct (s !! j) as [d|] eqn:Hd.
    - apply (Forall_lookup_1 _ _ _ _ Ha) in Hd. unfold continuation, in_range.
      by rewrite (proj2 (N.leb_gt 128 d) Hd).
    - apply lookup_ge_None in Hd. apply Nat.eqb_eq. lia. }
  rewrite !Hb by lia. simpl. by rewrite (drop_S _ _ _ Hn).
Qed.

Lemma length_to_string n : (length (u64_to_string n) ≤ 20)%nat.
Proof.
  unfold u64_to_string. assert (∀ f m, (length (digits f m) ≤ f)%nat) as Hd; [|apply Hd].
  induction f as [|f IH]; intros m; [done|]. rewrite digits_S. destruct (m <? 10); simpl; [lia|].
  rewrite length_app. specialize (IH (m / 10)). simpl. lia.
Qed.

(** The handler of a call: by the parity of its number. *)
Definition handle (id : u64) : Metrics → u64 → Response → run Metrics :=
  if id mod 2 =? 0 then handle_response else handle_stream_response.

Lemma handle_answer (id : u64) (r : Response) m now :
  load_answer id r →
  ∃ latency, handle id m now r = Return (mkMetrics (usize_add (response_count m) 1) (latencies m ++ [latency])).
Proof.
  intros [[Hpos Hlt] [nanotime Hr]]. exists (u64_sub now nanotime). unfold handle.
  cbn zeta in Hr. destruct (id mod 2 =? 0) in Hr |- *.
  - subst r. unfold handle_response. simpl. rewrite (proj2 (N.eqb_neq id 0)) by lia.
    by rewrite parse_to_string, N.eqb_refl.
  - apply list_elem_of_lookup in Hr as [n Hn]. unfold echo_stream in Hn. rewrite list_lookup_imap in Hn.
    cbn [er_message er_nanotime] in Hn. destruct (u64_to_string id !! n) as [c|] eqn:Hc; [|done].
    injection Hn as <-. unfold handle_stream_response. cbn [res_request_id res_kind et_sequence].
    rewrite (proj2 (N.eqb_neq id 0)) by lia.
    pose proof (length_to_string id). pose proof (lookup_lt_Some _ _ _ Hc).
    rewrite N.mod_small by (eapply (N.lt_trans _ 32); [lia|by vm_compute]).
    rewrite (str_at_digit _ _ c (to_string_ascii id) Hc) by (unfold max_u64; lia). cbn [run_bind et_message].
    pose proof (Forall_lookup_1 _ _ _ _ (to_string_ascii id) Hc) as Hascii. simpl in Hascii.
    unfold latin1_to_utf8. rewrite (proj2 (N.ltb_lt _ _) Hascii). by rewrite bool_decide_true.
Qed.

(** Call [i] of the generator. *)
Definition load_call (i now : u64) : Request :=
  load_request i now (if i mod 2 =? 0 then ExampleService.Unary else Stream).

Lemma load_answer_id id r : load_answer id r → res_request_id r = id.
Proof.
  intros [_ [nanotime Hr]]. cbn zeta in Hr. destruct (id mod 2 =? 0) in Hr; [by subst r|].
  pose proof (echo_stream_ids id (mkEchoRequest (u64_to_string id) nanotime)) as Hids.
  rewrite Forall_forall in Hids. by apply Hids.
Qed.

Lemma load_calls_kept (calls : list (u64 * u64)) :
  Forall (λ c, 0 < c.1 < 2 ^ 64) calls →
  service_keeps (V:=unit) (F:=Response) (S:=list Response) (K:=nat) (Res:=Response)
    ((λ c, load_call c.1 c.2) <$> calls).
Proof.
  intros Hcalls. apply Forall_fmap. eapply Forall_impl; [exact Hcalls|].
  intros [i now] Hi _ []. simpl in *. unfold load_call. destruct (i mod 2 =? 0) eqn:Heven; simpl.
  - split; [done|]. exists now. by rewrite Heven.
  - apply Forall_forall. intros r Hr. split; [done|]. exists now. by rewrite Heven.
Qed.

(** ** What a stream says is text *)

Lemma latin1_utf8 c : c < 256 → utf8_valid (latin1_to_utf8 c) = true.
Proof.
  intros Hc. assert (forallb (λ n, utf8_valid (latin1_to_utf8 (N.of_nat n))) (seq 0 256) = true) as Hall
    by (by vm_compute).
  rewrite forallb_forall in Hall. rewrite <-(Nnat.N2Nat.id c). apply Hall.
  apply list_elem_of_In, elem_of_seq. lia.
Qed.

(** The service's stream echoes an ASCII text ([streamed_text_ascii]), and any text
    as valid UTF-8. *)
Lemma echo_stream_utf8 id e :
  Forall (λ c, c < 256) (er_message e) → utf8_valid (streamed_text (echo_stream id e)) = true.
Proof.
  intros Hbytes. unfold streamed_text, echo_stream. rewrite fmap_imap. apply utf8_concat.
  apply Forall_forall. intros t (n & Ht)%list_elem_of_lookup. rewrite list_lookup_imap in Ht.
  destruct (er_message e !! n) as [c|] eqn:Hc; [|done]. injection Ht as <-.
  apply latin1_utf8. by apply (Forall_lookup_1 _ _ _ _ Hbytes Hc).
Qed.

(** But a character of two bytes comes back as two other characters. *)
Example stream_mangles_other_text :
  streamed_text (echo_stream 7 (mkEchoRequest [195; 169] 3)) = [195; 131; 194; 169].
Proof. reflexivity. Qed.

(** ** A turn of the loop *)

Section turns.
Context {Os W K Sm : Type} `{AtomicWakerLaws W K} `{OneshotLaws Os (result Response RpcError) K}.
Context `{SemaphoreLaws Sm}.
Abbreviation Reactor := (RpcCompletionReactor Os W Response).
Implicit Types r : Reactor.

(** Every permit is free or held by a task. *)
Definition permits_kept (n : nat) (t : Traffic (Sm:=Sm)) : Prop :=
  (available_permits (tr_permits t) + length (tr_tasks t))%nat = n.

(** A turn that gets a permit queues call [i] and moves on to the next, with a task
    that has the permit; one that gets none does nothing. *)
Lemma traffic_turn_spec n client now t q v r t' q' r' :
  unbounded q v → is_alive r = true → permits_kept n t →
  traffic_turn (W:=W) (K:=K) client now t q r = Return (t', q', r') →
  ∃ t1, t' = Some t1 ∧ permits_kept n t1 ∧
    (if decide (available_permits (tr_permits t) = 0%nat) then t1 = t ∧ q' = q ∧ r' = r
     else tr_i t1 = u64_add (tr_i t) 1 ∧
       ∃ x, waiting q' v ≡ₚ New (mkCompletableRpc (tr_i t) x (load_call (tr_i t) now)) :: waiting q v).
Proof.
  intros Hun Hal Hp He. unfold traffic_turn in He. pose proof (acquire_law (tr_permits t)) as Hl.
  destruct (try_acquire_owned (tr_permits t)) as [permits|].
  2:{ injection He as <- <- <-. exists t. split; [done|]. split; [done|]. by destruct (decide _). }
  unfold permits_kept in Hp. destruct (decide _); [lia|].
  destruct (tr_i t mod 2 =? 0) eqn:Hi; apply run_bind_Return in He as ([[sent q1] r1] & Hs & He).
  - destruct (send_unary_queued _ _ _ v _ _ _ _ Hun Hal Hs) as (u & -> & Hw). injection He as <- <- <-.
    eexists. split; [done|]. split; [unfold permits_kept; simpl; rewrite length_app; simpl; lia|].
    split; [done|]. eexists. unfold load_call. rewrite Hi. exact Hw.
  - destruct (send_streaming_queued _ _ _ v _ _ _ _ Hun Hal Hs) as (u & sender & -> & Hw). injection He as <- <- <-.
    eexists. split; [done|]. split; [unfold permits_kept; simpl; rewrite length_app; simpl; lia|].
    split; [done|]. eexists. unfold load_call. rewrite Hi. exact Hw.
Qed.

Lemma traffic_task_over_kept n t j :
  (j < length (tr_tasks t))%nat → permits_kept n t → permits_kept n (traffic_task_over t j).
Proof.
  unfold permits_kept. intros Hj Hp. simpl. rewrite permit_drop_law.
  assert (length (delete j (tr_tasks t)) = (length (tr_tasks t) - 1)%nat)
    by (by apply length_delete, lookup_lt_is_Some). lia.
Qed.
End turns.

(** ** The property *)

Module LoadGenerator.
Import WakerCell RpcReactor.

(** The load generator's assertions hold: whatever calls it makes, under ids
    that are not zero, and however the echo service's submitter takes and answers
    them, each response that can reach a caller is accepted by the handler of its
    call, unary or streaming: no assertion fails, no index is out of range, and it
    is counted once, with one latency. *)
Theorem load_generator_is_satisfied (calls : list (u64 * u64)) (out : list Response)
  (s : RpcSubmitter unit (list EchoRpc) (option nat))
  (Hcalls : Forall (λ c, 0 < c.1 < 2 ^ 64) calls)
  (Hrun : io_run (server_io (K:=nat) (F:=Response) (S:=list Response)) echo_new
            ((λ c, load_call c.1 c.2) <$> calls) out s) :
  Forall (λ r, control_code r = Normal → ∀ m now, ∃ latency,
    handle (message_id r) m now r
      = Return (mkMetrics (usize_add (response_count m) 1) (latencies m ++ [latency]))) out.
Proof.
  eapply Forall_impl.
  { eapply server_run_good; [exact Hrun|by apply load_calls_kept|].
    constructor. }
  intros r [Hr|[Hr|(r0 & Hgood & Hr)]] Hcode m now.
  - by rewrite Hr, control_code_cancelled in Hcode.
  - by rewrite Hr, control_code_ended in Hcode.
  - assert (r = r0) as ->.
    { pose proof (load_answer_id _ _ Hgood) as Hid. rewrite Hr, <-Hid. by destruct r0. }
    by apply handle_answer.
Qed.

(** Call 7 is answered with a digit and an end, call 8 at once. *)
Lemma load_generator_is_satisfied_witness :
  ∃ s out, io_run (server_io (K:=nat) (F:=Response) (S:=list Response) (P:=list EchoRpc) (W:=option nat)
             (Req:=Request) (Res:=Response)) echo_new [load_call 7 3; load_call 8 4] out s ∧
    (message_id <$> out) = [7; 7; 8] ∧
    Forall (λ r, control_code r = Normal → ∀ m now, ∃ latency,
      handle (message_id r) m now r
        = Return (mkMetrics (usize_add (response_count m) 1) (latencies m ++ [latency]))) out.
Proof.
  assert (∃ s out, io_run (server_io (K:=nat) (F:=Response) (S:=list Response) (P:=list EchoRpc) (W:=option nat)
             (Req:=Request) (Res:=Response)) echo_new [load_call 7 3; load_call 8 4] out s ∧
    (message_id <$> out) = [7; 7; 8]) as (s & out & Hr & Ho).
  { eexists _, _. split.
    - eapply (io_next _ _ [_] []); [apply server_request|].
      eapply (io_next _ _ [_] []); [apply server_request|].
      apply io_once. eapply (server_respond _ 5%nat 100); [done|]. vm_compute. reflexivity.
    - reflexivity. }
  exists s, out. split; [exact Hr|]. split; [exact Ho|].
  apply (load_generator_is_satisfied [(7, 3); (8, 4)] out s); [|exact Hr].
  repeat constructor.
Defined.
End LoadGenerator.
