(* ===== verification/SequentialClients.v ===== *)
(** * Load generators that make one call at a time

    [example-proto/src/client.rs], [example-proto-stream/src/client.rs],
    [example-proto-spawn/src/client.rs] and
    [example-proto-spawn-stream/src/client.rs]: many tasks share a client, a counter
    that gives each call its id, and a gauge of the calls that are open; each makes
    a call, waits for its end and makes the next.  What the gauge of each program
    shows and which ids its calls have is stated for any number of tasks in any
    order: the gauge of [example-proto-stream] is never touched, and the gauges of
    the spawning programs also count the tasks that gave up.  The printing of the
    metrics is in [LoadMetrics]; [now] is the clock. *)

From S2P Require Import Prelude Spillway Encoding Connection RpcMessage ExampleService RpcClient RpcClientSpec.
From S2P Require Import Text SpawnServices ExampleProto ExampleClients.
Local Open Scope N_scope.
Local Open Scope run_scope.

(** What the tasks share. *)
Record LoadCounters := mkLoadCounters {
  request_ids : u64;
  concurrent_count : usize;
  shed_count : usize;
  load_metrics : Metrics;
}.
Implicit Types n : LoadCounters.

Definition counters_new : LoadCounters := mkLoadCounters 1 0 0 (mkMetrics 0 []).

(** [request_ids.fetch_add(1)], and the changes of the gauge. *)
Definition next_id n : u64 * LoadCounters :=
  (request_ids n, mkLoadCounters (u64_add (request_ids n) 1) (concurrent_count n) (shed_count n) (load_metrics n)).
Definition gauge_up n : LoadCounters :=
  mkLoadCounters (request_ids n) (usize_add (concurrent_count n) 1) (shed_count n) (load_metrics n).
Definition gauge_down n : LoadCounters :=
  mkLoadCounters (request_ids n) (usize_sub (concurrent_count n) 1) (shed_count n) (load_metrics n).
Definition shed n : LoadCounters :=
  mkLoadCounters (request_ids n) (concurrent_count n) (usize_add (shed_count n) 1) (load_metrics n).
Definition set_metrics n (m : Metrics) : LoadCounters :=
  mkLoadCounters (request_ids n) (concurrent_count n) (shed_count n) m.

(** A call after one look at it. *)
Inductive CallState (H : Type) := StillOpen (h : H) | CallOver.
Arguments StillOpen {H} _.
Arguments CallOver {H}.

Section programs.
Context {Os W K : Type} `{AtomicWaker W K}.

(** ** [example-proto]: unary calls *)

Section unary.
Context `{Oneshot Os (result Response RpcError) K}.
Abbreviation Queue := (Shared W (RpcNotification ProtoRequest)).
Abbreviation Reactor := (RpcCompletionReactor Os W Response).

(** [generate_traffic], up to the await; [None] is its return. *)
Definition proto_call (client : RpcClient) (now : u64) n (q : Queue) (r : Reactor)
  : run (option UnaryCompletion * LoadCounters * Queue * Reactor) :=
  let '(i, n) := next_id n in
  let* '(sent, q, r) :=
    send_unary client
      (mkProtoRequest i (as_u8 Normal) (Some (mkEchoRequest (u64_to_string i) now)) (behavior_as_i32 ExampleService.Unary))
      q r in
  match sent with
  | Ok completion => Return (Some completion, gauge_up n, q, r)
  | Err _ => Return (None, n, q, r)
  end.

(** [handle_response]: the one of [example-messagepack], to the letter. *)
Definition proto_handle_response : Metrics → u64 → Response → run Metrics := handle_response.

(** The await and what follows it; an error panics in the [expect]. *)
Definition proto_await (k : K) (now : u64) (u : UnaryCompletion) n (q : Queue) (r : Reactor)
  : run (CallState UnaryCompletion * LoadCounters * Queue * Reactor) :=
  let* '(p, u, cs) := unary_poll u k (cells r) in
  match p with
  | Pending => Return (StillOpen u, n, q, set_cells r cs)
  | Ready (Err _) => Panic
  | Ready (Ok response) =>
      let* '(q, cs) := unary_drop u q cs in
      let* m := proto_handle_response (load_metrics n) now response in
      Return (CallOver, gauge_down (set_metrics n m), q, set_cells r cs)
  end.
End unary.

(** ** [example-proto-stream]: streaming calls, without a gauge *)

(** [handle_stream_response]. *)
Definition proto_handle_stream_response (metrics : Metrics) (now : u64) (response : Response) : run Metrics :=
  let metrics := counted metrics in
  if res_request_id response =? 0 then Panic
  else
    match res_kind response with
    | Some (EchoStreamed char_response) => Return (measured metrics now (et_nanotime char_response))
    | Some (Echo _) | None => Return metrics
    end.

Section streaming.
Context `{Oneshot Os (result Response RpcError) K}.
Abbreviation Queue := (Shared W (RpcNotification ProtoRequest)).
Abbreviation Reactor := (RpcCompletionReactor Os W Response).

Definition proto_stream_call (client : RpcClient) (now : u64) n (q : Queue) (r : Reactor)
  : run (option StreamingCompletion * LoadCounters * Queue * Reactor) :=
  let '(i, n) := next_id n in
  let* '(sent, q, r) :=
    send_streaming client
      (mkProtoRequest i (as_u8 Normal) (Some (mkEchoRequest (u64_to_string i) now)) (behavior_as_i32 Stream))
      q r in
  match sent with
  | Ok completion => Return (Some completion, n, q, r)
  | Err _ => Return (None, n, q, r)
  end.

(** One turn of the [while let Some(Ok(response))] loop. *)
Definition proto_stream_next (k : K) (now : u64) (x : StreamingCompletion) n (q : Queue) (r : Reactor)
  : run (CallState StreamingCompletion * LoadCounters * Queue * Reactor) :=
  let* '(p, x, cs) := streaming_poll_next x k (cells r) in
  match p with
  | Pending => Return (StillOpen x, n, q, set_cells r cs)
  | Ready (Some (Ok response)) =>
      let* m := proto_handle_stream_response (load_metrics n) now response in
      Return (StillOpen x, set_metrics n m, q, set_cells r cs)
  | Ready (Some (Err _)) | Ready None =>
      let* q := streaming_drop x q in Return (CallOver, n, q, set_cells r cs)
  end.
End streaming.

(** ** [example-proto-spawn]: unary calls that may be shed *)

(** [handle_unary_response]. *)
Definition handle_unary_response (metrics : Metrics) (now : u64) (response : SpawnResponse) : run Metrics :=
  let metrics := counted metrics in
  let request_id := sp_request_id response in
  if request_id =? 0 then Panic
  else
    match sp_body response with
    | Some echo =>
        if request_id =? default 0 (parse_u64 (sd_message echo))
        then Return (measured metrics now (sd_nanotime echo))
        else Panic
    | None => Return metrics
    end.

Definition spawn_request (i now : u64) : SpawnRequest :=
  mkSpawnRequest i (as_u8 Normal) (Some (mkSpawnEcho (u64_to_string i) now)).

Section shedding.
Context `{Oneshot Os (result SpawnResponse RpcError) K}.
Abbreviation Queue := (Shared W (RpcNotification SpawnRequest)).
Abbreviation Reactor := (RpcCompletionReactor Os W SpawnResponse).

(** The gauge goes up before the call, and stays up when the call fails. *)
Definition spawn_call (client : RpcClient) (now : u64) n (q : Queue) (r : Reactor)
  : run (option UnaryCompletion * LoadCounters * Queue * Reactor) :=
  let '(i, n) := next_id n in
  let request := spawn_request i now in
  let n := gauge_up n in
  let* '(sent, q, r) := send_unary client request q r in
  match sent with
  | Ok completion => Return (Some completion, n, q, r)
  | Err _ => Return (None, n, q, r)
  end.

Definition spawn_await (k : K) (now : u64) (u : UnaryCompletion) n (q : Queue) (r : Reactor)
  : run (CallState UnaryCompletion * LoadCounters * Queue * Reactor) :=
  let* '(p, u, cs) := unary_poll u k (cells r) in
  match p with
  | Pending => Return (StillOpen u, n, q, set_cells r cs)
  | Ready res =>
      let* '(q, cs) := unary_drop u q cs in
      match res with
      | Ok response =>
          let* m := handle_unary_response (load_metrics n) now response in
          Return (CallOver, gauge_down (set_metrics n m), q, set_cells r cs)
      | Err _ => Return (CallOver, gauge_down (shed n), q, set_cells r cs)
      end
  end.
End shedding.

(** ** [example-proto-spawn-stream]: streaming calls with a gauge *)

(** [handle_stream_response]. *)
Definition spawn_handle_stream_response (metrics : Metrics) (now : u64) (response : StreamedResponse) : run Metrics :=
  let metrics := counted metrics in
  if ss_request_id response =? 0 then Panic
  else
    match ss_body response with
    | Some char_response => Return (measured metrics now (st_nanotime char_response))
    | None => Return metrics
    end.

Section spawn_streaming.
Context `{Oneshot Os (result StreamedResponse RpcError) K}.
Abbreviation Queue := (Shared W (RpcNotification SpawnRequest)).
Abbreviation Reactor := (RpcCompletionReactor Os W StreamedResponse).

Definition spawn_stream_call (client : RpcClient) (now : u64) n (q : Queue) (r : Reactor)
  : run (option StreamingCompletion * LoadCounters * Queue * Reactor) :=
  let '(i, n) := next_id n in
  let request := spawn_request i now in
  let n := gauge_up n in
  let* '(sent, q, r) := send_streaming client request q r in
  match sent with
  | Ok completion => Return (Some completion, n, q, r)
  | Err _ => Return (None, n, q, r)
  end.

Definition spawn_stream_next (k : K) (now : u64) (x : StreamingCompletion) n (q : Queue) (r : Reactor)
  : run (CallState StreamingCompletion * LoadCounters * Queue * Reactor) :=
  let* '(p, x, cs) := streaming_poll_next x k (cells r) in
  match p with
  | Pending => Return (StillOpen x, n, q, set_cells r cs)
  | Ready (Some (Ok response)) =>
      let* m := spawn_handle_stream_response (load_metrics n) now response in
      Return (StillOpen x, set_metrics n m, q, set_cells r cs)
  | Ready (Some (Err _)) | Ready None =>
      let* q := streaming_drop x q in Return (CallOver, gauge_down n, q, set_cells r cs)
  end.
End spawn_streaming.
End programs.

(** ** Many tasks *)

(** The request of a task of [example-proto], or of [example-proto-stream]. *)
Definition proto_request (behavior : ResponseBehavior) (i now : u64) : ProtoRequest :=
  mkProtoRequest i (as_u8 Normal) (Some (mkEchoRequest (u64_to_string i) now)) (behavior_as_i32 behavior).

(** What the four programs have in common: the request of a call, and what the gauge
    counts: [gauge_open] for a call that is open, [gauge_left] for a task that has
    returned. *)
Class LoadProgram (Os W K Req Res H : Type) := {
  load_call_on : RpcClient → u64 → LoadCounters → Shared W (RpcNotification Req) → RpcCompletionReactor Os W Res →
    run (option H * LoadCounters * Shared W (RpcNotification Req) * RpcCompletionReactor Os W Res);
  load_next_on : K → u64 → H → LoadCounters → Shared W (RpcNotification Req) → RpcCompletionReactor Os W Res →
    run (CallState H * LoadCounters * Shared W (RpcNotification Req) * RpcCompletionReactor Os W Res);
}.

Class LoadProgramLaws (Os W K Req Res H : Type) `{LoadProgram Os W K Req Res H} `{!Message Req} `{AtomicWaker W K}
  `{Oneshot Os (result Res RpcError) K} := {
  gauge_open : N;
  gauge_left : N;
  request_of : u64 → u64 → Req;
  request_of_id i now : message_id (request_of i now) = i;
  call_counters client now n q r res n' q' r' s :
    load_call_on client now n q r = Return (res, n', q', r') → concurrent_count n = wrap 64 s →
    request_ids n' = u64_add (request_ids n) 1 ∧
    concurrent_count n' = wrap 64 (s + match res with Some _ => gauge_open | None => gauge_left end);
  call_queued client now n q v r res n' q' r' :
    load_call_on client now n q r = Return (res, n', q', r') → unbounded q v → is_alive r = true →
    ∃ h x, res = Some h ∧
      waiting q' v ≡ₚ New (mkCompletableRpc (request_ids n) x (request_of (request_ids n) now)) :: waiting q v;
  next_counters k now h n q r res n' q' r' s :
    load_next_on k now h n q r = Return (res, n', q', r') → concurrent_count n = wrap 64 (s + gauge_open) →
    request_ids n' = request_ids n ∧
    concurrent_count n' = wrap 64 (s + match res with StillOpen _ => gauge_open | CallOver => 0 end);
}.

Lemma gauge_up_wrap n s : concurrent_count n = wrap 64 s → concurrent_count (gauge_up n) = wrap 64 (s + 1).
Proof. intros Hn. simpl. rewrite Hn. apply wadd_wrap. Qed.

Lemma gauge_down_wrap n s : concurrent_count n = wrap 64 (s + 1) → concurrent_count (gauge_down n) = wrap 64 s.
Proof. intros Hn. simpl. rewrite Hn, wsub_wrap by lia. f_equal. lia. Qed.

Section instances.
Context {Os W K : Type} `{AtomicWaker W K}.

#[export] Instance proto_program `{Oneshot Os (result Response RpcError) K}
  : LoadProgram Os W K ProtoRequest Response UnaryCompletion :=
  {| load_call_on := proto_call; load_next_on := proto_await |}.
#[export] Instance proto_stream_program `{Oneshot Os (result Response RpcError) K}
  : LoadProgram Os W K ProtoRequest Response StreamingCompletion :=
  {| load_call_on := proto_stream_call; load_next_on := proto_stream_next |}.
#[export] Instance spawn_program `{Oneshot Os (result SpawnResponse RpcError) K}
  : LoadProgram Os W K SpawnRequest SpawnResponse UnaryCompletion :=
  {| load_call_on := spawn_call; load_next_on := spawn_await |}.
#[export] Instance spawn_stream_program `{Oneshot Os (result StreamedResponse RpcError) K}
  : LoadProgram Os W K SpawnRequest StreamedResponse StreamingCompletion :=
  {| load_call_on := spawn_stream_call; load_next_on := spawn_stream_next |}.
End instances.

Section laws.
Context {Os W K : Type} `{AtomicWaker W K}.

#[export] Instance proto_program_laws `{OneshotLaws Os (result Response RpcError) K}
  : LoadProgramLaws Os W K ProtoRequest Response UnaryCompletion.
Proof.
  refine {|
    gauge_open := 1; gauge_left := 0;
    request_of := proto_request ExampleService.Unary |}; [done|..]; cbn [load_call_on load_next_on proto_program].
  - intros client now n q r res n' q' r' s He Hn. unfold proto_call in He. simpl in He.
    apply run_bind_Return in He as ([[sent q1] r1] & _ & He). destruct sent; injection He as <- <- _ _.
    + split; [done|]. by apply gauge_up_wrap.
    + rewrite N.add_0_r. by split.
  - intros client now n q v r res n' q' r' He Hun Hal. unfold proto_call in He. simpl in He.
    apply run_bind_Return in He as ([[sent q1] r1] & Hs & He).
    destruct (send_unary_queued _ _ _ v _ _ _ _ Hun Hal Hs) as (u & -> & Hw). injection He as <- _ <- _.
    eexists _, _. split; [done|exact Hw].
  - intros k now h n q r res n' q' r' s He Hn. unfold proto_await in He.
    apply run_bind_Return in He as ([[p u] cs] & _ & He). destruct p as [[response|e]|]; [|done|].
    + apply run_bind_Return in He as ([q1 cs1] & _ & He). apply run_bind_Return in He as (m & _ & He).
      injection He as <- <- _ _. split; [done|]. rewrite N.add_0_r.
      by apply (gauge_down_wrap (set_metrics n m)).
    + injection He as <- <- _ _. by split.
Defined.

#[export] Instance proto_stream_program_laws `{OneshotLaws Os (result Response RpcError) K}
  : LoadProgramLaws Os W K ProtoRequest Response StreamingCompletion.
Proof.
  refine {|
    gauge_open := 0; gauge_left := 0;
    request_of := proto_request Stream |}; [done|..]; cbn [load_call_on load_next_on proto_stream_program].
  - intros client now n q r res n' q' r' s He Hn. unfold proto_stream_call in He. simpl in He.
    apply run_bind_Return in He as ([[sent q1] r1] & _ & He).
    destruct sent; injection He as <- <- _ _; rewrite N.add_0_r; by split.
  - intros client now n q v r res n' q' r' He Hun Hal. unfold proto_stream_call in He. simpl in He.
    apply run_bind_Return in He as ([[sent q1] r1] & Hs & He).
    destruct (send_streaming_queued _ _ _ v _ _ _ _ Hun Hal Hs) as (x & sender & -> & Hw). injection He as <- _ <- _.
    eexists _, _. split; [done|exact Hw].
  - intros k now h n q r res n' q' r' s He Hn. unfold proto_stream_next in He.
    apply run_bind_Return in He as ([[p x] cs] & _ & He). rewrite N.add_0_r in Hn.
    destruct p as [[[response|e]|]|]; [apply run_bind_Return in He as (m & _ & He)
      |apply run_bind_Return in He as (q1 & _ & He)..|];
      injection He as <- <- _ _; rewrite N.add_0_r; by split.
Defined.

#[export] Instance spawn_program_laws `{OneshotLaws Os (result SpawnResponse RpcError) K}
  : LoadProgramLaws Os W K SpawnRequest SpawnResponse UnaryCompletion.
Proof.
  refine {| gauge_open := 1; gauge_left := 1; request_of := spawn_request |}; [done|..];
    cbn [load_call_on load_next_on spawn_program].
  - intros client now n q r res n' q' r' s He Hn. unfold spawn_call in He. simpl in He.
    apply run_bind_Return in He as ([[sent q1] r1] & _ & He).
    destruct sent; injection He as <- <- _ _; (split; [done|]); by apply gauge_up_wrap.
  - intros client now n q v r res n' q' r' He Hun Hal. unfold spawn_call in He. simpl in He.
    apply run_bind_Return in He as ([[sent q1] r1] & Hs & He).
    destruct (send_unary_queued _ _ _ v _ _ _ _ Hun Hal Hs) as (u & -> & Hw). injection He as <- _ <- _.
    eexists _, _. split; [done|exact Hw].
  - intros k now h n q r res n' q' r' s He Hn. unfold spawn_await in He.
    apply run_bind_Return in He as ([[p u] cs] & _ & He). destruct p as [p|].
    + apply run_bind_Return in He as ([q1 cs1] & _ & He). destruct p as [response|e];
        [apply run_bind_Return in He as (m & _ & He)|];
        injection He as <- <- _ _; (split; [done|]); rewrite N.add_0_r.
      * by apply (gauge_down_wrap (set_metrics n m)).
      * by apply (gauge_down_wrap (shed n)).
    + injection He as <- <- _ _. by split.
Defined.

#[export] Instance spawn_stream_program_laws `{OneshotLaws Os (result StreamedResponse RpcError) K}
  : LoadProgramLaws Os W K SpawnRequest StreamedResponse StreamingCompletion.
Proof.
  refine {| gauge_open := 1; gauge_left := 1; request_of := spawn_request |}; [done|..];
    cbn [load_call_on load_next_on spawn_stream_program].
  - intros client now n q r res n' q' r' s He Hn. unfold spawn_stream_call in He. simpl in He.
    apply run_bind_Return in He as ([[sent q1] r1] & _ & He).
    destruct sent; injection He as <- <- _ _; (split; [done|]); by apply gauge_up_wrap.
  - intros client now n q v r res n' q' r' He Hun Hal. unfold spawn_stream_call in He. simpl in He.
    apply run_bind_Return in He as ([[sent q1] r1] & Hs & He).
    destruct (send_streaming_queued _ _ _ v _ _ _ _ Hun Hal Hs) as (x & sender & -> & Hw). injection He as <- _ <- _.
    eexists _, _. split; [done|exact Hw].
  - intros k now h n q r res n' q' r' s He Hn. unfold spawn_stream_next in He.
    apply run_bind_Return in He as ([[p x] cs] & _ & He).
    destruct p as [[[response|e]|]|]; [apply run_bind_Return in He as (m & _ & He)
      |apply run_bind_Return in He as (q1 & _ & He)..|];
      injection He as <- <- _ _; (split; [done|]); rewrite ?N.add_0_r; try done; by apply gauge_down_wrap.
Defined.
End laws.

(** ** Any number of tasks, in any order *)

Section tasks.
Context {Os W K Req Res H : Type} `{LoadProgramLaws Os W K Req Res H}.

Inductive LoadTask := TaskIdle | TaskOpen (id : u64) (h : H) | TaskReturned.

(** The shared counters, the tasks, and the ids of the calls made so far. *)
Record LoadWorld := mkLoadWorld {
  ld_counters : LoadCounters;
  ld_tasks : list LoadTask;
  ld_made : list u64;
}.
Implicit Types w : LoadWorld.

Definition load_world_new (tasks : nat) : LoadWorld :=
  mkLoadWorld counters_new (replicate tasks TaskIdle) [].

(** A task makes a call, or looks at the one it has open; in between, the queue and
    the reactor are whatever the connection and the other tasks have made of them. *)
Inductive load_step w : LoadWorld → Prop :=
| load_makes_call j client now q r res n' q' r' :
    ld_tasks w !! j = Some TaskIdle →
    load_call_on client now (ld_counters w) q r = Return (res, n', q', r') →
    load_step w (mkLoadWorld n'
      (<[j := match res with Some h => TaskOpen (request_ids (ld_counters w)) h | None => TaskReturned end]> (ld_tasks w))
      (ld_made w ++ [request_ids (ld_counters w)]))
| load_looks j k now id h q r res n' q' r' :
    ld_tasks w !! j = Some (TaskOpen id h) →
    load_next_on k now h (ld_counters w) q r = Return (res, n', q', r') →
    load_step w (mkLoadWorld n'
      (<[j := match res with StillOpen h => TaskOpen id h | CallOver => TaskIdle end]> (ld_tasks w)) (ld_made w)).

Definition task_gauge (t : LoadTask) : N :=
  match t with TaskIdle => 0 | TaskOpen _ _ => gauge_open | TaskReturned => gauge_left end.

Definition open_ids (ts : list LoadTask) : list u64 :=
  ts ≫= λ t, match t with TaskOpen id _ => [id] | _ => [] end.

(** The tasks that have returned. *)
Definition gave_up (ts : list LoadTask) : N :=
  sum_by (λ t, match t with TaskReturned => 1 | _ => 0 end) ts.

Lemma gauge_reads ts : sum_by task_gauge ts = gauge_open * len (open_ids ts) + gauge_left * gave_up ts.
Proof.
  unfold gave_up. induction ts as [|t ts IH]; [change (0 = gauge_open * 0 + gauge_left * 0); lia|].
  assert (len (open_ids (t :: ts)) = match t with TaskOpen _ _ => 1 | _ => 0 end + len (open_ids ts)) as ->
    by (destruct t as [|id h|]; [done|apply (len_app [id])|done]).
  destruct t; simpl; rewrite IH; lia.
Qed.

Record load_ok w : Prop := {
  lo_gauge : concurrent_count (ld_counters w) = wrap 64 (sum_by task_gauge (ld_tasks w));
  lo_made i id : ld_made w !! i = Some id → id = wrap 64 (1 + N.of_nat i);
  lo_next : request_ids (ld_counters w) = wrap 64 (1 + len (ld_made w));
  lo_open j id h : ld_tasks w !! j = Some (TaskOpen id h) → id ∈ ld_made w;
  lo_distinct i j id h h' : len (ld_made w) < 2 ^ 64 →
    ld_tasks w !! i = Some (TaskOpen id h) → ld_tasks w !! j = Some (TaskOpen id h') → i = j;
}.

(** As long as the numbers last, an id is not given twice, and none is zero. *)
Lemma made_distinct w : load_ok w → len (ld_made w) < 2 ^ 64 → NoDup (ld_made w) ∧ 0 ∉ ld_made w.
Proof.
  intros Hok Hlen. assert (∀ i id, ld_made w !! i = Some id → id = 1 + N.of_nat i) as Hi.
  { intros i id Hi. rewrite (lo_made _ Hok _ _ Hi). apply lookup_lt_Some in Hi. unfold len in Hlen.
    unfold wrap. rewrite N.mod_small; lia. }
  split.
  - apply NoDup_alt. intros i j id H1' H2'. apply Hi in H1', H2'. lia.
  - intros (i & Hz)%list_elem_of_lookup. apply Hi in Hz. lia.
Qed.

Lemma next_id_fresh w : load_ok w → len (ld_made w) + 1 < 2 ^ 64 → request_ids (ld_counters w) ∉ ld_made w.
Proof.
  intros Hok Hlen (i & Hi)%list_elem_of_lookup. pose proof (lookup_lt_Some _ _ _ Hi) as Hlt.
  apply (lo_made _ Hok) in Hi. rewrite (lo_next _ Hok) in Hi. unfold wrap, len in *.
  rewrite !N.mod_small in Hi by lia. lia.
Qed.

Lemma load_world_new_ok tasks : load_ok (load_world_new tasks).
Proof.
  split; simpl; [|done|done| |].
  - rewrite (proj2 (sum_by_zero task_gauge (replicate tasks TaskIdle))); [done|].
    intros i x Hx. by apply lookup_replicate in Hx as [-> _].
  - intros j id h Hj. by apply lookup_replicate in Hj as [? _].
  - intros i j id h h' _ Hi. by apply lookup_replicate in Hi as [? _].
Qed.

Lemma load_step_ok w w' : load_step w w' → load_ok w → load_ok w'.
Proof.
  intros [j client now q r res n' q' r' Hj He|j k now id h q r res n' q' r' Hj He] Hok; pose proof Hok as [Hg Hm Hn Ho Hd].
  - destruct (call_counters _ _ _ _ _ _ _ _ _ _ He Hg) as [Hn' Hg']. split; simpl.
    + rewrite Hg'. f_equal.
      pose proof (sum_by_insert task_gauge _ _ _ (match res with Some h => TaskOpen (request_ids (ld_counters w)) h
        | None => TaskReturned end) Hj) as Hs. destruct res; simpl in *; lia.
    + intros i id Hi. apply lookup_app_Some in Hi as [Hi|[Hge Hi]]; [by apply Hm|].
      apply list_lookup_singleton_Some in Hi as [Hz <-]. rewrite Hn. f_equal. unfold len. lia.
    + rewrite Hn', Hn, len_app. rewrite (wadd_wrap 64). f_equal. change (len [_]) with 1. lia.
    + intros i id h Hi. apply elem_of_app. apply list_lookup_insert_Some in Hi as [(_ & Hi & _)|[_ Hi]].
      * right. destruct res; [|done]. injection Hi as <- _. by left.
      * left. by eapply Ho.
    + intros i1 i2 id h h' Hlen Hi1 Hi2. rewrite len_app in Hlen. change (len [_]) with 1 in Hlen.
      pose proof (next_id_fresh w Hok Hlen) as Hfresh.
      apply list_lookup_insert_Some in Hi1 as [(<- & Hi1 & _)|[Hne1 Hi1]],
        Hi2 as [(<- & Hi2 & _)|[Hne2 Hi2]]; [done|..];
        try (destruct res; [|done]; simplify_eq; exfalso; by eapply Hfresh, Ho).
      eapply Hd; [|done..]. lia.
  - pose proof (sum_by_insert task_gauge _ _ _ (match res with StillOpen h => TaskOpen id h | CallOver => TaskIdle end) Hj) as Hs.
    simpl in Hs. set (s := sum_by task_gauge (ld_tasks w) - gauge_open).
    pose proof (sum_by_lookup_le task_gauge _ _ _ Hj) as Hle. simpl in Hle.
    assert (concurrent_count (ld_counters w) = wrap 64 (s + gauge_open)) as Hg2 by (rewrite Hg; f_equal; lia).
    destruct (next_counters _ _ _ _ _ _ _ _ _ _ _ He Hg2) as [Hn' Hg']. split; simpl.
    + rewrite Hg'. f_equal. destruct res; simpl in *; lia.
    + exact Hm.
    + by rewrite Hn'.
    + intros i id' h' Hi. apply list_lookup_insert_Some in Hi as [(_ & Hi & _)|[_ Hi]]; [|by eapply Ho].
      destruct res; [|done]. injection Hi as <- _. by eapply Ho.
    + intros i1 i2 id' h1 h2 Hlen Hi1 Hi2.
      apply list_lookup_insert_Some in Hi1 as [(<- & Hi1 & _)|[Hne1 Hi1]],
        Hi2 as [(<- & Hi2 & _)|[Hne2 Hi2]]; [done|..];
        try (destruct res; [|done]; simplify_eq); by eapply Hd.
Qed.

Lemma load_run_ok tasks w : rtc load_step (load_world_new tasks) w → load_ok w.
Proof.
  intros Hrun. pose proof (load_world_new_ok tasks) as Hok. induction Hrun as [|w w1 w2 Hs _ IH]; [done|].
  apply IH. by eapply load_step_ok.
Qed.
End tasks.

(** The echo of a call of the spawning service is accepted. *)
Lemma spawned_echo_accepted m now id nanotime :
  0 < id < 2 ^ 64 →
  handle_unary_response m now (spawned_echo id (mkSpawnEcho (u64_to_string id) nanotime))
    = Return (measured (counted m) now nanotime).
Proof.
  intros [Hpos Hlt]. unfold handle_unary_response, spawned_echo. cbn [sp_request_id sp_body sd_message sd_nanotime se_message se_nanotime].
  rewrite (proj2 (N.eqb_neq id 0)) by lia. by rewrite parse_to_string, N.eqb_refl.
Qed.

(** ** The property *)

Module Generators.
Section claims.
Context {Os W K Req Res H : Type} `{LoadProgramLaws Os W K Req Res H}.

(** Any number of tasks of a program, making their calls and looking at them in any
    order, with whatever the connection does to the queue and the reactor in between:
    the gauge, a machine word, shows [open] for each open call and [left] for each
    task that has returned; as long as the numbers last, no id is used twice, none
    is zero and no two open calls share one; and a call on a living connection
    succeeds and queues its request under the next id. *)
Definition accounts (open left : N) (request : u64 → u64 → Req) : Prop :=
  ∀ tasks (w : LoadWorld (H:=H)),
  rtc (load_step (Os:=Os) (W:=W) (K:=K) (Req:=Req) (Res:=Res)) (load_world_new tasks) w →
  concurrent_count (ld_counters w) = wrap 64 (open * len (open_ids (ld_tasks w)) + left * gave_up (ld_tasks w)) ∧
  (len (ld_made w) < 2 ^ 64 →
     NoDup (ld_made w) ∧ (0 ∉ ld_made w) ∧
     ∀ i j id h h', ld_tasks w !! i = Some (TaskOpen id h) → ld_tasks w !! j = Some (TaskOpen id h') → i = j) ∧
  (len (ld_made w) + 1 < 2 ^ 64 → ∀ client now q v r res n' q' r',
     load_call_on client now (ld_counters w) q r = Return (res, n', q', r') → unbounded q v → is_alive r = true →
     let i := request_ids (ld_counters w) in
     (i ∉ ld_made w) ∧ ∃ h x, res = Some h ∧
       waiting q' v ≡ₚ New (mkCompletableRpc i x (request i now)) :: waiting q v).

Lemma program_accounts : accounts gauge_open gauge_left request_of.
Proof.
  intros tasks w Hrun. pose proof (load_run_ok tasks w Hrun) as Hok. rewrite <-gauge_reads. split_and!; [apply Hok|..].
  - intros Hlen. destruct (made_distinct w Hok Hlen). split_and!; try done. intros i j id h h'. by apply Hok.
  - intros Hlen client now q v r res n' q' r' He Hun Hal. split; [by apply next_id_fresh|]. by eapply call_queued.
Qed.
End claims.


(** Two tasks of the spawning client: both call, and the first is answered. *)
Import WakerCell.
Abbreviation SpawnSlot := (OneshotView (result SpawnResponse RpcError) * bool)%type.
Abbreviation SpawnReactor := (RpcCompletionReactor SpawnSlot (option nat) SpawnResponse).

Definition spawn_queue : Shared (option nat) (RpcNotification SpawnRequest) :=
  mkShared (replicate 8 chute_default) None 1 1 0 max_u64 false.
Definition spawn_client : RpcClient := mkRpcClient (mkSender 0).

(** The reactor with the response of a call in its channel. *)
Definition spawn_answered (r : SpawnReactor) : SpawnReactor :=
  set_cells r [OneshotCell (OsValue (Ok (spawned_echo 1 (mkSpawnEcho [49] 3))), true)].

Definition call_step (j : nat) (now : u64) (w : LoadWorld (H:=UnaryCompletion)) : LoadWorld :=
  match spawn_call (Os:=SpawnSlot) (K:=nat) spawn_client now (ld_counters w) spawn_queue completion_reactor_new with
  | Return (res, n, _, _) =>
      mkLoadWorld n
        (<[j := match res with Some h => TaskOpen (request_ids (ld_counters w)) h | None => TaskReturned end]> (ld_tasks w))
        (ld_made w ++ [request_ids (ld_counters w)])
  | _ => w
  end.

Lemma call_step_runs j now w :
  ld_tasks w !! j = Some TaskIdle →
  rtc (load_step (Os:=SpawnSlot) (W:=option nat) (K:=nat) (Req:=SpawnRequest) (Res:=SpawnResponse)) w (call_step j now w).
Proof.
  intros Hj. unfold call_step. destruct (spawn_call _ _ _ _ _) as [[[[res n] q] r]| |] eqn:He; [|done..].
  apply rtc_once. by eapply (load_makes_call w j spawn_client now spawn_queue).
Qed.

Definition two_open : LoadWorld (H:=UnaryCompletion) := call_step 1 4 (call_step 0 3 (load_world_new 2)).

End Generators.
