(* ===== verification/LoadMetrics.v ===== *)
(** * The metrics of the load generators

    [print_periodic_metrics] of the example clients: every second it takes the count
    of the responses and the latencies that were recorded, and prints a line.  The
    tasks of the load generator go on between its accesses.  It is shown that every
    response is in exactly one line.  The histogram crate's percentiles are a
    parameter; the numbers are those of [f64], their decimal digits are left out. *)

From Stdlib Require Import SpecFloat ZArith.
From S2P Require Import Prelude RpcMessage Text ExampleService ExampleClients SequentialClients.
Local Open Scope N_scope.

(** ** Floating point numbers of 64 bits *)

Abbreviation f64 := spec_float.

(** [x as f64], rounded to the nearest; the quotient of two numbers, which is also
    what a literal like 0.9 means; [f64::max], which prefers a number. *)
Definition f64_of (x : u64) : f64 := binary_normalize 53 1024 (Z.of_N x) 0 false.
Definition f64_div : f64 → f64 → f64 := SFdiv 53 1024.
Definition f64_max (x y : f64) : f64 :=
  match SFcompare x y with
  | Some Lt => y
  | Some _ => x
  | None => match x with S754_nan => y | _ => x end
  end.

(** ** A line *)

Record MetricsLine := mkMetricsLine {
  ml_total : usize;
  ml_hz : f64;
  ml_shed : option usize;
  ml_p90 : f64;
  ml_p999 : f64;
  ml_p9999 : f64;
  ml_concurrent : usize;
}.

Section metrics.
(** [Histogram::percentile] of what was drained: the end of the bucket's range. *)
Context (percentile : list u64 → f64 → result (option u64) unit).
Implicit Types n : LoadCounters.
Implicit Types others : LoadCounters → LoadCounters.

(** [response_count.swap(0)], [shed_count.swap(0)] and [latency.drain()]. *)
Definition swap_responses n : usize * LoadCounters :=
  (response_count (load_metrics n), set_metrics n (mkMetrics 0 (latencies (load_metrics n)))).
Definition swap_shed n : usize * LoadCounters :=
  (shed_count n, mkLoadCounters (request_ids n) (concurrent_count n) 0 (load_metrics n)).
Definition drain_latencies n : list u64 * LoadCounters :=
  (latencies (load_metrics n), set_metrics n (mkMetrics (response_count (load_metrics n)) [])).

(** The rate: the time since the last line counts as a tenth of a second at least. *)
Definition rate (total : usize) (elapsed : f64) : f64 :=
  f64_div (f64_of total) (f64_max elapsed (f64_div (f64_of 1) (f64_of 10))).

(** A percentile in microseconds; an error or an empty histogram is zero. *)
Definition micros (drained : list u64) (q : f64) : f64 :=
  f64_div (f64_of (default 0 (match percentile drained q with Ok bucket => bucket | Err _ => None end))) (f64_of 1000).

Definition p90 drained : f64 := micros drained (f64_div (f64_of 9) (f64_of 10)).
Definition p999 drained : f64 := micros drained (f64_div (f64_of 999) (f64_of 1000)).
Definition p9999 drained : f64 := micros drained (f64_div (f64_of 9999) (f64_of 10000)).

(** One turn of the loop of [example-proto]: what the other tasks do before it and
    between its accesses are arguments.  The drained latencies come back with the
    line. *)
Definition proto_print_metrics (elapsed : f64) (others : list (LoadCounters → LoadCounters)) n
  : (MetricsLine * list u64) * LoadCounters :=
  let other i := default id (others !! i) in
  let '(total, n) := swap_responses (other 0%nat n) in
  let hz := rate total elapsed in
  let '(drained, n) := drain_latencies (other 1%nat n) in
  let concurrent := concurrent_count (other 2%nat n) in
  ((mkMetricsLine total hz None (p90 drained) (p999 drained) (p9999 drained) concurrent, drained), other 2%nat n).

(** Of [example-proto-stream], [example-proto-spawn-stream] and [example-proto-tls],
    whose text is the same. *)
Definition proto_stream_print_metrics := proto_print_metrics.
Definition spawn_stream_print_metrics := proto_print_metrics.
Definition tls_print_metrics := proto_print_metrics.

(** Of [example-proto-spawn], which counts the calls that were shed. *)
Definition spawn_print_metrics (elapsed : f64) (others : list (LoadCounters → LoadCounters)) n
  : (MetricsLine * list u64) * LoadCounters :=
  let other i := default id (others !! i) in
  let '(total, n) := swap_responses (other 0%nat n) in
  let hz := rate total elapsed in
  let '(drained, n) := drain_latencies (other 1%nat n) in
  let '(shed, n) := swap_shed (other 2%nat n) in
  let concurrent := concurrent_count (other 3%nat n) in
  ((mkMetricsLine total hz (Some shed) (p90 drained) (p999 drained) (p9999 drained) concurrent, drained), other 3%nat n).

(** Of [example-messagepack], whose gauge is what is missing from a semaphore. *)
Definition messagepack_print_metrics (elapsed : f64) (max_concurrent : usize) (available_permits : usize)
  (others : list (Metrics → Metrics)) (m : Metrics) : (MetricsLine * list u64) * Metrics :=
  let other i := default id (others !! i) in
  let m := other 0%nat m in
  let total := response_count m in
  let m := other 1%nat (mkMetrics 0 (latencies m)) in
  let hz := rate total elapsed in
  let drained := latencies m in
  let m := other 2%nat (mkMetrics (response_count m) []) in
  let concurrent := usize_sub max_concurrent available_permits in
  ((mkMetricsLine total hz None (p90 drained) (p999 drained) (p9999 drained) concurrent, drained), m).

(** ** Every response is in one line *)

(** From [n] to [n'], [t] responses and the latencies [taken] were taken, and those of
    [c] came. *)
Definition moved n (t : N) (taken : list u64) (c : N * list u64) n' : Prop :=
  wrap 64 (t + response_count (load_metrics n')) = wrap 64 (response_count (load_metrics n) + c.1) ∧
  taken ++ latencies (load_metrics n') = latencies (load_metrics n) ++ c.2.

Definition both (c c' : N * list u64) : N * list u64 := (c.1 + c'.1, c.2 ++ c'.2).
Definition total_of (cs : list (N * list u64)) : N * list u64 := foldr both (0, []) cs.

Lemma moved_trans n n1 n2 t t' l l' c c' :
  moved n t l c n1 → moved n1 t' l' c' n2 → moved n (t + t') (l ++ l') (both c c') n2.
Proof.
  intros [H1 H2] [H3 H4]. split; simpl.
  - unfold wrap in *. rewrite <-N.add_assoc, <-N.Div0.add_mod_idemp_r, H3, N.Div0.add_mod_idemp_r.
    rewrite N.add_assoc, <-N.Div0.add_mod_idemp_l, H1, N.Div0.add_mod_idemp_l. f_equal. lia.
  - by rewrite <-app_assoc, H4, app_assoc, H2, app_assoc.
Qed.

(** What other tasks do: they count responses and record latencies. *)
Definition contributes others (c : N * list u64) : Prop := ∀ n, moved n 0 [] c (others n).

Lemma moved_nothing n : moved n 0 [] (0, []) n.
Proof. split; simpl; [by rewrite N.add_0_r|by rewrite app_nil_r]. Qed.

Lemma other_moves os cs i n :
  Forall2 contributes os cs → moved n 0 [] (default (0, []) (cs !! i)) (default id (os !! i) n).
Proof.
  intros Ho. destruct (os !! i) as [o|] eqn:Hi.
  - destruct (Forall2_lookup_l _ _ _ _ _ Ho Hi) as (c & -> & Hc). apply Hc.
  - apply lookup_ge_None in Hi. pose proof (Forall2_length _ _ _ Ho). rewrite (lookup_ge_None_2 cs i) by lia.
    apply moved_nothing.
Qed.

(** A way to print lines, with so many of its accesses followed by others. *)
Definition prints_all (print : f64 → list (LoadCounters → LoadCounters) → LoadCounters → (MetricsLine * list u64) * LoadCounters)
  (accesses : nat) : Prop :=
  ∀ elapsed os cs n, Forall2 contributes os cs → (length os ≤ accesses)%nat →
    let '(line, drained, n') := print elapsed os n in moved n (ml_total line) drained (total_of cs) n'.

Lemma total_of_four (cs : list (N * list u64)) :
  (length cs ≤ 4)%nat →
  let c i := default (0, []) (cs !! i) in total_of cs = both (c 0%nat) (both (c 1%nat) (both (c 2%nat) (c 3%nat))).
Proof.
  intros Hl. destruct cs as [|[d0 l0] [|[d1 l1] [|[d2 l2] [|[d3 l3] [|c cs]]]]]; simpl in *;
    [..|lia]; unfold both; simpl; f_equal; rewrite ?app_nil_r; try done; lia.
Qed.

Lemma swap_responses_moves n : moved n (swap_responses n).1 [] (0, []) (swap_responses n).2.
Proof. split; simpl; [f_equal; lia|by rewrite app_nil_r]. Qed.

Lemma drain_latencies_moves n : moved n 0 (drain_latencies n).1 (0, []) (drain_latencies n).2.
Proof. split; simpl; [f_equal; lia|done]. Qed.

Lemma both_0_l c : both (0, []) c = c.
Proof. by destruct c. Qed.

Lemma moved_swap n others c :
  contributes others c → moved n (swap_responses (others n)).1 [] c (swap_responses (others n)).2.
Proof.
  intros Ho. pose proof (moved_trans _ _ _ _ _ _ _ _ _ (Ho n) (swap_responses_moves (others n))) as Hm.
  destruct c as [d l]. unfold both in Hm. simpl in Hm. by rewrite N.add_0_r, app_nil_r in Hm.
Qed.

Lemma moved_drain n others c :
  contributes others c → moved n 0 (drain_latencies (others n)).1 c (drain_latencies (others n)).2.
Proof.
  intros Ho. pose proof (moved_trans _ _ _ _ _ _ _ _ _ (Ho n) (drain_latencies_moves (others n))) as Hm.
  destruct c as [d l]. unfold both in Hm. simpl in Hm. rewrite !N.add_0_r, app_nil_r in Hm. exact Hm.
Qed.

Lemma spawn_prints_all : prints_all spawn_print_metrics 4.
Proof.
  intros elapsed os cs n Ho Hl. pose proof (Forall2_length _ _ _ Ho). rewrite total_of_four by lia. unfold spawn_print_metrics.
  pose proof (λ i n, other_moves os cs i n Ho) as Hi.
  pose proof (moved_swap n _ _ (Hi 0%nat)) as H0. destruct (swap_responses _) as [total n1].
  pose proof (moved_drain n1 _ _ (Hi 1%nat)) as H1. destruct (drain_latencies _) as [drained n2].
  pose proof (Hi 2%nat n2) as H2. destruct (swap_shed _) as [shed n3] eqn:Hs.
  assert (moved n2 0 [] (default (0, []) (cs !! 2%nat)) n3) as H2' by (unfold swap_shed in Hs; by injection Hs as _ <-).
  pose proof (moved_trans _ _ _ _ _ _ _ _ _ H0 (moved_trans _ _ _ _ _ _ _ _ _ H1 (moved_trans _ _ _ _ _ _ _ _ _ H2' (Hi 3%nat n3)))) as Hm.
  simpl in Hm |- *. by rewrite !N.add_0_r, app_nil_r in Hm.
Qed.

Lemma proto_prints_all : prints_all proto_print_metrics 3.
Proof.
  intros elapsed os cs n Ho Hl. pose proof (Forall2_length _ _ _ Ho) as Hlen. rewrite total_of_four by lia.
  rewrite (lookup_ge_None_2 cs 3) by lia. unfold proto_print_metrics. pose proof (λ i n, other_moves os cs i n Ho) as Hi.
  pose proof (moved_swap n _ _ (Hi 0%nat)) as H0. destruct (swap_responses _) as [total n1].
  pose proof (moved_drain n1 _ _ (Hi 1%nat)) as H1. destruct (drain_latencies _) as [drained n2].
  pose proof (moved_trans _ _ _ _ _ _ _ _ _ H0 (moved_trans _ _ _ _ _ _ _ _ _ H1
    (moved_trans _ _ _ _ _ _ _ _ _ (Hi 2%nat n2) (moved_nothing _)))) as Hm.
  simpl in Hm |- *. by rewrite !N.add_0_r, !app_nil_r in Hm.
Qed.

(** The line of [example-messagepack] is the same but for its gauge. *)
Definition on_metrics (other : Metrics → Metrics) n : LoadCounters := set_metrics n (other (load_metrics n)).

Lemma messagepack_prints_the_same elapsed max_concurrent available_permits (os : list (Metrics → Metrics)) n :
  let '(line, drained, m') := messagepack_print_metrics elapsed max_concurrent available_permits os (load_metrics n) in
  let '(line', drained', n') := proto_print_metrics elapsed (on_metrics <$> os) n in
  (ml_total line, ml_hz line, ml_p90 line, ml_p999 line, ml_p9999 line)
    = (ml_total line', ml_hz line', ml_p90 line', ml_p999 line', ml_p9999 line') ∧
  drained = drained' ∧ m' = load_metrics n' ∧
  (available_permits ≤ max_concurrent < 2 ^ 64 → ml_concurrent line = max_concurrent - available_permits).
Proof.
  unfold messagepack_print_metrics, proto_print_metrics. rewrite !list_lookup_fmap.
  destruct (os !! 0%nat), (os !! 1%nat), (os !! 2%nat); simpl;
    (split_and!; [done..|]; intros [Hle Hw]; by apply wsub_small).
Qed.

(** The loop, for as many turns as it takes. *)
Fixpoint print_periodic_metrics
  (print : f64 → list (LoadCounters → LoadCounters) → LoadCounters → (MetricsLine * list u64) * LoadCounters)
  (turns : list (f64 * list (LoadCounters → LoadCounters))) n : list (MetricsLine * list u64) * LoadCounters :=
  match turns with
  | [] => ([], n)
  | (elapsed, os) :: turns =>
      let '(line, n) := print elapsed os n in
      let '(lines, n) := print_periodic_metrics print turns n in (line :: lines, n)
  end.

(** Every response is counted in one line, and every latency is in the percentiles of
    one line, in order: the totals of the lines and the count that is left are what
    was counted at first and since; the counter is 64 bits wide. *)
Theorem responses_are_printed_once print accesses turns (css : list (list (N * list u64))) n :
  prints_all print accesses →
  Forall2 (λ turn cs, Forall2 contributes turn.2 cs ∧ (length turn.2 ≤ accesses)%nat) turns css →
  let '(lines, n') := print_periodic_metrics print turns n in
  moved n (sum_by (λ line, ml_total line.1) lines) (concat lines.*2) (total_of (total_of <$> css)) n'.
Proof.
  intros Hp Ht. revert n. induction Ht as [|[elapsed os] cs turns css [Ho Hl] _ IH]; intros n; simpl; [apply moved_nothing|].
  pose proof (Hp elapsed os cs n Ho Hl) as Hm. destruct (print elapsed os n) as [[line drained] n1].
  specialize (IH n1). destruct (print_periodic_metrics print turns n1) as [lines n2]. simpl.
  by eapply moved_trans.
Qed.
End metrics.

(** A task of [example-proto] that hears a response makes such a contribution. *)
Lemma counted_contributes (now nanotime : u64) :
  contributes (λ n, set_metrics n (measured (counted (load_metrics n)) now nanotime)) (1, [u64_sub now nanotime]).
Proof.
  intros n. split; [|done]. cbn -[wrap wadd N.add]. unfold wadd, wrap. by rewrite N.add_0_l, N.Div0.mod_mod.
Qed.

(** Two seconds: three responses in the first, one between the accesses. *)
Definition demo_percentile (drained : list u64) (_ : f64) : result (option u64) unit := Ok (last drained).
Definition hears (d : u64) (n : LoadCounters) : LoadCounters :=
  set_metrics n (measured (counted (load_metrics n)) (d + 10) 10).

Example two_lines :
  let '(lines, n) := print_periodic_metrics (proto_print_metrics demo_percentile)
    [(f64_of 1, [hears 2000 ∘ hears 4000; hears 8000]); (f64_of 2, [id])] counters_new in
  (λ line, (ml_total line.1, SFcompare (ml_hz line.1) (f64_of 2), SFcompare (ml_p90 line.1) (f64_of 8), line.2)) <$> lines
    = [(2, Some Eq, Some Eq, [4000; 2000; 8000]); (1, Some Lt, Some Lt, [])].
Proof. vm_compute. reflexivity. Qed.
