(* ===== verification/TlsClient.v ===== *)
(** * The load generator over TLS

    [example-proto-tls/src/client.rs]: eight generators, each with a client of its
    own, share a semaphore that bounds the calls in flight, and a gauge.  A generator
    selects between a permit, with which it makes the next call, and the end of one
    of its calls in progress.  Permits and gauge are shown right for any number of
    generators in any order.  Only the branch for unary calls can be reached: the
    condition of the other is [if true].  The other one, for streaming calls, and the
    handler that it calls are at the end. *)

From S2P Require Import Prelude Spillway Encoding Connection RpcMessage ExampleService RpcClient RpcClientSpec.
From S2P Require Import Text SpawnServices ExampleProto ExampleClients SequentialClients.
Local Open Scope N_scope.
Local Open Scope run_scope.

(** A generator: the id of its next call, and its calls in progress, each of which
    holds a permit. *)
Record TlsTraffic := mkTlsTraffic {
  tls_i : u64;
  wip : list UnaryCompletion;
}.

Section generator.
Context {Os W K Sm : Type} `{AtomicWaker W K} `{Oneshot Os (result Response RpcError) K} `{Semaphore Sm}.
Abbreviation Queue := (Shared W (RpcNotification ProtoRequest)).
Abbreviation Reactor := (RpcCompletionReactor Os W Response).

Definition tls_request (i now : u64) : ProtoRequest :=
  mkProtoRequest i (as_u8 Normal) (Some (mkEchoRequest (u64_to_string i) now)) (behavior_as_i32 ExampleService.Unary).

(** The calls that a generator drops with itself give their permits back. *)
Fixpoint drop_wip (us : list UnaryCompletion) (limit : Sm) (q : Queue) (r : Reactor) : run (Sm * Queue * Reactor) :=
  match us with
  | [] => Return (limit, q, r)
  | u :: us =>
      let* '(q, cs) := unary_drop u q (cells r) in drop_wip us (permit_drop limit) q (set_cells r cs)
  end.

(** The branch of the [select] that gets a permit; [None] is the return of the
    generator, which drops the permit and the calls in progress. *)
Definition tls_call (client : RpcClient) (now : u64) (g : TlsTraffic) (limit : Sm) (n : LoadCounters)
  (q : Queue) (r : Reactor) : run (option TlsTraffic * Sm * LoadCounters * Queue * Reactor) :=
  match try_acquire_owned limit with
  | None => Return (Some g, limit, n, q, r)
  | Some limit =>
      let* '(sent, q, r) := send_unary client (tls_request (tls_i g) now) q r in
      match sent with
      | Ok completion =>
          Return (Some (mkTlsTraffic (u64_add (tls_i g) 1) (wip g ++ [completion])), limit, gauge_up n, q, r)
      | Err _ =>
          let* '(limit, q, r) := drop_wip (wip g) (permit_drop limit) q r in Return (None, limit, n, q, r)
      end
  end.

(** [handle_response]: the one of [example-messagepack], to the letter. *)
Definition tls_handle_response : Metrics → u64 → Response → run Metrics := handle_response.

(** The branch that looks at the calls in progress, of which it polls number [j]. *)
Definition tls_select_next (j : nat) (k : K) (now : u64) (g : TlsTraffic) (limit : Sm) (n : LoadCounters)
  (q : Queue) (r : Reactor) : run (TlsTraffic * Sm * LoadCounters * Queue * Reactor) :=
  let* u := expect (wip g !! j) in
  let* '(p, u, cs) := unary_poll u k (cells r) in
  match p with
  | Pending => Return (mkTlsTraffic (tls_i g) (<[j := u]> (wip g)), limit, n, q, set_cells r cs)
  | Ready (Err _) => Panic
  | Ready (Ok response) =>
      let* '(q, cs) := unary_drop u q cs in
      let* m := tls_handle_response (load_metrics n) now response in
      Return (mkTlsTraffic (tls_i g) (delete j (wip g)), permit_drop limit, gauge_down (set_metrics n m), q,
        set_cells r cs)
  end.
End generator.

(** ** Any number of generators, in any order *)

Section generators.
Context {Os W K Sm : Type} `{AtomicWakerLaws W K} `{OneshotLaws Os (result Response RpcError) K} `{SemaphoreLaws Sm}.
Abbreviation Queue := (Shared W (RpcNotification ProtoRequest)).
Abbreviation Reactor := (RpcCompletionReactor Os W Response).

(** One that has returned: how many calls it had in progress. *)
Inductive GeneratorTask := Generating (g : TlsTraffic) | TlsReturned (dropped : nat).

Record TlsWorld := mkTlsWorld {
  concurrency_limit : Sm;
  tls_counters : LoadCounters;
  generators : list GeneratorTask;
}.
Implicit Types w : TlsWorld.

Definition tls_world_new (max_concurrent tasks : nat) : TlsWorld :=
  mkTlsWorld (semaphore_new max_concurrent) counters_new (replicate tasks (Generating (mkTlsTraffic 1 []))).

(** Each generator has a queue and a reactor of its own, in whatever state. *)
Inductive tls_step w : TlsWorld → Prop :=
| tls_calls c client now g (q : Queue) (r : Reactor) g' limit n q' r' :
    generators w !! c = Some (Generating g) →
    tls_call (K:=K) client now g (concurrency_limit w) (tls_counters w) q r = Return (g', limit, n, q', r') →
    tls_step w (mkTlsWorld limit n
      (<[c := match g' with Some g' => Generating g' | None => TlsReturned (length (wip g)) end]> (generators w)))
| tls_selects c j (k : K) now g (q : Queue) (r : Reactor) g' limit n q' r' :
    generators w !! c = Some (Generating g) → (j < length (wip g))%nat →
    tls_select_next j k now g (concurrency_limit w) (tls_counters w) q r = Return (g', limit, n, q', r') →
    tls_step w (mkTlsWorld limit n (<[c := Generating g']> (generators w))).

(** The permits a generator holds, and what it has on the gauge. *)
Definition tls_held (t : GeneratorTask) : N := match t with Generating g => len (wip g) | TlsReturned _ => 0 end.
Definition tls_gauge (t : GeneratorTask) : N :=
  match t with Generating g => len (wip g) | TlsReturned dropped => N.of_nat dropped end.

Record tls_ok (max_concurrent : nat) w : Prop := {
  to_permits : N.of_nat (available_permits (concurrency_limit w)) + sum_by tls_held (generators w)
    = N.of_nat max_concurrent;
  to_gauge : concurrent_count (tls_counters w) = wrap 64 (sum_by tls_gauge (generators w));
}.

Lemma drop_wip_permits us (limit : Sm) q r limit' q' r' :
  drop_wip us limit q r = Return (limit', q', r') →
  available_permits limit' = (available_permits limit + length us)%nat.
Proof.
  revert limit q r. induction us as [|u us IH]; intros limit q r He; simpl in He.
  - injection He as <- _ _. simpl. lia.
  - apply run_bind_Return in He as ([q1 cs] & _ & He). apply IH in He. rewrite permit_drop_law in He. simpl. lia.
Qed.

(** A call takes a permit and goes on the gauge, or the generator gives its permits
    back and leaves what it had on the gauge. *)
Lemma tls_call_counts client now g limit n (q : Queue) (r : Reactor) g' limit' n' q' r' s :
  tls_call (K:=K) client now g limit n q r = Return (g', limit', n', q', r') →
  concurrent_count n = wrap 64 (s + len (wip g)) →
  let t := match g' with Some g' => Generating g' | None => TlsReturned (length (wip g)) end in
  N.of_nat (available_permits limit') + tls_held t = N.of_nat (available_permits limit) + len (wip g) ∧
  concurrent_count n' = wrap 64 (s + tls_gauge t).
Proof.
  intros He Hn. unfold tls_call in He. pose proof (acquire_law limit) as Hl.
  destruct (try_acquire_owned limit) as [limit1|]; [|by injection He as <- <- <- _ _].
  apply run_bind_Return in He as ([[sent q1] r1] & _ & He). destruct sent as [u|e].
  - injection He as <- <- <- _ _. cbn [tls_held tls_gauge wip]. rewrite len_app. change (len [u]) with 1.
    split; [lia|]. rewrite (gauge_up_wrap _ _ Hn). f_equal. lia.
  - apply run_bind_Return in He as ([[limit2 q2] r2] & Hd & He). injection He as <- <- <- _ _.
    apply drop_wip_permits in Hd. rewrite permit_drop_law in Hd. cbn [tls_held tls_gauge].
    split; [unfold len; lia|exact Hn].
Qed.

Lemma tls_select_next_counts j k now g limit n (q : Queue) (r : Reactor) g' limit' n' q' r' s :
  tls_select_next j k now g limit n q r = Return (g', limit', n', q', r') →
  concurrent_count n = wrap 64 (s + len (wip g)) →
  N.of_nat (available_permits limit') + len (wip g') = N.of_nat (available_permits limit) + len (wip g) ∧
  concurrent_count n' = wrap 64 (s + len (wip g')).
Proof.
  intros He Hn. unfold tls_select_next in He. apply run_bind_Return in He as (u & Hu & He).
  destruct (wip g !! j) as [u0|] eqn:Hj; [|done]. clear Hu.
  apply run_bind_Return in He as ([[p u1] cs] & _ & He). destruct p as [[response|e]|]; [|done|].
  - apply run_bind_Return in He as ([q1 cs1] & _ & He). apply run_bind_Return in He as (m & _ & He).
    injection He as <- <- <- _ _. cbn [wip]. rewrite permit_drop_law.
    assert (len (wip g) = len (delete j (wip g)) + 1) as Hlen.
    { unfold len. rewrite (length_delete (wip g) j) by (by exists u0). apply lookup_lt_Some in Hj. lia. }
    split; [lia|]. apply (gauge_down_wrap (set_metrics n m)). simpl. rewrite Hn. f_equal. lia.
  - injection He as <- <- <- _ _. cbn [wip]. unfold len in *. rewrite length_insert. done.
Qed.

Lemma tls_step_ok max w w' : tls_step w w' → tls_ok max w → tls_ok max w'.
Proof.
  intros Hs [Hp Hg].
  assert (∀ c t t' limit n, generators w !! c = Some t → 
    N.of_nat (available_permits limit) + tls_held t'
      = N.of_nat (available_permits (concurrency_limit w)) + tls_held t →
    (∀ s, concurrent_count (tls_counters w) = wrap 64 (s + tls_gauge t) → concurrent_count n = wrap 64 (s + tls_gauge t')) →
    tls_ok max (mkTlsWorld limit n (<[c := t']> (generators w)))) as Hput.
  { intros c t t' limit n Ht Hl Hn.
    pose proof (sum_by_insert tls_held _ _ _ t' Ht) as Hh. pose proof (sum_by_insert tls_gauge _ _ _ t' Ht) as Hq.
    pose proof (sum_by_lookup_le tls_held _ _ _ Ht). pose proof (sum_by_lookup_le tls_gauge _ _ _ Ht).
    split; cbn [concurrency_limit tls_counters generators]; [lia|].
    rewrite (Hn (sum_by tls_gauge (generators w) - tls_gauge t)) by (rewrite Hg; f_equal; lia). f_equal. lia. }
  destruct Hs as [c client now g q r g' limit n q' r' Hc He|c j k now g q r g' limit n q' r' Hc _ He].
  - eapply Hput; [exact Hc|..].
    + by destruct (tls_call_counts _ _ _ _ _ _ _ _ _ _ _ _ (sum_by tls_gauge (generators w) - len (wip g)) He) as [Hl _];
        [rewrite Hg; f_equal; pose proof (sum_by_lookup_le tls_gauge _ _ _ Hc); simpl in *; lia|].
    + intros s Hn. by destruct (tls_call_counts _ _ _ _ _ _ _ _ _ _ _ _ _ He Hn).
  - eapply Hput; [exact Hc|..].
    + by destruct (tls_select_next_counts _ _ _ _ _ _ _ _ _ _ _ _ _ (sum_by tls_gauge (generators w) - len (wip g)) He) as [Hl _];
        [rewrite Hg; f_equal; pose proof (sum_by_lookup_le tls_gauge _ _ _ Hc); simpl in *; lia|].
    + intros s Hn. by destruct (tls_select_next_counts _ _ _ _ _ _ _ _ _ _ _ _ _ _ He Hn).
Qed.

(** However the generators move, at most so many calls are in flight as the semaphore
    was made for, and a generator that has returned holds none; the gauge counts the
    calls in flight and, as long as the program runs, those that were dropped with a
    generator that returned. *)
Theorem tls_calls_are_bounded max tasks w :
  rtc tls_step (tls_world_new max tasks) w →
  N.of_nat (available_permits (concurrency_limit w)) + sum_by tls_held (generators w) = N.of_nat max ∧
  concurrent_count (tls_counters w) = wrap 64 (sum_by tls_gauge (generators w)).
Proof.
  intros Hrun. assert (tls_ok max (tls_world_new max tasks)) as Hok.
  { split; simpl; [rewrite semaphore_new_law|];
      rewrite (proj2 (sum_by_zero _ (replicate tasks _))); try done; try lia;
      intros i x Hx; by apply lookup_replicate in Hx as [-> _]. }
  induction Hrun as [|w w1 w2 Hs _ IH]; [by destruct Hok|]. apply IH. by eapply tls_step_ok.
Qed.
End generators.

(** ** The handler of stream responses

    [handle_stream_response], which only the branch that cannot be reached calls.
    [log10] and [ceil] of the id are the least exponent of a power of ten that is not
    below it, which is what floating point gives for ids of up to fourteen digits;
    the differences and the power wrap around. *)

Fixpoint exponent_from (fuel : nat) (p : N) (n : u64) : u32 :=
  match fuel with
  | O => p
  | Datatypes.S fuel => if n <=? 10 ^ p then p else exponent_from fuel (p + 1) n
  end.

Definition log10_ceil (n : u64) : u32 := exponent_from 20 0 n.

Definition tls_handle_stream_response (metrics : Metrics) (now : u64) (response : Response) : run Metrics :=
  let metrics := counted metrics in
  let request_id := res_request_id response in
  if request_id =? 0 then Panic
  else
    match res_kind response with
    | Some (EchoStreamed char_response) =>
        let places := log10_ceil request_id in
        let place := u32_sub places (wrap 32 (et_sequence char_response)) in
        let power := wrap 64 (10 ^ place) in
        if power =? 0 then Panic
        else
          let column := (request_id / power) mod 10 in
          if bool_decide (parse_u64 (et_message char_response) = Some column)
          then Return (if place =? u32_sub places 1 then measured metrics now (et_nanotime char_response) else metrics)
          else Panic
    | Some (Echo _) | None => Return metrics
    end.

Lemma exponent_from_above fuel p n : n ≤ 10 ^ (p + N.of_nat fuel) → n ≤ 10 ^ exponent_from fuel p n.
Proof.
  revert p. induction fuel as [|fuel IH]; intros p Hn; cbn [exponent_from]; [by rewrite N.add_0_r in Hn|].
  destruct (N.leb_spec n (10 ^ p)); [done|]. apply IH. by replace (p + 1 + N.of_nat fuel) with (p + N.of_nat (Datatypes.S fuel)) by lia.
Qed.

Lemma exponent_from_le fuel p n : exponent_from fuel p n ≤ p + N.of_nat fuel.
Proof.
  revert p. induction fuel as [|fuel IH]; intros p; cbn [exponent_from]; [lia|].
  destruct (n <=? 10 ^ p); [lia|]. specialize (IH (p + 1)). lia.
Qed.

(** The places are counted from one too high: the handler looks for a digit in front
    of the first one, so the first item of a stream trips the assertion whatever
    digit it has, unless the id is a power of ten. *)
Theorem tls_stream_math_is_wrong metrics now id item :
  id < 10 ^ 14 → (∀ p, id ≠ 10 ^ p) → et_sequence item = 0 → parse_u64 (et_message item) ≠ Some 0 →
  tls_handle_stream_response metrics now (mkResponse id (as_u8 Normal) (Some (EchoStreamed item))) = Panic.
Proof.
  intros Hid Hpow Hseq Hdigit. unfold tls_handle_stream_response. simpl. destruct (N.eqb_spec id 0) as [|Hz]; [done|].
  rewrite Hseq. pose proof (exponent_from_above 20 0 id) as Ha. pose proof (exponent_from_le 20 0 id) as Hb.
  assert (log10_ceil id ≤ 14) as Hc.
  { unfold log10_ceil. do 15 (cbn [exponent_from]; match goal with |- context [if ?b then _ else _] =>
      destruct b eqn:?; [lia|] end).
    match goal with Hle : (id <=? _) = false |- _ => apply N.leb_gt in Hle end. simpl in *. lia. }
  fold (log10_ceil id) in Ha. rewrite (wrap_small 32 0) by done. rewrite wsub_small by lia. rewrite N.sub_0_r.
  assert (10 ^ log10_ceil id ≤ 10 ^ 14) as Hle by (apply N.pow_le_mono_r; lia).
  rewrite wrap_small by (change (10 ^ 14) with 100000000000000 in Hle; change (2 ^ 64) with 18446744073709551616; lia).
  destruct (N.eqb_spec (10 ^ log10_ceil id) 0); [done|].
  assert (id < 10 ^ log10_ceil id) as Hlt.
  { specialize (Hpow (log10_ceil id)). change (0 + N.of_nat 20) with 20 in Ha.
    assert (id ≤ 10 ^ 20) by (change (10 ^ 20) with 100000000000000000000; change (10 ^ 14) with 100000000000000 in Hid; lia). lia. }
  by rewrite (N.div_small _ _ Hlt), bool_decide_false.
Qed.

(** So the first call for a stream that it would make after the very first one, with
    the id 3, ends its generator. *)
Example third_stream_trips :
  tls_handle_stream_response (mkMetrics 0 []) 9 (mkResponse 1 0 (Some (EchoStreamed (mkEchoStream [49] 5 0))))
    = Return (mkMetrics 1 []) ∧
  tls_handle_stream_response (mkMetrics 0 []) 9 (mkResponse 3 0 (Some (EchoStreamed (mkEchoStream [51] 5 0)))) = Panic.
Proof. vm_compute. done. Qed.

(** ** The branch for streaming calls

    What follows [else]: a generator whose calls in progress are streams.  The gauge
    is not touched, and a task gives its permit back when its stream is over. *)

Record TlsStreams := mkTlsStreams {
  ts_i : u64;
  ts_wip : list StreamingCompletion;
}.

Section streams.
Context {Os W K Sm : Type} `{AtomicWaker W K} `{Oneshot Os (result Response RpcError) K} `{Semaphore Sm}.
Abbreviation Queue := (Shared W (RpcNotification ProtoRequest)).
Abbreviation Reactor := (RpcCompletionReactor Os W Response).
Abbreviation Cells := (list (Cell Os W Response)).
Implicit Types g : TlsStreams.

Definition tls_stream_request (i now : u64) : ProtoRequest :=
  mkProtoRequest i (as_u8 Normal) (Some (mkEchoRequest (u64_to_string i) now)) (behavior_as_i32 ExampleService.Stream).

Fixpoint drop_streams (xs : list StreamingCompletion) (limit : Sm) (q : Queue) : run (Sm * Queue) :=
  match xs with
  | [] => Return (limit, q)
  | x :: xs => let* q := streaming_drop x q in drop_streams xs (permit_drop limit) q
  end.

Definition tls_stream_call (client : RpcClient) (now : u64) g (limit : Sm) (q : Queue) (r : Reactor)
  : run (option TlsStreams * Sm * Queue * Reactor) :=
  match try_acquire_owned limit with
  | None => Return (Some g, limit, q, r)
  | Some limit =>
      let* '(sent, q, r) := send_streaming client (tls_stream_request (ts_i g) now) q r in
      match sent with
      | Ok completion =>
          Return (Some (mkTlsStreams (u64_add (ts_i g) 1) (ts_wip g ++ [completion])), limit, q, r)
      | Err _ =>
          let* '(limit, q) := drop_streams (ts_wip g) (permit_drop limit) q in Return (None, limit, q, r)
      end
  end.

(** The [while let Some(Ok(response))] loop of a task: the flag says that it is
    over. *)
Fixpoint tls_stream_loop (fuel : nat) (k : K) (now : u64) (m : Metrics) (x : StreamingCompletion) (cs : Cells)
  : run (bool * StreamingCompletion * Metrics * Cells) :=
  match fuel with
  | O => OutOfFuel
  | Datatypes.S fuel =>
      let* '(p, x, cs) := streaming_poll_next x k cs in
      match p with
      | Ready (Some (Ok response)) =>
          let* m := tls_handle_stream_response m now response in tls_stream_loop fuel k now m x cs
      | Ready (Some (Err _)) | Ready None => Return (true, x, m, cs)
      | Pending => Return (false, x, m, cs)
      end
  end.

Definition tls_select_stream (fuel : nat) (j : nat) (k : K) (now : u64) g (limit : Sm) (m : Metrics)
  (q : Queue) (r : Reactor) : run (TlsStreams * Sm * Metrics * Queue * Reactor) :=
  let* x := expect (ts_wip g !! j) in
  let* '(over, x, m, cs) := tls_stream_loop fuel k now m x (cells r) in
  if over : bool then
    let* q := streaming_drop x q in
    Return (mkTlsStreams (ts_i g) (delete j (ts_wip g)), permit_drop limit, m, q, set_cells r cs)
  else Return (mkTlsStreams (ts_i g) (<[j := x]> (ts_wip g)), limit, m, q, set_cells r cs).
End streams.

Section stream_facts.
Context {Os W K Sm : Type} `{AtomicWakerLaws W K} `{OneshotLaws Os (result Response RpcError) K} `{SemaphoreLaws Sm}.
Abbreviation Queue := (Shared W (RpcNotification ProtoRequest)).
Abbreviation Reactor := (RpcCompletionReactor Os W Response).
Abbreviation Cells := (list (Cell Os W Response)).

(** The permits that are free and the calls in progress. *)
Definition stream_slots (limit : Sm) (xs : list StreamingCompletion) : nat := (available_permits limit + length xs)%nat.

Lemma drop_streams_permits xs (limit : Sm) q limit' (q' : Queue) :
  drop_streams xs limit q = Return (limit', q') → available_permits limit' = stream_slots limit xs.
Proof.
  revert limit q. unfold stream_slots. induction xs as [|x xs IH]; intros limit q He; simpl in He.
  - injection He as <- _. simpl. lia.
  - apply run_bind_Return in He as (q1 & _ & He). apply IH in He. rewrite permit_drop_law in He. simpl. lia.
Qed.

(** A call takes one slot; a generator that returns frees all of its slots. *)
Lemma tls_stream_call_slots client now g limit (q : Queue) (r : Reactor) g' limit' q' r' :
  tls_stream_call (K:=K) client now g limit q r = Return (g', limit', q', r') →
  stream_slots limit' (match g' with Some g' => ts_wip g' | None => [] end) = stream_slots limit (ts_wip g).
Proof.
  intros He. unfold tls_stream_call in He. pose proof (acquire_law limit) as Hl.
  destruct (try_acquire_owned limit) as [limit1|]; [|by injection He as <- <- _ _].
  apply run_bind_Return in He as ([[sent q1] r1] & _ & He). destruct sent as [x|e].
  - injection He as <- <- _ _. unfold stream_slots. cbn [ts_wip]. rewrite length_app. simpl. lia.
  - apply run_bind_Return in He as ([limit2 q2] & Hd & He). injection He as <- <- _ _.
    apply drop_streams_permits in Hd. unfold stream_slots in *. rewrite permit_drop_law in Hd. simpl. lia.
Qed.

(** A task that is over frees its slot, whether its stream ended or broke. *)
Lemma tls_select_stream_slots fuel j k now g limit m (q : Queue) (r : Reactor) g' limit' m' q' r' :
  tls_select_stream fuel j k now g limit m q r = Return (g', limit', m', q', r') →
  stream_slots limit' (ts_wip g') = stream_slots limit (ts_wip g).
Proof.
  intros He. unfold tls_select_stream in He. apply run_bind_Return in He as (x & Hx & He).
  destruct (ts_wip g !! j) as [x0|] eqn:Hj; [|done]. clear Hx.
  apply run_bind_Return in He as ([[[over x1] m1] cs] & _ & He). destruct over; unfold stream_slots.
  - apply run_bind_Return in He as (q1 & _ & He). injection He as <- <- _ _ _. cbn [ts_wip].
    rewrite permit_drop_law, length_delete by (by exists x0). apply lookup_lt_Some in Hj. lia.
  - injection He as <- <- _ _ _. cbn [ts_wip]. by rewrite length_insert.
Qed.

(** A poll of a task returns, or trips over an assertion, when it may take one step
    more than responses are waiting. *)
Theorem tls_stream_loop_ends fuel k now m x (cs : Cells) s v :
  cs !! sc_completion x = Some (StreamCell s v) → channel_inv s v →
  (length (pending_values s v) < fuel)%nat → tls_stream_loop fuel k now m x cs ≠ OutOfFuel.
Proof.
  revert m x cs s v. induction fuel as [|fuel IH]; intros m x cs s v Hc Hinv Hf; [lia|]. simpl.
  unfold streaming_poll_next. destruct (sc_closed x); [done|]. rewrite Hc.
  destruct (poll_next_spec s v k (inv_ok _ _ Hinv)) as (p & s' & v' & He & _).
  destruct (poll_next_inv _ _ _ _ _ _ Hinv He) as (Hpost & Hinv' & _). rewrite He. simpl.
  unfold poll_next_post in Hpost. destruct (pending_values s v) as [|response rest].
  - destruct Hpost as (-> & _ & _). by destruct (0 =? senders s).
  - destruct Hpost as (-> & Hrest & _). simpl in Hf. simpl.
    destruct (tls_handle_stream_response m now response) as [m'| |] eqn:Hh; cycle 1; [done|..].
    + exfalso. unfold tls_handle_stream_response in Hh. by repeat case_match.
    + simpl. apply (IH m' x _ s' v'); [|done|by rewrite Hrest; lia].
      by rewrite list_lookup_insert_eq by (by eapply lookup_lt_Some).
Qed.
End stream_facts.
