(* ===== verification/System.v ===== *)
(** * A client and a server

    The rpc client and the rpc submitter as one system: the client of
    [RpcClientSpec], the submitter of [RpcServerSpec], and between them the
    requests and the responses that have been sent and not yet been received.
    [EndToEnd] shows that two connections joined by a network are runs of it. *)

From S2P Require Import Prelude Spillway Encoding Connection RpcMessage ExampleService RpcServer RpcServerSpec.
From S2P Require Import RpcClient RpcClientSpec ClientConnection ServerConnection.
Local Open Scope N_scope.
Local Open Scope run_scope.

(** ** The client and its callers *)

Section client_io.
Context {O W K Req Res : Type} `{AtomicWaker W K} `{OneshotLaws O (result Res RpcError) K}.
Context `{MessageLaws Req} `{MessageLaws Res}.
Abbreviation World := (ClientWorld O W Req Res).
Abbreviation Notification := (RpcNotification Req).
Implicit Types w : World.
Implicit Types r : RpcCompletionReactor O W Res.
Implicit Types used : list u64.

(** What callers do with what they hold; [used] are the ids of the calls made, and
    [heard] what a completion gives to its caller, with the completion's channel. *)
Inductive caller_step used w : list (nat * Res) → World → Prop :=
| caller_poll_unary u k p u' cs' :
    unary_poll u k (cells (w_reactor w)) = Return (p, u', cs') →
    caller_step used w
      match p with Ready (Ok m) => [(uc_completion u, m)] | _ => [] end
      (mkWorld (w_queue w) (w_receiver w) (w_connected w) (set_cells (w_reactor w) cs'))
| caller_drop_unary u q' cs' :
    cg_message_id (uc_guard u) ∈ used →
    unary_drop u (w_queue w) (cells (w_reactor w)) = Return (q', cs') →
    caller_step used w [] (mkWorld q' (w_receiver w) (w_connected w) (set_cells (w_reactor w) cs'))
| caller_poll_streaming x k p x' cs' :
    streaming_poll_next x k (cells (w_reactor w)) = Return (p, x', cs') →
    caller_step used w
      match p with Ready (Some (Ok m)) => [(sc_completion x, m)] | _ => [] end
      (mkWorld (w_queue w) (w_receiver w) (w_connected w) (set_cells (w_reactor w) cs'))
| caller_drop_streaming x q' :
    cg_message_id (sc_guard x) ∈ used → streaming_drop x (w_queue w) = Return q' →
    caller_step used w [] (mkWorld q' (w_receiver w) (w_connected w) (w_reactor w))
| caller_clone c c' q' :
    client_clone c (w_queue w) = Return (c', q') →
    caller_step used w [] (mkWorld q' (w_receiver w) (w_connected w) (w_reactor w))
| caller_drop_client c :
    caller_step used w []
      (mkWorld (client_drop c (w_queue w)) (w_receiver w) (w_connected w) (w_reactor w)).

Lemma caller_client_step used w heard w' : caller_step used w heard w' → client_step (K:=K) w w'.
Proof.
  destruct 1; [by eapply step_poll_unary|by eapply step_drop_unary|by eapply step_poll_streaming
    |by eapply step_drop_streaming|by eapply step_clone|by apply step_drop_client].
Qed.

(** The notifications that wait, and the ids of the calls among them. *)
Definition notifications w : list Notification := waiting (w_queue w) (w_receiver w).

Definition new_ids (ns : list Notification) : list u64 :=
  ns ≫= λ n, match n with New rpc => [cr_message_id rpc] | CancelRpc _ => [] end.

Definition is_streaming (x : Completion) : Prop :=
  match x with Unary _ => False | RemoteStreaming _ _ => True end.

Context (streams : Req → Prop).

(** A call in the queue is a request of its kind, under the request's id. *)
Definition notification_ok used (n : Notification) : Prop :=
  match n with
  | New rpc =>
      let m := cr_request rpc in
      cr_message_id rpc = message_id m ∧ control_code m = Normal ∧ message_id m ∈ used ∧
      (is_streaming (cr_completion rpc) → streams m)
  | CancelRpc id => id ∈ used
  end.

(** What callers do leaves the registry alone and adds at most a cancellation. *)
Lemma caller_effect used w heard w' :
  caller_step used w heard w' → world_ok w →
  rpc_registry (w_reactor w') = rpc_registry (w_reactor w) ∧ w_connected w' = w_connected w ∧
  ∃ ns, notifications w' ≡ₚ ns ++ notifications w ∧ Forall (notification_ok used) ns ∧ new_ids ns = [].
Proof.
  assert (∀ g q' r' c, cg_message_id g ∈ used → world_ok w → guard_drop g (w_queue w) = Return q' →
    ∃ ns, notifications (mkWorld q' (w_receiver w) c r') ≡ₚ ns ++ notifications w ∧
      Forall (notification_ok used) ns ∧ new_ids ns = []) as Hguard.
  { intros g q' r' c Hid [Hun _] Hg. destruct (guard_drop_ok _ _ _ _ Hun Hg) as (_ & _ & _ & Hw).
    eexists. split; [exact Hw|]. destruct (cg_closed g); split; try done; by repeat constructor. }
  assert (∀ q' r' c, chutes q' = chutes (w_queue w) →
    ∃ ns, notifications (mkWorld q' (w_receiver w) c r') ≡ₚ ns ++ notifications w ∧
      Forall (notification_ok used) ns ∧ new_ids ns = []) as Hsame.
  { intros q' r' c Hch. exists []. unfold notifications, waiting. simpl. by rewrite Hch. }
  intros [u k p u' cs' He|u q' cs' Hid He|x k p x' cs' He|x q' Hid He|c c' q' He|c] Hok;
    (split; [done|split; [done|]]); try (by apply Hsame).
  - unfold unary_drop in He. apply run_bind_Return in He as (q1 & Hg & He). injection He as <- _.
    exact (Hguard _ _ _ _ Hid Hok Hg).
  - exact (Hguard _ _ _ _ Hid Hok He).
  - unfold client_clone in He. apply run_bind_Return in He as ([y q1] & Hcl & He). injection He as _ <-.
    destruct (sender_clone_spec _ _ (w_receiver w) _ _ (proj1 Hok) Hcl) as (_ & Hch & _). by apply Hsame.
  - destruct (sender_drop_spec (submission_queue c) _ _ (proj1 Hok)) as (_ & Hch & _). by apply Hsame.
Qed.

(** A call adds its request to the queue, or nothing. *)
Definition called (request : Req) (streaming : bool) w w' : Prop :=
  rpc_registry (w_reactor w') = rpc_registry (w_reactor w) ∧ w_connected w' = w_connected w ∧
  (notifications w' ≡ₚ notifications w ∨
   ∃ x, (is_streaming x ↔ streaming = true) ∧ completion_cell x = length (cells (w_reactor w)) ∧
     notifications w' ≡ₚ New (mkCompletableRpc (message_id request) x request) :: notifications w).

Lemma call_unary_effect c request res q' r' w :
  world_ok w → send_unary c request (w_queue w) (w_reactor w) = Return (res, q', r') →
  called request false w (mkWorld q' (w_receiver w) (w_connected w) r').
Proof.
  intros [Hun _] He. unfold send_unary in He. apply run_bind_Return in He as ([[sent q1] r1] & Hs & He).
  destruct (send_message_queued _ _ _ _ (w_receiver w) _ _ _ _ Hun Hs) as [_ Hr]. simpl in Hr.
  destruct (is_alive (w_reactor w)).
  - destruct Hr as (g & -> & -> & _ & _ & Hw & _). injection He as <- <- <-. split; [done|]. split; [done|].
    right. exists (Unary (length (cells (w_reactor w)))). by split_and!; [..|exact Hw].
  - destruct Hr as (-> & -> & ->). injection He as <- <- <-. split; [done|]. split; [done|]. by left.
Qed.

Lemma call_streaming_effect c request res q' r' w :
  world_ok w → send_streaming c request (w_queue w) (w_reactor w) = Return (res, q', r') →
  called request true w (mkWorld q' (w_receiver w) (w_connected w) r').
Proof.
  intros [Hun _] He. unfold send_streaming in He.
  apply run_bind_Return in He as ([[sender receiver] s] & _ & He).
  apply run_bind_Return in He as ([[sent q1] r1] & Hs & He).
  destruct (send_message_queued _ _ _ _ (w_receiver w) _ _ _ _ Hun Hs) as [_ Hr]. simpl in Hr.
  destruct (is_alive (w_reactor w)).
  - destruct Hr as (g & -> & -> & _ & _ & Hw & _). injection He as <- <- <-. split; [done|]. split; [done|].
    right. exists (RemoteStreaming sender (length (cells (w_reactor w)))). by split_and!; [..|exact Hw].
  - destruct Hr as (-> & -> & ->). injection He as <- <- <-. split; [done|]. split; [done|]. by left.
Qed.

(** A completion that an inbound message leaves registered is that of a stream,
    and the message is an item. *)
Lemma inbound_stays r (m : Res) status r' x :
  completion_on_inbound r m = Return (status, r') → rpc_registry r' !! message_id m = Some x →
  control_code m = Normal ∧ is_streaming x.
Proof.
  intros He Hx. unfold completion_on_inbound in He.
  assert (∀ r0 : RpcCompletionReactor O W Res, rpc_registry (deregister r0 (message_id m)) !! message_id m = None)
    as Hde by (intros r0; apply lookup_delete_eq).
  destruct (control_code m); [|injection He as _ <-; by rewrite Hde in Hx..].
  destruct (rpc_registry r !! message_id m) as [[c|sender c]|] eqn:Hm.
  - destruct (cells r !! c) as [[o|s v]|]; try done. destruct (os_send o (Ok m)) as [res o'].
    injection He as _ <-. simpl in Hx. by rewrite lookup_delete_eq in Hx.
  - destruct (cells r !! c) as [[o|s v]|]; try done.
    apply run_bind_Return in He as ([[sent s'] ks] & _ & He).
    destruct sent; injection He as _ <-; [|by rewrite Hde in Hx].
    simpl in Hx. rewrite Hm in Hx. by injection Hx as <-.
  - injection He as _ <-. unfold do_nothing_on_message in Hx. by rewrite Hm in Hx.
Qed.
End client_io.

(** ** The system *)

(** What has happened so far: the calls, the last one first, with the channels of
    their completions, and what callers have heard from them. *)
Record Log (Req Res : Type) := mkLog {
  log_calls : list (nat * Req);
  log_heard : list (nat * Res);
}.
Arguments mkLog {Req Res} _ _.
Arguments log_calls {Req Res} _.
Arguments log_heard {Req Res} _.

Section log.
Context {Req Res : Type}.
Implicit Types l : Log Req Res.

Definition log_call (c : nat) (m : Req) l : Log Req Res := mkLog ((c, m) :: log_calls l) (log_heard l).
Definition log_hear (heard : list (nat * Res)) l : Log Req Res := mkLog (log_calls l) (log_heard l ++ heard).

(** The ids of the calls. *)
Definition log_used `{!Message Req} l : list u64 := (λ e, message_id e.2) <$> log_calls l.
End log.

Record System (O W Req Res V P : Type) := mkSystem {
  sy_client : ClientWorld O W Req Res;
  sy_requests : list Req;
  sy_server : RpcSubmitter V P W;
  sy_responses : list Res;
  sy_log : Log Req Res;
}.
Arguments mkSystem {O W Req Res V P} _ _ _ _ _.
Arguments sy_client {O W Req Res V P} _.
Arguments sy_requests {O W Req Res V P} _.
Arguments sy_server {O W Req Res V P} _.
Arguments sy_responses {O W Req Res V P} _.
Arguments sy_log {O W Req Res V P} _.

Section system.
Context {O V K Req Res F S P W : Type}.
Context `{AtomicWaker W K} `{OneshotLaws O (result Res RpcError) K}.
Context `{!FutureOp F K Res} `{!StreamOp S K Res} `{!ConnectionService V K Req F S}.
Context `{MessageLaws Req} `{MessageLaws Res}.
Context `{FuturesUnorderedLaws P (RpcStream F S) (u64 * RpcStreamEvent Res) (list (AbortCell W))}.
Abbreviation Sys := (System O W Req Res V P).
Abbreviation ServerIo := (server_io (K:=K) (Req:=Req) (Res:=Res) (F:=F) (S:=S)).
Abbreviation ClientIo := (client_io (O:=O) (W:=W) (K:=K) (Req:=Req) (Res:=Res)).
Implicit Types y : Sys.

Definition sy_used y : list u64 := log_used (sy_log y).

(** A call opens the next channel. *)
Definition called_log y (m : Req) : Log Req Res :=
  log_call (length (cells (w_reactor (sy_client y)))) m (sy_log y).

(** The requests that are called as streams, and the service's part: it starts no
    unary rpc for them. *)
Context (streams : Req → Prop).

(** The ids of calls are fresh; everything else happens in any order.  Either side
    hears what the other one said, in its order. *)
Inductive system_step y : Sys → Prop :=
| sys_call_unary c request res q' r' :
    control_code request = Normal → message_id request < 2 ^ 64 → message_id request ∉ sy_used y →
    send_unary c request (w_queue (sy_client y)) (w_reactor (sy_client y)) = Return (res, q', r') →
    system_step y (mkSystem (mkWorld q' (w_receiver (sy_client y)) (w_connected (sy_client y)) r')
      (sy_requests y) (sy_server y) (sy_responses y) (called_log y request))
| sys_call_streaming c request res q' r' :
    control_code request = Normal → message_id request < 2 ^ 64 → message_id request ∉ sy_used y →
    streams request →
    send_streaming c request (w_queue (sy_client y)) (w_reactor (sy_client y)) = Return (res, q', r') →
    system_step y (mkSystem (mkWorld q' (w_receiver (sy_client y)) (w_connected (sy_client y)) r')
      (sy_requests y) (sy_server y) (sy_responses y) (called_log y request))
| sys_caller heard w' :
    caller_step (K:=K) (sy_used y) (sy_client y) heard w' →
    system_step y (mkSystem w' (sy_requests y) (sy_server y) (sy_responses y) (log_hear heard (sy_log y)))
| sys_client got sent rest w' :
    sy_responses y = got ++ rest → ClientIo (sy_client y) got sent w' →
    system_step y (mkSystem w' (sy_requests y ++ sent) (sy_server y) rest (sy_log y))
| sys_server got sent rest s' :
    sy_requests y = got ++ rest → ServerIo (sy_server y) got sent s' →
    system_step y (mkSystem (sy_client y) rest s' (sy_responses y ++ sent) (sy_log y)).

(** The steps that take no caller: a side hears messages, sends some, or is polled
    in vain. *)
Inductive system_io y : Sys → Prop :=
| io_client got sent rest w' :
    sy_responses y = got ++ rest → ClientIo (sy_client y) got sent w' →
    system_io y (mkSystem w' (sy_requests y ++ sent) (sy_server y) rest (sy_log y))
| io_server got sent rest s' :
    sy_requests y = got ++ rest → ServerIo (sy_server y) got sent s' →
    system_io y (mkSystem (sy_client y) rest s' (sy_responses y ++ sent) (sy_log y)).

Lemma system_io_step y y' : system_io y y' → system_step y y'.
Proof. by intros [got sent rest w' Hr Hs|got sent rest s' Hr Hs]; [eapply sys_client|eapply sys_server]. Qed.

Inductive system_reachable : Sys → Prop :=
| system_start x v q service :
    channel = Return (x, v, q) →
    system_reachable (mkSystem (world_new q v) [] (submitter_new service) [] (mkLog [] []))
| system_next y y' : system_reachable y → system_step y y' → system_reachable y'.

(** Where the call [id] is that a caller waits for with [x]: its request is on the
    way, the server has it, or its last message is on the way back. *)
Definition located (id : u64) (x : Completion) y : Prop :=
  (∃ m, m ∈ sy_requests y ∧ control_code m = Normal ∧ message_id m = id ∧
        (is_streaming x → streams m)) ∨
  (∃ u, (id, u) ∈ tags (sy_server y) ∧ (is_streaming x → u = false)) ∨
  id ∈ rejections (sy_server y) ∨
  (∃ m, m ∈ sy_responses y ∧ message_id m = id ∧
        (is_streaming x → m = ended id ∨ m = cancelled id)).

Record system_ok y : Prop := {
  so_world : world_ok (sy_client y);
  so_connected : w_connected (sy_client y) = true;
  so_server : server_reachable (K:=K) (Req:=Req) (Res:=Res) (F:=F) (S:=S) (sy_server y);
  so_width : Forall (λ id, id < 2 ^ 64) (sy_used y);
  so_queue : Forall (notification_ok streams (sy_used y)) (notifications (sy_client y));
  so_requests : Forall (λ m, message_id m ∈ sy_used y) (sy_requests y);
  so_ids : NoDup (new_ids (notifications (sy_client y)) ++ normal_ids (sy_requests y) ++ (tags (sy_server y)).*1);
  so_tags : Forall (.∈ sy_used y) (tags (sy_server y)).*1;
  so_rejections : Forall (.∈ sy_used y) (rejections (sy_server y));
  so_responses : Forall (λ m, message_id m ∈ sy_used y) (sy_responses y);
  so_located id x : rpc_registry (w_reactor (sy_client y)) !! id = Some x → located id x y;
}.

Lemma new_ids_Permutation (ns ns' : list (RpcNotification Req)) : ns ≡ₚ ns' → new_ids ns ≡ₚ new_ids ns'.
Proof. intros Hp. unfold new_ids. by rewrite Hp. Qed.

Lemma new_ids_used (used : list u64) (ns : list (RpcNotification Req)) :
  Forall (notification_ok streams used) ns → Forall (.∈ used) (new_ids ns).
Proof.
  induction 1 as [|[[id x m]|id] ns Hn _ IH]; [constructor| |done]. unfold new_ids. simpl.
  constructor; [|done]. destruct Hn as (Hid & _ & Hu & _). simpl in Hid, Hu. by rewrite Hid.
Qed.

Lemma normal_ids_used (used : list u64) (ms : list Req) :
  Forall (λ m, message_id m ∈ used) ms → Forall (.∈ used) (normal_ids ms).
Proof.
  intros Hms. unfold normal_ids. apply Forall_fmap, Forall_forall.
  intros m [_ Hm]%list_elem_of_filter. rewrite Forall_forall in Hms. by apply Hms.
Qed.

Lemma notification_ok_mono used id (n : RpcNotification Req) :
  notification_ok streams used n → notification_ok streams (id :: used) n.
Proof. destruct n as [rpc|i]; simpl; [|set_solver]. intros (H1' & H2' & H3' & H4'). split_and!; set_solver. Qed.

(** A call. *)
Lemma system_called_ok y w' request streaming :
  system_ok y → world_ok w' → called request streaming (sy_client y) w' →
  control_code request = Normal → message_id request < 2 ^ 64 → message_id request ∉ sy_used y →
  (streaming = true → streams request) →
  system_ok (mkSystem w' (sy_requests y) (sy_server y) (sy_responses y) (called_log y request)).
Proof.
  intros Hok Hw (Hreg & Hconn & Hns) Hcode Hwidth Hfresh Hstream.
  assert (∀ l : list u64, Forall (.∈ sy_used y) l → Forall (.∈ message_id request :: sy_used y) l) as Hmono.
  { intros l Hl. eapply Forall_impl; [exact Hl|]. intros id Hid. by right. }
  split; simpl; try apply Hok; try done.
  - by rewrite Hconn; apply Hok.
  - constructor; [done|apply Hok].
  - assert (Forall (notification_ok streams (message_id request :: sy_used y)) (notifications (sy_client y))) as Hold.
    { eapply Forall_impl; [apply Hok|]. intros n. apply notification_ok_mono. }
    destruct Hns as [->|(x & Hx & _ & ->)]; [done|]. constructor; [|done]. simpl. split_and!; try done; [by left|].
    intros Hs. apply Hstream. by apply Hx.
  - eapply Forall_impl; [apply Hok|]. intros m Hm. by right.
  - pose proof (so_ids _ Hok) as Hnd. destruct Hns as [Hp|(x & Hx & _ & Hp)];
      rewrite (new_ids_Permutation _ _ Hp); [done|]. change (new_ids (New _ :: _)) with
      (message_id request :: new_ids (notifications (sy_client y))).
    rewrite <-app_comm_cons. apply NoDup_cons. split; [|done]. intros Hin. apply Hfresh.
    rewrite !elem_of_app in Hin.
    pose proof (new_ids_used _ _ (so_queue _ Hok)) as Hn. pose proof (normal_ids_used _ _ (so_requests _ Hok)) as Hm.
    pose proof (so_tags _ Hok) as Ht. rewrite Forall_forall in Hn, Hm, Ht.
    destruct Hin as [Hin|[Hin|Hin]]; [by apply Hn|by apply Hm|by apply Ht].
  - apply Hmono, Hok.
  - apply Hmono, Hok.
  - eapply Forall_impl; [apply Hok|]. intros m Hm. by right.
  - intros id x. rewrite Hreg. apply Hok.
Qed.

(** What callers do with what they hold. *)
Lemma system_caller_ok y heard w' :
  system_ok y → caller_step (K:=K) (sy_used y) (sy_client y) heard w' →
  system_ok (mkSystem w' (sy_requests y) (sy_server y) (sy_responses y) (log_hear heard (sy_log y))).
Proof.
  intros Hok Hstep. pose proof (so_world _ Hok) as Hw.
  destruct (caller_effect streams _ _ _ _ Hstep Hw) as (Hreg & Hconn & ns & Hp & Hns & Hnew).
  assert (new_ids (notifications w') ≡ₚ new_ids (notifications (sy_client y))) as Hids.
  { rewrite (new_ids_Permutation _ _ Hp). unfold new_ids in *. by rewrite bind_app, Hnew. }
  split; simpl; try apply Hok.
  - eapply client_step_ok; [|exact Hw]. by eapply caller_client_step.
  - rewrite Hconn. apply Hok.
  - rewrite Hp. apply Forall_app. split; [done|apply Hok].
  - rewrite Hids. apply Hok.
  - intros id x. rewrite Hreg. apply Hok.
Qed.

(** The client takes a notification from its queue. *)
Lemma system_takes_ok y k p q' v' :
  system_ok y → poll_next (w_queue (sy_client y)) (w_receiver (sy_client y)) k = Return (p, q', v') →
  let r := w_reactor (sy_client y) in
  let '(sent, r') := match p with
                     | Ready (Some n) => ([(completion_on_outbound r n).1], (completion_on_outbound r n).2)
                     | _ => ([], r)
                     end in
  system_ok (mkSystem (mkWorld q' v' true r') (sy_requests y ++ sent) (sy_server y) (sy_responses y) (sy_log y)).
Proof.
  intros Hok He r. pose proof (so_world _ Hok) as Hw. pose proof (so_connected _ Hok) as Hc.
  pose proof (client_step_ok _ _ (step_outbound _ k p q' v' Hc He) Hw) as Hw'.
  destruct (poll_unbounded _ _ _ _ _ _ (proj1 Hw) He) as (_ & _ & _ & Hp).
  assert (∀ (q : Shared W (RpcNotification Req)) v,
    notifications (mkWorld q v true r) ≡ₚ pending_values q v) as Hnp
    by (intros q v; unfold notifications; simpl; by rewrite pending_waiting).
  assert (notifications (sy_client y) ≡ₚ pending_values (w_queue (sy_client y)) (w_receiver (sy_client y))) as Hn0
    by (unfold notifications; by rewrite pending_waiting).
  pose proof (so_queue _ Hok) as Hq. pose proof (so_ids _ Hok) as Hids.
  rewrite (new_ids_Permutation _ _ Hn0) in Hids. rewrite Hn0 in Hq.
  assert (∀ r' : RpcCompletionReactor O W Res,
    notifications (mkWorld q' v' true r') = notifications (mkWorld q' v' true r)) as Hr' by done.
  destruct p as [[n|]|]; cycle 1.
  1, 2: rewrite app_nil_r; destruct Hp as (Hp & Hp' & _); split; simpl; try apply Hok; try done;
    [rewrite Hnp, Hp'; constructor|].
  1, 2: rewrite (new_ids_Permutation _ _ (Hnp _ _)), Hp'; rewrite Hp in Hids; exact Hids.
  rewrite Hp in Hq, Hids. apply Forall_cons in Hq as [Hn Hq]. destruct n as [[id x m]|id]; simpl in Hn |- *.
  - destruct Hn as (-> & Hcode & Hused & Hstr). split; simpl; try apply Hok; try done.
    + by rewrite Hr', Hnp.
    + apply Forall_app. split; [apply Hok|by constructor].
    + rewrite Hr', (new_ids_Permutation _ _ (Hnp _ _)), normal_ids_app.
      unfold normal_ids at 2. rewrite filter_cons, decide_True, filter_nil by done. simpl.
      change (new_ids (New _ :: ?ns)) with (message_id m :: new_ids ns) in Hids.
      eapply NoDup_Permutation_proper; [|exact Hids]. solve_Permutation.
    + intros id' x' Hx. apply lookup_insert_Some in Hx as [[<- <-]|[Hne Hx]].
      * left. exists m. split; [set_solver|]. by split_and!.
      * apply lookup_delete_Some in Hx as [_ Hx]. destruct (so_located _ Hok _ _ Hx) as [(m' & Hm & ?)|Hl].
        { left. exists m'. split; [apply elem_of_app; by left|done]. }
        by right.
  - split; simpl; try apply Hok; try done.
    + by rewrite Hr', Hnp.
    + apply Forall_app. split; [apply Hok|]. constructor; [|done]. by rewrite message_id_cancelled.
    + rewrite Hr', (new_ids_Permutation _ _ (Hnp _ _)), normal_ids_app.
      unfold normal_ids at 2. rewrite filter_cons, decide_False, filter_nil by (by rewrite control_code_cancelled).
      simpl. rewrite app_nil_r. exact Hids.
    + intros id' x' Hx. apply lookup_delete_Some in Hx as [_ Hx].
      destruct (so_located _ Hok _ _ Hx) as [(m' & Hm & ?)|Hl]; [|by right].
      left. exists m'. split; [apply elem_of_app; by left|done].
Qed.

(** The client hears a response. *)
Lemma system_hears_ok y m rest status r' :
  system_ok y → sy_responses y = m :: rest →
  completion_on_inbound (w_reactor (sy_client y)) m = Return (status, r') →
  system_ok (mkSystem (mkWorld (w_queue (sy_client y)) (w_receiver (sy_client y)) true r')
    (sy_requests y) (sy_server y) rest (sy_log y)).
Proof.
  intros Hok Hres He. pose proof (so_connected _ Hok) as Hc.
  pose proof (client_step_ok (K:=K) _ _ (step_inbound _ m status r' Hc He) (so_world _ Hok)) as Hw'.
  destruct (client_inbound_frame _ _ _ _ He) as (Hne & Heq & _).
  pose proof (so_responses _ Hok) as Hrs. rewrite Hres in Hrs. apply Forall_cons in Hrs as [_ Hrs].
  split; simpl; try apply Hok; try done. intros id x Hx.
  assert (rpc_registry (w_reactor (sy_client y)) !! id = Some x) as Hx0.
  { destruct (decide (id = message_id m)) as [->|Hid]; [by apply Heq|by rewrite <-Hne]. }
  destruct (so_located _ Hok _ _ Hx0) as [Hl|[Hl|[Hl|(m' & Hm' & Hid & Hstr)]]];
    [by left|by right; left|by right; right; left|].
  rewrite Hres in Hm'. apply elem_of_cons in Hm' as [->|Hm']; [|right; right; right; by exists m'].
  subst id. destruct (inbound_stays _ _ _ _ _ He Hx) as [Hcode Hs].
  exfalso. destruct (Hstr Hs) as [Hm|Hm]; rewrite Hm in Hcode;
    by rewrite ?control_code_ended, ?control_code_cancelled in Hcode.
Qed.

Context (Hservice : ∀ (v : V) m, streams m →
  match (new_rpc (F:=F) (S:=S) v m).1 with RpcUnary _ => False | _ => True end).

(** Where a request ends up: with an rpc, or rejected. *)
Lemma request_lands (used : list u64) s m :
  Forall (.∈ used) (rejections s) → message_id m ∈ used →
  let s' := (on_inbound s m).1.2 in
  Forall (.∈ used) (rejections s') ∧ (∀ id, id ∈ rejections s → id ∈ rejections s') ∧
  (∀ t, t ∈ tags s → t ∈ tags s') ∧
  (control_code m = Normal → message_id m ∈ rejections s' ∨
     ∃ u, (message_id m, u) ∈ tags s' ∧ (streams m → u = false)).
Proof.
  intros Hrj Hm s'. pose proof (inbound_tags s m) as Ht. cbv zeta in Ht. fold s' in Ht.
  destruct (control_code m); [|destruct Ht as [-> ->]; by split_and!..].
  destruct Ht as [(u & Hts & -> & Hu)|[-> ->]].
  - assert ((message_id m, u) ∈ tags s') as Hin by (rewrite Hts; by left).
    split_and!; [done|done|intros t Ht'; rewrite Hts; by right|]. intros _. right. exists u.
    split; [done|]. intros Hs. pose proof (Hservice (connection_server s) m Hs) as Hsv.
    by destruct (new_rpc (connection_server s) m).1.
  - split_and!; [|set_solver|done|left; set_solver]. apply Forall_app. split; [done|]. by constructor.
Qed.

(** The server hears a request. *)
Lemma system_request_ok y m rest :
  system_ok y → sy_requests y = m :: rest →
  system_ok (mkSystem (sy_client y) rest (on_inbound (sy_server y) m).1.2 (sy_responses y) (sy_log y)).
Proof.
  intros Hok Hreq.
  pose proof (so_requests _ Hok) as Hrq. rewrite Hreq in Hrq. apply Forall_cons in Hrq as [Hm Hrq].
  pose proof (so_ids _ Hok) as Hids. rewrite Hreq in Hids.
  change (m :: rest) with ([m] ++ rest) in Hids. rewrite normal_ids_app in Hids.
  pose proof (server_request (K:=K) (F:=F) (S:=S) (Res:=Res) (sy_server y) m) as Hstep.
  assert (ids_fresh (sy_server y) ([m] ++ rest)) as Hfresh.
  { unfold ids_fresh. rewrite normal_ids_app. by apply NoDup_app in Hids as (_ & _ & Hids). }
  pose proof (server_reachable_ok _ (so_server _ Hok)) as Hsub.
  destruct (server_step_fresh _ _ _ _ _ Hstep Hsub Hfresh) as [Hf1 _].
  pose proof (server_step_reachable _ _ _ _ Hstep (so_server _ Hok) Hf1) as Hr'.
  pose proof (server_step_ids _ _ _ _ Hstep Hsub) as Hsm.
  set (s' := (on_inbound (sy_server y) m).1.2) in *.
  assert (NoDup (new_ids (notifications (sy_client y)) ++ normal_ids rest ++ (tags s').*1)) as Hids'.
  { assert (new_ids (notifications (sy_client y)) ++ normal_ids rest ++ (tags s').*1
      ⊆+ new_ids (notifications (sy_client y)) ++ (normal_ids [m] ++ normal_ids rest) ++ (tags (sy_server y)).*1) as Hsub'.
    { etrans; [apply submseteq_skips_l, submseteq_skips_l, Hsm|]. apply Permutation_submseteq. solve_Permutation. }
    apply submseteq_Permutation in Hsub' as [l Hl]. rewrite Hl in Hids. by apply NoDup_app in Hids as [Hids _]. }
  assert (Forall (.∈ sy_used y) (tags s').*1) as Htags'.
  { rewrite Forall_forall. intros id Hid. pose proof (so_tags _ Hok) as Htg. rewrite Forall_forall in Htg.
    pose proof (elem_of_submseteq _ _ _ Hid Hsm) as Hin. apply elem_of_app in Hin as [Hin|Hin]; [|by apply Htg].
    unfold normal_ids in Hin. apply list_elem_of_fmap in Hin as (m' & -> & [_ Hm']%list_elem_of_filter).
    apply list_elem_of_singleton in Hm'. by subst m'. }
  destruct (request_lands (sy_used y) (sy_server y) m (so_rejections _ Hok) Hm) as (Hrej & Hrm & Htm & Hnew).
  fold s' in Hrej, Hrm, Htm, Hnew.
  split; simpl; try apply Hok; try done. intros id x Hx.
  destruct (so_located _ Hok _ _ Hx) as [(m' & Hm' & Hcode & Hid & Hs)|[(u & Hu & Hs)|[Hl|Hl]]].
  - rewrite Hreq in Hm'. apply elem_of_cons in Hm' as [->|Hm']; [|left; by exists m'].
    subst id. destruct (Hnew Hcode) as [Hr|(u & Hu & Hsu)]; [by right; right; left|].
    right; left. exists u. split; [done|]. intros Hst. by apply Hsu, Hs.
  - right; left. exists u. split; [by apply Htm|done].
  - right; right; left. by apply Hrm.
  - by right; right; right.
Qed.

(** The server answers. *)
Lemma system_answers_ok y k room p s' out :
  system_ok y → room < 2 ^ 64 →
  submitter_answers (F:=F) (S:=S) (sy_server y) k room = Return (p, s', out) →
  system_ok (mkSystem (sy_client y) (sy_requests y) s' (sy_responses y ++ out) (sy_log y)).
Proof.
  intros Hok Hroom He. pose proof (server_reachable_ok _ (so_server _ Hok)) as Hsub.
  pose proof (server_respond (Req:=Req) _ k room p s' out Hroom He) as Hstep.
  destruct (answers_spec _ _ _ _ _ _ Hsub Hroom He) as (sent & ms & -> & Hrej & Hsent & Hset & Htags).
  assert (server_reachable (K:=K) (Req:=Req) (Res:=Res) (F:=F) (S:=S) s') as Hr'.
  { eapply server_step_reachable; [exact Hstep|apply Hok|]. unfold ids_fresh. simpl.
    pose proof (so_ids _ Hok) as Hids. by apply NoDup_app in Hids as (_ & _ & (_ & _ & Hids)%NoDup_app). }
  pose proof (so_tags _ Hok) as Htg. pose proof (so_rejections _ Hok) as Hrj. rewrite Hrej in Hrj.
  apply Forall_app in Hrj as [Hrj Hsu]. rewrite Forall_forall in Htg.
  split; simpl; try apply Hok; try done.
  - pose proof (so_ids _ Hok) as Hids.
    assert (new_ids (notifications (sy_client y)) ++ normal_ids (sy_requests y) ++ (tags s').*1
      ⊆+ new_ids (notifications (sy_client y)) ++ normal_ids (sy_requests y) ++ (tags (sy_server y)).*1) as Hs
      by (by apply submseteq_skips_l, submseteq_skips_l).
    apply submseteq_Permutation in Hs as [l Hl]. rewrite Hl in Hids. by apply NoDup_app in Hids as [Hids _].
  - rewrite Forall_forall. intros id Hid. apply Htg. by eapply elem_of_submseteq.
  - apply Forall_app. split; [apply Hok|]. apply Forall_app. split.
    + apply Forall_fmap, Forall_forall. intros id Hid. simpl. rewrite message_id_cancelled.
      rewrite Forall_forall in Hsu. apply Hsu. set_solver.
    + eapply Forall_impl; [exact Hsent|]. intros m (id & Hid & Hm). rewrite (sent_by_id _ _ Hm). by apply Htg.
  - intros id x Hx. destruct (so_located _ Hok _ _ Hx) as [Hl|[(u & Hu & Hs)|[Hl|(m & Hm & Hid & Hs)]]].
    + by left.
    + destruct (Hset _ Hu) as [Hu'|(m & Hm & Hid & Ha)%Exists_exists]; [by right; left; exists u|].
      right; right; right. exists m. split; [simpl; rewrite !elem_of_app; by auto|]. split; [done|]. intros Hst. simpl in Ha.
      rewrite (Hs Hst) in Ha. by destruct Ha as [|Ha].
    + rewrite Hrej in Hl. apply elem_of_app in Hl as [Hl|Hl]; [by right; right; left|].
      right; right; right. exists (cancelled id). rewrite message_id_cancelled. split; [|by auto].
      apply elem_of_app. right. apply elem_of_app. left. apply list_elem_of_fmap_2. set_solver.
    + right; right; right. exists m. split; [apply elem_of_app; by left|done].
Qed.

Lemma system_step_ok y y' : system_step y y' → system_ok y → system_ok y'.
Proof.
  intros Hstep Hok. pose proof (so_world _ Hok) as Hw.
  destruct Hstep as [c m res q' r' Hc Hn Hf He|c m res q' r' Hc Hn Hf Hs He|heard w' Hs|got sent rest w' Hr Hs
    |got sent rest s' Hr Hs].
  - eapply system_called_ok; [done| |by eapply call_unary_effect|done..].
    eapply client_step_ok; [|exact Hw]. by eapply (step_send_unary (K:=K)).
  - eapply system_called_ok; [done| |by eapply call_streaming_effect|done..].
    eapply client_step_ok; [|exact Hw]. by eapply (step_send_streaming (K:=K)).
  - by apply system_caller_ok.
  - destruct Hs as [k p q' v' Hc He|m status r' Hc He].
    + pose proof (system_takes_ok y k p q' v' Hok He) as Ht. simpl in Hr. subst rest.
      by destruct p as [[n|]|].
    + rewrite app_nil_r. by eapply system_hears_ok.
  - destruct Hs as [m|k room p s' out Hroom He|k]; [rewrite app_nil_r; by apply system_request_ok|..];
      simpl in Hr; subst rest; [by eapply system_answers_ok|].
    rewrite app_nil_r. assert (server_reachable (K:=K) (Req:=Req) (Res:=Res) (F:=F) (S:=S)
      (reactor_poll (C:=unit) (B:=Res) (sy_server y) k).2) as Hr by (apply RpcReactor.reach_service, Hok).
    simpl in Hr |- *. destruct (service_poll (connection_server (sy_server y)) k).
    destruct Hok. by split.
Qed.

(** A new client has nothing to send. *)
Lemma notifications_new x v (q : Shared W (RpcNotification Req)) :
  channel = Return (x, v, q) → notifications (world_new (O:=O) (Res:=Res) q v) = [].
Proof.
  intros Hch. destruct (channel_new_inv (T:=RpcNotification Req) max_u64 8) as (x1 & v1 & q1 & Hch1 & _ & Hpv & _);
    [lia|done|].
  unfold channel, channel_with_concurrency in Hch. rewrite Hch1 in Hch. injection Hch as <- <- <-.
  apply Permutation_nil_r. unfold notifications. simpl. by rewrite <-pending_waiting, Hpv.
Qed.

Lemma system_reachable_ok y : system_reachable y → system_ok y.
Proof.
  induction 1 as [x v q service Hch|y y' _ IH Hstep]; [|by eapply system_step_ok].
  assert (client_reachable (K:=K) (world_new (O:=O) (Res:=Res) q v)) as Hw by (by eapply client_start).
  apply client_reachable_ok in Hw.
  pose proof (notifications_new x v q Hch) as Hns.
  assert (tags (submitter_new (F:=F) (S:=S) (Res:=Res) (P:=P) (W:=W) service) = []) as Hts
    by (unfold tags; simpl; by rewrite pool_contents_default).
  split; simpl; rewrite ?Hns, ?Hts; simpl; try done; try constructor.
Qed.
(** When nothing is on its way and the server has no rpc, nobody waits: every
    completion ever handed out has its response, or knows that none will come. *)
Lemma system_at_rest y :
  system_ok y → notifications (sy_client y) = [] → sy_requests y = [] → sy_responses y = [] →
  pool_contents (rpcs (sy_server y)) = [] → rejections (sy_server y) = [] →
  rpc_registry (w_reactor (sy_client y)) = ∅ ∧
  ∀ c cell, cells (w_reactor (sy_client y)) !! c = Some cell → ¬ RpcClients.cell_waits cell.
Proof.
  intros Hok Hqueue Hrequests Hresponses Hpool Hrejections.
  assert (rpc_registry (w_reactor (sy_client y)) = ∅) as Hreg.
  { apply map_empty. intros id. destruct (_ !! id) as [x|] eqn:Hx; [|done].
    destruct (so_located _ Hok _ _ Hx) as [(m & Hm & _)|[(u & Hu & _)|[Hl|(m & Hm & _)]]]; exfalso.
    - rewrite Hrequests in Hm. by apply not_elem_of_nil in Hm.
    - unfold tags in Hu. rewrite Hpool in Hu. by apply not_elem_of_nil in Hu.
    - rewrite Hrejections in Hl. by apply not_elem_of_nil in Hl.
    - rewrite Hresponses in Hm. by apply not_elem_of_nil in Hm. }
  split; [done|]. intros c cell Hc. destruct (so_world _ Hok) as [_ Hst].
  assert (in_flight (sy_client y) = []) as Hfl.
  { unfold in_flight, registered, queued. rewrite Hreg, map_to_list_empty. unfold notifications in Hqueue.
    by rewrite Hqueue. }
  rewrite Hfl in Hst. pose proof (so_closed _ _ Hst c cell Hc) as Hcl. simpl in Hcl.
  specialize (Hcl ltac:(apply not_elem_of_nil)). by destruct cell as [o|s v]; simpl in *; auto.
Qed.
End system.

(** ** The properties *)

Module Systems.

Section claims.
Context {O V K Req Res F S P W : Type}.
Context `{AtomicWaker W K} `{OneshotLaws O (result Res RpcError) K}.
Context `{!FutureOp F K Res} `{!StreamOp S K Res} `{!ConnectionService V K Req F S}.
Context `{MessageLaws Req} `{MessageLaws Res}.
Context `{FuturesUnorderedLaws P (RpcStream F S) (u64 * RpcStreamEvent Res) (list (AbortCell W))}.
Context (streams : Req → Prop).
Abbreviation Sys := (System O W Req Res V P).
Implicit Types y : Sys.

(** C8: no call is lost between a client and a server: whatever their order, after
    any calls with fresh ids, drops, cancellations, messages and polls, each
    completion that the client's reactor keeps is that of a call whose request is
    on its way, or that the server has in its pool or among its rejections, or
    whose answer is on its way back; the answer that ends a stream is an [End] or a
    [Cancel].  The server never has two rpcs with one id, as its reactor's theorems
    ask, and answers only ids that were called. *)
Theorem no_call_is_lost y
  (Hservice : ∀ (v : V) m, streams m →
    match (new_rpc (F:=F) (S:=S) v m).1 with RpcUnary _ => False | _ => True end)
  (Hreach : system_reachable (K:=K) (F:=F) (S:=S) streams y) :
  (∀ id x, rpc_registry (w_reactor (sy_client y)) !! id = Some x → located streams id x y) ∧
  server_reachable (K:=K) (Req:=Req) (Res:=Res) (F:=F) (S:=S) (sy_server y) ∧
  NoDup (normal_ids (sy_requests y) ++ (tags (sy_server y)).*1) ∧
  Forall (λ m, message_id m ∈ sy_used y) (sy_responses y).
Proof.
  pose proof (system_reachable_ok streams Hservice y Hreach) as Hok.
  pose proof (so_ids _ _ Hok) as Hids. apply NoDup_app in Hids as (_ & _ & Hids).
  split_and!; [intros id x; apply Hok|apply Hok|exact Hids|apply Hok].
Qed.

End claims.

(** ** Witnesses: a client of the echo service *)

Import WakerCell RpcClients RpcReactor.
Abbreviation EchoSystem := (System DemoSlot (option nat) Request Response unit (list EchoRpc)).

Definition wants_stream (m : Request) : Prop := req_response_behavior m = Stream.

Lemma echo_streams {K} (v : unit) (m : Request) :
  wants_stream m →
  match (new_rpc (K:=K) (F:=Response) (S:=list Response) v m).1 with RpcUnary _ => False | _ => True end.
Proof. unfold wants_stream. simpl. intros ->. by destruct (req_body m). Qed.

Definition echo_reachable : EchoSystem → Prop :=
  system_reachable (K:=nat) (F:=Response) (S:=list Response) wants_stream.

Definition echo_start : EchoSystem := mkSystem demo_world [] echo_new [] (mkLog [] []).

Definition echo_call : Request := echo_msg 7 [104; 105] ExampleService.Unary.

(** The steps of one call, run. *)
Definition do_call (y : EchoSystem) (m : Request) : EchoSystem :=
  match send_unary demo_client m (w_queue (sy_client y)) (w_reactor (sy_client y)) with
  | Return (_, q, r) =>
      mkSystem (mkWorld q (w_receiver (sy_client y)) (w_connected (sy_client y)) r)
        (sy_requests y) (sy_server y) (sy_responses y) (called_log y m)
  | _ => y
  end.

Definition do_take (y : EchoSystem) : EchoSystem :=
  match poll_next (w_queue (sy_client y)) (w_receiver (sy_client y)) 5%nat with
  | Return (p, q, v) =>
      let r := w_reactor (sy_client y) in
      mkSystem (mkWorld q v true
          match p with Ready (Some n) => (completion_on_outbound r n).2 | _ => r end)
        (sy_requests y ++ match p with Ready (Some n) => [(completion_on_outbound r n).1] | _ => [] end)
        (sy_server y) (sy_responses y) (sy_log y)
  | _ => y
  end.

Definition do_request (y : EchoSystem) : EchoSystem :=
  match sy_requests y with
  | m :: rest =>
      mkSystem (sy_client y) rest (echo_inbound (sy_server y) m).1.2 (sy_responses y ++ []) (sy_log y)
  | [] => y
  end.

Definition do_answer (y : EchoSystem) : EchoSystem :=
  match submitter_answers (F:=Response) (S:=list Response) (sy_server y) 6%nat 4 with
  | Return (_, s, out) => mkSystem (sy_client y) (sy_requests y) s (sy_responses y ++ out) (sy_log y)
  | _ => y
  end.

Definition do_hear (y : EchoSystem) : EchoSystem :=
  match sy_responses y with
  | m :: rest =>
      match completion_on_inbound (w_reactor (sy_client y)) m with
      | Return (_, r) =>
          mkSystem (mkWorld (w_queue (sy_client y)) (w_receiver (sy_client y)) true r)
            (sy_requests y ++ []) (sy_server y) rest (sy_log y)
      | _ => y
      end
  | [] => y
  end.

Definition echo_asked : EchoSystem := do_request (do_take (do_call echo_start echo_call)).
Definition echo_done : EchoSystem := do_hear (do_answer echo_asked).

Lemma echo_asked_reachable : echo_reachable echo_asked.
Proof.
  eapply system_next; [eapply system_next; [eapply system_next; [by apply (system_start _ (mkSender 0))|]|]|].
  - eapply (sys_call_unary _ _ demo_client echo_call); [done|done| |done]. apply not_elem_of_nil.
  - eapply (sys_client _ _ []); [done|].
    by eapply (client_takes _ 5%nat (Ready (Some (New (mkCompletableRpc 7 (RpcClient.Unary 0) echo_call))))).
  - eapply (sys_server _ _ [echo_call] []); [done|]. apply server_request.
Qed.

Lemma echo_done_reachable : echo_reachable echo_done.
Proof.
  eapply system_next; [eapply system_next; [exact echo_asked_reachable|]|].
  - eapply (sys_server _ _ []); [done|]. by eapply (server_respond _ 6%nat 4).
  - eapply (sys_client _ _ [_] []); [done|]. by eapply client_hears.
Qed.

Lemma no_call_is_lost_witness :
  rpc_registry (w_reactor (sy_client echo_asked)) !! 7 = Some (RpcClient.Unary 0) ∧
  located (F:=Response) (S:=list Response) wants_stream 7 (RpcClient.Unary 0) echo_asked.
Proof.
  destruct (no_call_is_lost wants_stream echo_asked echo_streams echo_asked_reachable) as (Hl & _).
  assert (rpc_registry (w_reactor (sy_client echo_asked)) !! 7 = Some (RpcClient.Unary 0)) as Hx
    by (vm_compute; reflexivity).
  split; [exact Hx|]. apply Hl. exact Hx.
Defined.

Lemma echo_done_at_rest :
  ∃ o, cells (w_reactor (sy_client echo_done)) = [OneshotCell o] ∧ fst o ≠ OsEmpty.
Proof.
  destruct (system_at_rest wants_stream echo_done
    (system_reachable_ok _ echo_streams _ echo_done_reachable)) as [_ Hw]; [reflexivity..|].
  eexists. split; [reflexivity|]. exact (Hw 0%nat _ eq_refl).
Qed.

(** ** A cancellation that comes too early *)

(** A streaming call whose completion is dropped at once. *)
Definition do_stream_and_drop (y : EchoSystem) (m : Request) : EchoSystem :=
  match send_streaming demo_client m (w_queue (sy_client y)) (w_reactor (sy_client y)) with
  | Return (Ok x, q, r) =>
      match streaming_drop x q with
      | Return q =>
          mkSystem (mkWorld q (w_receiver (sy_client y)) (w_connected (sy_client y)) r)
            (sy_requests y) (sy_server y) (sy_responses y) (log_hear [] (called_log y m))
      | _ => y
      end
  | _ => y
  end.

Definition echo_stream_call : Request := echo_msg 8 [104; 105] Stream.
Definition dropped_early : EchoSystem :=
  do_stream_and_drop (do_take (do_call echo_start echo_call)) echo_stream_call.
Definition overtaken : EchoSystem :=
  do_request (do_request (do_request (do_take (do_take dropped_early)))).

Lemma do_take_reachable y :
  echo_reachable y → w_connected (sy_client y) = true → echo_reachable (do_take y).
Proof.
  intros Hr Hc. unfold do_take. destruct (poll_next _ _ _) as [[[p q] v]| |] eqn:He; [|done..].
  eapply system_next; [exact Hr|]. by eapply (sys_client _ _ []); [|eapply client_takes].
Qed.

Lemma do_request_reachable y : echo_reachable y → echo_reachable (do_request y).
Proof.
  intros Hr. unfold do_request. destruct (sy_requests y) as [|m rest] eqn:He; [done|].
  eapply system_next; [exact Hr|]. eapply (sys_server _ _ [m]); [exact He|]. apply server_request.
Qed.

Lemma do_stream_and_drop_reachable y m :
  echo_reachable y → control_code m = Normal → message_id m < 2 ^ 64 → wants_stream m →
  message_id m ∉ sy_used y → echo_reachable (do_stream_and_drop y m).
Proof.
  intros Hr Hc Hw Hs Hf. unfold do_stream_and_drop.
  destruct (send_streaming _ _ _ _) as [[[[x|e] q] r]| |] eqn:He; [|done..].
  assert (cg_message_id (sc_guard x) = message_id m) as Hid.
  { unfold send_streaming in He. apply run_bind_Return in He as ([[sender receiver] s] & _ & He).
    apply run_bind_Return in He as ([[sent q1] r1] & Hs' & He).
    unfold send_message in Hs'. destruct (negb _); [by injection Hs' as <- _ _|].
    apply run_bind_Return in Hs' as ([g q2] & Hg & Hs'). unfold guard_new in Hg.
    apply run_bind_Return in Hg as ([g' q3] & _ & Hg). injection Hg as <- _.
    apply run_bind_Return in Hs' as ([[res q4] ks] & _ & Hs'). destruct res; [|by inv_run].
    injection Hs' as <- _ _. by injection He as <- _ _. }
  destruct (streaming_drop x q) as [q'| |] eqn:Hd; [|done..].
  set (y1 := mkSystem (mkWorld q (w_receiver (sy_client y)) (w_connected (sy_client y)) r)
    (sy_requests y) (sy_server y) (sy_responses y) (called_log y m) : EchoSystem).
  eapply (system_next _ y1).
  - eapply system_next; [exact Hr|]. by eapply (sys_call_streaming _ _ demo_client m).
  - apply (sys_caller _ y1 []), (caller_drop_streaming (sy_used y1) (sy_client y1) x q'); [rewrite Hid; by left|exact Hd].
Qed.

(** The cancellation of a dropped completion can overtake its request: the
    completion's guard sends it from a sender of its own, on another lane of the
    queue, and the connection takes the lanes in turn.  Here a stream is called and
    dropped, the server gets the [Cancel] of 8 before the request 8, and then has
    the stream in its pool with its flag down, the client keeps it registered, and
    nothing is left that could cancel it. *)
Theorem cancel_overtakes_its_request :
  echo_reachable overtaken ∧
  sy_requests (do_take (do_take dropped_early)) = [echo_call; cancelled 8; echo_stream_call] ∧
  sy_requests overtaken = [] ∧ notifications (sy_client overtaken) = [] ∧
  ∃ x c, rpcs (sy_server overtaken) !! 1%nat = Some x ∧ rs_id x = 8 ∧
    cell_aborted (flags (sy_server overtaken)) (rs_cell x) = false ∧
    rpc_registry (w_reactor (sy_client overtaken)) !! 8 = Some c.
Proof.
  assert (echo_reachable (do_take (do_call echo_start echo_call))) as Hr.
  { apply do_take_reachable; [|reflexivity]. eapply system_next; [by apply (system_start _ (mkSender 0))|].
    eapply (sys_call_unary _ _ demo_client echo_call); [done|done| |done]. apply not_elem_of_nil. }
  split.
  - do 3 apply do_request_reachable. do 2 (apply do_take_reachable; [|reflexivity]).
    apply do_stream_and_drop_reachable; [exact Hr|done..|].
    change (8 ∉ [7]). by intros ?%list_elem_of_singleton.
  - split; [reflexivity|]. split; [reflexivity|]. split; [reflexivity|].
    do 2 eexists. split; [vm_compute; reflexivity|]. split; [reflexivity|].
    split; vm_compute; reflexivity.
Qed.
End Systems.
