(* ===== verification/Progress.v ===== *)
(** * Calls are answered

    A client and a server that keep exchanging what they have come to rest, when
    the streams of the service end; and when its futures and streams do not pend,
    they can only stop when nobody waits for an answer.  The measure is what is on
    its way: notifications, then requests, then what the server has to say, then
    responses. *)

From Stdlib Require Import Relation_Operators Lexicographic_Product.
From S2P Require Import Prelude Spillway Encoding Connection RpcMessage ExampleService RpcServer RpcServerSpec.
From S2P Require Import RpcClient RpcClientSpec ClientConnection ServerConnection System.
Local Open Scope N_scope.
Local Open Scope run_scope.

(** ** What the server has to say *)

Section server_work.
Context {V K Req Res F S P W : Type}.
Context `{AtomicWaker W K} `{!FutureOp F K Res} `{!StreamOp S K Res} `{!ConnectionService V K Req F S}.
Context `{!Message Req} `{MessageLaws Res}.
Abbreviation Rpc := (RpcStream F S).
Context `{FuturesUnorderedLaws P Rpc (u64 * RpcStreamEvent Res) (list (AbortCell W))}.
Abbreviation Sub := (RpcSubmitter V P W).
Implicit Types s : Sub.
Implicit Types x : Rpc.

(** How many items a stream has left, at most. *)
Context (items : S → nat).

Definition finite_streams : Prop := ∀ (stream : S) (k : K),
  match poll_stream stream k with
  | (Ready (Some _), stream') => (items stream' < items stream)%nat
  | (_, stream') => (items stream' ≤ items stream)%nat
  end.

(** The messages that an rpc can still send: its items and its end, or its response. *)
Definition rpc_work x : nat :=
  match rs_kind x with
  | KindUnary _ => 1
  | KindStreaming stream => Datatypes.S (items stream)
  | KindDone => 0
  end.

Definition pool_work (xs : list Rpc) : nat := sum_list_with rpc_work xs.

Definition server_work s : nat :=
  (pool_work (pool_contents (rpcs s)) + length (rejections s))%nat.

Lemma pool_work_cons x xs : pool_work (x :: xs) = (rpc_work x + pool_work xs)%nat.
Proof. done. Qed.

#[local] Instance pool_work_proper : Proper ((≡ₚ) ==> (=)) pool_work.
Proof. intros xs ys Hp. unfold pool_work. by rewrite Hp. Qed.

Lemma pool_work_insert xs i x x' :
  xs !! i = Some x → (pool_work (<[i := x']> xs) + rpc_work x = pool_work xs + rpc_work x')%nat.
Proof.
  intros Hi. rewrite (insert_take_drop xs i x') by (by eapply lookup_lt_Some).
  pose proof (take_drop_middle xs i x Hi) as Hxs. rewrite <-Hxs at 3.
  unfold pool_work. rewrite !sum_list_with_app. simpl. lia.
Qed.

Lemma pool_work_delete xs i x :
  xs !! i = Some x → pool_work xs = (rpc_work x + pool_work (delete i xs))%nat.
Proof. intros Hi. rewrite <-pool_work_cons. by apply pool_work_proper, delete_Permutation. Qed.

Context (Hfinite : finite_streams).

(** A poll of an rpc uses up what it says. *)
Lemma rpc_poll_work (k : K) st x :
  let '(r, _, x') := rpc_poll_next k st x in
  match r with
  | Ready (Some _) => (rpc_work x' < rpc_work x)%nat
  | _ => (rpc_work x' ≤ rpc_work x)%nat
  end.
Proof.
  unfold rpc_poll_next, rpc_work. destruct (cell_aborted _ _).
  - destruct (rs_kind x) as [f|stream|] eqn:Hk; simpl; rewrite ?Hk; lia.
  - destruct (rs_kind x) as [f|stream|] eqn:Hk.
    + destruct (poll_future f k) as [[r|] f']; simpl; lia.
    + pose proof (Hfinite stream k) as Hs. destruct (poll_stream stream k) as [[[i|]|] stream']; simpl; lia.
    + by rewrite Hk.
Qed.

Lemma pool_polls_work (k : K) xs st r xs' st' :
  pool_polls (rpc_poll_next k) xs st r xs' st' →
  match r with
  | Ready (Some (Some _, x)) => (pool_work xs' + rpc_work x < pool_work xs)%nat
  | Ready (Some (None, x)) => (pool_work xs' + rpc_work x ≤ pool_work xs)%nat
  | _ => (pool_work xs' ≤ pool_work xs)%nat
  end.
Proof.
  induction 1 as [st|xs st Hne|xs i x st item st' x' Hi Hp|xs i x st st' x' r xs2 st2 Hi Hp _ IH]; [lia..| |].
  - pose proof (rpc_poll_work k st x) as Hw. rewrite Hp in Hw. rewrite (pool_work_delete _ _ _ Hi).
    destruct item; lia.
  - pose proof (rpc_poll_work k st x) as Hw. rewrite Hp in Hw.
    pose proof (pool_work_insert xs i x x' Hi) as Hx. destruct r as [[[[e|] y]|]|]; lia.
Qed.

Lemma pool_poll_work (k : K) (p : P) st :
  let '(r, p', _) := pool_poll_next (rpc_poll_next k) p st in
  match r with
  | Ready (Some (Some _, x)) => (pool_work (pool_contents p') + rpc_work x < pool_work (pool_contents p))%nat
  | _ => (pool_work (pool_contents p') ≤ pool_work (pool_contents p))%nat
  end.
Proof.
  pose proof (pool_poll_law (rpc_poll_next k) p st) as Hlaw.
  destruct (pool_poll_next _ p st) as [[r p'] st']. destruct Hlaw as (xs & xs' & Hxs & Hxs' & Hpolls).
  apply pool_polls_work in Hpolls. apply pool_work_proper in Hxs, Hxs'. destruct r as [[[[e|] x]|]|]; lia.
Qed.

Section loops.
Context {C B : Type} `{!Encoder C Res B}.
Implicit Types b : SendBudget C B.
Abbreviation room b := (N.to_nat (budget_remaining b)).

Lemma permit_room b p (m : Res) :
  reserve b = Some p → budget_remaining b < 2 ^ 64 →
  room b = Datatypes.S (room (permit_send p m)) ∧ budget_remaining (permit_send p m) < 2 ^ 64.
Proof. intros Hr Hw. destruct (reserve_Some b p m Hr Hw) as (_ & Hrem & Hpos). lia. Qed.

(** What is sent is no longer to be said. *)
Lemma send_rejections_work fuel s b produced s' b' n :
  budget_remaining b < 2 ^ 64 → send_rejections fuel s b produced = Return (s', b', n) →
  (room b + length (rejections s') ≤ room b' + length (rejections s))%nat ∧ rpcs s' = rpcs s ∧
  budget_remaining b' < 2 ^ 64.
Proof.
  revert s b produced. induction fuel as [|fuel IH]; intros s b produced Hw He; [done|].
  cbn [send_rejections] in He. destruct (rejections s) as [|id0 rej0] eqn:Hrej.
  { injection He as <- <- _. rewrite Hrej. split; [lia|done]. }
  destruct (reserve b) as [p|] eqn:Hr; [|injection He as <- <- _; rewrite Hrej; split; [lia|done]].
  destruct (vec_pop _) as [[id rest]|] eqn:Hv; [|injection He as <- <- _; rewrite Hrej; split; [lia|done]].
  apply vec_pop_Some in Hv. destruct (permit_room b p (cancelled id) Hr Hw) as [Hroom Hw'].
  destruct (IH _ _ _ Hw' He) as (Hle & Hp & Hw2). split; [|done].
  apply (f_equal length) in Hv. rewrite length_app in Hv. simpl in Hle, Hv |- *. lia.
Qed.

Lemma drain_work fuel s (k : K) b produced x z s' b' n x' :
  budget_remaining b < 2 ^ 64 → drain_rpc fuel s k b produced x = Return (z, s', b', n, x') →
  (room b + rpc_work x' ≤ room b' + rpc_work x)%nat ∧ rpcs s' = rpcs s ∧ rejections s' = rejections s ∧
  budget_remaining b' < 2 ^ 64.
Proof.
  revert s b produced x. induction fuel as [|fuel IH]; intros s b produced x Hw He; [done|].
  cbn [drain_rpc] in He. destruct (reserve b) as [p|] eqn:Hr; [|injection He as _ <- <- _ <-; by split_and!].
  pose proof (rpc_poll_work k (flags s) x) as Hx.
  destruct (rpc_poll_next k (flags s) x) as [[[[[id e]|]|] st] x1];
    [|injection He as _ <- <- _ <-; split_and!; [lia|done..]..].
  destruct (message_for_event_spec (set_pool s (rpcs s) st) id e) as [_ Hs2].
  destruct (message_for_event _ id e) as [m s2]. simpl in Hs2.
  assert (rpcs s2 = rpcs s ∧ rejections s2 = rejections s) as [Hp Hj] by (rewrite Hs2; by destruct (is_terminal e)).
  destruct (permit_room b p m Hr Hw) as [Hroom Hw']. destruct (is_terminal e).
  - injection He as _ <- <- _ <-. split_and!; [lia|done..].
  - destruct (IH _ _ _ _ Hw' He) as (Hle & Hp' & Hj' & Hw2). split_and!; [lia|congruence..|done].
Qed.

Lemma send_responses_work fuel s (k : K) b produced s' b' n :
  budget_remaining b < 2 ^ 64 → send_responses fuel s k b produced = Return (s', b', n) →
  (room b + pool_work (pool_contents (rpcs s')) ≤ room b' + pool_work (pool_contents (rpcs s)))%nat ∧
  rejections s' = rejections s.
Proof.
  revert s b produced. induction fuel as [|fuel IH]; intros s b produced Hw He; [done|].
  cbn [send_responses] in He. destruct (reserve b) as [p|] eqn:Hr; [|by injection He as <- <- _].
  pose proof (pool_poll_work k (rpcs s) (flags s)) as Hp.
  destruct (pool_poll_next _ (rpcs s) (flags s)) as [[[[[[[id e]|] x]|]|] pool] st]; cycle 1.
  { destruct (IH _ _ _ Hw He) as [Hle Hj]. split; [simpl in Hle; lia|done]. }
  1, 2: injection He as <- <- _; split; [simpl; lia|done].
  set (s1 := set_pool s pool st) in *. destruct (message_for_event_spec s1 id e) as [_ Hs2].
  destruct (message_for_event s1 id e) as [m s2]. simpl in Hs2.
  assert (rpcs s2 = pool ∧ rejections s2 = rejections s) as [Hp2 Hj2] by (rewrite Hs2; by destruct (is_terminal e)).
  destruct (permit_room b p m Hr Hw) as [Hroom Hw']. destruct (is_terminal e).
  - destruct (IH _ _ _ Hw' He) as [Hle Hj]. rewrite Hp2 in Hle. split; [lia|congruence].
  - apply run_bind_Return in He as ([[[[z s3] b3] n3] x3] & Hd & He).
    destruct (drain_work _ _ _ _ _ _ _ _ _ _ _ Hw' Hd) as (Hle1 & Hp3 & Hj3 & Hw3).
    destruct (IH _ _ _ Hw3 He) as [Hle Hj]. destruct z; simpl in Hle, Hj.
    + rewrite Hp3, Hp2 in Hle. split; [lia|congruence].
    + rewrite pool_contents_push, Hp3, Hp2, pool_work_cons in Hle. split; [lia|congruence].
Qed.
End loops.

Lemma answers_work s (k : K) room p s' out :
  room < 2 ^ 64 → submitter_answers (F:=F) (S:=S) s k room = Return (p, s', out) →
  (length out + server_work s' ≤ server_work s)%nat.
Proof.
  intros Hroom He. unfold submitter_answers in He.
  apply run_bind_Return in He as ([[p1 s1] b1] & He & Hout). injection Hout as -> -> Hout.
  unfold submitter_poll_outbound_many in He.
  apply run_bind_Return in He as ([[s2 b2] n2] & Hj & He).
  apply run_bind_Return in He as ([[s3 b3] n3] & Hp & He). injection He as _ Hs3 Hb3. subst s3 b3.
  destruct (send_rejections_uses _ _ _ _ _ _ _ Hj) as [ms1 Hu1].
  destruct (send_responses_uses _ _ _ _ _ _ _ _ Hp) as [ms2 Hu2].
  pose proof (budget_uses_app _ _ _ _ _ Hu1 Hu2) as Hu. apply budget_uses_spec in Hu as [Hlen Hb]; [|done].
  apply send_rejections_work in Hj as (Hle1 & Hr1 & Hw); [|done].
  apply send_responses_work in Hp as [Hle2 Hj2]; [|done].
  assert (budget_send_buffer b1 = ms1 ++ ms2) as Hms by (rewrite Hb; apply recorded_messages).
  rewrite <-Hout, Hms. rewrite Hb in Hle2. simpl in Hle2, Hlen. unfold server_work. rewrite Hj2.
  rewrite Hr1 in Hle2. simpl in Hle1. unfold len in *. lia.
Qed.
End server_work.

(** ** A server whose rpcs do not pend *)

#[local] Existing Instance recorder.

Section awake.
Context {V K Req Res F S P W : Type}.
Context `{AtomicWaker W K} `{!FutureOp F K Res} `{!StreamOp S K Res} `{!ConnectionService V K Req F S}.
Context `{!Message Req} `{MessageLaws Res}.
Abbreviation Rpc := (RpcStream F S).
Context `{FuturesUnorderedLaws P Rpc (u64 * RpcStreamEvent Res) (list (AbortCell W))}.
Context `{!FuturesUnorderedAwake P Rpc (u64 * RpcStreamEvent Res) (list (AbortCell W))}.
Abbreviation Sub := (RpcSubmitter V P W).
Implicit Types s : Sub.
Implicit Types x : Rpc.

Definition immediate : Prop :=
  (∀ (completion : F) (k : K), (poll_future completion k).1 ≠ Pending) ∧
  (∀ (stream : S) (k : K), (poll_stream stream k).1 ≠ Pending).

Context (Himmediate : immediate).

Lemma rpc_poll_ready (k : K) st x : (rpc_poll_next k st x).1.1 ≠ Pending.
Proof.
  destruct Himmediate as [Hf Hs]. unfold rpc_poll_next.
  destruct (cell_aborted _ _); [by destruct (is_done _)|]. destruct (rs_kind x) as [f|stream|]; [..|done].
  - specialize (Hf f k). by destruct (poll_future f k) as [[r|] f'].
  - specialize (Hs stream k). by destruct (poll_stream stream k) as [[[i|]|] stream'].
Qed.

Definition server_awake s : Prop := pool_awake (rpcs s).

Lemma pool_polls_nonempty {X E St} (poll_member : St → X → Poll (option E) * St * X) xs st xs' st' :
  pool_polls poll_member xs st (Ready None) xs' st' → xs = [].
Proof.
  remember (Ready None) as r eqn:Hr. induction 1 as [| | |xs i y st st' x' r xs2 st2 Hi _ _ IH]; try done.
  specialize (IH Hr). destruct xs; [done|]. by destruct i.
Qed.

Lemma message_for_event_rpcs s id (e : RpcStreamEvent Res) : rpcs (message_for_event s id e).2 = rpcs s.
Proof. by destruct e. Qed.

Lemma inbound_awake s (m : Req) : server_awake s → server_awake (on_inbound s m).1.2.
Proof.
  unfold server_awake, on_inbound. intros Ha. destruct (control_code m).
  - destruct (new_rpc (connection_server s) m) as [[f|stream|] v]; simpl; [by apply pool_awake_push..|done].
  - unfold take_abort. destruct (aborts s !! message_id m) as [h|]; [|done].
    by destruct (mark_aborted h _).
  - done.
Qed.

Section loops.
Context {C B : Type} `{!Encoder C Res B}.
Implicit Types b : SendBudget C B.

Lemma rejections_rpcs fuel s b produced s' b' n :
  send_rejections fuel s b produced = Return (s', b', n) → rpcs s' = rpcs s.
Proof.
  revert s b produced. induction fuel as [|fuel IH]; intros s b produced He; [done|].
  cbn [send_rejections] in He. destruct (rejections s); [by injection He as <- _ _|].
  destruct (reserve b); [|by injection He as <- _ _].
  destruct (vec_pop _) as [[id rest]|]; [|by injection He as <- _ _]. by apply IH in He.
Qed.

Lemma drain_rpcs fuel s (k : K) b produced x z s' b' n x' :
  drain_rpc fuel s k b produced x = Return (z, s', b', n, x') → rpcs s' = rpcs s.
Proof.
  revert s b produced x. induction fuel as [|fuel IH]; intros s b produced x He; [done|].
  cbn [drain_rpc] in He. destruct (reserve b); [|by injection He as _ <- _ _ _].
  destruct (rpc_poll_next k (flags s) x) as [[[[[id e]|]|] st] x1]; [|by injection He as _ <- _ _ _..].
  pose proof (message_for_event_rpcs (set_pool s (rpcs s) st) id e) as Hr.
  destruct (message_for_event _ id e) as [m s2]. simpl in Hr. destruct (is_terminal e).
  - by injection He as _ <- _ _ _.
  - apply IH in He. congruence.
Qed.

Lemma responses_awake fuel s (k : K) b produced s' b' n :
  server_awake s → send_responses fuel s k b produced = Return (s', b', n) → server_awake s'.
Proof.
  revert s b produced. induction fuel as [|fuel IH]; intros s b produced Ha He; [done|].
  cbn [send_responses] in He. destruct (reserve b); [|by injection He as <- _ _].
  pose proof (pool_awake_poll (rpc_poll_next k) (rpcs s) (flags s) Ha (rpc_poll_ready k)) as Hp.
  destruct (pool_poll_next _ (rpcs s) (flags s)) as [[r pool] st]. destruct Hp as [_ Ha'].
  destruct r as [[[[[id e]|] x]|]|]; [|by eapply IH in He|by injection He as <- _ _..].
  pose proof (message_for_event_rpcs (set_pool s pool st) id e) as Hr.
  destruct (message_for_event _ id e) as [m s2]. simpl in Hr.
  assert (server_awake s2) as Ha2 by (unfold server_awake; by rewrite Hr).
  destruct (is_terminal e); [by eapply IH|].
  apply run_bind_Return in He as ([[[[z s3] b3] n3] x3] & Hd & He). apply drain_rpcs in Hd.
  eapply IH; [|exact He]. unfold server_awake. destruct z; simpl; rewrite Hd; [|apply pool_awake_push];
    exact Ha2.
Qed.

(** With room, an awake pool that is not empty has something to send. *)
Lemma responses_some fuel s (k : K) b produced s' b' n :
  sub_ok s → server_awake s → pool_contents (rpcs s) ≠ [] → 0 < budget_remaining b < 2 ^ 64 →
  send_responses fuel s k b produced = Return (s', b', n) → budget_remaining b' < budget_remaining b.
Proof.
  intros Hok Ha Hne Hroom He. destruct fuel as [|fuel]; [done|]. cbn [send_responses] in He.
  destruct (reserve b) as [p|] eqn:Hr.
  2: { unfold reserve in Hr. destruct (N.eqb_spec (budget_remaining b) 0); [lia|done]. }
  pose proof (pool_awake_poll (rpc_poll_next k) (rpcs s) (flags s) Ha (rpc_poll_ready k)) as Hp.
  destruct (pool_poll_next _ (rpcs s) (flags s)) as [[r pool] st] eqn:Hpoll. destruct Hp as [Hready _].
  pose proof (pool_turn s k b r pool st Hok Hpoll) as Hturn. cbv zeta in Hturn.
  destruct r as [[[first x]|]|]; [|exfalso|done].
  - destruct Hturn as (e & u & -> & _). destruct (message_for_event _ (rs_id x) e) as [m s2].
    destruct (reserve_Some b p m Hr ltac:(lia)) as (_ & Hrem & Hpos).
    assert (∀ b2 ms, budget_uses (permit_send p m) ms b2 → budget_remaining b2 < budget_remaining b) as Hless.
    { intros b2 ms Hu. apply budget_uses_spec in Hu as [_ ->]; simpl; lia. }
    destruct (is_terminal e).
    + apply send_responses_uses in He as [ms Hu]. by eapply Hless.
    + apply run_bind_Return in He as ([[[[z s3] b3] n3] x3] & Hd & He).
      apply drain_rpc_uses in Hd as [ms1 Hu1]. apply send_responses_uses in He as [ms2 Hu2].
      eapply Hless, budget_uses_app; [exact Hu1|exact Hu2].
  - pose proof (pool_poll_law (rpc_poll_next k) (rpcs s) (flags s)) as Hlaw. rewrite Hpoll in Hlaw.
    destruct Hlaw as (xs & xs' & Hxs & _ & Hpolls).
    destruct xs as [|y xs]; [by apply Permutation_nil_r in Hxs|].
    by apply pool_polls_nonempty in Hpolls.
Qed.
End loops.

Lemma answers_awake s (k : K) room p s' out :
  server_awake s → submitter_answers (F:=F) (S:=S) s k room = Return (p, s', out) → server_awake s'.
Proof.
  intros Ha He. unfold submitter_answers in He.
  apply run_bind_Return in He as ([[p1 s1] b1] & He & Hout). injection Hout as _ <- _.
  unfold submitter_poll_outbound_many in He.
  apply run_bind_Return in He as ([[s2 b2] n2] & Hj & He).
  apply run_bind_Return in He as ([[s3 b3] n3] & Hp & He). injection He as _ <- _.
  apply rejections_rpcs in Hj. refine (responses_awake _ _ k _ _ _ _ _ _ Hp).
  unfold server_awake. by rewrite Hj.
Qed.

Lemma server_io_awake s i o s' :
  server_io (K:=K) (Req:=Req) (F:=F) (S:=S) s i o s' → server_awake s → server_awake s'.
Proof.
  intros [m|k room p s2 out _ He|k] Ha; [by apply inbound_awake|by eapply answers_awake|].
  simpl. by destruct (service_poll _ k).
Qed.

(** An answer goes out as long as there is an rpc, or a rejection. *)
Lemma answers_some s (k : K) room :
  sub_ok s → server_awake s → 0 < room < 2 ^ 64 → (rejections s ≠ [] ∨ pool_contents (rpcs s) ≠ []) →
  ∃ p s' out, submitter_answers (F:=F) (S:=S) s k room = Return (p, s', out) ∧ out ≠ [].
Proof.
  intros Hok Ha Hroom Hne.
  destruct (submitter_poll_outbound_spec s k (mkSendBudget (B:=Res) tt [] room) Hok (proj2 Hroom))
    as (rest & sent & a & pl & st & b' & ms & He & Hu & _ & Hrej & _ & _ & _ & Hend).
  apply budget_uses_spec in Hu as [Hlen Hb]; [|exact (proj2 Hroom)]. 
  unfold submitter_answers. rewrite He. cbn [run_bind]. do 3 eexists. split; [reflexivity|].
  assert (budget_send_buffer b' = (cancelled <$> sent) ++ ms) as -> by (rewrite Hb; apply recorded_messages).
  intros [Hs ->]%app_eq_nil. apply fmap_nil_inv in Hs as ->. rewrite app_nil_r in Hrej.
  destruct (rejections s) as [|id rej] eqn:Hj.
  - destruct Hne as [Hne|Hne]; [done|]. unfold submitter_poll_outbound_many in He. rewrite Hj in He.
    cbn [length send_rejections run_bind] in He. rewrite Hj in He. cbn [run_bind] in He.
    apply run_bind_Return in He as ([[s3 b3] n3] & Hp & He). injection He as _ _ <-.
    apply responses_some in Hp; [|done..]. rewrite Hb in Hp. unfold len in Hp. simpl in Hp. lia.
  - subst rest. destruct Hend as [Hend|[_ Hz]]; [done|]. rewrite Hb in Hz. unfold len in Hz. simpl in Hz. lia.
Qed.
End awake.

(** ** The system *)

Section progress.
Context {O V K Req Res F S P W : Type}.
Context `{AtomicWaker W K} `{OneshotLaws O (result Res RpcError) K}.
Context `{!FutureOp F K Res} `{!StreamOp S K Res} `{!ConnectionService V K Req F S}.
Context `{MessageLaws Req} `{MessageLaws Res}.
Context `{FuturesUnorderedLaws P (RpcStream F S) (u64 * RpcStreamEvent Res) (list (AbortCell W))}.
Abbreviation Sys := (System O W Req Res V P).
Abbreviation ServerIo := (server_io (K:=K) (Req:=Req) (Res:=Res) (F:=F) (S:=S)).
Abbreviation ClientIo := (client_io (O:=O) (W:=W) (K:=K) (Req:=Req) (Res:=Res)).
Implicit Types y : Sys.

(** The steps of the client and of the server in which something is taken or sent. *)
Inductive message_moves y : Sys → Prop :=
| moves_client got sent rest w' :
    sy_responses y = got ++ rest → ClientIo (sy_client y) got sent w' → (got ≠ [] ∨ sent ≠ []) →
    message_moves y (mkSystem w' (sy_requests y ++ sent) (sy_server y) rest (sy_log y))
| moves_server got sent rest s' :
    sy_requests y = got ++ rest → ServerIo (sy_server y) got sent s' → (got ≠ [] ∨ sent ≠ []) →
    message_moves y (mkSystem (sy_client y) rest s' (sy_responses y ++ sent) (sy_log y)).

Lemma moves_step (streams : Req → Prop) y y' :
  message_moves y y' → system_step (K:=K) (F:=F) (S:=S) streams y y'.
Proof. intros [got sent rest w' Hr Hs _|got sent rest s' Hr Hs _]; [by eapply sys_client|by eapply sys_server]. Qed.

(** Nothing is on its way, and the server has no rpc. *)
Definition quiet y : Prop :=
  notifications (sy_client y) = [] ∧ sy_requests y = [] ∧ sy_responses y = [] ∧
  pool_contents (rpcs (sy_server y)) = [] ∧ rejections (sy_server y) = [].

#[export] Instance quiet_dec y : Decision (quiet y).
Proof. unfold quiet. repeat apply and_dec; apply list_eq_nil_dec. Defined.

(** *** Messages do not move for ever *)

Section measure.
Context (items : S → nat) (Hfinite : finite_streams (K:=K) (Res:=Res) items).

Definition rank y : (nat * nat) * (nat * nat) :=
  ((length (notifications (sy_client y)), length (sy_requests y)),
   (server_work items (sy_server y), length (sy_responses y))).

Definition rank_lt : relation ((nat * nat) * (nat * nat)) :=
  slexprod _ _ (slexprod _ _ lt lt) (slexprod _ _ lt lt).

Lemma rank_lt_wf : well_founded rank_lt.
Proof. by repeat apply wf_slexprod; apply lt_wf. Qed.

Lemma moves_rank y y' : world_ok (sy_client y) → message_moves y y' → rank_lt (rank y') (rank y).
Proof.
  intros Hw Hmove. unfold rank, rank_lt. destruct Hmove as [got sent rest w' Hr Hs Hm|got sent rest s' Hr Hs Hm];
    [destruct Hs as [k p q' v' _ He|m status r' _ He]|destruct Hs as [m|k room p s2 out Hroom He|k]]; simpl.
  - left. left. destruct (poll_unbounded _ _ _ _ _ _ (proj1 Hw) He) as (_ & _ & _ & Hp).
    destruct p as [[n|]|]; [|by destruct Hm..]. unfold notifications. simpl.
    rewrite <-!pending_waiting, Hp. simpl. lia.
  - rewrite app_nil_r, Hr. right. right. simpl. lia.
  - left. right. rewrite Hr. simpl. lia.
  - destruct Hm as [Hm|Hm]; [done|]. simpl in Hr. subst rest. right. left.
    pose proof (answers_work items Hfinite _ k room p s2 out Hroom He) as Hle.
    destruct out; [done|]. simpl in Hle. lia.
  - by destruct Hm.
Qed.

Lemma moves_terminate (streams : Req → Prop) y :
  (∀ (v : V) m, streams m → match (new_rpc (F:=F) (S:=S) v m).1 with RpcUnary _ => False | _ => True end) →
  system_ok (K:=K) (F:=F) (S:=S) streams y → Acc (λ y2 y1, message_moves y1 y2) y.
Proof.
  intros Hservice. remember (rank y) as r eqn:Hr. revert y Hr.
  induction (rank_lt_wf r) as [r _ IH]. intros y -> Hok. constructor. intros y' Hm.
  eapply IH; [|reflexivity|].
  - by apply moves_rank; [apply Hok|].
  - eapply system_step_ok; [done| |exact Hok]. by apply moves_step.
Qed.
End measure.

(** *** Messages move until it is quiet *)

Context `{!FuturesUnorderedAwake P (RpcStream F S) (u64 * RpcStreamEvent Res) (list (AbortCell W))}.
Context (Himmediate : immediate (F:=F) (S:=S) (K:=K) (Res:=Res)) (streams : Req → Prop).

Lemma system_awake y : system_reachable (K:=K) (F:=F) (S:=S) streams y → server_awake (sy_server y).
Proof.
  induction 1 as [x v q service Hch|y y' _ IH Hstep]; [apply pool_awake_default|].
  destruct Hstep as [| | |got sent rest w' _ _|got sent rest s' _ Hs]; try exact IH.
  by eapply server_io_awake.
Qed.

Lemma moves_unless_quiet y (k : K) :
  system_ok (K:=K) (F:=F) (S:=S) streams y → server_awake (sy_server y) →
  quiet y ∨ ∃ y', message_moves y y'.
Proof.
  intros Hok Ha. pose proof (so_world _ _ Hok) as Hw. pose proof (so_connected _ _ Hok) as Hc.
  destruct (decide (notifications (sy_client y) = [])) as [Hn|Hn]; cycle 1.
  { right. destruct (poll_next_spec _ _ k (inv_ok _ _ (proj1 (proj1 Hw)))) as (p & q' & v' & He & _).
    destruct (poll_unbounded _ _ _ _ _ _ (proj1 Hw) He) as (_ & _ & _ & Hp).
    assert (pending_values (w_queue (sy_client y)) (w_receiver (sy_client y)) ≠ []) as Hpv.
    { intros Hpv. apply Hn. unfold notifications. apply Permutation_nil_r. by rewrite <-pending_waiting, Hpv. }
    destruct p as [[n|]|]; [|by destruct Hp..].
    eexists. eapply (moves_client _ []); [done|exact (client_takes _ k _ q' v' Hc He)|by right]. }
  destruct (sy_requests y) as [|m rest] eqn:Hreq; cycle 1.
  { right. eexists. eapply (moves_server _ [m]); [exact Hreq|apply server_request|by left]. }
  assert (rejections (sy_server y) ≠ [] ∨ pool_contents (rpcs (sy_server y)) ≠ [] → ∃ y', message_moves y y') as Hs.
  { intros Hne. destruct (answers_some Himmediate (sy_server y) k 1) as (p & s' & out & He & Hout); try done.
    - apply server_reachable_ok, (so_server _ _ Hok).
    - eexists. eapply (moves_server _ []); [done|exact (server_respond _ k 1 p s' out eq_refl He)|by right]. }
  destruct (decide (rejections (sy_server y) = [])) as [Hj|Hj]; [|by right; apply Hs; left].
  destruct (decide (pool_contents (rpcs (sy_server y)) = [])) as [Hp|Hp]; [|by right; apply Hs; right].
  destruct (sy_responses y) as [|m rest] eqn:Hres; [by left|]. right.
  destruct (client_inbound_total (w_reactor (sy_client y)) m (queued (w_queue (sy_client y)) (w_receiver (sy_client y)))) as [r' He]; [apply Hw|].
  eexists. eapply (moves_client _ [m]); [exact Hres|exact (client_hears _ m _ r' Hc He)|by left].
Qed.

Lemma moves_reachable y y' :
  system_reachable (K:=K) (F:=F) (S:=S) streams y → rtc message_moves y y' →
  system_reachable (K:=K) (F:=F) (S:=S) streams y'.
Proof.
  intros Hr Hm. induction Hm as [y|y y1 y' Hm _ IH]; [done|]. apply IH. eapply system_next; [exact Hr|].
  by apply moves_step.
Qed.

(** From wherever a client and its server have got to, they come to rest. *)
Lemma moves_to_quiet (items : S → nat) y (k : K) :
  finite_streams (K:=K) (Res:=Res) items →
  (∀ (v : V) m, streams m → match (new_rpc (F:=F) (S:=S) v m).1 with RpcUnary _ => False | _ => True end) →
  system_reachable (K:=K) (F:=F) (S:=S) streams y → ∃ y', rtc message_moves y y' ∧ quiet y'.
Proof.
  intros Hfinite Hservice Hr. pose proof (system_reachable_ok streams Hservice y Hr) as Hok.
  induction (moves_terminate items Hfinite streams y Hservice Hok) as [y _ IH].
  destruct (moves_unless_quiet y k Hok (system_awake y Hr)) as [Hq|[y1 Hm]]; [by exists y|].
  pose proof (system_next _ _ _ Hr (moves_step streams _ _ Hm)) as Hr1.
  destruct (IH y1 Hm Hr1 (system_reachable_ok streams Hservice y1 Hr1)) as (y' & Hrun & Hq).
  exists y'. split; [by eapply rtc_l|done].
Qed.

Lemma moves_log y y' : rtc message_moves y y' → sy_log y' = sy_log y.
Proof. induction 1 as [|y y1 y' [] _ IH]; [done|exact IH..]. Qed.
End progress.

Module Progresses.

Section claims.
Context {O V K Req Res F S P W : Type}.
Context `{AtomicWaker W K} `{OneshotLaws O (result Res RpcError) K}.
Context `{!FutureOp F K Res} `{!StreamOp S K Res} `{!ConnectionService V K Req F S}.
Context `{MessageLaws Req} `{MessageLaws Res}.
Context `{FuturesUnorderedLaws P (RpcStream F S) (u64 * RpcStreamEvent Res) (list (AbortCell W))}.
Context `{!FuturesUnorderedAwake P (RpcStream F S) (u64 * RpcStreamEvent Res) (list (AbortCell W))}.
Context (streams : Req → Prop).
Abbreviation Sys := (System O W Req Res V P).
Abbreviation Moves := (message_moves (O:=O) (V:=V) (K:=K) (Req:=Req) (Res:=Res) (F:=F) (S:=S) (P:=P) (W:=W)).
Implicit Types y : Sys.

(** No rpc is registered, and each completion that was handed out has its response,
    or knows that none will come. *)
Definition nobody_waits y : Prop :=
  rpc_registry (w_reactor (sy_client y)) = ∅ ∧
  ∀ c cell, cells (w_reactor (sy_client y)) !! c = Some cell → ¬ RpcClients.cell_waits cell.

(** C7: calls are answered: when the streams of a service end, a client and its
    server exchange only finitely many messages, in whatever order they run, until
    there is a new call; and when the service's futures and streams do not pend,
    wherever the two have got to, either one of them can still take or send a
    message, or nothing is on its way, no rpc is left and no caller waits.  So each
    call there was gets its answer. *)
Theorem busy_systems_come_to_rest y (k : K) (items : S → nat)
  (Hservice : ∀ (v : V) m, streams m →
    match (new_rpc (F:=F) (S:=S) v m).1 with RpcUnary _ => False | _ => True end)
  (Hfinite : finite_streams (K:=K) (Res:=Res) items)
  (Hreach : system_reachable (K:=K) (F:=F) (S:=S) streams y) :
  Acc (λ y2 y1, Moves y1 y2) y ∧
  (immediate (F:=F) (S:=S) (K:=K) (Res:=Res) →
   (∀ y', rtc Moves y y' → (∃ y2, Moves y' y2) ∨ (quiet y' ∧ nobody_waits y')) ∧
   ∃ y', rtc Moves y y' ∧ quiet y' ∧ nobody_waits y' ∧ sy_log y' = sy_log y).
Proof.
  pose proof (system_reachable_ok streams Hservice y Hreach) as Hok.
  pose proof (moves_terminate items Hfinite streams y Hservice Hok) as Hacc.
  split; [exact Hacc|]. intros Himm.
  assert (∀ y', rtc Moves y y' → (∃ y2, Moves y' y2) ∨ (quiet y' ∧ nobody_waits y')) as Hgo.
  { intros y' Hm. pose proof (moves_reachable streams _ _ Hreach Hm) as Hr'.
    pose proof (system_reachable_ok streams Hservice y' Hr') as Hok'.
    destruct (moves_unless_quiet Himm streams y' k Hok' (system_awake Himm streams y' Hr')) as [Hq|Hq]; [right|by left].
    split; [exact Hq|]. destruct Hq as (? & ? & ? & ? & ?). by eapply system_at_rest. }
  split; [exact Hgo|].
  destruct (moves_to_quiet Himm streams items y k Hfinite Hservice Hreach) as (y' & Hm & Hq).
  exists y'. split; [done|]. split; [done|]. split; [|by eapply moves_log].
  pose proof (system_reachable_ok streams Hservice y' (moves_reachable streams _ _ Hreach Hm)) as Hok'.
  destruct Hq as (? & ? & ? & ? & ?). by eapply system_at_rest.
Qed.
End claims.

(** ** Witness: a client of the echo service *)

Import Systems.

Lemma echo_finite : finite_streams (K:=nat) (Res:=Response) (length (A:=Response)).
Proof. intros [|item stream] k; simpl; lia. Qed.

Lemma echo_immediate : immediate (F:=Response) (S:=list Response) (K:=nat) (Res:=Response).
Proof. split; [done|]. by intros [|item stream] k. Qed.

Lemma busy_systems_come_to_rest_witness :
  ¬ quiet echo_asked ∧ ∃ y : EchoSystem, quiet y ∧ nobody_waits (K:=nat) y ∧ sy_log y = sy_log echo_asked.
Proof.
  destruct (busy_systems_come_to_rest wants_stream echo_asked 5%nat length echo_streams echo_finite
    echo_asked_reachable) as [_ Hgo].
  destruct (Hgo echo_immediate) as [_ (y & _ & Hq & Hw & Hl)]. split; [|by exists y].
  intros (_ & _ & _ & Hp & _). vm_compute in Hp. discriminate Hp.
Defined.
End Progresses.
