(* ===== verification/ServiceHistory.v ===== *)
(** * Callers hear what the service says, in its order

    [ServiceContent] is about single messages.  This file is about what is said
    under one id from first to last: the responses that a future or a stream of the
    service gives come through the submitter ([RpcServer]), the network and the
    client's reactor ([RpcClient]) to the caller of that id whole and in order.
    The services are a parameter: what they can say is a class. *)

From S2P Require Import Prelude Spillway Encoding Connection ConnectionSpec RpcMessage ExampleService.
From S2P Require Import RpcServer RpcServerSpec RpcClient RpcClientSpec ServerConnection System.
Local Open Scope N_scope.
Local Open Scope run_scope.

(** What a service says under an id, as lists of responses that carry the id: what
    futures say, and what streams say that have already said [l]. *)
Class ServiceHistory (F S K Res : Type) `{FutureOp F K Res} `{StreamOp S K Res} `{Message Res} := {
  may_say : u64 → list Res → Prop;
  future_says : u64 → F → Prop;
  stream_says : u64 → list Res → S → Prop;
  may_say_nothing id : may_say id [];
  future_says_law id f k :
    future_says id f →
    match poll_future f k with
    | (Ready r, _) => control_code (set_message_id r id) = Normal ∧ may_say id [set_message_id r id]
    | (Pending, f') => future_says id f'
    end;
  stream_says_law id l x k :
    stream_says id l x →
    match poll_stream x k with
    | (Ready (Some r), x') =>
        control_code (set_message_id r id) = Normal ∧
        may_say id (l ++ [set_message_id r id]) ∧ stream_says id (l ++ [set_message_id r id]) x'
    | (Ready None, _) => True
    | (Pending, x') => stream_says id l x'
    end;
}.

(** ** Histories *)

Section histories.
Context {Res : Type} `{MessageLaws Res}.
Implicit Types ms : list Res.
Implicit Types h : u64 → list Res.

(** The responses under an id. *)
Definition spoken (id : u64) ms : list Res :=
  filter (λ m, control_code m = Normal ∧ message_id m = id) ms.

Definition extend h ms : u64 → list Res := λ id, h id ++ spoken id ms.

Lemma spoken_app id ms ms' : spoken id (ms ++ ms') = spoken id ms ++ spoken id ms'.
Proof. apply filter_app. Qed.

Lemma extend_app h ms ms' id : extend h (ms ++ ms') id = extend (extend h ms) ms' id.
Proof. unfold extend. by rewrite spoken_app, app_assoc. Qed.

Lemma extend_nil h id : extend h [] id = h id.
Proof. apply app_nil_r. Qed.

Lemma spoken_cons id m ms :
  spoken id (m :: ms) =
  (if decide (control_code m = Normal ∧ message_id m = id) then [m] else []) ++ spoken id ms.
Proof. unfold spoken. rewrite filter_cons. by destruct (decide _). Qed.

Lemma spoken_other id m ms : message_id m ≠ id → spoken id (m :: ms) = spoken id ms.
Proof. intros Hm. rewrite spoken_cons, decide_False; [done|]. by intros [_ ?]. Qed.

Lemma spoken_control id m ms : control_code m ≠ Normal → spoken id (m :: ms) = spoken id ms.
Proof. intros Hm. rewrite spoken_cons, decide_False; [done|]. by intros [? _]. Qed.

Lemma spoken_own m ms : control_code m = Normal → spoken (message_id m) (m :: ms) = m :: spoken (message_id m) ms.
Proof. intros Hm. by rewrite spoken_cons, decide_True. Qed.

Lemma spoken_none id ms : Forall (λ m, message_id m ≠ id) ms → spoken id ms = [].
Proof. induction 1 as [|m ms Hm _ IH]; [done|]. by rewrite spoken_other. Qed.
End histories.

(** ** The submitter *)

Section server.
Context {V K Req Res F S P W C B : Type}.
Context `{AtomicWaker W K} `{FutureOp F K Res} `{StreamOp S K Res} `{MessageLaws Res} `{!ServiceHistory F S K Res}.
Context `{ConnectionService V K Req F S} `{!Message Req}.
Context `{FuturesUnorderedLaws P (RpcStream F S) (u64 * RpcStreamEvent Res) (list (AbortCell W))}.
Context `{!Encoder C Res B}.
Abbreviation Sub := (RpcSubmitter V P W).
Abbreviation Rpc := (RpcStream F S).
Implicit Types s : Sub.
Implicit Types b : SendBudget C B.
Implicit Types h : u64 → list Res.
Implicit Types l : list Res.
Implicit Types x : Rpc.
Implicit Types xs : list Rpc.

(** What a request may start. *)
Definition kind_says (id : u64) (kind : RpcKind F S) : Prop :=
  match kind with
  | RpcUnary f => future_says id f
  | RpcStreaming y => stream_says id [] y
  | RpcCancelled => True
  end.

(** An rpc that has said [l], pooled rpcs that have said [h], and histories that
    the service may give. *)
Definition rpc_says l x : Prop :=
  match rs_kind x with
  | KindUnary f => l = [] ∧ future_says (rs_id x) f
  | KindStreaming y => stream_says (rs_id x) l y
  | KindDone => True
  end.

Definition pool_says h xs : Prop := Forall (λ x, rpc_says (h (rs_id x)) x) xs.

Definition histories_ok h : Prop := ∀ id, may_say (F:=F) (S:=S) (K:=K) id (h id).

Lemma pool_says_ext h h' xs : (∀ x, x ∈ xs → h (rs_id x) = h' (rs_id x)) → pool_says h xs → pool_says h' xs.
Proof.
  intros He Hs. unfold pool_says in *. rewrite Forall_forall in *. intros x Hx.
  rewrite <-He by done. by apply Hs.
Qed.

Lemma histories_ext h h' : (∀ id, h id = h' id) → histories_ok h → histories_ok h'.
Proof. intros He Hh id. rewrite <-He. apply Hh. Qed.

(** One poll of an rpc. *)
Lemma rpc_poll_says k st x l :
  rpc_says l x → may_say (F:=F) (S:=S) (K:=K) (rs_id x) l →
  let '(r, _, x') := rpc_poll_next k st x in
  rs_id x' = rs_id x ∧
  match r with
  | Ready (Some (id, e)) =>
      let l' := l ++ spoken id [event_message id e] in
      id = rs_id x ∧ may_say (F:=F) (S:=S) (K:=K) id l' ∧ rpc_says l' x'
  | _ => rpc_says l x'
  end.
Proof.
  intros Hx Hl. unfold rpc_poll_next, rpc_says in *. destruct (cell_aborted _ _).
  { destruct (is_done (rs_kind x)) eqn:Hd; [by destruct (rs_kind x)|].
    cbn [event_message]. rewrite spoken_control by (by rewrite control_code_cancelled). by rewrite app_nil_r. }
  destruct (rs_kind x) as [f|y|] eqn:Hk; simpl.
  - destruct Hx as [-> Hf]. pose proof (future_says_law (rs_id x) f k Hf) as Hlaw.
    destruct (poll_future f k) as [[r|] f']; simpl; [|done]. destruct Hlaw as [Hc Hm].
    split; [done|]. split; [done|]. rewrite spoken_cons, decide_True; [done|].
    by rewrite message_id_set.
  - pose proof (stream_says_law (rs_id x) l y k Hx) as Hlaw.
    destruct (poll_stream y k) as [[[r|]|] y']; simpl; [| |done].
    + destruct Hlaw as (Hc & Hm & Hy). split; [done|]. split; [done|].
      rewrite spoken_cons, decide_True; [done|]. by rewrite message_id_set.
    + split; [done|]. rewrite spoken_control by (by rewrite control_code_ended). by rewrite app_nil_r.
  - by rewrite Hk.
Qed.

(** One poll of the pool: the rpc that yields is the only one with its id. *)
Lemma pool_polls_says k h xs st r xs' st' :
  pool_polls (rpc_poll_next k) xs st r xs' st' → histories_ok h → pool_says h xs →
  match r with
  | Ready (Some (first, x)) =>
      rs_id <$> xs ≡ₚ rs_id x :: (rs_id <$> xs') ∧ pool_says h xs' ∧
      match first with
      | Some (id, e) =>
          let l' := h id ++ spoken id [event_message id e] in
          id = rs_id x ∧ may_say (F:=F) (S:=S) (K:=K) id l' ∧ rpc_says l' x
      | None => True
      end
  | _ => rs_id <$> xs' = rs_id <$> xs ∧ pool_says h xs'
  end.
Proof.
  intros Hp Hh. induction Hp as [st|xs st Hne|xs i x st item st' x' Hi Hp|xs i x st st' x' r xs2 st2 Hi Hp _ IH];
    intros Hs; [done|done| |].
  - pose proof (rpc_poll_says k st x _ (Forall_lookup_1 _ _ _ _ Hs Hi) (Hh _)) as Hx. rewrite Hp in Hx.
    destruct Hx as (Hid & Hx). split; [|split; [by apply Forall_delete|]].
    + rewrite Hid. rewrite <-fmap_cons. by rewrite <-(delete_Permutation xs i x Hi).
    + destruct item as [[id e]|]; [|done]. destruct Hx as (-> & Hm & Hx). by rewrite Hid.
  - pose proof (rpc_poll_says k st x _ (Forall_lookup_1 _ _ _ _ Hs Hi) (Hh _)) as Hx. rewrite Hp in Hx.
    destruct Hx as (Hid & Hx).
    assert (rs_id <$> <[i:=x']> xs = rs_id <$> xs) as Hids.
    { rewrite list_fmap_insert, Hid. apply list_insert_id. by rewrite list_lookup_fmap, Hi. }
    rewrite Hids in IH. apply IH. apply Forall_insert; [done|]. by rewrite Hid.
Qed.

Lemma pool_turn_says k h s r pool st :
  histories_ok h → pool_says h (pool_contents (rpcs s)) →
  pool_poll_next (rpc_poll_next k) (rpcs s) (flags s) = (r, pool, st) →
  match r with
  | Ready (Some (first, x)) =>
      rs_id <$> pool_contents (rpcs s) ≡ₚ rs_id x :: (rs_id <$> pool_contents pool) ∧
      pool_says h (pool_contents pool) ∧
      match first with
      | Some (id, e) =>
          let l' := h id ++ spoken id [event_message id e] in
          id = rs_id x ∧ may_say (F:=F) (S:=S) (K:=K) id l' ∧ rpc_says l' x
      | None => True
      end
  | _ => rs_id <$> pool_contents pool ≡ₚ rs_id <$> pool_contents (rpcs s) ∧ pool_says h (pool_contents pool)
  end.
Proof.
  intros Hh Hs He. pose proof (pool_poll_law (rpc_poll_next k) (rpcs s) (flags s)) as Hl. rewrite He in Hl.
  destruct Hl as (xs & xs' & Hxs & Hxs' & Hp). unfold pool_says in *. rewrite Hxs in Hs.
  pose proof (pool_polls_says _ _ _ _ _ _ _ Hp Hh Hs) as Ht. unfold pool_says in Ht.
  destruct r as [[[first x]|]|]; rewrite Hxs, Hxs'; [done|..]; by destruct Ht as [-> ?].
Qed.

(** What is said under one id leaves the other rpcs alone. *)
Lemma pool_says_extend h ms id xs :
  Forall (λ m, message_id m = id) ms → id ∉ rs_id <$> xs → pool_says h xs → pool_says (extend h ms) xs.
Proof.
  intros Hms Hid. apply pool_says_ext. intros x Hx. unfold extend. rewrite spoken_none, app_nil_r; [done|].
  eapply Forall_impl; [exact Hms|]. intros m Hm Heq. apply Hid. rewrite <-Hm, Heq. by apply list_elem_of_fmap_2.
Qed.

Lemma histories_extend h ms id :
  Forall (λ m, message_id m = id) ms → may_say (F:=F) (S:=S) (K:=K) id (h id ++ spoken id ms) →
  histories_ok h → histories_ok (extend h ms).
Proof.
  intros Hms Hid Hh id'. unfold extend. destruct (decide (id' = id)) as [->|Hne]; [done|].
  rewrite spoken_none, app_nil_r; [apply Hh|]. eapply Forall_impl; [exact Hms|]. simpl. congruence.
Qed.

(** An rpc that is drained. *)
Lemma drain_says fuel s k b produced x l z s' b' n x' :
  rpc_says l x → may_say (F:=F) (S:=S) (K:=K) (rs_id x) l →
  drain_rpc fuel s k b produced x = Return (z, s', b', n, x') →
  ∃ ms, budget_uses b ms b' ∧ Forall (λ m, message_id m = rs_id x) ms ∧ rpcs s' = rpcs s ∧ rs_id x' = rs_id x ∧
    may_say (F:=F) (S:=S) (K:=K) (rs_id x) (l ++ spoken (rs_id x) ms) ∧ rpc_says (l ++ spoken (rs_id x) ms) x'.
Proof.
  revert s b produced x l. induction fuel as [|fuel IH]; intros s b produced x l Hx Hl He; [done|].
  assert (∀ x1, rs_id x1 = rs_id x → rpc_says l x1 →
    ∃ ms, budget_uses b ms b ∧ Forall (λ m, message_id m = rs_id x) ms ∧ rpcs s = rpcs s ∧ rs_id x1 = rs_id x ∧
      may_say (F:=F) (S:=S) (K:=K) (rs_id x) (l ++ spoken (rs_id x) ms) ∧ rpc_says (l ++ spoken (rs_id x) ms) x1) as Hstop.
  { intros x1 Hid H1'. exists []. simpl. rewrite app_nil_r. split_and!; [apply uses_nothing|constructor|done..]. }
  cbn [drain_rpc] in He. destruct (reserve b) as [p|] eqn:Hr; [|simplify_eq; by apply Hstop].
  pose proof (rpc_poll_says k (flags s) x l Hx Hl) as Hpoll.
  destruct (rpc_poll_next k (flags s) x) as [[[[[id e]|]|] st] x1]; destruct Hpoll as (Hid & Hpoll);
    [|simplify_eq; by apply Hstop..].
  destruct Hpoll as (-> & Hm & Hx1).
  destruct (message_for_event_spec (set_pool s (rpcs s) st) (rs_id x) e) as [Hmsg Hs2].
  destruct (message_for_event (set_pool s (rpcs s) st) (rs_id x) e) as [m s2]. simpl in Hmsg, Hs2. subst m.
  assert (rpcs s2 = rpcs s) as Hp by (subst s2; by destruct (is_terminal e)).
  pose proof (event_message_id (Res:=Res) (rs_id x) e) as Hme.
  destruct (is_terminal e).
  - simplify_eq. exists [event_message (rs_id x) e]. split_and!; try done; [by apply uses_send|by constructor].
  - pose proof (λ s b n, IH s b n x1 _ Hx1) as IH'. rewrite Hid in IH'.
    destruct (IH' _ _ _ Hm He) as (ms & Hu & Hall & Hp' & Hid' & Hm' & Hx'). exists (event_message (rs_id x) e :: ms).
    change (event_message (rs_id x) e :: ms) with ([event_message (rs_id x) e] ++ ms).
    rewrite spoken_app, app_assoc. split_and!; try done; [by econstructor|by constructor|congruence].
Qed.

(** The service's rpcs have gone on to say [ms]. *)
Definition told h ms xs : Prop := histories_ok (extend h ms) ∧ pool_says (extend h ms) xs.

Lemma told_nothing h xs : histories_ok h → pool_says h xs → told h [] xs.
Proof.
  intros Hh Hs. split; [eapply histories_ext; [|exact Hh]|eapply pool_says_ext; [|exact Hs]];
    intros; by rewrite extend_nil.
Qed.

Lemma told_more h ms ms' xs : told (extend h ms) ms' xs → told h (ms ++ ms') xs.
Proof.
  intros [Hh Hs]. split; [eapply histories_ext; [|exact Hh]|eapply pool_says_ext; [|exact Hs]];
    intros; by rewrite extend_app.
Qed.

(** The loop over the pool. *)
Lemma responses_say fuel s k b produced s' b' n h :
  NoDup (rs_id <$> pool_contents (rpcs s)) → histories_ok h → pool_says h (pool_contents (rpcs s)) →
  send_responses fuel s k b produced = Return (s', b', n) →
  ∃ ms, budget_uses b ms b' ∧ told h ms (pool_contents (rpcs s')).
Proof.
  revert s b produced h. induction fuel as [|fuel IH]; intros s b produced h Hnd Hh Hs He; [done|].
  assert (∀ s1 : Sub, pool_says h (pool_contents (rpcs s1)) →
    ∃ ms, budget_uses b ms b ∧ told h ms (pool_contents (rpcs s1))) as Hstop.
  { intros s1 Hs1. exists []. split; [apply uses_nothing|by apply told_nothing]. }
  cbn [send_responses] in He. destruct (reserve b) as [p|] eqn:Hr; [|simplify_eq; by apply Hstop].
  destruct (pool_poll_next _ (rpcs s) (flags s)) as [[r pool] st] eqn:Hp.
  pose proof (pool_turn_says k h s r pool st Hh Hs Hp) as Ht.
  destruct r as [[[first x]|]|]; [|destruct Ht as [_ Ht]; simplify_eq; by apply Hstop..].
  destruct Ht as (Hids & Hpool & Hev). rewrite Hids in Hnd. apply NoDup_cons in Hnd as [Hx Hnd].
  destruct first as [[id e]|]; [|exact (IH (set_pool s pool st) _ _ _ Hnd Hh Hpool He)].
  destruct Hev as (-> & Hm & Hrpc).
  destruct (message_for_event_spec (set_pool s pool st) (rs_id x) e) as [Hmsg Hs2].
  destruct (message_for_event (set_pool s pool st) (rs_id x) e) as [m s2]. simpl in Hmsg, Hs2. subst m.
  assert (rpcs s2 = pool) as Hp2 by (subst s2; by destruct (is_terminal e)).
  pose proof (event_message_id (Res:=Res) (rs_id x) e) as Hme.
  set (m := event_message (rs_id x) e) in *. destruct (is_terminal e).
  - assert (Forall (λ m, message_id m = rs_id x) [m]) as Hall by (by constructor).
    destruct (λ H1 H2 H3, IH s2 _ _ (extend h [m]) H1 H2 H3 He) as (ms & Hu & Ht); rewrite ?Hp2.
    + done.
    + by eapply histories_extend.
    + by eapply pool_says_extend.
    + exists ([m] ++ ms). split; [by econstructor|by apply told_more].
  - apply run_bind_Return in He as ([[[[z s3] b3] n3] x3] & Hd & He).
    destruct (drain_says _ _ _ _ _ _ _ _ _ _ _ _ Hrpc Hm Hd) as (ms1 & Hu1 & Hall1 & Hp3 & Hid3 & Hm3 & Hx3).
    assert (Forall (λ m, message_id m = rs_id x) (m :: ms1)) as Hall by (by constructor).
    rewrite <-app_assoc, <-spoken_app in Hm3, Hx3. simpl in Hm3, Hx3.
    set (s4 := if z then s3 else _) in *.
    assert (pool_contents (rpcs s4) ≡ₚ (if z then [] else [x3]) ++ pool_contents pool) as Hp4.
    { subst s4. destruct z; simpl; [by rewrite Hp3, Hp2|]. by rewrite pool_contents_push, Hp3, Hp2. }
    destruct (λ H1 H2 H3, IH s4 _ _ (extend h (m :: ms1)) H1 H2 H3 He) as (ms & Hu & Ht).
    + rewrite Hp4. destruct z; [done|]. simpl. constructor; [|done]. by rewrite Hid3.
    + by eapply histories_extend.
    + unfold pool_says. rewrite Hp4. apply Forall_app. split; [|by eapply pool_says_extend].
      destruct z; [done|]. constructor; [|done]. by rewrite Hid3.
    + exists ((m :: ms1) ++ ms). split; [econstructor; [done|]; by eapply budget_uses_app|by apply told_more].
Qed.

Lemma rejections_say fuel s b produced s' b' n :
  send_rejections fuel s b produced = Return (s', b', n) →
  ∃ ms, budget_uses b ms b' ∧ Forall (λ m, control_code m = Cancel) ms ∧ rpcs s' = rpcs s.
Proof.
  revert s b produced. induction fuel as [|fuel IH]; intros s b produced He; [done|].
  assert (∃ ms, budget_uses b ms b ∧ Forall (λ m : Res, control_code m = Cancel) ms ∧ rpcs s = rpcs s) as Hstop
    by (by exists []; split_and!; [apply uses_nothing|constructor|]).
  cbn [send_rejections] in He. destruct (rejections s) as [|id0 rej0]; [by simplify_eq|].
  destruct (reserve b) as [p|] eqn:Hr; [|by simplify_eq].
  destruct (vec_pop _) as [[id rest]|]; [|by simplify_eq].
  destruct (IH _ _ _ He) as (ms & Hu & Hall & Hp). exists (cancelled id :: ms).
  split; [by econstructor|]. split; [|done]. constructor; [by rewrite control_code_cancelled|done].
Qed.

Lemma spoken_cancels id ms : Forall (λ m : Res, control_code m = Cancel) ms → spoken id ms = [].
Proof. induction 1 as [|m ms Hm _ IH]; [done|]. rewrite spoken_control; [done|]. by rewrite Hm. Qed.

Lemma outbound_says s k b p s' b' h :
  NoDup (rs_id <$> pool_contents (rpcs s)) → histories_ok h → pool_says h (pool_contents (rpcs s)) →
  submitter_poll_outbound_many s k b = Return (p, s', b') →
  ∃ ms, budget_uses b ms b' ∧ told h ms (pool_contents (rpcs s')).
Proof.
  intros Hnd Hh Hs He. unfold submitter_poll_outbound_many in He.
  apply run_bind_Return in He as ([[s1 b1] n1] & H1' & He).
  apply run_bind_Return in He as ([[s2 b2] n2] & H2' & He). simplify_eq.
  destruct (rejections_say _ _ _ _ _ _ _ H1') as (ms1 & Hu1 & Hc & Hp). rewrite <-Hp in Hnd, Hs.
  destruct (responses_say _ _ _ _ _ _ _ _ h Hnd Hh Hs H2') as (ms2 & Hu2 & Hh2 & Hs2).
  exists (ms1 ++ ms2). split; [by eapply budget_uses_app|].
  split; [eapply histories_ext; [|exact Hh2]|eapply pool_says_ext; [|exact Hs2]]; intros; unfold extend;
    by rewrite spoken_app, (spoken_cancels _ ms1).
Qed.

(** A request that comes in, under an id that nothing was said under. *)
Lemma inbound_says s (m : Req) h :
  (control_code m = Normal →
     kind_says (message_id m) (new_rpc (connection_server s) m).1 ∧ h (message_id m) = []) →
  pool_says h (pool_contents (rpcs s)) → pool_says h (pool_contents (rpcs (on_inbound s m).1.2)).
Proof.
  intros Hm Hs. unfold on_inbound, pool_says in *. destruct (control_code m).
  - destruct (Hm eq_refl) as [Hk Hnil]. destruct (new_rpc (connection_server s) m) as [[f|x|] v]; simpl in *;
      [rewrite pool_contents_push; constructor; [|done]..|done].
    + by split.
    + unfold rpc_says. simpl. by rewrite Hnil.
  - destruct (take_abort (aborts s) (message_id m)) as [[a|] t]; [|done]. simpl. by destruct (mark_aborted a (flags s)).
  - done.
Qed.
End server.

Section server_steps.
Context {V K Req Res F S P W : Type}.
Context `{AtomicWaker W K} `{FutureOp F K Res} `{StreamOp S K Res} `{MessageLaws Res} `{!ServiceHistory F S K Res}.
Context `{ConnectionService V K Req F S} `{!Message Req}.
Context `{FuturesUnorderedLaws P (RpcStream F S) (u64 * RpcStreamEvent Res) (list (AbortCell W))}.
Abbreviation Sub := (RpcSubmitter V P W).
Implicit Types s : Sub.
Implicit Types h : u64 → list Res.

(** The service keeps to its histories on a request. *)
Definition request_keeps (m : Req) : Prop :=
  control_code m = Normal → ∀ v : V,
    kind_says (F:=F) (S:=S) (K:=K) (Res:=Res) (message_id m) (new_rpc v m).1.

(** A step of the submitter. *)
Lemma server_io_says s i o s' h :
  server_io (K:=K) (F:=F) (S:=S) s i o s' → NoDup (tags s).*1 →
  Forall (λ m, request_keeps m ∧ (control_code m = Normal → h (message_id m) = [])) i →
  histories_ok (F:=F) (S:=S) (K:=K) h → pool_says (K:=K) h (pool_contents (rpcs s)) →
  told (K:=K) h o (pool_contents (rpcs s')).
Proof.
  intros Hstep Hnd Hi Hh Hs. destruct Hstep as [m|k room p s' out Hw He|k].
  - apply told_nothing; [done|]. rewrite Forall_singleton in Hi. destruct Hi as [Hk Hm].
    apply inbound_says; [|done]. intros Hc. split; [by apply Hk|by apply Hm].
  - unfold submitter_answers in He. apply run_bind_Return in He as ([[p1 s1] b1] & He1 & He).
    injection He as -> -> <-. rewrite tags_ids in Hnd.
    assert ((pooled s).*1 = rs_id <$> pool_contents (rpcs s)) as Hids
      by (unfold pooled; by rewrite <-list_fmap_compose).
    rewrite Hids in Hnd. destruct (outbound_says _ _ _ _ _ _ _ Hnd Hh Hs He1) as (ms & Hu & Ht).
    apply budget_uses_spec in Hu as [_ ->]; [|done].
    refine (eq_ind_r (λ out, told (K:=K) h out _) Ht _). apply recorded_messages.
  - apply told_nothing; [done|]. simpl. by destruct (service_poll (connection_server s) k).
Qed.
End server_steps.

(** ** What is in the channels of the completions *)

Section client.
Context {O W K Req Res : Type} `{AtomicWaker W K} `{OneshotLaws O (result Res RpcError) K}.
Context `{MessageLaws Req} `{MessageLaws Res}.
Abbreviation TheCell := (Cell O W Res).
Abbreviation World := (ClientWorld O W Req Res).
Implicit Types cs : list TheCell.
Implicit Types r : RpcCompletionReactor O W Res.
Implicit Types w : World.

(** The responses that a caller has yet to take. *)
Definition cell_values (cell : TheCell) : list Res :=
  match cell with
  | OneshotCell o => match os_view o with OsValue (Ok m) => [m] | _ => [] end
  | StreamCell s v => pending_values s v
  end.

Definition values cs (c : nat) : list Res :=
  match cs !! c with Some cell => cell_values cell | None => [] end.

Lemma values_alter f cs c c' :
  (∀ cell, cs !! c = Some cell → cell_values (f cell) = cell_values cell) → values (alter f c cs) c' = values cs c'.
Proof.
  intros Hf. unfold values. destruct (decide (c' = c)) as [->|Hne]; [|by rewrite list_lookup_alter_ne].
  rewrite list_lookup_alter_eq. destruct (cs !! c); simpl; [by apply Hf|done].
Qed.

Lemma close_cell_values x cell : cell_values (close_cell x cell) = cell_values cell.
Proof.
  destruct x as [c|sender c], cell as [o|s v]; simpl; try done.
  - destruct (os_drop_sender_law o) as [-> _]. by destruct (os_view o) as [|[]|].
  - assert (chutes (sender_drop sender s).1 = chutes s) as Hcs.
    { unfold sender_drop, drop_sender, wake. simpl. destruct (senders s =? 1); [|done]. by destruct (aw_wake _). }
    unfold pending_values. by rewrite Hcs.
Qed.

Lemma drop_completion_values x cs c : values (drop_completion x cs) c = values cs c.
Proof. apply values_alter. intros cell _. apply close_cell_values. Qed.

Lemma deregister_values r id c : values (cells (deregister r id)) c = values (cells r) c.
Proof. unfold deregister. simpl. destruct (rpc_registry r !! id); [apply drop_completion_values|done]. Qed.

Lemma close_receiver_values cs c c' :
  values (alter close_receiver c cs) c' = values cs c' ∨ values (alter close_receiver c cs) c' = [].
Proof.
  unfold values. destruct (decide (c' = c)) as [->|Hne]; [|left; by rewrite list_lookup_alter_ne].
  rewrite list_lookup_alter_eq. destruct (cs !! c) as [[o|s v]|]; simpl; [|by left..].
  destruct (os_drop_receiver_law o) as [-> _]. destruct (os_view o); by auto.
Qed.

Lemma values_new cs cell c : cell_values cell = [] → values (cs ++ [cell]) c = values cs c.
Proof.
  intros Hc. unfold values. destruct (decide (c < length cs)%nat); [by rewrite lookup_app_l|].
  rewrite lookup_app_r, (lookup_ge_None_2 cs) by lia.
  destruct (c - length cs)%nat as [|i] eqn:Hi; [done|]. by rewrite lookup_cons, lookup_nil.
Qed.

Lemma owned_receiver_kept x cell :
  owns x cell → cell_values (close_receiver cell) = cell_values cell.
Proof.
  destruct x as [c|sender c], cell as [o|s v]; simpl; try done. intros Hv.
  destruct (os_drop_receiver_law o) as [-> _]. by rewrite Hv.
Qed.

(** A response that comes in is added to the channel of its id, or the completion
    is no longer registered. *)
Lemma inbound_values r (m : Res) xs status r' :
  store_ok (registered (rpc_registry r) ++ xs) (cells r) →
  completion_on_inbound r m = Return (status, r') →
  (∀ c, values (cells r') c = values (cells r) c ∨
     ∃ x, rpc_registry r !! message_id m = Some x ∧ completion_cell x = c ∧ control_code m = Normal ∧
       values (cells r') c = values (cells r) c ++ [m]) ∧
  (∀ x, rpc_registry r' !! message_id m = Some x →
     control_code m = Normal ∧ rpc_registry r !! message_id m = Some x ∧
     values (cells r') (completion_cell x) = values (cells r) (completion_cell x) ++ [m]).
Proof.
  intros Hok He. destruct (inbound_correlates r m xs Hok) as (r2 & He2 & Hcase). rewrite He in He2. injection He2 as _ <-.
  destruct (rpc_registry r !! message_id m) as [x|] eqn:Hx; cycle 1.
  { assert (r' = r) as -> by (by destruct (control_code m)). rewrite Hx. split; [by left|done]. }
  assert (r' = mkReactor (delete (message_id m) (rpc_registry r)) (is_alive r) (drop_completion x (cells r)) →
    (∀ c, values (cells r') c = values (cells r) c) ∧ rpc_registry r' !! message_id m = None) as Hdrop.
  { intros ->. split; [|apply lookup_delete_eq]. intros c. apply drop_completion_values. }
  destruct (control_code m);
    [|destruct (Hdrop ltac:(by destruct x)) as [Hv Hn]; rewrite Hn; split; [by left|done]..].
  destruct x as [c|sender c].
  - destruct Hcase as (o & o' & Hc & Hview & ->). simpl. split; [|intros x; by rewrite lookup_delete_eq].
    rewrite (registered_delete _ _ _ Hx) in Hok.
    destruct (so_owns _ _ Hok (Unary c)) as (cell & Hcell & Hown); [by left|].
    simpl in Hcell. rewrite Hc in Hcell. injection Hcell as <-. simpl in Hown.
    intros c'. unfold values. destruct (decide (c' = c)) as [->|Hne];
      [|left; by rewrite list_lookup_insert_ne].
    rewrite list_lookup_insert_eq by (by eapply lookup_lt_Some). rewrite Hc. simpl. rewrite Hown, Hview.
    destruct (os_open o); [right; by eexists|by left].
  - destruct Hcase as (s & v & s' & Hc & Hpv & _ & ->). simpl.
    assert (∀ c', values (<[c:=StreamCell s' v]> (cells r)) c'
      = if decide (c' = c) then values (cells r) c' ++ [m] else values (cells r) c') as Hvs.
    { intros c'. unfold values. destruct (decide (c' = c)) as [->|Hne]; [|by rewrite list_lookup_insert_ne].
      rewrite list_lookup_insert_eq by (by eapply lookup_lt_Some). by rewrite Hc. }
    split.
    + intros c'. rewrite Hvs. destruct (decide (c' = c)) as [->|]; [|by left].
      right. by exists (RemoteStreaming sender c).
    + intros x. rewrite Hx. intros [= <-]. split; [done|]. split; [done|]. simpl.
      by rewrite Hvs, decide_True.
Qed.

(** A response adds no channel and takes none away. *)
Lemma inbound_cells r l m status r' :
  store_ok (registered (rpc_registry r) ++ l) (cells r) →
  completion_on_inbound r m = Return (status, r') → length (cells r') = length (cells r).
Proof.
  intros Hst He. destruct (inbound_correlates _ m _ Hst) as (r2 & He2 & Hcase). rewrite He in He2.
  injection He2 as _ <-.
  destruct (control_code m), (rpc_registry _ !! _) as [[c|sender c]|]; try (by subst r');
    try (subst r'; by apply length_alter).
  - destruct Hcase as (o & o' & _ & _ & ->). apply length_insert.
  - destruct Hcase as (s & v & s' & _ & _ & _ & ->). apply length_insert.
Qed.

(** What a poll gives its caller leaves the channel. *)
Lemma unary_poll_values u k cs p u' cs' c :
  unary_poll u k cs = Return (p, u', cs') →
  let got := match p with Ready (Ok m) => [(uc_completion u, m)] | _ => [] end in
  Forall (λ e, (e.1 < length cs)%nat) got ∧
  (filter (λ e, e.1 = c) got).*2 ++ values cs' c = values cs c.
Proof.
  intros He. unfold unary_poll in He. destruct (cg_closed (uc_guard u)); [done|].
  destruct (cs !! uc_completion u) as [[o|]|] eqn:Hc; try done.
  pose proof (os_poll_law o k) as Hp. destruct (os_poll o k) as [pr o']. destruct Hp as [_ Hp].
  assert (cs' = <[uc_completion u := OneshotCell o']> cs) as -> by (by destruct pr as [[|]|]; injection He).
  pose proof (lookup_lt_Some _ _ _ Hc) as Hlt.
  assert (∀ got, p = got → match got with Ready (Ok m) => [(uc_completion u, m)] | _ => [] end
    = match os_view o with OsValue (Ok m) => [(uc_completion u, m)] | _ => [] end) as Hgot.
  { intros got <-. destruct (os_view o) as [|[m|e]|], Hp as [-> _]; by injection He as <- _. }
  cbv zeta. rewrite (Hgot p eq_refl). split; [by destruct (os_view o) as [|[]|]; repeat constructor|].
  unfold values. destruct (decide (c = uc_completion u)) as [->|Hne].
  - rewrite list_lookup_insert_eq, Hc by done. simpl.
    destruct (os_view o) as [|[m|e]|], Hp as [_ ->]; try done.
    rewrite filter_cons, decide_True by done. done.
  - rewrite list_lookup_insert_ne by done.
    destruct (os_view o) as [|[m|e]|]; try done. rewrite filter_cons, decide_False by (simpl; congruence). done.
Qed.

Lemma streaming_poll_values x k cs p x' cs' c :
  Forall cell_ok cs → streaming_poll_next x k cs = Return (p, x', cs') →
  let got := match p with Ready (Some (Ok m)) => [(sc_completion x, m)] | _ => [] end in
  Forall (λ e, (e.1 < length cs)%nat) got ∧
  (filter (λ e, e.1 = c) got).*2 ++ values cs' c = values cs c.
Proof.
  intros Hok He. unfold streaming_poll_next in He. destruct (sc_closed x).
  { injection He as <- _ <-. by split. }
  destruct (cs !! sc_completion x) as [[|s v]|] eqn:Hc; try done.
  apply run_bind_Return in He as ([[pr s'] v'] & Hs & He).
  destruct (Forall_lookup_1 _ _ _ _ Hok Hc) as [Hun _].
  destruct (poll_unbounded _ _ _ _ _ _ Hun Hs) as (_ & _ & _ & Hp).
  assert (cs' = <[sc_completion x := StreamCell s' v']> cs) as -> by (by destruct pr as [[|]|]; injection He).
  pose proof (lookup_lt_Some _ _ _ Hc) as Hlt.
  assert (∀ got, p = got → match got with Ready (Some (Ok m)) => [(sc_completion x, m)] | _ => [] end
    = match pr with Ready (Some m) => [(sc_completion x, m)] | _ => [] end) as Hgot
    by (intros got <-; destruct pr as [[m|]|]; by injection He as <- _).
  cbv zeta. rewrite (Hgot p eq_refl). split; [by destruct pr as [[m|]|]; repeat constructor|].
  unfold values. destruct (decide (c = sc_completion x)) as [->|Hne].
  - rewrite list_lookup_insert_eq, Hc by done. simpl.
    destruct pr as [[m|]|]; [rewrite filter_cons, decide_True, Hp by done; done
      |destruct Hp as (-> & -> & _); done..].
  - rewrite list_lookup_insert_ne by done.
    destruct pr as [[m|]|]; [|done..]. by rewrite filter_cons, decide_False by (simpl; congruence).
Qed.

(** A call opens one channel, which is empty. *)
Lemma send_message_cells c x (request : Req) q r res q' r' :
  send_message c x request q r = Return (res, q', r') →
  length (cells r') = length (cells r) ∧ ∀ c', values (cells r') c' = values (cells r) c'.
Proof.
  assert (∀ r1, r1 = set_cells r (drop_completion x (cells r)) →
    length (cells r1) = length (cells r) ∧ ∀ c', values (cells r1) c' = values (cells r) c') as Hdrop.
  { intros r1 ->. split; [apply length_alter|]. intros c'. apply drop_completion_values. }
  intros He. unfold send_message in He. destruct (negb _); [injection He as _ _ <-; by apply Hdrop|].
  apply run_bind_Return in He as ([g q1] & _ & He). apply run_bind_Return in He as ([[sent q2] ks] & _ & He).
  destruct sent; [by injection He as _ _ <-|]. apply run_bind_Return in He as (q3 & _ & He).
  injection He as _ _ <-. by apply Hdrop.
Qed.

Lemma call_unary_cells c (request : Req) q r res q' r' :
  send_unary c request q r = Return (res, q', r') →
  length (cells r') = S (length (cells r)) ∧ ∀ c', values (cells r') c' = values (cells r) c'.
Proof.
  intros He. unfold send_unary in He. apply run_bind_Return in He as ([[sent q1] r1] & Hs & He).
  apply send_message_cells in Hs as [Hlen Hv]. simpl in Hlen, Hv. rewrite length_app in Hlen. simpl in Hlen.
  assert (∀ c', values (cells r1) c' = values (cells r) c') as Hv1.
  { intros c'. rewrite Hv. apply values_new. simpl. by rewrite (proj1 os_channel_law). }
  destruct sent; injection He as _ _ <-; [split; [lia|done]|]. simpl.
  rewrite length_alter. split; [lia|]. intros c'.
  destruct (close_receiver_values (cells r1) (length (cells r)) c') as [->|He]; [done|].
  destruct (decide (c' = length (cells r))) as [->|Hne].
  - rewrite He. unfold values. by rewrite lookup_ge_None_2.
  - rewrite <-Hv1. unfold values. by rewrite list_lookup_alter_ne.
Qed.

Lemma call_streaming_cells c (request : Req) q r res q' r' :
  send_streaming c request q r = Return (res, q', r') →
  length (cells r') = S (length (cells r)) ∧ ∀ c', values (cells r') c' = values (cells r) c'.
Proof.
  intros He. unfold send_streaming in He. apply run_bind_Return in He as ([[sender receiver] s] & Hch & He).
  apply run_bind_Return in He as ([[sent q1] r1] & Hs & He).
  apply send_message_cells in Hs as [Hlen Hv]. simpl in Hlen, Hv. rewrite length_app in Hlen. simpl in Hlen.
  assert (r' = r1) as -> by (by destruct sent; injection He).
  split; [lia|]. intros c'. rewrite Hv. apply values_new. simpl.
  destruct (channel_new_inv (T:=Res) (W:=W) (K:=K) max_u64 1) as (x1 & v1 & s1 & Hch1 & _ & Hpv & _); [lia|done|].
  unfold channel_with_concurrency in Hch. rewrite Hch1 in Hch. by injection Hch as <- <- <-.
Qed.

(** What callers do with what they hold takes responses from the front of their
    channels, or closes a channel that nobody is going to complete. *)
Lemma caller_values used w heard w' :
  caller_step used w heard w' → world_ok w →
  length (cells (w_reactor w')) = length (cells (w_reactor w)) ∧
  Forall (λ e, (e.1 < length (cells (w_reactor w)))%nat) heard ∧
  ∀ c, let vs := (filter (λ e, e.1 = c) heard).*2 ++ values (cells (w_reactor w')) c in
    vs = values (cells (w_reactor w)) c ∨
    vs = [] ∧ ∀ x, x ∈ in_flight w → completion_cell x ≠ c.
Proof.
  intros [u k p u' cs' He|u q' cs' Hid He|x k p x' cs' He|x q' Hid He|c c' q' He|c] [Hun Hok]; simpl;
    try by (split; [done|]; split; [constructor|]; by left).
  - split; [|split; [|left]].
    + unfold unary_poll in He. destruct (cg_closed (uc_guard u)); [done|]. destruct (cells (w_reactor w) !! uc_completion u) as [[o|]|]; try done.
      destruct (os_poll o k) as [[[|]|] o']; injection He as _ _ <-; apply length_insert.
    + by apply (unary_poll_values u k _ _ _ _ 0%nat He).
    + by apply (unary_poll_values u k _ _ _ _ c He).
  - unfold unary_drop in He. apply run_bind_Return in He as (q1 & _ & He). injection He as _ <-.
    rewrite length_alter. split; [done|]. split; [constructor|]. intros c. simpl.
    destruct (decide (c = uc_completion u)) as [->|Hne]; cycle 1.
    { left. unfold values. by rewrite list_lookup_alter_ne. }
    destruct (decide (uc_completion u ∈ completion_cell <$> in_flight w)) as [Hin|Hni].
    + left. apply values_alter. intros cell Hc. apply list_elem_of_fmap in Hin as (x & Hx & Hin).
      destruct (so_owns _ _ Hok x Hin) as (d & Hd & Hown). rewrite <-Hx, Hc in Hd. injection Hd as <-.
      by eapply owned_receiver_kept.
    + destruct (close_receiver_values (cells (w_reactor w)) (uc_completion u) (uc_completion u)) as [Hv|Hv];
        rewrite Hv; [by left|]. right. split; [done|]. intros x Hx Heq. apply Hni. rewrite <-Heq. by apply list_elem_of_fmap_2.
  - split; [|split; [|left]].
    + unfold streaming_poll_next in He. destruct (sc_closed x); [by injection He as _ _ <-|].
      destruct (cells (w_reactor w) !! sc_completion x) as [[|s v]|]; try done.
      apply run_bind_Return in He as ([[[[m|]|] s'] v'] & _ & He); injection He as _ _ <-; apply length_insert.
    + by apply (streaming_poll_values x k _ _ _ _ 0%nat (so_cells _ _ Hok) He).
    + by apply (streaming_poll_values x k _ _ _ _ c (so_cells _ _ Hok) He).
Qed.
End client.

(** ** The system *)

Section system.
Context {O V K Req Res F S P W : Type}.
Context `{AtomicWaker W K} `{OneshotLaws O (result Res RpcError) K}.
Context `{!FutureOp F K Res} `{!StreamOp S K Res} `{!ConnectionService V K Req F S}.
Context `{MessageLaws Req} `{MessageLaws Res} `{!ServiceHistory F S K Res}.
Context `{FuturesUnorderedLaws P (RpcStream F S) (u64 * RpcStreamEvent Res) (list (AbortCell W))}.
Context (streams : Req → Prop).
Context (Hservice : ∀ (v : V) m, streams m →
  match (new_rpc (F:=F) (S:=S) v m).1 with RpcUnary _ => False | _ => True end).
Abbreviation Sys := (System O W Req Res V P).
Abbreviation sys_ok := (system_ok (K:=K) (F:=F) (S:=S) streams).
Implicit Types y : Sys.
Implicit Types h : u64 → list Res.
Implicit Types l : Log Req Res.

(** What a channel has given to its caller, and that with what is in it. *)
Definition heard_from l (c : nat) : list Res := (filter (λ e, e.1 = c) (log_heard l)).*2.
Definition received y (c : nat) : list Res :=
  heard_from (sy_log y) c ++ values (cells (w_reactor (sy_client y))) c.

(** The service keeps to its histories on every call. *)
Definition calls_keep l : Prop :=
  Forall (λ e, request_keeps (V:=V) (K:=K) (F:=F) (S:=S) (Res:=Res) e.2) (log_calls l).

(** A call in the queue: nothing has been said to it. *)
Definition queued_silent y h (n : RpcNotification Req) : Prop :=
  match n with
  | New rpc =>
      h (message_id (cr_request rpc)) = [] ∧ received y (completion_cell (cr_completion rpc)) = [] ∧
      (completion_cell (cr_completion rpc), cr_request rpc) ∈ log_calls (sy_log y)
  | CancelRpc _ => True
  end.

(** [h] is what the server has said so far: the service's histories, of which
    every caller has received a beginning, and a registered completion all but what
    is on its way. *)
Record tells y h : Prop := {
  tl_histories : histories_ok (F:=F) (S:=S) (K:=K) h;
  tl_pool : pool_says (K:=K) h (pool_contents (rpcs (sy_server y)));
  tl_unused id : id ∉ sy_used y → h id = [];
  tl_queue : Forall (queued_silent y h) (notifications (sy_client y));
  tl_requests : Forall (λ m, control_code m = Normal →
    h (message_id m) = [] ∧ m ∈ (log_calls (sy_log y)).*2) (sy_requests y);
  tl_cells : Forall (λ e, (e.1 < length (cells (w_reactor (sy_client y))))%nat) (log_calls (sy_log y));
  tl_heard : Forall (λ e, (e.1 < length (cells (w_reactor (sy_client y))))%nat) (log_heard (sy_log y));
  tl_calls c m m' : (c, m) ∈ log_calls (sy_log y) → (c, m') ∈ log_calls (sy_log y) → m = m';
  tl_received c m : (c, m) ∈ log_calls (sy_log y) → received y c `prefix_of` h (message_id m);
  tl_way id : spoken id (sy_responses y) `suffix_of` h id;
  tl_registered id x : rpc_registry (w_reactor (sy_client y)) !! id = Some x →
    ∃ m, (completion_cell x, m) ∈ log_calls (sy_log y) ∧ message_id m = id ∧
      received y (completion_cell x) ++ spoken id (sy_responses y) = h id;
}.

Lemma heard_from_app l heard c : heard_from (log_hear heard l) c = heard_from l c ++ (filter (λ e, e.1 = c) heard).*2.
Proof. unfold heard_from, log_hear. simpl. by rewrite filter_app, fmap_app. Qed.

Lemma heard_from_none l c : Forall (λ e, e.1 ≠ c) (log_heard l) → heard_from l c = [].
Proof.
  unfold heard_from. induction 1 as [|e es He _ IH]; [done|]. by rewrite filter_cons, decide_False.
Qed.

(** A call. *)
Lemma tells_called y h w' request streaming :
  sys_ok y → called request streaming (sy_client y) w' → message_id request ∉ sy_used y →
  length (cells (w_reactor w')) = Datatypes.S (length (cells (w_reactor (sy_client y)))) →
  (∀ c, values (cells (w_reactor w')) c = values (cells (w_reactor (sy_client y))) c) →
  tells y h → tells (mkSystem w' (sy_requests y) (sy_server y) (sy_responses y) (called_log y request)) h.
Proof.
  intros Hok (Hreg & Hconn & Hns) Hfresh Hlen Hvals Ht.
  set (c0 := length (cells (w_reactor (sy_client y)))) in *.
  set (y' := mkSystem w' _ _ _ _).
  assert (∀ c, received y' c = received y c) as Hrec by (intros c; unfold received; simpl; by rewrite Hvals).
  assert (received y c0 = []) as Hnew.
  { unfold received, values. rewrite lookup_ge_None_2 by done. rewrite heard_from_none; [done|].
    eapply Forall_impl; [apply Ht|]. intros e He Heq. simpl in He. fold c0 in He. lia. }
  assert (∀ e, e ∈ log_calls (sy_log y) → (e.1 < c0)%nat) as Hlt
    by (apply Forall_forall; apply Ht).
  assert (∀ n, queued_silent y h n → queued_silent y' h n) as Hmono.
  { intros [rpc|id]; simpl; [|done]. rewrite Hrec. intros (?&?&?). split_and!; try done. by right. }
  split.
  - apply Ht.
  - apply Ht.
  - intros id Hid. apply (tl_unused _ _ Ht). intros Hin. apply Hid. by right.
  - assert (Forall (queued_silent y' h) (notifications (sy_client y))) as Hold
      by (eapply Forall_impl; [apply Ht|done]).
    simpl. destruct Hns as [->|(x & _ & Hx & ->)]; [done|]. constructor; [|done]. simpl.
    rewrite Hrec, Hx. split_and!; [by apply Ht|done|by left].
  - eapply Forall_impl; [apply Ht|]. intros m Hm Hc. destruct (Hm Hc). split; [done|]. by right.
  - simpl. rewrite Hlen. constructor; [simpl; fold c0; lia|]. eapply Forall_impl; [apply Ht|]. simpl. lia.
  - simpl. rewrite Hlen. eapply Forall_impl; [apply Ht|]. simpl. lia.
  - intros c m m' [Hm|Hm]%elem_of_cons [Hm'|Hm']%elem_of_cons;
      [congruence|specialize (Hlt _ Hm')|specialize (Hlt _ Hm)|by eapply (tl_calls _ _ Ht)];
      simpl in *; simplify_eq; lia.
  - intros c m [Hm|Hm]%elem_of_cons; rewrite Hrec; [|by apply Ht].
    injection Hm as -> _. fold c0. rewrite Hnew. apply prefix_nil.
  - apply Ht.
  - intros id x Hx. simpl in Hx. rewrite Hreg in Hx. destruct (tl_registered _ _ Ht id x Hx) as (m & Hm & Hid & Heq).
    exists m. split; [by right|]. split; [done|]. by rewrite Hrec.
Qed.

(** What callers do. *)
Lemma tells_caller y h heard w' :
  sys_ok y → caller_step (K:=K) (sy_used y) (sy_client y) heard w' →
  tells y h → tells (mkSystem w' (sy_requests y) (sy_server y) (sy_responses y) (log_hear heard (sy_log y))) h.
Proof.
  intros Hok Hstep Ht. pose proof (so_world _ _ Hok) as Hw.
  destruct (caller_effect streams _ _ _ _ Hstep Hw) as (Hreg & _ & ns & Hp & _ & Hnew).
  destruct (caller_values _ _ _ _ Hstep Hw) as (Hlen & Hheard & Hvals).
  set (y' := mkSystem _ _ _ _ _).
  assert (∀ c, received y' c = received y c ∨
    received y' c `prefix_of` received y c ∧ ∀ x, x ∈ in_flight (sy_client y) → completion_cell x ≠ c) as Hrec.
  { intros c. unfold received. simpl. rewrite heard_from_app, <-app_assoc.
    destruct (Hvals c) as [->|[-> Hx]]; [by left|]. right. split; [|done]. apply prefix_app, prefix_nil. }
  assert (∀ x, x ∈ in_flight (sy_client y) → received y' (completion_cell x) = received y (completion_cell x)) as Hfl.
  { intros x Hx. destruct (Hrec (completion_cell x)) as [?|[_ Hne]]; [done|]. by destruct (Hne x Hx). }
  split; try apply Ht.
  - simpl. rewrite Hp. apply Forall_app. split.
    + apply Forall_forall. intros [rpc|id] Hn; [|done]. exfalso.
      assert (cr_message_id rpc ∈ new_ids ns) as Hin
        by (apply list_elem_of_bind; exists (New rpc); split; [by left|done]).
      rewrite Hnew in Hin. by apply not_elem_of_nil in Hin.
    + rewrite Forall_forall. intros n Hn. pose proof (tl_queue _ _ Ht) as Hq. rewrite Forall_forall in Hq.
      specialize (Hq n Hn). destruct n as [rpc|id]; [|done]. simpl in *. rewrite Hfl; [done|].
      apply elem_of_app. right. apply list_elem_of_bind. exists (New rpc). split; [by left|done].
  - simpl. rewrite Hlen. apply Ht.
  - simpl. rewrite Hlen. apply Forall_app. split; [apply Ht|done].
  - intros c m Hm. pose proof (tl_received _ _ Ht c m Hm) as Hpre.
    destruct (Hrec c) as [->|[Hpre' _]]; [done|]. by etrans.
  - intros id x Hx. simpl in Hx. rewrite Hreg in Hx.
    destruct (tl_registered _ _ Ht id x Hx) as (m & Hm & Hid & Heq). exists m. split; [done|]. split; [done|].
    rewrite Hfl; [done|]. apply elem_of_app. left. apply list_elem_of_fmap. exists (id, x). split; [done|].
    by apply elem_of_map_to_list.
Qed.

(** The client takes a notification: a call goes from the queue to the registry. *)
Lemma outbound_cells (r : RpcCompletionReactor O W Res) (n : RpcNotification Req) :
  let r' := (completion_on_outbound r n).2 in
  length (cells r') = length (cells r) ∧ ∀ c, values (cells r') c = values (cells r) c.
Proof.
  assert (∀ id, length (cells (deregister r id)) = length (cells r)) as Hlen.
  { intros id. unfold deregister. simpl. destruct (rpc_registry r !! id); [apply length_alter|done]. }
  destruct n as [[id x m]|id]; simpl; (split; [apply Hlen|]); intros c; apply deregister_values.
Qed.

Lemma tells_takes y h k p q' v' :
  sys_ok y → poll_next (w_queue (sy_client y)) (w_receiver (sy_client y)) k = Return (p, q', v') →
  let r := w_reactor (sy_client y) in
  let '(sent, r') := match p with
                     | Ready (Some n) => ([(completion_on_outbound r n).1], (completion_on_outbound r n).2)
                     | _ => ([], r)
                     end in
  tells y h →
  tells (mkSystem (mkWorld q' v' true r') (sy_requests y ++ sent) (sy_server y) (sy_responses y) (sy_log y)) h.
Proof.
  intros Hok He r. pose proof (so_world _ _ Hok) as Hw.
  destruct (poll_unbounded _ _ _ _ _ _ (proj1 Hw) He) as (_ & _ & _ & Hp).
  assert (∀ w : ClientWorld O W Req Res, notifications w ≡ₚ pending_values (w_queue w) (w_receiver w)) as Hnp
    by (intros w; unfold notifications; by rewrite pending_waiting).
  destruct p as [[n|]|]; cycle 1.
  1, 2: intros Ht; rewrite app_nil_r; destruct Hp as (_ & Hp & _); split; try apply Ht;
    simpl; rewrite Hnp; simpl; rewrite Hp; constructor.
  destruct (outbound_cells r n) as [Hlen Hvals]. intros Ht.
  set (y' := mkSystem _ _ _ _ _).
  assert (∀ c, received y' c = received y c) as Hrec by (intros c; unfold received; simpl; by rewrite Hvals).
  assert (∀ n, queued_silent y h n → queued_silent y' h n) as Hmono
    by (intros [rpc|id]; simpl; [by rewrite Hrec|done]).
  pose proof (tl_queue _ _ Ht) as Hq. rewrite Hnp, Hp in Hq. apply Forall_cons in Hq as [Hn Hq].
  pose proof (so_queue _ _ Hok) as Hnq. rewrite Hnp, Hp in Hnq. apply Forall_cons in Hnq as [Hnok _].
  split; try apply Ht.
  - rewrite Hnp. eapply Forall_impl; [exact Hq|done].
  - simpl. apply Forall_app. split; [apply Ht|]. constructor; [|done]. intros Hc.
    destruct n as [[id x m]|id]; simpl in Hn, Hc |- *; [|by rewrite control_code_cancelled in Hc].
    destruct Hn as (Hnil & _ & Hm). split; [done|]. apply list_elem_of_fmap. by exists (completion_cell x, m).
  - simpl. rewrite Hlen. apply Ht.
  - simpl. rewrite Hlen. apply Ht.
  - intros c m. rewrite Hrec. apply Ht.
  - assert (∀ id0 id x, delete id0 (rpc_registry r) !! id = Some x →
      ∃ m, (completion_cell x, m) ∈ log_calls (sy_log y) ∧ message_id m = id ∧
        received y' (completion_cell x) ++ spoken id (sy_responses y) = h id) as Hold.
    { intros id0 id x [_ Hx]%lookup_delete_Some. destruct (tl_registered _ _ Ht id x Hx) as (m & ? & ? & ?).
      exists m. by rewrite Hrec. }
    intros id x Hx. destruct n as [[id' x' m]|id']; simpl in Hx, Hn, Hnok; [|by eapply Hold].
    apply lookup_insert_Some in Hx as [[<- <-]|[_ Hx]]; [|by eapply Hold].
    destruct Hn as (Hnil & Hempty & Hm), Hnok as (-> & _). exists m. split; [done|]. split; [done|].
    rewrite Hrec, Hempty. pose proof (tl_way _ _ Ht (message_id m)) as Hsuf. simpl in *.
    rewrite Hnil in Hsuf. apply suffix_nil_inv in Hsuf. by rewrite Hsuf, Hnil.
Qed.

(** The client hears a response. *)
Lemma tells_hears y h m rest status r' :
  sys_ok y → sy_responses y = m :: rest →
  completion_on_inbound (w_reactor (sy_client y)) m = Return (status, r') →
  tells y h →
  tells (mkSystem (mkWorld (w_queue (sy_client y)) (w_receiver (sy_client y)) true r')
    (sy_requests y) (sy_server y) rest (sy_log y)) h.
Proof.
  intros Hok Hres He Ht. pose proof (proj2 (so_world _ _ Hok)) as Hst. unfold in_flight in Hst.
  destruct (inbound_values _ _ _ _ _ Hst He) as [Hvals Hstay].
  destruct (client_inbound_frame _ _ _ _ He) as (Hother & _ & _).
  pose proof (inbound_cells _ _ _ _ _ Hst He) as Hlen.
  set (y' := mkSystem _ _ _ _ _).
  assert (∀ c, received y' c = received y c ∨
    ∃ x, rpc_registry (w_reactor (sy_client y)) !! message_id m = Some x ∧ completion_cell x = c ∧
      control_code m = Normal ∧ received y' c = received y c ++ [m]) as Hrec.
  { intros c. unfold received. simpl. destruct (Hvals c) as [->|(x & Hx & Hc & Hcode & ->)]; [by left|].
    right. exists x. by rewrite app_assoc. }
  assert (∀ id x m0, (completion_cell x, m0) ∈ log_calls (sy_log y) →
    rpc_registry (w_reactor (sy_client y)) !! id = Some x → message_id m0 = id ∧
    received y (completion_cell x) ++ spoken id (sy_responses y) = h id) as Hreg.
  { intros id x m0 Hm0 Hx. destruct (tl_registered _ _ Ht id x Hx) as (m1 & Hm1 & Hid & Heq).
    by rewrite (tl_calls _ _ Ht _ _ _ Hm0 Hm1). }
  assert (∀ c m0 x, (c, m0) ∈ log_calls (sy_log y) → completion_cell x = c → control_code m = Normal →
    rpc_registry (w_reactor (sy_client y)) !! message_id m = Some x →
    message_id m0 = message_id m ∧
    (received y c ++ [m]) ++ spoken (message_id m) rest = h (message_id m)) as Hnext.
  { intros c m0 x Hm0 <- Hcode Hx. destruct (Hreg _ _ _ Hm0 Hx) as [-> Heq]. split; [done|].
    by rewrite Hres, spoken_own, (cons_middle m), app_assoc in Heq. }
  split; try apply Ht.
  - rewrite Forall_forall. intros n Hn. pose proof (tl_queue _ _ Ht) as Hq. rewrite Forall_forall in Hq.
    specialize (Hq n Hn). destruct n as [rpc|id]; [|done]. simpl in *. destruct Hq as (Hnil & Hempty & Hin).
    split_and!; [done| |done]. destruct (Hrec (completion_cell (cr_completion rpc))) as [->|(x & Hx & Hc & Hcode & _)];
      [done|]. exfalso. destruct (Hnext _ _ x Hin Hc Hcode Hx) as [Hid Heq].
    rewrite <-Hid, Hnil, Hempty in Heq. done.
  - simpl. rewrite Hlen. apply Ht.
  - simpl. rewrite Hlen. apply Ht.
  - intros c m0 Hm0. destruct (Hrec c) as [->|(x & Hx & Hc & Hcode & ->)]; [by apply Ht|].
    destruct (Hnext _ _ x Hm0 Hc Hcode Hx) as [-> <-]. by eexists.
  - intros id. etrans; [|apply (tl_way _ _ Ht)]. rewrite Hres, spoken_cons. by eexists.
  - intros id x Hx. simpl in Hx. destruct (decide (id = message_id m)) as [->|Hne].
    + destruct (Hstay x Hx) as (Hcode & Hx0 & Hv). destruct (tl_registered _ _ Ht _ _ Hx0) as (m0 & Hm0 & Hid & _).
      exists m0. split; [done|]. split; [done|]. destruct (Hnext _ _ x Hm0 eq_refl Hcode Hx0) as [_ <-].
      f_equal. unfold received. simpl. by rewrite Hv, app_assoc.
    + rewrite Hother in Hx by done. destruct (tl_registered _ _ Ht _ _ Hx) as (m0 & Hm0 & Hid & Heq).
      exists m0. split; [done|]. split; [done|]. rewrite Hres, spoken_other in Heq by congruence.
      destruct (Hrec (completion_cell x)) as [->|(x' & Hx' & Hc & Hcode & _)]; [done|]. exfalso.
      destruct (Hnext _ _ x' Hm0 Hc Hcode Hx') as [Hid' _]. congruence.
Qed.

(** The server speaks under the ids of its rpcs only. *)
Lemma server_io_speaks (s s' : RpcSubmitter V P W) (i : list Req) (o : list Res) id :
  server_io (K:=K) (F:=F) (S:=S) s i o s' → sub_ok (F:=F) (S:=S) s → id ∉ (tags s).*1 → spoken id o = [].
Proof.
  intros Hstep Hok Hid. destruct Hstep as [m|k room p s2 out Hw He|k]; [done| |done].
  destruct (answers_spec _ _ _ _ _ _ Hok Hw He) as (sent & ms & -> & _ & Hms & _).
  rewrite spoken_app. rewrite (spoken_cancels _ (cancelled <$> sent)).
  - apply spoken_none. eapply Forall_impl; [exact Hms|]. intros m (id' & Hin & Hm) Heq.
    apply Hid. by rewrite <-Heq, (sent_by_id _ _ Hm).
  - apply Forall_fmap, Forall_forall. intros id' _. apply control_code_cancelled.
Qed.

(** The server hears a request, or answers. *)
Lemma tells_server y h got sent rest s' :
  sys_ok y → sys_ok (mkSystem (sy_client y) rest s' (sy_responses y ++ sent) (sy_log y)) →
  calls_keep (sy_log y) → sy_requests y = got ++ rest →
  server_io (K:=K) (F:=F) (S:=S) (sy_server y) got sent s' → tells y h →
  tells (mkSystem (sy_client y) rest s' (sy_responses y ++ sent) (sy_log y)) (extend h sent).
Proof.
  intros Hok Hok' Hkeep Hreq Hstep Ht. pose proof (tl_requests _ _ Ht) as Hrq. rewrite Hreq in Hrq.
  apply Forall_app in Hrq as [Hgot Hrest].
  pose proof (so_ids _ _ Hok) as Hids. apply NoDup_app in Hids as (_ & Hnew & (_ & Hold & Hnd)%NoDup_app).
  destruct (server_io_says _ _ _ _ h Hstep Hnd) as [Hh Hp]; [|apply Ht..|].
  { eapply Forall_impl; [exact Hgot|]. intros m Hm. split; [|by intros Hc; apply Hm]. intros Hc.
    destruct (Hm Hc) as [_ Hin]. apply list_elem_of_fmap in Hin as (e & -> & He).
    unfold calls_keep in Hkeep. rewrite Forall_forall in Hkeep. by apply Hkeep. }
  pose proof (λ id, server_io_speaks _ _ _ _ id Hstep (server_reachable_ok _ (so_server _ _ Hok))) as Hquiet.
  set (y' := mkSystem _ _ _ _ _) in *.
  assert (∀ c, received y' c = received y c) as Hrec by done.
  split; try apply Ht; try done.
  - intros id Hid. unfold extend. rewrite (tl_unused _ _ Ht id Hid). simpl.
    apply spoken_none, Forall_forall. intros m Hm Heq. pose proof (so_responses _ _ Hok') as Hr.
    rewrite Forall_forall in Hr. apply Hid. rewrite <-Heq. apply Hr. simpl. apply elem_of_app. by right.
  - rewrite Forall_forall. intros n Hn. pose proof (tl_queue _ _ Ht) as Hq. rewrite Forall_forall in Hq.
    specialize (Hq n Hn). destruct n as [rpc|id]; [|done]. simpl in *. destruct Hq as (Hnil & ? & ?).
    split_and!; try done. unfold extend. rewrite Hnil, Hquiet; [done|].
    pose proof (so_queue _ _ Hok) as Hnq. rewrite Forall_forall in Hnq. destruct (Hnq _ Hn) as (Hid & _).
    assert (cr_message_id rpc ∈ new_ids (notifications (sy_client y))) as Hin
      by (apply list_elem_of_bind; exists (New rpc); split; [by left|done]).
    rewrite <-Hid. intros Hin'. apply (Hnew _ Hin). apply elem_of_app. by right.
  - rewrite Forall_forall in Hrest |- *. intros m Hm Hc. destruct (Hrest m Hm Hc) as [Hnil Hin]. split; [|done].
    unfold extend. rewrite Hnil, Hquiet; [done|]. apply Hold. unfold normal_ids. apply list_elem_of_fmap_2.
    apply list_elem_of_filter. split; [done|]. rewrite Hreq. apply elem_of_app. by right.
  - intros c m Hm. rewrite Hrec. etrans; [by apply (tl_received _ _ Ht)|]. by eexists.
  - intros id. simpl. rewrite spoken_app. unfold extend. destruct (tl_way _ _ Ht id) as [pre ->].
    exists pre. by rewrite <-app_assoc.
  - intros id x Hx. destruct (tl_registered _ _ Ht id x Hx) as (m & Hm & Hid & Heq). exists m.
    split; [done|]. split; [done|]. simpl. rewrite Hrec, spoken_app, app_assoc. unfold extend. by rewrite <-Heq.
Qed.

Lemma system_step_tells y y' h :
  system_step (K:=K) (F:=F) (S:=S) streams y y' → sys_ok y → sys_ok y' → calls_keep (sy_log y) →
  tells y h → ∃ h', tells y' h'.
Proof.
  intros Hstep Hok Hok' Hkeep Ht. pose proof (so_world _ _ Hok) as Hw.
  destruct Hstep as [c m res q' r' Hc Hn Hf He|c m res q' r' Hc Hn Hf Hs He|heard w' Hs|got sent rest w' Hr Hs
    |got sent rest s' Hr Hs].
  - exists h. destruct (call_unary_cells _ _ _ _ _ _ _ He). eapply tells_called; try done.
    by eapply call_unary_effect.
  - exists h. destruct (call_streaming_cells _ _ _ _ _ _ _ He). eapply tells_called; try done.
    by eapply call_streaming_effect.
  - exists h. by apply tells_caller.
  - exists h. destruct Hs as [k p q' v' Hc He|m status r' Hc He].
    + pose proof (tells_takes y h k p q' v' Hok He) as Ht'. simpl in Hr. subst rest. by destruct p as [[n|]|]; apply Ht'.
    + rewrite app_nil_r. by eapply tells_hears.
  - exists (extend h sent). by eapply tells_server.
Qed.

Lemma step_calls y y' :
  system_step (K:=K) (F:=F) (S:=S) streams y y' → calls_keep (sy_log y') → calls_keep (sy_log y).
Proof. destruct 1; try done; intros Hk; by apply Forall_cons in Hk as [_ Hk]. Qed.

Lemma system_reachable_tells y :
  system_reachable (K:=K) (F:=F) (S:=S) streams y → calls_keep (sy_log y) → ∃ h, tells y h.
Proof.
  induction 1 as [x v q service Hch|y y' Hr IH Hstep]; intros Hkeep.
  - exists (λ _, []). split; simpl; try done.
    + intros id. apply may_say_nothing.
    + rewrite pool_contents_default. constructor.
    + rewrite (notifications_new x v q Hch). constructor.
    + by intros c m m' Hm%not_elem_of_nil.
  - destruct (IH (step_calls _ _ Hstep Hkeep)) as [h Ht].
    pose proof (system_reachable_ok streams Hservice y Hr) as Hok.
    eapply system_step_tells; [done..|by eapply system_step_ok|by eapply step_calls|done].
Qed.

(** Every caller has heard a beginning of something the service may say to it. *)
Lemma callers_hear y c m :
  system_reachable (K:=K) (F:=F) (S:=S) streams y → calls_keep (sy_log y) → (c, m) ∈ log_calls (sy_log y) →
  ∃ said, may_say (F:=F) (S:=S) (K:=K) (message_id m) said ∧ heard_from (sy_log y) c `prefix_of` said.
Proof.
  intros Hr Hk Hm. destruct (system_reachable_tells y Hr Hk) as [h Ht]. exists (h (message_id m)).
  split; [apply Ht|]. etrans; [|by apply (tl_received _ _ Ht)]. by eexists.
Qed.

(** No two calls share an id. *)
Lemma calls_distinct y : system_reachable (K:=K) (F:=F) (S:=S) streams y → NoDup (sy_used y).
Proof.
  induction 1 as [x v q service Hch|y y' _ IH Hstep]; [constructor|].
  destruct Hstep; try exact IH; by apply NoDup_cons.
Qed.

Lemma calls_determined y m m' :
  system_reachable (K:=K) (F:=F) (S:=S) streams y → m ∈ (log_calls (sy_log y)).*2 → m' ∈ (log_calls (sy_log y)).*2 →
  message_id m = message_id m' → m = m'.
Proof.
  intros Hr Hm Hm' Hid. pose proof (calls_distinct y Hr) as Hnd.
  apply list_elem_of_fmap in Hm as (e & -> & He), Hm' as (e' & -> & He').
  apply list_elem_of_lookup in He as [i Hi], He' as [j Hj]. unfold sy_used, log_used in Hnd.
  rewrite NoDup_alt in Hnd. assert (i = j) as ->; [|rewrite Hi in Hj; by injection Hj as ->].
  eapply Hnd; rewrite list_lookup_fmap; [by rewrite Hi|by rewrite Hj, Hid].
Qed.
End system.

(** ** Services whose answers are a function of the request

    Such are the echo services of the examples. *)

Section answers.
Context {Req V F K : Type} `{MessageLaws Req} `{!FutureOp F K Response} `{!ConnectionService V K Req F (list Response)}.
Context (answers : Req → list Response).

(** The answers are responses under the id of their request. *)
Definition own_answers : Prop := ∀ m r,
  r ∈ answers m → control_code r = Normal ∧ res_request_id r = message_id m.

Lemma set_own_id id r : res_request_id r = id → set_message_id r id = r.
Proof. intros <-. by destruct r. Qed.

(** Its histories, when [ms] are the requests. *)
Definition answer_history (Hown : own_answers) (ms : list Req) : ServiceHistory F (list Response) K Response.
Proof.
  refine {|
    may_say id l := l = [] ∨ ∃ m, m ∈ ms ∧ id = message_id m ∧ l `prefix_of` answers m;
    future_says id f := ∃ m, m ∈ ms ∧ id = message_id m ∧ ∀ k, ∃ r, (poll_future f k).1 = Ready r ∧ answers m = [r];
    stream_says id l items := ∃ m, m ∈ ms ∧ id = message_id m ∧ answers m = l ++ items |}.
  - by left.
  - intros id f k (m & Hm & -> & Hf). destruct (Hf k) as (r & Hr & Ha).
    destruct (poll_future f k) as [p f']. simpl in Hr. subst p.
    destruct (Hown m r) as [Hc Hid]; [rewrite Ha; by left|].
    rewrite (set_own_id _ r Hid). split; [done|]. right. exists m. by rewrite Ha.
  - intros id l [|r items] k (m & Hm & -> & Ha); unfold poll_stream, iter_stream; [done|].
    destruct (Hown m r) as [Hc Hid]; [rewrite Ha; set_solver|].
    rewrite (set_own_id _ r Hid). rewrite (cons_middle r), app_assoc in Ha. split; [done|].
    split; [right|]; exists m; [rewrite Ha|done]. split_and!; [done..|]. by eexists.
Defined.

Context (wants_stream : Req → Prop).

(** The service starts a future that is ready with the answer, or the answers as a
    stream, as the request wants it. *)
Definition gives_answers : Prop := ∀ (v : V) m,
  match (new_rpc (F:=F) (S:=list Response) (K:=K) v m).1 with
  | RpcUnary f => ¬ wants_stream m ∧ ∀ k, ∃ r, (poll_future f k).1 = Ready r ∧ answers m = [r]
  | RpcStreaming items => wants_stream m ∧ answers m = items
  | RpcCancelled => answers m = []
  end.

Context (Hgives : gives_answers).

Lemma gives_streams (v : V) m :
  wants_stream m →
  match (new_rpc (F:=F) (S:=list Response) (K:=K) v m).1 with RpcUnary _ => False | _ => True end.
Proof. intros Hs. pose proof (Hgives v m) as He. destruct (new_rpc v m).1; [by destruct He|done..]. Qed.

Lemma answers_keep (Hown : own_answers) (l : Log Req Response) :
  calls_keep (V:=V) (F:=F) (S:=list Response) (ServiceHistory0:=answer_history Hown (log_calls l).*2) l.
Proof.
  apply Forall_forall. intros [c m] Hin _ v. simpl.
  assert (m ∈ (log_calls l).*2) as Hm by (apply list_elem_of_fmap; by exists (c, m)).
  pose proof (Hgives v m) as He. destruct (new_rpc v m).1; [destruct He as [_ He]|destruct He as [_ He]|done]; by exists m.
Qed.
End answers.

(** ** The echo service *)

Module Histories.
Import WakerCell RpcReactor Systems.

(** What the echo service answers to a request. *)
Definition echo_answers (m : Request) : list Response :=
  match req_body m with
  | Some echo =>
      match req_response_behavior m with
      | ExampleService.Unary => [echo_request (req_request_id m) echo]
      | Stream => echo_stream (req_request_id m) echo
      end
  | None => []
  end.

Lemma echo_answers_own : own_answers echo_answers.
Proof.
  intros m r. unfold echo_answers. destruct (req_body m) as [echo|]; [|by intros ?%not_elem_of_nil].
  destruct (req_response_behavior m); [by intros ->%list_elem_of_singleton|].
  intros Hr. split; [|by apply (proj1 (Forall_forall _ _) (echo_stream_ids _ echo))].
  unfold echo_stream in Hr. apply list_elem_of_lookup in Hr as (i & Hi).
  rewrite list_lookup_imap in Hi. by destruct (er_message echo !! i); simplify_eq/=.
Qed.

Lemma echo_gives {K} : gives_answers (V:=unit) (F:=Response) (K:=K) echo_answers wants_stream.
Proof.
  intros v m. simpl. unfold echo_answers, wants_stream. destruct (req_body m) as [echo|]; [|done].
  destruct (req_response_behavior m); split; try done. intros k. by eexists.
Qed.

(** Callers of the echo service hear their own words: whatever calls are made,
    dropped and cancelled, and in whatever order clients, connection and server
    move, what a caller has heard from its completion is a beginning of what the
    service answers to that caller's own request, in order, with nothing left out
    between and nothing of anybody else's. *)
Theorem echo_callers_hear_their_words (y : EchoSystem) (c : nat) (m : Request)
  (Hreach : echo_reachable y) (Hcall : (c, m) ∈ log_calls (sy_log y)) :
  heard_from (sy_log y) c `prefix_of` echo_answers m.
Proof.
  destruct (callers_hear
    (ServiceHistory0:=answer_history (F:=Response) echo_answers echo_answers_own (log_calls (sy_log y)).*2)
    wants_stream echo_streams y c m Hreach (answers_keep _ _ echo_gives _ _) Hcall) as (said & Hsaid & Hpre).
  destruct Hsaid as [->|(m' & Hm' & Hid & Hsaid)]; [apply prefix_nil_inv in Hpre; rewrite Hpre; apply prefix_nil|].
  rewrite (calls_determined wants_stream y m' m Hreach Hm') in Hsaid; [by etrans| |done].
  apply list_elem_of_fmap. by exists (c, m).
Qed.

(** Witness: a unary call is made, answered and heard. *)
Definition do_hear_unary (y : EchoSystem) (u : UnaryCompletion) : EchoSystem :=
  match unary_poll u 9%nat (cells (w_reactor (sy_client y))) with
  | Return (p, _, cs) =>
      mkSystem (mkWorld (w_queue (sy_client y)) (w_receiver (sy_client y)) (w_connected (sy_client y))
                 (set_cells (w_reactor (sy_client y)) cs))
        (sy_requests y) (sy_server y) (sy_responses y)
        (log_hear match p with Ready (Ok m) => [(uc_completion u, m)] | _ => [] end (sy_log y))
  | _ => y
  end.

Lemma do_hear_unary_reachable y u : echo_reachable y → echo_reachable (do_hear_unary y u).
Proof.
  intros Hr. unfold do_hear_unary. destruct (unary_poll _ _ _) as [[[p u'] cs]| |] eqn:He; [|done..].
  eapply system_next; [exact Hr|]. eapply sys_caller. by eapply (caller_poll_unary _ (sy_client y) u 9%nat).
Qed.

Definition echo_heard : EchoSystem :=
  do_hear_unary echo_done (mkUnaryCompletion 0 (mkCompletionGuard false 7 (mkSender 1))).

Lemma echo_callers_hear_their_words_witness :
  heard_from (sy_log echo_heard) 0 = [echo_request 7 (mkEchoRequest [104; 105] 42)] ∧
  heard_from (sy_log echo_heard) 0 `prefix_of` echo_answers echo_call.
Proof.
  split; [vm_compute; reflexivity|].
  apply (echo_callers_hear_their_words echo_heard 0%nat echo_call).
  - apply do_hear_unary_reachable, echo_done_reachable.
  - vm_compute. by left.
Defined.
End Histories.
