(* ===== verification/ServerAnswers.v ===== *)
(** * The server answers in full

    What a service says under an id from first to last is a class; the submitter
    ([RpcServer]) gives it all to a call that is not aborted: as long as the call's
    rpc is in the pool what goes out does not end the call, and what goes out when it
    leaves the pool ends with the whole answer. *)

From S2P Require Import Prelude Spillway Encoding Connection RpcMessage ExampleService RpcServer RpcServerSpec.
From S2P Require Import RpcClient RpcClientSpec ServerConnection System Progress ServiceHistory.
Local Open Scope N_scope.
Local Open Scope run_scope.

(** What a service says under an id from first to last. *)
Class ServiceAnswers (F S K Res : Type) `{ServiceHistory F S K Res} := {
  full_says : u64 → list Res → Prop;
  future_full id f k :
    future_says id f →
    match poll_future f k with (Ready r, _) => full_says id [set_message_id r id] | _ => True end;
  stream_full id l x k :
    stream_says id l x →
    match poll_stream x k with (Ready None, _) => full_says id l | _ => True end;
}.

(** ** The messages under one id *)

Section one_id.
Context {Res : Type} `{MessageLaws Res} (id : u64) (unary : bool).
Implicit Types m : Res.
Implicit Types ms : list Res.

(** A response that does not end the call, the one that does, and a list of messages
    that ends it. *)
Definition not_last m : Prop := message_id m = id → unary = false ∧ control_code m = Normal.
Definition last_one m : Prop := message_id m = id ∧ (unary = false → control_code m ≠ Normal).
Definition ends ms : Prop := ∃ pre m post,
  ms = pre ++ m :: post ∧ Forall not_last pre ∧ last_one m ∧ spoken id post = [].

Lemma not_last_others ms : Forall (λ m, message_id m ≠ id) ms → Forall not_last ms.
Proof. intros Hms. eapply Forall_impl; [exact Hms|]. by intros m Hm ?. Qed.

Lemma ends_app_l ms ms' : Forall not_last ms → ends ms' → ends (ms ++ ms').
Proof.
  intros Hms (pre & m & post & -> & Hpre & Hrest). exists (ms ++ pre), m, post.
  by rewrite <-app_assoc, Forall_app.
Qed.

Lemma ends_app_r ms ms' : ends ms → spoken id ms' = [] → ends (ms ++ ms').
Proof.
  intros (pre & m & post & -> & Hpre & Hm & Hpost) Hms. exists pre, m, (post ++ ms').
  rewrite <-app_assoc, spoken_app, Hpost. by split_and!.
Qed.

(** The end of a call is heard, or comes later. *)
Lemma ends_cons m ms :
  ends (m :: ms) → (last_one m ∧ spoken id ms = []) ∨ (not_last m ∧ ends ms).
Proof.
  intros ([|m' pre] & x & post & Heq & Hpre & Hm & Hpost); injection Heq as -> ->; [by left|].
  apply Forall_cons in Hpre as [Hm' Hpre]. right. split; [done|]. by exists pre, x, post.
Qed.
End one_id.

(** ** The submitter serves a call *)

Section server.
Context {V K Req Res F S P W : Type}.
Context `{AtomicWaker W K} `{FutureOp F K Res} `{StreamOp S K Res} `{MessageLaws Res}.
Context `{!ServiceHistory F S K Res} `{!ServiceAnswers F S K Res}.
Context `{ConnectionService V K Req F S} `{!Message Req}.
Context `{FuturesUnorderedLaws P (RpcStream F S) (u64 * RpcStreamEvent Res) (list (AbortCell W))}.
Abbreviation Sub := (RpcSubmitter V P W).
Abbreviation Rpc := (RpcStream F S).
Implicit Types s : Sub.
Implicit Types h : u64 → list Res.
Implicit Types l : list Res.
Implicit Types x : Rpc.
Implicit Types xs : list Rpc.
Implicit Types st : list (AbortCell W).

Context (id : u64).

(** What the call's own rpc yields, after it has said [l], when it is not aborted. *)
Definition event_own l (e : RpcStreamEvent Res) : Prop :=
  match e with
  | Item _ => control_code (event_message id e) = Normal
  | Complete _ | Finished => full_says id (l ++ spoken id [event_message id e])
  | Cancelled => False
  end.

Lemma rpc_poll_own (k : K) st x l :
  rs_id x = id → cell_aborted st (rs_cell x) = false → rpc_says (K:=K) l x →
  match (rpc_poll_next k st x).1.1 with Ready (Some (_, e)) => event_own l e | _ => True end.
Proof.
  intros Hid Ha Hx. unfold rpc_poll_next.
  assert (cell_aborted (register_waker st (rs_cell x) k) (rs_cell x) = false) as ->
    by (by rewrite cell_aborted_bits, bits_register, <-cell_aborted_bits).
  unfold rpc_says in Hx. destruct (rs_kind x) as [f|y|]; [| |done].
  - destruct Hx as [-> Hf]. rewrite Hid in Hf. pose proof (future_full id f k Hf) as Hfull.
    pose proof (future_says_law id f k Hf) as Hlaw. destruct (poll_future f k) as [[r|] f']; [|done].
    simpl in *. rewrite spoken_cons, decide_True; [done|]. split; [apply Hlaw|by rewrite message_id_set].
  - rewrite Hid in Hx. pose proof (stream_full id l y k Hx) as Hfull.
    pose proof (stream_says_law id l y k Hx) as Hlaw. destruct (poll_stream y k) as [[[r|]|] y']; simpl in *; [|..|done].
    + apply Hlaw.
    + rewrite spoken_control by (by rewrite control_code_ended). simpl. by rewrite app_nil_r.
Qed.

(** A pool in which the call's own rpc, if it is there, has said what [h] says it
    has, and is not aborted. *)
Record pool_serves st h xs : Prop := {
  ps_ids : NoDup (rs_id <$> xs);
  ps_live : Forall live xs;
  ps_says : pool_says (K:=K) h xs;
  ps_flag x : x ∈ xs → rs_id x = id → cell_aborted st (rs_cell x) = false;
}.

#[local] Instance pool_serves_proper st h : Proper ((≡ₚ) ==> iff) (pool_serves st h).
Proof.
  assert (∀ xs ys, xs ≡ₚ ys → pool_serves st h xs → pool_serves st h ys) as Himp.
  { intros xs ys Hp [H1' H2' H3' H4']. unfold pool_says in H3'. split.
    - by rewrite <-Hp.
    - by rewrite <-Hp.
    - unfold pool_says. by rewrite <-Hp.
    - intros x. rewrite <-Hp. apply H4'. }
  intros xs ys Hp. split; apply Himp; [done|by symmetry].
Qed.

(** One poll of the pool. *)
Lemma pool_polls_own (k : K) h xs st r xs' st' :
  pool_polls (rpc_poll_next k) xs st r xs' st' → histories_ok (F:=F) (S:=S) (K:=K) h → pool_says (K:=K) h xs →
  (∀ x, x ∈ xs → rs_id x = id → cell_aborted st (rs_cell x) = false) →
  (∀ x, x ∈ xs' → rs_id x = id → cell_aborted st' (rs_cell x) = false) ∧
  match r with
  | Ready (Some (first, x)) =>
      (rs_id x = id → cell_aborted st' (rs_cell x) = false) ∧
      match first with Some (i, e) => i = id → event_own (h id) e | None => True end
  | _ => True
  end.
Proof.
  intros Hp Hh. induction Hp as [st|xs st Hne|xs i x st item st' x' Hi Hp|xs i x st st' x' r xs2 st2 Hi Hp _ IH];
    intros Hs Hf; [done|done| |].
  - pose proof (rpc_poll_next_spec k st x) as Hspec. rewrite Hp in Hspec. destruct Hspec as (Hb & Hid & Hc & _).
    assert (∀ c, cell_aborted st' c = cell_aborted st c) as Hsame by (intros c; by rewrite !cell_aborted_bits, Hb).
    split; [|split].
    + intros y Hy. rewrite Hsame. apply Hf. eapply elem_of_submseteq; [exact Hy|].
      apply sublist_submseteq, sublist_delete.
    + rewrite Hid, Hc, Hsame. apply Hf. by eapply list_elem_of_lookup_2.
    + destruct item as [[i' e]|]; [|done]. pose proof (Forall_lookup_1 _ _ _ _ Hs Hi) as Hx.
      pose proof (rpc_poll_says k st x _ Hx (Hh _)) as Hsx. rewrite Hp in Hsx. destruct Hsx as (_ & -> & _).
      intros Heq. assert (x ∈ xs) as Hin by (by eapply list_elem_of_lookup_2).
      pose proof (rpc_poll_own k st x _ Heq (Hf x Hin Heq) Hx) as Hown. rewrite Hp in Hown. simpl in Hown.
      by rewrite Heq in Hown.
  - pose proof (rpc_poll_next_spec k st x) as Hspec. rewrite Hp in Hspec. destruct Hspec as (Hb & Hid & Hc & _).
    pose proof (rpc_poll_says k st x _ (Forall_lookup_1 _ _ _ _ Hs Hi) (Hh _)) as Hx. rewrite Hp in Hx.
    apply IH.
    + apply Forall_insert; [done|]. rewrite Hid. apply Hx.
    + intros y Hy Hyid. rewrite cell_aborted_bits, Hb, <-cell_aborted_bits.
      apply list_elem_of_lookup in Hy as [j Hj]. apply list_lookup_insert_Some in Hj as [(_ & <- & _)|[_ Hj]].
      * rewrite Hc. apply Hf; [by eapply list_elem_of_lookup_2|congruence].
      * apply Hf; [by eapply list_elem_of_lookup_2|done].
Qed.

(** An event of the call's rpc ends the call, or does not. *)
Lemma event_own_last u l e :
  event_own l e → event_fits u e → is_terminal e = true →
  ends id u [event_message id e] ∧ full_says id (l ++ spoken id [event_message id e]).
Proof.
  intros He Hu Ht. split; [|by destruct e]. exists [], (event_message id e), []. split_and!; try done.
  split; [apply event_message_id|]. destruct e; simpl in *; try done; [congruence|].
  by rewrite control_code_ended.
Qed.

Lemma event_own_not_last u l e :
  event_own l e → event_fits u e → is_terminal e = false → not_last id u (event_message id e).
Proof. by destruct e; intros He Hu Ht ?. Qed.

Lemma pool_turn_own (k : K) h s r pool st :
  pool_serves (flags s) h (pool_contents (rpcs s)) → histories_ok (F:=F) (S:=S) (K:=K) h →
  pool_poll_next (rpc_poll_next k) (rpcs s) (flags s) = (r, pool, st) →
  pool_serves st h (pool_contents pool) ∧
  match r with
  | Ready (Some (first, x)) =>
      ∃ e u, first = Some (rs_id x, e) ∧ is_done (rs_kind x) = is_terminal e ∧
        (tag <$> pool_contents (rpcs s)) ≡ₚ (rs_id x, u) :: (tag <$> pool_contents pool) ∧ event_fits u e ∧
        (is_terminal e = false → is_unary (rs_kind x) = u) ∧ (rs_id x ∉ rs_id <$> pool_contents pool) ∧
        (let l' := h (rs_id x) ++ spoken (rs_id x) [event_message (rs_id x) e] in
         may_say (F:=F) (S:=S) (K:=K) (rs_id x) l' ∧ rpc_says (K:=K) l' x) ∧
        (rs_id x = id → event_own (h id) e ∧ cell_aborted st (rs_cell x) = false)
  | _ => tag <$> pool_contents pool ≡ₚ tag <$> pool_contents (rpcs s)
  end.
Proof.
  intros Hs Hh He. pose proof (pool_poll_law (rpc_poll_next k) (rpcs s) (flags s)) as Hl. rewrite He in Hl.
  destruct Hl as (xs & xs' & Hxs & Hxs' & Hp). rewrite Hxs in Hs. destruct Hs as [Hids Hlive Hsay Hflag].
  assert ((tag <$> pool_contents (rpcs s)) ≡ₚ (tag <$> xs) ∧ (tag <$> pool_contents pool) ≡ₚ (tag <$> xs') ∧
    (rs_id <$> pool_contents pool) ≡ₚ (rs_id <$> xs')) as (Ht1 & Ht2 & Hi2) by (by rewrite Hxs, Hxs').
  assert (pool_serves st h xs' → pool_serves st h (pool_contents pool)) as Hback by (by rewrite Hxs').
  destruct (pool_polls_spec k _ _ _ _ _ Hp Hlive) as (_ & Hlive' & Hspec).
  pose proof (pool_polls_says k h _ _ _ _ _ Hp Hh Hsay) as Hsays.
  destruct (pool_polls_own k h _ _ _ _ _ Hp Hh Hsay Hflag) as [Hflag' Hown].
  destruct r as [[[first x]|]|].
  2, 3: destruct Hspec as [_ Ht], Hsays as [Hi Hsay']; split;
    [apply Hback; split; [by rewrite Hi|done..]|by rewrite Ht1, Ht2, Ht].
  destruct Hspec as (_ & e & u & -> & Hdone & Htags & Hfits & _ & Hkind), Hsays as (Hi & Hsay' & _ & Hm & Hx).
  destruct Hown as [Hfx Hown]. rewrite Hi in Hids. apply NoDup_cons in Hids as [Hni Hids].
  split; [by apply Hback|]. exists e, u.
  split_and!; [done|done|by rewrite Ht1, Ht2|done|done|by rewrite Hi2|done|]. intros Heq. split; [by apply Hown|by apply Hfx].
Qed.

(** A streaming rpc that is drained. *)
Record drains l x (z : bool) x' s s' (ms : list Res) : Prop := {
  dr_ids : Forall (λ m, message_id m = rs_id x) ms;
  dr_rpcs : rpcs s' = rpcs s;
  dr_bits : bits (flags s') = bits (flags s);
  dr_same : rs_id x' = rs_id x ∧ rs_cell x' = rs_cell x;
  dr_may : may_say (F:=F) (S:=S) (K:=K) (rs_id x) (l ++ spoken (rs_id x) ms);
  dr_says : rpc_says (K:=K) (l ++ spoken (rs_id x) ms) x';
  dr_live : z = false → live x' ∧ is_unary (rs_kind x') = false;
  dr_own : rs_id x = id →
    if z then ends id false ms ∧ full_says id (l ++ spoken id ms) else Forall (not_last id false) ms;
}.

Lemma drains_nothing l x x' s st :
  bits st = bits (flags s) → rs_id x' = rs_id x → rs_cell x' = rs_cell x → live x' → is_unary (rs_kind x') = false →
  may_say (F:=F) (S:=S) (K:=K) (rs_id x) l → rpc_says (K:=K) l x' →
  drains l x false x' s (set_pool s (rpcs s) st) [].
Proof. intros. split; simpl; rewrite ?app_nil_r; try done; constructor. Qed.

Lemma drains_event l x x1 s st e :
  bits st = bits (flags s) → rs_id x1 = rs_id x → rs_cell x1 = rs_cell x → is_terminal e = true → event_fits false e →
  (let l' := l ++ spoken (rs_id x) [event_message (rs_id x) e] in
   may_say (F:=F) (S:=S) (K:=K) (rs_id x) l' ∧ rpc_says (K:=K) l' x1) →
  (rs_id x = id → event_own l e) →
  drains l x true x1 s (message_for_event (set_pool s (rpcs s) st) (rs_id x) e).2 [event_message (rs_id x) e].
Proof.
  intros Hb Hid Hc Ht Hf [Hm Hx] Hown. split; try done.
  - constructor; [apply event_message_id|done].
  - by rewrite message_for_event_rpcs.
  - by destruct e.
  - intros Heq. rewrite Heq. apply (event_own_last false l); [by apply Hown|done..].
Qed.

Lemma drains_more l x x1 x' z s s1 s' ms e :
  bits (flags s1) = bits (flags s) → rpcs s1 = rpcs s → rs_id x1 = rs_id x → rs_cell x1 = rs_cell x →
  is_terminal e = false → event_fits false e → (rs_id x = id → event_own l e) →
  drains (l ++ spoken (rs_id x) [event_message (rs_id x) e]) x1 z x' s1 s' ms →
  drains l x z x' s s' (event_message (rs_id x) e :: ms).
Proof.
  intros Hb Hp Hid Hc Ht Hf Hown [D1 D2 D3 [D4 D4'] D5 D6 D7 D8]. rewrite Hid in *.
  change (event_message (rs_id x) e :: ms) with ([event_message (rs_id x) e] ++ ms).
  rewrite <-app_assoc, <-spoken_app in D5, D6. split; try done; [|congruence|congruence| |].
  - apply Forall_app. split; [|done]. constructor; [apply event_message_id|done].
  - split; congruence.
  - intros Heq. rewrite Heq in *. specialize (D8 eq_refl).
    assert (Forall (not_last id false) [event_message id e]) as Hn
      by (constructor; [apply (event_own_not_last false l); [by apply Hown|done..]|done]).
    rewrite <-app_assoc, <-spoken_app in D8. destruct z; [|by apply Forall_app].
    destruct D8 as [D8 Hfull]. split; [by apply ends_app_l|done].
Qed.

(** What some messages do for the call: its rpc stays in the pool and the call goes
    on, or it leaves and the call has been answered in full; or it was not there. *)
Definition served (u : bool) (ts ts' : list (u64 * bool)) h (ms : list Res) : Prop :=
  ((id, u) ∈ ts ∧
   ((id, u) ∈ ts' ∧ Forall (not_last id u) ms ∨
    (id ∉ ts'.*1) ∧ ends id u ms ∧ full_says id (extend h ms id))) ∨
  ((id ∉ ts.*1) ∧ (id ∉ ts'.*1) ∧ Forall (λ m, message_id m ≠ id) ms).

Lemma tagged_id (u : bool) (ts : list (u64 * bool)) : (id, u) ∈ ts → id ∈ ts.*1.
Proof. intros Hin. by apply (list_elem_of_fmap_2 fst) in Hin. Qed.

Lemma served_nothing u ts ts' h : ts ≡ₚ ts' → (id, u) ∈ ts ∨ id ∉ ts.*1 → served u ts ts' h [].
Proof. intros Hp [Hin|Hni]; [left|right]; rewrite <-Hp; [by auto|by split_and!]. Qed.

Lemma served_trans u ts ts1 ts2 h ms ms' :
  served u ts ts1 h ms → served u ts1 ts2 (extend h ms) ms' → served u ts ts2 h (ms ++ ms').
Proof.
  intros [[Hin [[Hin1 Hms]|(Hni1 & Hms & Hfull)]]|(Hni & Hni1 & Hms)]
    [[Hin1' [[Hin2 Hms']|(Hni2 & Hms' & Hfull')]]|(Hni1' & Hni2 & Hms')];
    try by (apply tagged_id in Hin1'). 
  - left. split; [done|]. left. split; [done|]. by apply Forall_app.
  - left. split; [done|]. right. split; [done|]. split; [by apply ends_app_l|]. by rewrite extend_app.
  - by apply tagged_id in Hin1.
  - left. split; [done|]. right. split; [done|]. pose proof (spoken_none id ms' Hms') as Hnone.
    split; [by apply ends_app_r|]. rewrite extend_app. unfold extend at 1. by rewrite Hnone, app_nil_r.
  - right. split_and!; [done..|]. by apply Forall_app.
Qed.

(** One rpc speaks, and leaves the pool when [z]. *)
Lemma turn_served u u' x (z : bool) ts ts1 ts' h ms :
  NoDup ts.*1 → ts ≡ₚ (rs_id x, u') :: ts1 → ts' ≡ₚ (if z then [] else [(rs_id x, u')]) ++ ts1 →
  (id, u) ∈ ts ∨ id ∉ ts.*1 → Forall (λ m, message_id m = rs_id x) ms →
  (rs_id x = id →
   if z then ends id u' ms ∧ full_says id (h id ++ spoken id ms) else Forall (not_last id u') ms) →
  served u ts ts' h ms.
Proof.
  intros Hnd Hts Hts' Hin Hids Hown. destruct (decide (rs_id x = id)) as [Hx|Hx].
  - specialize (Hown Hx). rewrite Hx in *. rewrite Hts in Hnd. apply NoDup_cons in Hnd as [Hni _].
    assert (u' = u) as ->.
    { destruct Hin as [Hin|Hin]; rewrite Hts in Hin; [|by destruct Hin; left].
      apply elem_of_cons in Hin as [Hin|Hin]; [by injection Hin|]. by apply tagged_id in Hin. }
    left. rewrite Hts. split; [by left|]. destruct z; [right|left]; rewrite Hts'.
    { split; [exact Hni|exact Hown]. }
    split; [by left|done].
  - assert (Forall (λ m, message_id m ≠ id) ms) as Hms by (eapply Forall_impl; [exact Hids|]; simpl; congruence).
    assert ((id, u) ∈ ts → (id, u) ∈ ts') as Hkeep.
    { rewrite Hts, Hts'. intros [[= He _]|Hi]%elem_of_cons; [by destruct Hx|]. apply elem_of_app. by right. }
    destruct Hin as [Hi|Hi]; [left|right].
    + split; [done|]. left. split; [by apply Hkeep|by apply not_last_others].
    + split_and!; [done| |done]. intros Hi'. apply Hi. rewrite Hts. rewrite Hts', fmap_app in Hi'.
      apply elem_of_app in Hi' as [Hi'|Hi']; [|by right].
      destruct z; [by apply not_elem_of_nil in Hi'|]. apply list_elem_of_singleton in Hi'. by destruct Hx.
Qed.

Lemma drained_own l u (z : bool) (m : Res) ms :
  not_last id u m →
  (if z then ends id u ms ∧ full_says id l else Forall (not_last id u) ms) →
  if z then ends id u ([m] ++ ms) ∧ full_says id l else Forall (not_last id u) ([m] ++ ms).
Proof.
  intros Hm. assert (Forall (not_last id u) [m]) as Hn by (by constructor).
  destruct z; [|by constructor]. intros [He Hf]. split; [by apply ends_app_l|done].
Qed.

(** The pool after that. *)
Lemma pool_serves_after st st' h ms (z : bool) x x' xs :
  bits st' = bits st → pool_serves st h xs → rs_id x ∉ rs_id <$> xs → rs_id x' = rs_id x → rs_cell x' = rs_cell x →
  (z = false → live x') → Forall (λ m, message_id m = rs_id x) ms →
  rpc_says (K:=K) (h (rs_id x) ++ spoken (rs_id x) ms) x' →
  (rs_id x = id → cell_aborted st (rs_cell x) = false) →
  pool_serves st' (extend h ms) ((if z then [] else [x']) ++ xs).
Proof.
  intros Hb [H1' H2' H3' H4'] Hni Hid Hc Hlive Hms Hx Hf.
  assert (∀ c, cell_aborted st' c = cell_aborted st c) as Hsame by (intros c; by rewrite !cell_aborted_bits, Hb).
  assert (pool_serves st' (extend h ms) xs) as Hxs.
  { split; [done|done|by eapply pool_says_extend|]. intros y Hy. rewrite Hsame. by apply H4'. }
  destruct z; [done|]. destruct Hxs as [I1 I2 I3 I4]. split; simpl.
  - rewrite Hid. by apply NoDup_cons.
  - constructor; [by apply Hlive|done].
  - constructor; [|done]. by rewrite Hid.
  - intros y [->|Hy]%elem_of_cons; [|by apply I4]. rewrite Hid, Hc, Hsame. done.
Qed.

Section loops.
Context {C B : Type} `{!Encoder C Res B}.
Implicit Types b : SendBudget C B.

Lemma drain_own fuel s (k : K) b produced x l z s' b' n x' :
  live x → is_unary (rs_kind x) = false → rpc_says (K:=K) l x → may_say (F:=F) (S:=S) (K:=K) (rs_id x) l →
  (rs_id x = id → cell_aborted (flags s) (rs_cell x) = false) →
  drain_rpc fuel s k b produced x = Return (z, s', b', n, x') →
  ∃ ms, budget_uses b ms b' ∧ drains l x z x' s s' ms.
Proof.
  revert s b produced x l. induction fuel as [|fuel IH]; intros s b produced x l Hlive Hun Hx Hl Hf He; [done|].
  assert (∀ x1 st, bits st = bits (flags s) → rs_id x1 = rs_id x → rs_cell x1 = rs_cell x → live x1 →
    is_unary (rs_kind x1) = false → rpc_says (K:=K) l x1 →
    ∃ ms, budget_uses b ms b ∧ drains l x false x1 s (set_pool s (rpcs s) st) ms) as Hstop.
  { intros x1 st ??????. exists []. split; [apply uses_nothing|by apply drains_nothing]. }
  cbn [drain_rpc] in He. destruct (reserve b) as [p|] eqn:Hr; cycle 1.
  { injection He as <- <- <- _ <-. destruct (Hstop x (flags s)) as (ms & Hu & Hd); try done.
    exists ms. split; [done|]. by destruct s. }
  pose proof (rpc_poll_says k (flags s) x l Hx Hl) as Hpoll.
  pose proof (rpc_poll_next_spec k (flags s) x) as Hspec.
  pose proof (λ Heq, rpc_poll_own k (flags s) x l Heq (Hf Heq) Hx) as Hown. unfold live in Hlive. rewrite Hlive in Hspec.
  destruct (rpc_poll_next k (flags s) x) as [[r st] x1]. destruct Hpoll as [Hid Hpoll], Hspec as (Hb & _ & Hc & Hspec).
  destruct r as [[[id' e]|]|]; simpl in Hown; [|by destruct (cell_aborted _ _)|]; cycle 1.
  { injection He as <- <- <- _ <-. destruct (cell_aborted (flags s) (rs_cell x)); [done|].
    destruct Hspec as [Hl1 Hu1]. apply Hstop; try done. congruence. }
  destruct Hpoll as (-> & Hm & Hx1).
  assert (event_fits false e ∧ is_done (rs_kind x1) = is_terminal e ∧
    (is_terminal e = false → is_unary (rs_kind x1) = false)) as (Hfit & Hdone & Hun1).
  { rewrite Hun in Hspec. destruct (cell_aborted (flags s) (rs_cell x)), e; try done; by destruct_and! Hspec. }
  pose proof (message_for_event_spec (set_pool s (rpcs s) st) (rs_id x) e) as [Hmsg Hs2].
  pose proof (drains_event l x x1 s st e Hb Hid Hc) as Hlast.
  destruct (message_for_event (set_pool s (rpcs s) st) (rs_id x) e) as [m s2]. simpl in Hmsg, Hs2, Hlast. subst m.
  destruct (is_terminal e) eqn:Ht.
  - injection He as <- <- <- _ <-. exists [event_message (rs_id x) e]. split; [by apply uses_send|by apply Hlast].
  - edestruct (IH s2) as (ms & Hu & Hd); [exact Hdone|by apply Hun1|exact Hx1|..|exact He|].
    + by rewrite Hid.
    + rewrite Hid, Hc, Hs2. simpl. intros Heq. rewrite cell_aborted_bits, Hb, <-cell_aborted_bits. by apply Hf.
    + exists (event_message (rs_id x) e :: ms). split; [by econstructor|].
      eapply (drains_more l x x1); [..|exact Hd]; rewrite ?Hs2; done.
Qed.

(** What one turn of the loop over the pool comes to, or many. *)
Record turned u s b h s' b' (ms : list Res) : Prop := {
  tn_uses : budget_uses b ms b';
  tn_pool : pool_serves (flags s') (extend h ms) (pool_contents (rpcs s'));
  tn_histories : histories_ok (F:=F) (S:=S) (K:=K) (extend h ms);
  tn_served : served u (tags s) (tags s') h ms;
}.

Lemma turned_nothing u s b h s' :
  pool_serves (flags s') h (pool_contents (rpcs s')) → histories_ok (F:=F) (S:=S) (K:=K) h → tags s ≡ₚ tags s' →
  (id, u) ∈ tags s ∨ id ∉ (tags s).*1 → turned u s b h s' b [].
Proof.
  intros Hs Hh Ht Hin. split; [apply uses_nothing| | |by apply served_nothing].
  - destruct Hs. split; try done. eapply pool_says_ext; [|done]. intros x _. by rewrite extend_nil.
  - eapply histories_ext; [|done]. intros i. by rewrite extend_nil.
Qed.

Lemma turned_trans u s b h s1 b1 ms s' b' ms' :
  turned u s b h s1 b1 ms → turned u s1 b1 (extend h ms) s' b' ms' → turned u s b h s' b' (ms ++ ms').
Proof.
  intros [U1 _ _ S1] [U2 [P1 P2 P3 P4] H2' S2].
  split; [by eapply budget_uses_app| |eapply histories_ext; [|exact H2']; intros; by rewrite extend_app
    |by eapply served_trans].
  split; try done. eapply pool_says_ext; [|exact P3]. intros. by rewrite extend_app.
Qed.

Lemma turned_in u s b h s' b' ms : turned u s b h s' b' ms → (id, u) ∈ tags s' ∨ id ∉ (tags s').*1.
Proof. intros [_ _ _ [[_ [[Hi _]|[Hi _]]]|(_ & Hi & _)]]; auto. Qed.

(** An rpc that left the pool has said [ms], and is over or goes back. *)
Lemma turned_rpc u u' s b h x (z : bool) x' s' b' pool st ms :
  let l := h (rs_id x) ++ spoken (rs_id x) ms in
  NoDup (tags s).*1 → (id, u) ∈ tags s ∨ id ∉ (tags s).*1 → histories_ok (F:=F) (S:=S) (K:=K) h →
  pool_serves st h (pool_contents pool) → (rs_id x ∉ rs_id <$> pool_contents pool) →
  (tag <$> pool_contents (rpcs s)) ≡ₚ (rs_id x, u') :: (tag <$> pool_contents pool) →
  (rs_id x = id → cell_aborted st (rs_cell x) = false) →
  budget_uses b ms b' → bits (flags s') = bits st →
  pool_contents (rpcs s') ≡ₚ (if z then [] else [x']) ++ pool_contents pool →
  Forall (λ m, message_id m = rs_id x) ms → rs_id x' = rs_id x → rs_cell x' = rs_cell x →
  may_say (F:=F) (S:=S) (K:=K) (rs_id x) l → rpc_says (K:=K) l x' →
  (z = false → live x' ∧ is_unary (rs_kind x') = u') →
  (rs_id x = id →
   if z then ends id u' ms ∧ full_says id (h id ++ spoken id ms) else Forall (not_last id u') ms) →
  turned u s b h s' b' ms.
Proof.
  intros l Hnd Hin Hh Hs Hni Htags Hf Hu Hb Hp Hms Hid Hc Hmay Hsay Hl Hcall.
  split; [done| |by eapply histories_extend|].
  - rewrite Hp. eapply (pool_serves_after st); try done. intros Hz. by apply Hl.
  - eapply turn_served; [exact Hnd|exact Htags| |done..]. unfold tags. rewrite Hp.
    destruct z; [done|]. rewrite fmap_app. unfold tag at 1. simpl. rewrite Hid. by destruct (Hl eq_refl) as [_ ->].
Qed.

Lemma responses_own u fuel s (k : K) b produced s' b' n h :
  pool_serves (flags s) h (pool_contents (rpcs s)) → histories_ok (F:=F) (S:=S) (K:=K) h →
  (id, u) ∈ tags s ∨ id ∉ (tags s).*1 → send_responses fuel s k b produced = Return (s', b', n) →
  ∃ ms, turned u s b h s' b' ms.
Proof.
  revert s b produced h. induction fuel as [|fuel IH]; intros s b produced h Hs Hh Hin He; [done|].
  cbn [send_responses] in He. destruct (reserve b) as [p|] eqn:Hr; cycle 1.
  { injection He as <- <- _. exists []. by apply turned_nothing. }
  destruct (pool_poll_next _ (rpcs s) (flags s)) as [[r pool] st] eqn:Hp.
  destruct (pool_turn_own k h s r pool st Hs Hh Hp) as [Hs1 Ht].
  destruct r as [[[first x]|]|]; cycle 1.
  1, 2: injection He as <- <- _; exists []; by apply turned_nothing.
  destruct Ht as (e & u' & -> & Hdone & Htags & Hfits & Hun & Hni & [Hm Hx] & Hown).
  assert (NoDup (tags s).*1) as Hnd by (unfold tags; rewrite <-list_fmap_compose; apply Hs).
  destruct (message_for_event_spec (set_pool s pool st) (rs_id x) e) as [Hmsg Hs2].
  destruct (message_for_event (set_pool s pool st) (rs_id x) e) as [m s2]. simpl in Hmsg, Hs2. subst m.
  assert (rpcs s2 = pool ∧ flags s2 = st) as [Hp2 Hf2] by (rewrite Hs2; by destruct (is_terminal e)).
  set (m := event_message (rs_id x) e) in *.
  assert (message_id m = rs_id x) as Hmid by apply event_message_id.
  assert (∀ s4 b4 n4 ms, turned u s b h s4 b4 ms → send_responses fuel s4 k b4 n4 = Return (s', b', n) →
    ∃ ms, turned u s b h s' b' ms) as Hnext.
  { intros s4 b4 n4 ms Ht He4. edestruct IH as [ms' Ht']; [apply Ht|apply Ht|by eapply turned_in|exact He4|].
    exists (ms ++ ms'). by eapply turned_trans. }
  destruct (is_terminal e) eqn:Hterm.
  - eapply Hnext; [|exact He].
    eapply (turned_rpc u u' s b h x true x s2 _ pool st [m]); try done;
      [by intros ?; apply Hown|by apply uses_send|by rewrite Hf2|by rewrite Hp2|by constructor|].
    intros Heq. subst m. rewrite Heq. apply (event_own_last u'); [by apply Hown|done..].
  - apply run_bind_Return in He as ([[[[z s3] b3] n3] x3] & Hd & He). assert (u' = false) as -> by (by destruct e).
    edestruct drain_own as (ms1 & Hu1 & [D1 D2 D3 [D4 D4'] D5 D6 D7 D8]);
      [exact Hdone|by apply Hun|exact Hx|exact Hm|rewrite Hf2; by apply Hown|exact Hd|].
    rewrite <-app_assoc, <-spoken_app in D5, D6. eapply Hnext; [|exact He].
    eapply (turned_rpc u false s b h x z x3 _ _ pool st ([m] ++ ms1)); try done.
    + by intros ?; apply Hown.
    + by econstructor.
    + destruct z; simpl; by rewrite D3, Hf2.
    + destruct z; simpl; [by rewrite D2, Hp2|]. by rewrite pool_contents_push, D2, Hp2.
    + by constructor.
    + intros Heq. specialize (D8 Heq). rewrite Heq, <-app_assoc, <-spoken_app in D8.
      apply (drained_own _ _ z m); [|by destruct z].
      subst m. rewrite Heq. apply (event_own_not_last false (h id)); [by apply Hown|done..].
Qed.
End loops.

#[local] Existing Instance recorder.

(** The flags of the call's own rpc. *)
Definition not_aborted s : Prop :=
  ∀ x, x ∈ pool_contents (rpcs s) → rs_id x = id → cell_aborted (flags s) (rs_cell x) = false.

Lemma tags_nodup s : sub_ok s → NoDup (rs_id <$> pool_contents (rpcs s)).
Proof.
  intros [_ Htk]. pose proof (tk_ids _ _ _ Htk) as Hnd. unfold pooled in Hnd. by rewrite <-list_fmap_compose in Hnd.
Qed.

(** An answer of the submitter: some rejections, and what the pool says. *)
Lemma answers_own u s (k : K) room p s' out h :
  sub_ok s → histories_ok (F:=F) (S:=S) (K:=K) h → pool_says (K:=K) h (pool_contents (rpcs s)) → not_aborted s →
  (id, u) ∈ tags s ∨ id ∉ (tags s).*1 → room < 2 ^ 64 →
  submitter_answers (F:=F) (S:=S) s k room = Return (p, s', out) →
  not_aborted s' ∧ ∃ sent ms, out = (cancelled <$> sent) ++ ms ∧ rejections s = rejections s' ++ reverse sent ∧
    served u (tags s) (tags s') h ms.
Proof.
  intros Hok Hh Hsay Hf Hin Hroom He. unfold submitter_answers in He.
  apply run_bind_Return in He as ([[p1 s1] b1] & He & Hout). injection Hout as -> -> Hout.
  unfold submitter_poll_outbound_many in He.
  destruct (send_rejections_spec (Datatypes.S (length (rejections s))) s (mkSendBudget (B:=Res) tt [] room) 0)
    as (rest & sent & b0 & Hj & Hu & Hrej & _ & Hlen); [lia|done|simpl; lia|].
  rewrite Hj in He. cbn [run_bind] in He. simpl in Hlen.
  apply run_bind_Return in He as ([[s2 b2] n2] & Hp & He). injection He as _ -> ->.
  set (s0 := set_rejections s rest) in *.
  assert (sub_ok s0) as Hok0 by (by destruct Hok).
  assert (pool_serves (flags s0) h (pool_contents (rpcs s0))) as Hs0.
  { split; [by apply tags_nodup|apply Hok|done|exact Hf]. }
  destruct (responses_own u _ s0 k b0 _ _ _ _ h Hs0 Hh Hin Hp) as [ms Ht].
  split; [intros x; apply Ht|]. exists sent, ms. split_and!; [| |apply Ht].
  - pose proof (budget_uses_app _ _ _ _ _ Hu (tn_uses _ _ _ _ _ _ _ Ht)) as Hall.
    apply budget_uses_spec in Hall as [_ Hb]; [|exact Hroom]. rewrite <-Hout, Hb. apply recorded_messages.
  - assert (pool_len (rpcs s0) = length (pooled s0)) as Hpl
      by (rewrite pool_contents_len; unfold pooled; by rewrite length_fmap).
    destruct (send_responses_spec (Datatypes.S (N.to_nat (budget_remaining b0) + pool_len (rpcs s0))) s0 k b0
      (0 + len sent)) as (s3 & b3 & ms3 & He3 & [(a & pl & st & Hs3) _ _ _ _ _ _]); [done|rewrite Hpl; lia|lia..|].
    rewrite Hp in He3. injection He3 as -> _ _. by rewrite Hs3.
Qed.

(** A request of another call, or a cancellation of one, leaves the call alone. *)
Lemma inbound_not_aborted s (m : Req) :
  sub_ok s → not_aborted s → (message_id m = id → control_code m = Normal) →
  not_aborted (on_inbound s m).1.2.
Proof.
  intros [Hl Htk] Hf Hm. unfold on_inbound. destruct (control_code m) eqn:Hc; [|..|done].
  - assert (∀ kind, not_aborted (start_rpc (set_server s (new_rpc (connection_server s) m).2) (message_id m) kind)) as Hstart.
    { intros kind x. unfold start_rpc. simpl. rewrite pool_contents_push. intros [->|Hx]%elem_of_cons Heq; simpl.
      - unfold cell_aborted. by rewrite list_lookup_middle.
      - specialize (Hf x Hx Heq). unfold cell_aborted in *.
        assert ((rs_cell x < length (flags s))%nat) as Hlt.
        { pose proof (tk_flags _ _ _ Htk) as Hfl. rewrite Forall_forall in Hfl.
          specialize (Hfl (view x)). unfold bits in Hfl. rewrite length_fmap in Hfl. apply Hfl.
          by apply list_elem_of_fmap_2. }
        by rewrite lookup_app_l. }
    destruct (new_rpc (connection_server s) m) as [[f|y|] v]; [apply (Hstart (KindUnary f))
      |apply (Hstart (KindStreaming y))|exact Hf].
  - unfold take_abort. destruct (aborts s !! message_id m) as [a|] eqn:Ha; [|exact Hf].
    pose proof (bits_mark (K:=K) (flags s) a) as Hb. simpl. destruct (mark_aborted a (flags s)) as [st ks].
    simpl in Hb |- *. intros x Hx Heq. simpl in Hx |- *. destruct (tk_handles _ _ _ Htk _ _ Ha) as [Hin _].
    rewrite cell_aborted_bits, Hb, list_lookup_insert_ne, <-cell_aborted_bits; [by apply Hf|].
    intros Hcell. assert (view x ∈ pooled s) as Hv by (by apply list_elem_of_fmap_2).
    assert (message_id m = rs_id x) as Hid; [|specialize (Hm ltac:(congruence)); congruence].
    apply list_elem_of_lookup in Hin as [i Hi], Hv as [j Hj].
    assert (i = j) as ->.
    { eapply (NoDup_lookup (pooled s).*2); [apply Htk|rewrite list_lookup_fmap, Hi; reflexivity|].
      rewrite list_lookup_fmap, Hj. simpl. by rewrite Hcell. }
    rewrite Hi in Hj. by injection Hj.
Qed.
End server.
