(* ===== verification/Answers.v ===== *)
(** * Calls are answered in full

    [ServiceHistory] shows that a caller hears nothing but a beginning of what the
    service says to it, [Progress] that messages move until nobody waits.  Here the
    two meet: a caller that keeps its completion gets all that the service has to
    say to its call.  The call is followed from the queue of the client through the
    requests, the pool of the server or its rejections, and the responses, until it
    is over. *)

From S2P Require Import Prelude Spillway Encoding Connection RpcMessage ExampleService RpcServer RpcServerSpec.
From S2P Require Import RpcClient RpcClientSpec ClientConnection ServerConnection System.
From S2P Require Import Progress ServiceHistory ServerAnswers.
Local Open Scope N_scope.
Local Open Scope run_scope.

(** ** The client completes a call *)

Section client.
Context {O W K Req Res : Type} `{AtomicWaker W K} `{OneshotLaws O (result Res RpcError) K}.
Context `{MessageLaws Req} `{MessageLaws Res}.
Abbreviation TheCell := (Cell O W Res).
Abbreviation World := (ClientWorld O W Req Res).
Implicit Types cs : list TheCell.
Implicit Types r : RpcCompletionReactor O W Res.
Implicit Types w : World.

(** The channel of a completion whose receiver is there. *)
Definition open_cell (c : nat) cs : Prop := ∀ o, cs !! c = Some (OneshotCell o) → os_open o = true.

(** A response under the id of a registered completion with a receiver. *)
Lemma inbound_completes r (m : Res) xs status r' x :
  store_ok (registered (rpc_registry r) ++ xs) (cells r) →
  completion_on_inbound r m = Return (status, r') → rpc_registry r !! message_id m = Some x →
  open_cell (completion_cell x) (cells r) →
  match control_code m, x with
  | Normal, RemoteStreaming _ c =>
      rpc_registry r' !! message_id m = Some x ∧ values (cells r') c = values (cells r) c ++ [m] ∧ open_cell c (cells r')
  | Normal, Unary c => rpc_registry r' !! message_id m = None ∧ values (cells r') c = values (cells r) c ++ [m]
  | _, _ => rpc_registry r' !! message_id m = None ∧
            values (cells r') (completion_cell x) = values (cells r) (completion_cell x)
  end.
Proof.
  intros Hok He Hx Hopen. destruct (inbound_correlates r m xs Hok) as (r2 & He2 & Hcase).
  rewrite He in He2. injection He2 as _ <-. rewrite Hx in Hcase.
  assert (r' = mkReactor (delete (message_id m) (rpc_registry r)) (is_alive r) (drop_completion x (cells r)) →
    rpc_registry r' !! message_id m = None ∧
    values (cells r') (completion_cell x) = values (cells r) (completion_cell x)) as Hdrop.
  { intros ->. split; [apply lookup_delete_eq|apply drop_completion_values]. }
  destruct (control_code m); [|by destruct x; apply Hdrop..]. destruct x as [c|sender c].
  - destruct Hcase as (o & o' & Hc & Hview & ->). split; [apply lookup_delete_eq|].
    rewrite (registered_delete _ _ _ Hx) in Hok.
    destruct (so_owns _ _ Hok (Unary c)) as (cell & Hcell & Hown); [by left|].
    simpl in Hcell. rewrite Hc in Hcell. injection Hcell as <-. simpl in Hown. unfold values. simpl.
    rewrite list_lookup_insert_eq by (by eapply lookup_lt_Some). rewrite Hc. simpl.
    rewrite Hview, Hown, (Hopen o Hc). done.
  - destruct Hcase as (s & v & s' & Hc & Hpv & _ & ->). simpl. split; [done|].
    assert (<[c := StreamCell s' v]> (cells r) !! c = Some (StreamCell s' v)) as Hc'
      by (apply list_lookup_insert_eq; by eapply lookup_lt_Some).
    split; [unfold values; by rewrite Hc', Hc|]. intros o Ho. by rewrite Hc' in Ho.
Qed.

(** A call leaves the channels that are there alone. *)
Lemma send_message_store cl x (request : Req) q r res q' r' :
  send_message cl x request q r = Return (res, q', r') →
  ∀ i, i ≠ completion_cell x → cells r' !! i = cells r !! i.
Proof.
  intros He i Hi. unfold send_message in He.
  destruct (negb _); [injection He as _ _ <-; by apply list_lookup_alter_ne|].
  apply run_bind_Return in He as ([g q1] & _ & He). apply run_bind_Return in He as ([[sent q2] ks] & _ & He).
  destruct sent; [by injection He as _ _ <-|]. apply run_bind_Return in He as (q3 & _ & He).
  injection He as _ _ <-. by apply list_lookup_alter_ne.
Qed.

Lemma call_unary_store cl (request : Req) q r res q' r' :
  send_unary cl request q r = Return (res, q', r') →
  ∀ i, (i < length (cells r))%nat → cells r' !! i = cells r !! i.
Proof.
  intros He i Hi. unfold send_unary in He. apply run_bind_Return in He as ([[sent q1] r1] & Hs & He).
  pose proof (send_message_store _ _ _ _ _ _ _ _ Hs i ltac:(simpl; lia)) as Hc. simpl in Hc.
  rewrite lookup_app_l in Hc by done.
  destruct sent; injection He as _ _ <-; [done|]. simpl. by rewrite list_lookup_alter_ne by lia.
Qed.

Lemma call_streaming_store cl (request : Req) q r res q' r' :
  send_streaming cl request q r = Return (res, q', r') →
  ∀ i, (i < length (cells r))%nat → cells r' !! i = cells r !! i.
Proof.
  intros He i Hi. unfold send_streaming in He. apply run_bind_Return in He as ([[sender receiver] s] & _ & He).
  apply run_bind_Return in He as ([[sent q1] r1] & Hs & He).
  pose proof (send_message_store _ _ _ _ _ _ _ _ Hs i ltac:(simpl; lia)) as Hc. simpl in Hc.
  rewrite lookup_app_l in Hc by done. by destruct sent; injection He as _ _ <-.
Qed.

(** The drops of a completion: its receiver goes, or its guard cancels the call. *)
Inductive drops (c : nat) (id : u64) w : World → Prop :=
| drops_unary u q' cs' :
    uc_completion u = c ∨ cg_message_id (uc_guard u) = id →
    unary_drop u (w_queue w) (cells (w_reactor w)) = Return (q', cs') →
    drops c id w (mkWorld q' (w_receiver w) (w_connected w) (set_cells (w_reactor w) cs'))
| drops_streaming x q' :
    sc_completion x = c ∨ cg_message_id (sc_guard x) = id → streaming_drop x (w_queue w) = Return q' →
    drops c id w (mkWorld q' (w_receiver w) (w_connected w) (w_reactor w)).

(** A drop takes a sender from the queue, a poll or a message does not. *)
Lemma guard_drop_senders (g : CompletionGuard) (q q' : Shared W (RpcNotification Req)) :
  guard_drop g q = Return q' → senders q' = usize_sub (senders q) 1.
Proof.
  unfold guard_drop. destruct (cg_closed g); simpl; [intros [= <-]; apply drop_senders|].
  intros He. apply run_bind_Return in He as (q1 & Hs & He). injection He as <-.
  apply run_bind_Return in Hs as ([[res q2] ks] & Hs & Heq). injection Heq as <-.
  by rewrite drop_senders, (send_senders _ _ _ _ _ _ Hs).
Qed.

Lemma drops_senders c id w w' : drops c id w w' → senders (w_queue w') ≠ senders (w_queue w).
Proof.
  intros [u q' cs' _ He|x q' _ He]; simpl.
  - unfold unary_drop in He. apply run_bind_Return in He as (q1 & Hg & He). injection He as <- _.
    rewrite (guard_drop_senders _ _ _ Hg). by apply wsub_one_ne.
  - rewrite (guard_drop_senders _ _ _ He). by apply wsub_one_ne.
Qed.

Lemma client_io_senders w got sent w' :
  client_io (K:=K) w got sent w' → senders (w_queue w') = senders (w_queue w).
Proof. intros [k p q' v' _ He|m status r' _ _]; [by eapply poll_next_senders|done]. Qed.

(** What else callers do leaves the completion in its place. *)
Lemma caller_keeps (c : nat) (id : u64) used w heard w' :
  caller_step (K:=K) used w heard w' → world_ok w → (heard = [] → ¬ drops c id w w') →
  (CancelRpc id ∉ notifications w → CancelRpc id ∉ notifications w') ∧
  (open_cell c (cells (w_reactor w)) → open_cell c (cells (w_reactor w'))) ∧
  (filter (λ e, e.1 = c) heard).*2 ++ values (cells (w_reactor w')) c = values (cells (w_reactor w)) c.
Proof.
  intros Hstep [Hun Hok] Hdrop.
  assert (∀ g q' r' n, cg_message_id g ≠ id → guard_drop g (w_queue w) = Return q' →
    CancelRpc id ∉ notifications w → CancelRpc id ∉ notifications (mkWorld q' (w_receiver w) n r')) as Hguard.
  { intros g q' r' n Hid Hg Hni. destruct (guard_drop_ok _ _ _ _ Hun Hg) as (_ & _ & _ & Hw).
    unfold notifications in *. simpl. rewrite Hw. intros [Hi|Hi]%elem_of_app; [|done].
    destruct (cg_closed g); [by apply not_elem_of_nil in Hi|]. apply list_elem_of_singleton in Hi. injection Hi as Hi. by destruct Hid. }
  assert (∀ q' r' n, chutes q' = chutes (w_queue w) →
    CancelRpc id ∉ notifications w → CancelRpc id ∉ notifications (mkWorld q' (w_receiver w) n r')) as Hsame.
  { intros q' r' n Hch. unfold notifications, waiting. simpl. by rewrite Hch. }
  destruct Hstep as [u k p u' cs' He|u q' cs' Hid He|x k p x' cs' He|x q' Hid He|y y' q' He|y]; simpl.
  - split; [by apply Hsame|]. split; [|by apply (unary_poll_values u k _ _ _ _ c He)].
    unfold unary_poll in He. destruct (cg_closed (uc_guard u)); [done|].
    destruct (cells (w_reactor w) !! uc_completion u) as [[o|]|] eqn:Hc; try done.
    pose proof (os_poll_law o k) as Hp. destruct (os_poll o k) as [pr o']. destruct Hp as [Hopen _].
    assert (cs' = <[uc_completion u := OneshotCell o']> (cells (w_reactor w))) as -> by (by destruct pr as [[|]|]; injection He).
    intros Ho o2 Ho2. apply list_lookup_insert_Some in Ho2 as [(Hj & Heq & _)|[_ Ho2]]; [|by apply Ho].
    injection Heq as <-. rewrite Hopen. apply Ho. by rewrite <-Hj.
  - destruct (decide (uc_completion u = c ∨ cg_message_id (uc_guard u) = id)) as [Hd|Hd];
      [by destruct (Hdrop eq_refl); eapply drops_unary|]. apply Decidable.not_or in Hd as [Hc Hg].
    unfold unary_drop in He. apply run_bind_Return in He as (q1 & Hq & He). injection He as <- <-.
    split; [by eapply Hguard|]. unfold open_cell, values. by rewrite list_lookup_alter_ne.
  - split; [by apply Hsame|]. split; [|by apply (streaming_poll_values x k _ _ _ _ c (so_cells _ _ Hok) He)].
    unfold streaming_poll_next in He. destruct (sc_closed x); [by injection He as _ _ <-|].
    destruct (cells (w_reactor w) !! sc_completion x) as [[|s v]|] eqn:Hc; try done.
    apply run_bind_Return in He as ([[pr s'] v'] & _ & He).
    assert (cs' = <[sc_completion x := StreamCell s' v']> (cells (w_reactor w))) as -> by (by destruct pr as [[|]|]; injection He).
    intros Ho o2 Ho2. apply list_lookup_insert_Some in Ho2 as [(_ & Heq & _)|[_ Ho2]]; [done|by apply Ho].
  - destruct (decide (sc_completion x = c ∨ cg_message_id (sc_guard x) = id)) as [Hd|Hd];
      [by destruct (Hdrop eq_refl); eapply drops_streaming|]. apply Decidable.not_or in Hd as [Hc Hg].
    split; [by eapply Hguard|done].
  - unfold client_clone in He. apply run_bind_Return in He as ([z q1] & Hcl & He). injection He as _ <-.
    destruct (sender_clone_spec _ _ (w_receiver w) _ _ Hun Hcl) as (_ & Hch & _). split; [by apply Hsame|done].
  - destruct (sender_drop_spec (submission_queue y) _ _ Hun) as (_ & Hch & _). split; [by apply Hsame|done].
Qed.
End client.

(** ** A call is followed *)

Section call.
Context {O V K Req Res F S P W : Type}.
Context `{AtomicWaker W K} `{OneshotLaws O (result Res RpcError) K}.
Context `{!FutureOp F K Res} `{!StreamOp S K Res} `{!ConnectionService V K Req F S}.
Context `{MessageLaws Req} `{MessageLaws Res} `{!ServiceHistory F S K Res} `{!ServiceAnswers F S K Res}.
Context `{FuturesUnorderedLaws P (RpcStream F S) (u64 * RpcStreamEvent Res) (list (AbortCell W))}.
Context (streams : Req → Prop).
Context (Hservice : ∀ (v : V) m, streams m →
  match (new_rpc (F:=F) (S:=S) v m).1 with RpcUnary _ => False | _ => True end).
Abbreviation Sys := (System O W Req Res V P).
Abbreviation sys_ok := (system_ok (K:=K) (F:=F) (S:=S) streams).
Abbreviation sys_tells := (tells (K:=K) (F:=F) (S:=S)).
Implicit Types y : Sys.
Implicit Types h : u64 → list Res.

(** The call: the channel of its completion, its request, and whether it is a call
    of a stream; the service treats it as what it was called, or rejects it. *)
Context (c : nat) (m0 : Req) (streaming : bool).
Abbreviation id := (message_id m0).
Context (Hcode : control_code m0 = Normal).
Context (Hkind : ∀ v : V,
  match (new_rpc (F:=F) (S:=S) v m0).1 with
  | RpcUnary _ => streaming = false
  | RpcStreaming _ => streaming = true
  | RpcCancelled => full_says (F:=F) (S:=S) (K:=K) (Res:=Res) id []
  end).

Definition its (x : Completion) : Prop := completion_cell x = c ∧ (is_streaming x ↔ streaming = true).

(** No request of the call is on its way any more, and no rpc of it runs. *)
Definition elsewhere y : Prop :=
  id ∉ new_ids (notifications (sy_client y)) ++ normal_ids (sy_requests y) ++ (tags (sy_server y)).*1.

(** Where a call is while its completion is registered. *)
Inductive underway y h : Prop :=
| call_sent :
    m0 ∈ sy_requests y → id ∉ rejections (sy_server y) → Forall (λ m, message_id m ≠ id) (sy_responses y) →
    underway y h
| call_pooled :
    (id, negb streaming) ∈ tags (sy_server y) → id ∉ rejections (sy_server y) →
    Forall (not_last id (negb streaming)) (sy_responses y) → underway y h
| call_rejected :
    elsewhere y → id ∈ rejections (sy_server y) → full_says (F:=F) (S:=S) (K:=K) id (h id) → h id = [] →
    Forall (λ m, message_id m ≠ id) (sy_responses y) → underway y h
| call_ended :
    elsewhere y → ends id (negb streaming) (sy_responses y) → full_says (F:=F) (S:=S) (K:=K) id (h id) → underway y h.

Inductive stage y h : Prop :=
| stage_queued x :
    New (mkCompletableRpc id x m0) ∈ notifications (sy_client y) → its x →
    rpc_registry (w_reactor (sy_client y)) !! id = None → open_cell c (cells (w_reactor (sy_client y))) →
    id ∉ rejections (sy_server y) → Forall (λ m, message_id m ≠ id) (sy_responses y) → stage y h
| stage_waiting x :
    rpc_registry (w_reactor (sy_client y)) !! id = Some x → its x →
    open_cell c (cells (w_reactor (sy_client y))) → underway y h → stage y h
| stage_done :
    elsewhere y → rpc_registry (w_reactor (sy_client y)) !! id = None →
    full_says (F:=F) (S:=S) (K:=K) id (h id) → received y c = h id → stage y h.

Record follows y h : Prop := {
  fo_call : (c, m0) ∈ log_calls (sy_log y);
  fo_cancel : CancelRpc id ∉ notifications (sy_client y);
  fo_requests m : m ∈ sy_requests y → message_id m = id → control_code m = Normal;
  fo_flags : not_aborted id (sy_server y);
  fo_stage : stage y h;
}.

(** *** The ids of the calls that run *)

Lemma call_id_used y h : follows y h → id ∈ sy_used y.
Proof. intros Hf. unfold sy_used, log_used. apply list_elem_of_fmap. by exists (c, m0); split; [|apply Hf]. Qed.

Lemma elsewhere_less y y' :
  new_ids (notifications (sy_client y')) ++ normal_ids (sy_requests y') ++ (tags (sy_server y')).*1
    ⊆+ new_ids (notifications (sy_client y)) ++ normal_ids (sy_requests y) ++ (tags (sy_server y)).*1 →
  elsewhere y → elsewhere y'.
Proof. intros Hsub He Hin. apply He. by eapply elem_of_submseteq. Qed.

(** While the call is in one place, it is in no other. *)
Lemma queued_only y x :
  sys_ok y → New (mkCompletableRpc id x m0) ∈ notifications (sy_client y) →
  (id ∉ normal_ids (sy_requests y)) ∧ (id ∉ (tags (sy_server y)).*1).
Proof.
  intros Hok Hn. pose proof (so_ids _ _ Hok) as Hnd. apply NoDup_app in Hnd as (_ & Hni & _).
  rewrite <-not_elem_of_app. apply Hni. apply list_elem_of_bind. exists (New (mkCompletableRpc id x m0)).
  split; [by left|done].
Qed.

Lemma sent_only y :
  sys_ok y → m0 ∈ sy_requests y →
  (id ∉ new_ids (notifications (sy_client y))) ∧ (id ∉ (tags (sy_server y)).*1).
Proof.
  intros Hok Hm. assert (id ∈ normal_ids (sy_requests y)) as Hin
    by (apply list_elem_of_fmap_2, list_elem_of_filter; done).
  pose proof (so_ids _ _ Hok) as Hnd. apply NoDup_app in Hnd as (_ & Hni & (_ & Hnt & _)%NoDup_app).
  split; [|by apply Hnt]. intros Hi. apply (Hni _ Hi). apply elem_of_app. by left.
Qed.

Lemma pooled_only y u :
  sys_ok y → (id, u) ∈ tags (sy_server y) →
  (id ∉ new_ids (notifications (sy_client y))) ∧ (id ∉ normal_ids (sy_requests y)).
Proof.
  intros Hok Hm%tagged_id. pose proof (so_ids _ _ Hok) as Hnd.
  apply NoDup_app in Hnd as (_ & Hni & (_ & Hnt & _)%NoDup_app).
  split; intros Hi; [|by apply (Hnt _ Hi)]. apply (Hni _ Hi). apply elem_of_app. by right.
Qed.

Lemma underway_not_queued y h : sys_ok y → underway y h → id ∉ new_ids (notifications (sy_client y)).
Proof.
  intros Hok [Hm _ _|Ht _ _|He _ _ _ _|He _ _]; [by apply sent_only|by eapply pooled_only|..];
    intros Hi; apply He, elem_of_app; by left.
Qed.

(** The completion of another id has another channel. *)
Lemma other_cell y h x id' :
  sys_tells y h → (c, m0) ∈ log_calls (sy_log y) →
  rpc_registry (w_reactor (sy_client y)) !! id' = Some x → id' ≠ id → completion_cell x ≠ c.
Proof.
  intros Ht Hc Hx Hid <-. destruct (tl_registered _ _ Ht _ _ Hx) as (m & Hm & <- & _).
  by rewrite (tl_calls _ _ Ht _ _ _ Hm Hc) in Hid.
Qed.
(** *** A step that does not move the call itself *)

Definition untouched y : Prop :=
  (id ∉ rejections (sy_server y)) ∧ Forall (λ m, message_id m ≠ id) (sy_responses y).

Lemma stage_step y y' h h' :
  (∀ x, New (mkCompletableRpc id x m0) ∈ notifications (sy_client y) →
    New (mkCompletableRpc id x m0) ∈ notifications (sy_client y') ∧ (untouched y → untouched y')) →
  rpc_registry (w_reactor (sy_client y')) !! id = rpc_registry (w_reactor (sy_client y)) !! id →
  (open_cell c (cells (w_reactor (sy_client y))) → open_cell c (cells (w_reactor (sy_client y')))) →
  (underway y h → underway y' h') → (elsewhere y → elsewhere y' ∧ h' id = h id) → received y' c = received y c →
  stage y h → stage y' h'.
Proof.
  intros Hn Hreg Hopen Hun Hel Hrec [x Hx Hits Hr Ho Hj Hres|x Hx Hits Ho Hu|He Hr Hfull Hgot].
  - destruct (Hn x Hx) as [Hx' Hu]. destruct Hu as [Hj' Hres']; [done|].
    apply (stage_queued _ _ x); try done; [by rewrite Hreg|by apply Hopen].
  - apply (stage_waiting _ _ x); try done; [by rewrite Hreg|by apply Hopen|by apply Hun].
  - destruct (Hel He) as [He' Hh]. apply stage_done; [done|by rewrite Hreg|by rewrite Hh|by rewrite Hrec, Hh].
Qed.

(** What happens at the client only, with what waits there for the call. *)
Lemma underway_client y w' requests' l' h :
  (m0 ∈ sy_requests y → m0 ∈ requests') →
  let y' := mkSystem w' requests' (sy_server y) (sy_responses y) l' in
  (elsewhere y → elsewhere y') → underway y h → underway y' h.
Proof.
  intros Hm y' He [Hs Hj Hr|Ht Hj Hr|Hel Hj Hf Hh Hr|Hel Hend Hf].
  - apply call_sent; [by apply Hm|done..].
  - by apply call_pooled.
  - apply call_rejected; [by apply He|done..].
  - apply call_ended; [by apply He|done..].
Qed.

(** Another call. *)
Lemma follows_called y h w' request kind :
  sys_tells y h → called request kind (sy_client y) w' → message_id request ∉ sy_used y →
  (∀ i, (i < length (cells (w_reactor (sy_client y))))%nat →
    cells (w_reactor w') !! i = cells (w_reactor (sy_client y)) !! i) →
  follows y h → follows (mkSystem w' (sy_requests y) (sy_server y) (sy_responses y) (called_log y request)) h.
Proof.
  intros Ht (Hreg & _ & Hns) Hfresh Hcells Hf. pose proof (call_id_used y h Hf) as Hused.
  assert (message_id request ≠ id) as Hne by (by intros Heq; rewrite Heq in Hfresh).
  assert (cells (w_reactor w') !! c = cells (w_reactor (sy_client y)) !! c) as Hc.
  { apply Hcells. pose proof (tl_cells _ _ Ht) as Hl. rewrite Forall_forall in Hl. apply (Hl _ (fo_call _ _ Hf)). }
  set (y' := mkSystem _ _ _ _ _).
  assert (elsewhere y → elsewhere y') as Hel.
  { unfold elsewhere. simpl.
    destruct Hns as [Hp|(x' & _ & _ & Hp)]; rewrite (new_ids_Permutation _ _ Hp); [done|].
    intros He [Hi|Hi]%elem_of_cons; [by destruct Hne|by apply He]. }
  split; simpl; try apply Hf.
  - right. apply Hf.
  - pose proof (fo_cancel _ _ Hf) as Hn. destruct Hns as [->|(x & _ & _ & ->)]; [done|].
    by intros [?|?]%elem_of_cons.
  - eapply stage_step; [..|apply Hf].
    + intros x Hx. split; [|done]. simpl. destruct Hns as [->|(x' & _ & _ & ->)]; [done|by right].
    + simpl. by rewrite Hreg.
    + unfold open_cell. simpl. by rewrite Hc.
    + by apply underway_client.
    + intros He. split; [by apply Hel|done].
    + unfold received, values. simpl. by rewrite Hc.
Qed.

(** What callers do with other completions, or with this one while they keep it. *)
Lemma follows_caller y h heard w' :
  sys_ok y → caller_step (K:=K) (sy_used y) (sy_client y) heard w' →
  (heard = [] → ¬ drops (K:=K) c id (sy_client y) w') →
  follows y h → follows (mkSystem w' (sy_requests y) (sy_server y) (sy_responses y) (log_hear heard (sy_log y))) h.
Proof.
  intros Hok Hstep Hdrop Hf. pose proof (so_world _ _ Hok) as Hw.
  destruct (caller_effect streams _ _ _ _ Hstep Hw) as (Hreg & _ & ns & Hp & _ & Hnew).
  destruct (caller_keeps c id _ _ _ _ Hstep Hw Hdrop) as (Hcancel & Hopen & Hvals).
  set (y' := mkSystem _ _ _ _ _).
  assert (elsewhere y → elsewhere y') as He.
  { apply elsewhere_less. simpl. rewrite (new_ids_Permutation _ _ Hp). unfold new_ids at 1.
    rewrite bind_app. unfold new_ids in Hnew. by rewrite Hnew. }
  split; simpl; try apply Hf; [by apply Hcancel, Hf|].
  eapply stage_step; [..|apply Hf].
  - intros x Hx. split; [|done]. simpl. rewrite Hp. apply elem_of_app. by right.
  - simpl. by rewrite Hreg.
  - exact Hopen.
  - by apply underway_client.
  - intros He'. split; [by apply He|done].
  - unfold received. simpl. by rewrite heard_from_app, <-app_assoc, Hvals.
Qed.

(** Nothing happens to what waits. *)
Lemma follows_same y h q' v' :
  notifications (mkWorld q' v' true (w_reactor (sy_client y))) ≡ₚ notifications (sy_client y) → follows y h →
  follows (mkSystem (mkWorld q' v' true (w_reactor (sy_client y))) (sy_requests y) (sy_server y) (sy_responses y) (sy_log y)) h.
Proof.
  intros Hns Hf. set (y' := mkSystem _ _ _ _ _).
  assert (elsewhere y → elsewhere y') as Hel
    by (apply elsewhere_less; simpl; by rewrite (new_ids_Permutation _ _ Hns)).
  split; simpl; try apply Hf; [rewrite Hns; apply Hf|].
  eapply stage_step; [..|apply Hf]; try done.
  - intros x Hx. split; [|done]. simpl. by rewrite Hns.
  - by apply underway_client.
  - intros He. split; [by apply Hel|done].
Qed.

(** The client takes the call itself. *)
Lemma follows_own_taken y h q' v' x m :
  sys_ok y → (New (mkCompletableRpc id x m) :: notifications (mkWorld q' v' true (w_reactor (sy_client y))))
    ≡ₚ notifications (sy_client y) →
  (id ∉ new_ids (notifications (mkWorld q' v' true (w_reactor (sy_client y))))) →
  let n := New (mkCompletableRpc id x m) in
  let r := w_reactor (sy_client y) in
  follows y h →
  follows (mkSystem (mkWorld q' v' true (completion_on_outbound r n).2)
    (sy_requests y ++ [(completion_on_outbound r n).1]) (sy_server y) (sy_responses y) (sy_log y)) h.
Proof.
  intros Hok Hp Hni n r Hf.
  assert (id ∈ new_ids (notifications (sy_client y))) as Hin by (rewrite <-(new_ids_Permutation _ _ Hp); by left).
  destruct (fo_stage _ _ Hf) as [x0 Hx Hits Hr Ho Hj Hres|x0 _ _ _ Hu|He _ _ _].
  2: { by destruct (underway_not_queued _ _ Hok Hu). }
  2: { destruct He. apply elem_of_app. by left. }
  assert (x0 = x ∧ m = m0) as (-> & ->).
  { rewrite <-Hp in Hx. apply elem_of_cons in Hx as [Hx|Hx]; [injection Hx as -> ->; done|]. destruct Hni.
    apply list_elem_of_bind. exists (New (mkCompletableRpc id x0 m0)). split; [by left|done]. }
  split; simpl; try apply Hf.
  - intros Hc. apply (fo_cancel _ _ Hf). rewrite <-Hp. by right.
  - intros m' [Hm|Hm%list_elem_of_singleton]%elem_of_app; [by apply Hf|]. by rewrite Hm.
  - apply (stage_waiting _ _ x); simpl; [apply lookup_insert_eq|done|subst r; by rewrite Hr|].
    apply call_sent; [apply elem_of_app; right; by left|done..].
Qed.

(** The client takes a notification. *)
Lemma follows_other_taken y h n q' v' :
  sys_ok y → sys_tells y h → (n :: notifications (mkWorld q' v' true (w_reactor (sy_client y)))) ≡ₚ notifications (sy_client y) →
  (id ∉ new_ids [n]) → n ≠ CancelRpc id → notification_ok streams (sy_used y) n →
  let r := w_reactor (sy_client y) in
  follows y h →
  follows (mkSystem (mkWorld q' v' true (completion_on_outbound r n).2)
    (sy_requests y ++ [(completion_on_outbound r n).1]) (sy_server y) (sy_responses y) (sy_log y)) h.
Proof.
  intros Hok Ht Hp Hid Hn Hnok r Hf. set (y' := mkSystem _ _ _ _ _).
  assert (notifications (sy_client y') = notifications (mkWorld q' v' true r)) as Hns by done.
  assert (∃ i, i ≠ id ∧ rpc_registry (w_reactor (sy_client y')) !! id = rpc_registry r !! id ∧
    cells (w_reactor (sy_client y')) = cells (deregister r i) ∧
    normal_ids [(completion_on_outbound r n).1] = new_ids [n] ∧
    message_id (completion_on_outbound r n).1 = i) as (i & Hi & Hreg & Hcells & Hnorm & Hmid).
  { destruct n as [[i x m]|i]; simpl in Hid, Hnok |- *.
    - destruct Hnok as (-> & Hc & _). assert (message_id m ≠ id) as Hne by (intros Heq; apply Hid; rewrite Heq; by left).
      exists (message_id m). split_and!; try done.
      + by rewrite lookup_insert_ne, lookup_delete_ne.
      + unfold normal_ids. by rewrite filter_cons, decide_True, filter_nil.
    - assert (i ≠ id) as Hne by congruence. exists i. split_and!; try done.
      + by rewrite lookup_delete_ne.
      + unfold normal_ids. rewrite filter_cons, decide_False; [done|]. by rewrite control_code_cancelled.
      + by rewrite message_id_cancelled. }
  assert (cells (w_reactor (sy_client y')) !! c = cells r !! c) as Hc.
  { rewrite Hcells. unfold deregister. simpl. destruct (rpc_registry r !! i) as [x|] eqn:Hx; [|done].
    apply list_lookup_alter_ne. eapply other_cell; [exact Ht|apply Hf|exact Hx|done]. }
  assert (elsewhere y → elsewhere y') as Hel.
  { apply elsewhere_less. rewrite Hns. simpl. rewrite <-(new_ids_Permutation _ _ Hp), normal_ids_app, Hnorm.
    change (n :: ?l) with ([n] ++ l). unfold new_ids. rewrite bind_app. apply Permutation_submseteq. solve_Permutation. }
  split; simpl; try apply Hf.
  - intros Hin. apply (fo_cancel _ _ Hf). rewrite <-Hp. by right.
  - intros m [Hm|Hm%list_elem_of_singleton]%elem_of_app; [by apply Hf|]. intros Heq. congruence.
  - eapply stage_step; [..|apply Hf].
    + intros x Hx. split; [|done]. rewrite <-Hp in Hx. apply elem_of_cons in Hx as [Hx|Hx]; [|exact Hx].
      destruct Hid. rewrite <-Hx. by left.
    + exact Hreg.
    + unfold open_cell. by rewrite Hc.
    + intros Hu. eapply underway_client; [|exact Hel|exact Hu]. intros Hm. apply elem_of_app. by left.
    + intros He. split; [by apply Hel|done].
    + unfold received, values. simpl. simpl in Hc. by rewrite Hc.
Qed.

Lemma follows_takes y h k p q' v' :
  sys_ok y → sys_tells y h → poll_next (w_queue (sy_client y)) (w_receiver (sy_client y)) k = Return (p, q', v') →
  let r := w_reactor (sy_client y) in
  let '(sent, r') := match p with
                     | Ready (Some n) => ([(completion_on_outbound r n).1], (completion_on_outbound r n).2)
                     | _ => ([], r)
                     end in
  follows y h → follows (mkSystem (mkWorld q' v' true r') (sy_requests y ++ sent) (sy_server y) (sy_responses y) (sy_log y)) h.
Proof.
  intros Hok Ht He r. pose proof (so_world _ _ Hok) as Hw.
  destruct (poll_unbounded _ _ _ _ _ _ (proj1 Hw) He) as (_ & _ & _ & Hp).
  assert (∀ w : ClientWorld O W Req Res, notifications w ≡ₚ pending_values (w_queue w) (w_receiver w)) as Hnp
    by (intros w; unfold notifications; by rewrite pending_waiting).
  destruct p as [[n|]|]; cycle 1.
  1, 2: intros Hf; rewrite app_nil_r; destruct Hp as (Hp0 & Hp & _);
    assert (notifications (mkWorld q' v' true r) ≡ₚ notifications (sy_client y)) as Hns
      by (rewrite !Hnp; simpl; by rewrite Hp, Hp0);
    by apply (follows_same y).
  intros Hf. assert ((n :: notifications (mkWorld q' v' true r)) ≡ₚ notifications (sy_client y)) as Hns
    by (rewrite !Hnp; simpl; by rewrite Hp).
  pose proof (so_queue _ _ Hok) as Hq. rewrite <-Hns in Hq. apply Forall_cons in Hq as [Hnok _].
  assert (n ≠ CancelRpc id) as Hcan by (intros ->; apply (fo_cancel _ _ Hf); rewrite <-Hns; by left).
  destruct (decide (id ∈ new_ids [n])) as [Hin|Hni]; [|by eapply follows_other_taken].
  destruct n as [[i x m]|i]; [|by apply not_elem_of_nil in Hin].
  apply list_elem_of_singleton in Hin. simpl in Hin. subst i.
  pose proof (so_ids _ _ Hok) as Hnd. apply NoDup_app in Hnd as (Hnd & _ & _).
  rewrite <-(new_ids_Permutation _ _ Hns) in Hnd.
  change (new_ids (New ?a :: ?l)) with (cr_message_id a :: new_ids l) in Hnd. apply NoDup_cons in Hnd as [Hni _].
  by apply (follows_own_taken y h q' v' x m).
Qed.

(** The client hears a response to another call, or to this one when it is over. *)
Lemma follows_other_heard y h m rest status r' :
  sy_responses y = m :: rest → completion_on_inbound (w_reactor (sy_client y)) m = Return (status, r') →
  rpc_registry r' !! id = rpc_registry (w_reactor (sy_client y)) !! id →
  cells r' !! c = cells (w_reactor (sy_client y)) !! c →
  (message_id m = id → ∀ x, rpc_registry (w_reactor (sy_client y)) !! id ≠ Some x) → follows y h →
  follows (mkSystem (mkWorld (w_queue (sy_client y)) (w_receiver (sy_client y)) true r')
    (sy_requests y) (sy_server y) rest (sy_log y)) h.
Proof.
  intros Hres He Hreg Hc Hid Hf. split; simpl; try apply Hf.
  destruct (fo_stage _ _ Hf) as [x Hx Hits Hr Ho Hj Hall|x Hx Hits Ho Hu|Hel Hr Hfull Hgot].
  - rewrite Hres in Hall. apply Forall_cons in Hall as [_ Hall].
    apply (stage_queued _ _ x); try done; simpl; [by rewrite Hreg|unfold open_cell; by rewrite Hc].
  - apply (stage_waiting _ _ x); try done; simpl; [by rewrite Hreg|unfold open_cell; by rewrite Hc|].
    assert (message_id m ≠ id) as Hne by (intros Heq; by destruct (Hid Heq x)).
    destruct Hu as [Hs Hj Hall|Ht Hj Hall|Hel Hj Hfull Hh Hall|Hel Hend Hfull]; rewrite Hres in *;
      try (apply Forall_cons in Hall as [_ Hall]).
    + by apply call_sent.
    + by apply call_pooled.
    + by apply call_rejected.
    + apply call_ended; [done| |done]. by apply ends_cons in Hend as [[[Heq _] _]|[_ Hend]].
  - apply stage_done; [done|simpl; by rewrite Hreg|done|]. unfold received, values in *. simpl. by rewrite Hc.
Qed.

(** It hears a response to this one. *)
Lemma follows_own_heard y h m rest status r' x :
  sys_ok y → sys_tells y h → sy_responses y = m :: rest → message_id m = id →
  completion_on_inbound (w_reactor (sy_client y)) m = Return (status, r') →
  rpc_registry (w_reactor (sy_client y)) !! id = Some x → its x →
  open_cell c (cells (w_reactor (sy_client y))) → underway y h → follows y h →
  follows (mkSystem (mkWorld (w_queue (sy_client y)) (w_receiver (sy_client y)) true r')
    (sy_requests y) (sy_server y) rest (sy_log y)) h.
Proof.
  intros Hok Ht Hres Hid He Hx [Hcx Hstr] Ho Hu Hf. split; simpl; try apply Hf.
  pose proof (proj2 (so_world _ _ Hok)) as Hst. unfold in_flight in Hst. rewrite <-Hid in Hx. rewrite <-Hcx in Ho.
  pose proof (inbound_completes _ _ _ _ _ _ Hst He Hx Ho) as Hin. rewrite Hid in Hx, Hin.
  destruct (tl_registered _ _ Ht _ _ Hx) as (m1 & _ & _ & Hgot). rewrite Hcx, Hres in Hgot.
  set (y' := mkSystem _ _ _ _ _).
  (* a response that does not end it *)
  assert (not_last id (negb streaming) m → underway y' h → stage y' h) as Hgoes_on.
  { intros Hm Hu'. destruct (Hm Hid) as [Hs Hc]. apply negb_false_iff in Hs. rewrite Hc in Hin.
    destruct x as [c'|sender c']; [by destruct (proj2 Hstr Hs)|]. destruct Hin as (Hr & _ & Ho'). simpl in Hcx. subst c'.
    by apply (stage_waiting _ _ (RemoteStreaming sender c)). }
  destruct Hu as [_ _ Hall|Hp Hj Hall|_ _ _ _ Hall|Hel Hend Hfull]; rewrite Hres in *;
    try (apply Forall_cons in Hall as [Hm Hall]); [done| |done|].
  - apply Hgoes_on; [done|]. by apply call_pooled.
  - apply ends_cons in Hend as [[[_ Hm] Hrest]|[Hm Hend]]; [|apply Hgoes_on; [done|by apply call_ended]].
    destruct (decide (control_code m = Normal)) as [Hc|Hc].
    + rewrite <-Hid, spoken_own, Hid, Hrest in Hgot by done. rewrite Hc in Hin.
      destruct x as [c'|sender c']; [|destruct streaming; [by destruct (Hm eq_refl)|by specialize (proj1 Hstr I)]].
      destruct Hin as [Hr Hv]. simpl in Hcx. subst c'. apply stage_done; try done.
      rewrite <-Hgot. unfold received. simpl. by rewrite Hv, app_assoc.
    + rewrite spoken_control, Hrest, app_nil_r in Hgot by done.
      assert (rpc_registry r' !! id = None ∧ values (cells r') c = values (cells (w_reactor (sy_client y))) c) as [Hr Hv]
        by (rewrite <-Hcx; by destruct (control_code m)).
      apply stage_done; try done. rewrite <-Hgot. unfold received. simpl. by rewrite Hv.
Qed.

Lemma follows_hears y h m rest status r' :
  sys_ok y → sys_tells y h → sy_responses y = m :: rest →
  completion_on_inbound (w_reactor (sy_client y)) m = Return (status, r') → follows y h →
  follows (mkSystem (mkWorld (w_queue (sy_client y)) (w_receiver (sy_client y)) true r')
    (sy_requests y) (sy_server y) rest (sy_log y)) h.
Proof.
  intros Hok Ht Hres He Hf. destruct (client_inbound_frame _ _ _ _ He) as (Hother & Hless & Hcells).
  destruct (decide (message_id m = id)) as [Hid|Hid].
  - rewrite Hid in Hless, Hcells. destruct (fo_stage _ _ Hf) as [x Hx Hits Hr Ho Hj Hall|x Hx Hits Ho Hu|Hel Hr Hfull Hgot].
    + rewrite Hres in Hall. by apply Forall_cons in Hall as [Hm _].
    + by eapply follows_own_heard.
    + assert (rpc_registry r' !! id = None) as Hr'.
      { destruct (rpc_registry r' !! id) as [x|] eqn:Hx; [|done]. by rewrite (Hless x eq_refl) in Hr. }
      eapply follows_other_heard; try done; [by rewrite Hr'|apply Hcells; intros x Hx; by rewrite Hx in Hr
        |intros _ x Hx; by rewrite Hx in Hr].
  - eapply follows_other_heard; try done; [by apply Hother|]. apply Hcells. intros x Hx.
    eapply other_cell; [exact Ht|apply Hf|exact Hx|done].
Qed.

(** What the server does takes no id up again. *)
Lemma elsewhere_server y got sent rest s' :
  sys_ok y → sy_requests y = got ++ rest → server_io (K:=K) (F:=F) (S:=S) (sy_server y) got sent s' → elsewhere y →
  elsewhere (mkSystem (sy_client y) rest s' (sy_responses y ++ sent) (sy_log y)).
Proof.
  intros Hok Hreq Hs. pose proof (server_step_ids _ _ _ _ Hs (server_reachable_ok _ (so_server _ _ Hok))) as Hids.
  apply elsewhere_less. simpl. rewrite Hreq, normal_ids_app. apply submseteq_skips_l.
  etrans; [apply submseteq_skips_l, Hids|]. apply Permutation_submseteq. solve_Permutation.
Qed.

(** The server hears a request of another call. *)
Lemma follows_other_request y h m rest :
  sys_ok y → sy_requests y = m :: rest → message_id m ≠ id → follows y h →
  follows (mkSystem (sy_client y) rest (on_inbound (sy_server y) m).1.2 (sy_responses y ++ []) (sy_log y)) h.
Proof.
  intros Hok Hreq Hid Hf. pose proof (inbound_tags (K:=K) (F:=F) (S:=S) (Res:=Res) (sy_server y) m) as Htags. cbv zeta in Htags.
  pose proof (elsewhere_server y [m] [] rest _ Hok Hreq (server_request (K:=K) (sy_server y) m)) as Hel.
  pose proof (server_reachable_ok _ (so_server _ _ Hok)) as Hsub.
  set (s' := (on_inbound (sy_server y) m).1.2) in *. rewrite app_nil_r in *.
  assert (∀ t, t ∈ tags (sy_server y) → t ∈ tags s') as Ht.
  { intros t Hin. destruct (control_code m); [|by destruct Htags as [-> _]..].
    destruct Htags as [(u & -> & _)|[-> _]]; [by right|done]. }
  assert (∃ l, rejections s' = rejections (sy_server y) ++ l ∧ id ∉ l) as (l & Hj & Hl).
  { assert (∃ l, rejections s' = rejections (sy_server y) ++ l ∧ (l = [] ∨ l = [message_id m])) as (l & Hj & Hl).
    { destruct (control_code m) eqn:Hc; [|by exists []; rewrite app_nil_r; destruct Htags; auto..].
      destruct Htags as [(u & _ & -> & _)|[_ ->]]; [exists []; rewrite app_nil_r; auto|eexists; eauto]. }
    exists l. split; [done|]. destruct Hl as [->| ->]; [by apply not_elem_of_nil|].
    by intros Hin%list_elem_of_singleton. }
  assert (id ∉ rejections (sy_server y) → id ∉ rejections s') as Hnj by (intros Hn; rewrite Hj; by apply not_elem_of_app).
  split; simpl; try apply Hf.
  - intros m' Hm'. apply (fo_requests _ _ Hf). rewrite Hreq. by right.
  - apply inbound_not_aborted; [done|apply Hf|done].
  - eapply stage_step; [..|apply Hf]; try done.
    + intros x Hx. split; [done|]. intros [Hn Hall]. split; [by apply Hnj|done].
    + intros [Hs Hn Hall|Hp Hn Hall|He Hr Hfull Hh Hall|He Hend Hfull].
      * apply call_sent; [|by apply Hnj|done]. simpl. rewrite Hreq in Hs. by apply elem_of_cons in Hs as [<-|Hs].
      * apply call_pooled; [by apply Ht|by apply Hnj|done].
      * apply call_rejected; try done; [by apply Hel|]. simpl. rewrite Hj. apply elem_of_app. by left.
      * apply call_ended; [by apply Hel|done..].
    + intros He. split; [by apply Hel|done].
Qed.

(** The request of this one, when it is the next. *)
Lemma own_request y h m rest :
  sys_ok y → sy_requests y = m :: rest → message_id m = id → follows y h →
  m = m0 ∧ (id ∉ new_ids (notifications (sy_client y))) ∧ (id ∉ normal_ids rest) ∧ (id ∉ (tags (sy_server y)).*1) ∧
  (id ∉ rejections (sy_server y)) ∧ Forall (λ m, message_id m ≠ id) (sy_responses y) ∧
  ∃ x, rpc_registry (w_reactor (sy_client y)) !! id = Some x ∧ its x ∧ open_cell c (cells (w_reactor (sy_client y))).
Proof.
  intros Hok Hreq Hid Hf.
  assert (control_code m = Normal) as Hc by (apply (fo_requests _ _ Hf); [rewrite Hreq; by left|done]).
  assert (normal_ids (sy_requests y) = id :: normal_ids rest) as Hnorm.
  { rewrite Hreq. unfold normal_ids. rewrite filter_cons, decide_True by done. by rewrite <-Hid. }
  assert (id ∈ normal_ids (sy_requests y)) as Hin by (rewrite Hnorm; by left).
  assert (¬ elsewhere y) as Hel by (intros He; apply He; rewrite !elem_of_app; auto).
  pose proof (so_ids _ _ Hok) as Hnd. apply NoDup_app in Hnd as (_ & _ & (Hnd & _)%NoDup_app).
  rewrite Hnorm in Hnd. apply NoDup_cons in Hnd as [Hrest _].
  destruct (fo_stage _ _ Hf) as [x Hx _ _ _ _ _|x Hx Hits Ho Hu|He _ _ _]; [|clear Hin|done].
  { by destruct (queued_only _ _ Hok Hx) as [Hni _]. }
  destruct Hu as [Hs Hj Hall|Hp _ _|He _ _ _ _|He _ _]; [| |done..].
  2: { destruct (pooled_only _ _ Hok Hp) as [_ []]. rewrite Hnorm. by left. }
  destruct (sent_only _ Hok Hs) as [Hnn Hnt]. split_and!; try done; [|by exists x].
  rewrite Hreq in Hs. apply elem_of_cons in Hs as [Hs|Hs]; [done|]. destruct Hrest.
  by apply list_elem_of_fmap_2, list_elem_of_filter.
Qed.

(** It starts an rpc, or is rejected. *)
Lemma follows_own_request y h m rest :
  sys_ok y → sys_tells y h → sy_requests y = m :: rest → message_id m = id → follows y h →
  follows (mkSystem (sy_client y) rest (on_inbound (sy_server y) m).1.2 (sy_responses y ++ []) (sy_log y)) h.
Proof.
  intros Hok Ht Hreq Hid Hf. rewrite app_nil_r.
  destruct (own_request y h m rest Hok Hreq Hid Hf) as (-> & Hnn & Hrest & Hnt & Hj & Hall & x & Hx & Hits & Ho).
  pose proof (tl_requests _ _ Ht) as Hh. rewrite Hreq in Hh. apply Forall_cons in Hh as [Hh _].
  destruct (Hh Hcode) as [Hnil _].
  pose proof (inbound_not_aborted id (sy_server y) m0 (server_reachable_ok _ (so_server _ _ Hok)) (fo_flags _ _ Hf)
    (λ _, Hcode)) as Hflags.
  split; simpl; [apply Hf|apply Hf| |exact Hflags|].
  { intros m' Hm'. apply (fo_requests _ _ Hf). rewrite Hreq. by right. }
  apply (stage_waiting _ _ x); try done.
  assert (∀ kind (s : RpcSubmitter V P W), (id, is_unary kind) ∈ tags (start_rpc s id kind)) as Hstart
    by (intros kind s; unfold tags, start_rpc; simpl; rewrite pool_contents_push; by left).
  unfold on_inbound in *. rewrite Hcode in *. pose proof (Hkind (connection_server (sy_server y))) as Hk.
  destruct (new_rpc (connection_server (sy_server y)) m0) as [[f|st|] v]; simpl in Hk |- *.
  - apply call_pooled; [rewrite Hk; apply (Hstart (KindUnary f))|exact Hj|by apply not_last_others].
  - apply call_pooled; [rewrite Hk; apply (Hstart (KindStreaming st))|exact Hj|by apply not_last_others].
  - apply call_rejected; [|simpl; apply elem_of_app; right; by left|by rewrite Hnil|exact Hnil|done].
    unfold elsewhere. simpl. by rewrite !not_elem_of_app.
Qed.

(** The call is in the pool as it was called, or not at all. *)
Lemma elsewhere_not_pooled y : elsewhere y → id ∉ (tags (sy_server y)).*1.
Proof. intros He Hi. apply He. rewrite !elem_of_app. auto. Qed.

Lemma pooled_or_not y h :
  sys_ok y → follows y h → (id, negb streaming) ∈ tags (sy_server y) ∨ id ∉ (tags (sy_server y)).*1.
Proof.
  intros Hok Hf. pose proof (elsewhere_not_pooled y) as Hel.
  destruct (fo_stage _ _ Hf) as [x Hx _ _ _ _ _|x _ _ _ Hu|He _ _ _]; [right; by eapply queued_only| |by right; apply Hel].
  destruct Hu as [Hs _ _|Hp _ _|He _ _ _ _|He _ _]; [right; by apply sent_only|by left|by right; apply Hel..].
Qed.

(** Rejections that are sent under other ids, or under this one. *)
Lemma cancels_silent (sent : list u64) : spoken id (cancelled <$> sent : list Res) = [].
Proof. apply spoken_cancels, Forall_fmap, Forall_forall. intros i _. apply control_code_cancelled. Qed.

Lemma cancels_others (sent : list u64) :
  id ∉ sent → Forall (λ m, message_id m ≠ id) (cancelled <$> sent : list Res).
Proof.
  intros Hni. apply Forall_fmap, Forall_forall. intros i Hi. simpl. rewrite message_id_cancelled. by intros ->.
Qed.

Lemma cancels_own (sent : list u64) (ms : list Res) :
  id ∈ sent → spoken id ms = [] → ends id (negb streaming) ((cancelled <$> sent) ++ ms).
Proof.
  intros (l1 & l2 & -> & Hni)%list_elem_of_split_l Hms. rewrite fmap_app, <-app_assoc. cbn [fmap list_fmap].
  exists (cancelled <$> l1), (cancelled id), ((cancelled <$> l2) ++ ms). split_and!; [done|by apply not_last_others, cancels_others| |].
  - split; [apply message_id_cancelled|]. intros _. by rewrite control_code_cancelled.
  - by rewrite spoken_app, Hms, app_nil_r, cancels_silent.
Qed.

(** The server answers others. *)
Lemma follows_other_answers y h s' (sent : list u64) (ms : list Res) :
  let y' := mkSystem (sy_client y) (sy_requests y) s' (sy_responses y ++ (cancelled <$> sent) ++ ms) (sy_log y) in
  rejections (sy_server y) = rejections s' ++ reverse sent → not_aborted id s' →
  (id ∉ (tags (sy_server y)).*1) → Forall (λ m, message_id m ≠ id) ms →
  (elsewhere y → elsewhere y') → follows y h → follows y' (extend h ((cancelled <$> sent) ++ ms)).
Proof.
  intros y' Hj Hfl Hnt Hms Hel Hf.
  assert (spoken id ((cancelled <$> sent) ++ ms) = []) as Hsp.
  { by rewrite spoken_app, (spoken_none id ms Hms), app_nil_r, cancels_silent. }
  assert (extend h ((cancelled <$> sent) ++ ms) id = h id) as Hh by (unfold extend; by rewrite Hsp, app_nil_r).
  assert (id ∉ rejections (sy_server y) → (id ∉ rejections s') ∧ Forall (λ m, message_id m ≠ id) ((cancelled <$> sent) ++ ms))
    as Hnj.
  { rewrite Hj, not_elem_of_app. intros [Hr Hs]. split; [done|]. apply Forall_app. split; [|done].
    apply cancels_others. by rewrite <-elem_of_reverse. }
  split; simpl; try apply Hf; [exact Hfl|].
  eapply stage_step; [..|apply Hf]; try done.
  - intros x Hx. split; [done|]. intros [Hr Hall]. destruct (Hnj Hr) as [Hr' Hall']. split; [done|]. simpl. by apply Forall_app.
  - intros [Hs Hr Hall|Hp Hr Hall|He Hr Hfull Hnil Hall|He Hend Hfull].
    + destruct (Hnj Hr) as [Hr' Hall']. apply call_sent; [done..|]. simpl. by apply Forall_app.
    + by apply tagged_id in Hp.
    + destruct (decide (id ∈ sent)) as [Hin|Hni].
      * apply call_ended; [by apply Hel| |by rewrite Hh]. apply ends_app_l; [by apply not_last_others|].
        by apply cancels_own; [|apply spoken_none].
      * rewrite Hj in Hr. apply elem_of_app in Hr as [Hr|Hr]; [|by rewrite elem_of_reverse in Hr].
        apply call_rejected; rewrite ?Hh; try done; [by apply Hel|]. simpl.
        apply Forall_app. split; [done|]. apply Forall_app. split; [by apply cancels_others|done].
    + apply call_ended; [by apply Hel|by apply ends_app_r|by rewrite Hh].
  - intros He. split; [by apply Hel|done].
Qed.

Lemma follows_answers y h k room p s' out :
  sys_ok y → sys_tells y h → room < 2 ^ 64 → submitter_answers (F:=F) (S:=S) (sy_server y) k room = Return (p, s', out) →
  follows y h →
  follows (mkSystem (sy_client y) (sy_requests y) s' (sy_responses y ++ out) (sy_log y)) (extend h out).
Proof.
  intros Hok Ht Hroom He Hf.
  pose proof (elsewhere_server y [] out (sy_requests y) s' Hok eq_refl (server_respond _ k room p s' out Hroom He)) as Hel.
  destruct (answers_own id (negb streaming) (sy_server y) k room p s' out h
    (server_reachable_ok _ (so_server _ _ Hok)) (tl_histories _ _ Ht) (tl_pool _ _ Ht) (fo_flags _ _ Hf)
    (pooled_or_not y h Hok Hf) Hroom He) as (Hfl & sent & ms & -> & Hj & Hserved).
  destruct Hserved as [[Hin Hcase]|(Hni & _ & Hms)]; [|by apply follows_other_answers].
  destruct (pooled_only _ _ Hok Hin) as [Hnn Hnr].
  destruct (fo_stage _ _ Hf) as [x Hx _ _ _ _ _|x Hx Hits Ho Hu|Hels _ _ _]; [exfalso| |exfalso].
  1: { apply Hnn. apply list_elem_of_bind. exists (New (mkCompletableRpc id x m0)). split; [by left|done]. }
  2: { apply (elsewhere_not_pooled _ Hels). by eapply tagged_id. }
  assert ((id ∉ rejections (sy_server y)) ∧ Forall (not_last id (negb streaming)) (sy_responses y)) as [Hr Hall].
  { destruct Hu as [Hs _ _|_ Hr Hall|Hels _ _ _ _|Hels _ _]; [|done|..]; exfalso.
    - destruct (sent_only _ Hok Hs) as [_ Hnt]. apply Hnt. by eapply tagged_id.
    - apply (elsewhere_not_pooled _ Hels). by eapply tagged_id.
    - apply (elsewhere_not_pooled _ Hels). by eapply tagged_id. }
  rewrite Hj, not_elem_of_app, elem_of_reverse in Hr. destruct Hr as [Hr Hs].
  assert (Forall (not_last id (negb streaming)) (cancelled <$> sent : list Res)) as Hsent
    by (by apply not_last_others, cancels_others).
  split; simpl; try apply Hf; [exact Hfl|]. apply (stage_waiting _ _ x); try done.
  destruct Hcase as [[Hin' Hms]|(Hni & Hend & Hfull)].
  - apply call_pooled; [done..|]. simpl. apply Forall_app. split; [done|]. by apply Forall_app.
  - apply call_ended.
    + unfold elsewhere. simpl. by rewrite !not_elem_of_app.
    + simpl. apply ends_app_l; [done|]. by apply ends_app_l.
    + replace (extend h ((cancelled <$> sent) ++ ms) id) with (extend h ms id); [done|]. unfold extend.
      by rewrite spoken_app, cancels_silent.
Qed.

(** *** All the steps *)

Lemma follows_ext y h h' : h' id = h id → follows y h → follows y h'.
Proof.
  intros Hh [F1 F2 F3 F4 F5]. split; try done. eapply stage_step; [..|exact F5]; try done.
  intros [Hs Hj Hall|Hp Hj Hall|He Hj Hfull Hnil Hall|He Hend Hfull];
    [by apply call_sent|by apply call_pooled|by apply call_rejected; rewrite ?Hh|by apply call_ended; rewrite ?Hh].
Qed.

(** A step in which the completion of the call is not dropped. *)
Definition patient y y' : Prop :=
  system_step (K:=K) (F:=F) (S:=S) streams y y' ∧
  ∀ w', drops (K:=K) c id (sy_client y) w' →
    y' ≠ mkSystem w' (sy_requests y) (sy_server y) (sy_responses y) (log_hear [] (sy_log y)).

Lemma follows_server y h got sent rest s' :
  sys_ok y → sys_tells y h → sy_requests y = got ++ rest →
  server_io (K:=K) (F:=F) (S:=S) (sy_server y) got sent s' → follows y h →
  follows (mkSystem (sy_client y) rest s' (sy_responses y ++ sent) (sy_log y)) (extend h sent).
Proof.
  intros Hok Ht Hreq Hs Hf. destruct Hs as [m|k room p s' out Hroom He|k].
  - apply (follows_ext _ h); [apply extend_nil|]. destruct (decide (message_id m = id)) as [Hid|Hid];
      [by apply follows_own_request|by apply follows_other_request].
  - simpl in Hreq. subst rest. by eapply follows_answers.
  - simpl in Hreq. subst rest. apply (follows_ext _ h); [apply extend_nil|]. rewrite app_nil_r.
    simpl. destruct (service_poll (connection_server (sy_server y)) k) as [flow v]. destruct Hf as [F1 F2 F3 F4 F5].
    split; try done. eapply stage_step; [..|exact F5]; try done.
    intros [Hs Hj Hall|Hp Hj Hall|He Hj Hfull Hnil Hall|He Hend Hfull];
      [by apply call_sent|by apply call_pooled|by apply call_rejected|by apply call_ended].
Qed.

Lemma follows_step y y' h :
  patient y y' → sys_ok y → sys_ok y' → calls_keep (V:=V) (K:=K) (F:=F) (S:=S) (sy_log y) →
  sys_tells y h → follows y h → ∃ h', sys_tells y' h' ∧ follows y' h'.
Proof.
  intros [Hstep Hdrop] Hok Hok' Hkeep Ht Hf. pose proof (so_world _ _ Hok) as Hw.
  destruct Hstep as [cl m res q' r' Hc Hn Hfr He|cl m res q' r' Hc Hn Hfr Hs He|heard w' Hs|got sent rest w' Hr Hs
    |got sent rest s' Hr Hs].
  - exists h. destruct (call_unary_cells _ _ _ _ _ _ _ He). split.
    + eapply tells_called; try done. by eapply call_unary_effect.
    + apply (follows_called y h _ m false); [exact Ht|by eapply call_unary_effect|done| |exact Hf]. exact (call_unary_store _ _ _ _ _ _ _ He).
  - exists h. destruct (call_streaming_cells _ _ _ _ _ _ _ He). split.
    + eapply tells_called; try done. by eapply call_streaming_effect.
    + apply (follows_called y h _ m true); [exact Ht|by eapply call_streaming_effect|done| |exact Hf]. exact (call_streaming_store _ _ _ _ _ _ _ He).
  - exists h. split; [by eapply tells_caller|]. apply follows_caller; try done.
    intros -> Hd. by apply (Hdrop w' Hd).
  - exists h. destruct Hs as [k p q' v' Hc He|m status r' Hc He].
    + pose proof (tells_takes streams y h k p q' v' Hok He) as Ht'. pose proof (follows_takes y h k p q' v' Hok Ht He) as Hf'.
      simpl in Hr. subst rest. by destruct p as [[n|]|]; split; first [apply Ht'|apply Hf'].
    + rewrite app_nil_r. split; [by eapply tells_hears|by eapply follows_hears].
  - exists (extend h sent). split; [by eapply tells_server|by eapply follows_server].
Qed.
End call.

(** ** Calls that are made, and kept *)

Section calls.
Context {O V K Req Res F S P W : Type}.
Context `{AtomicWaker W K} `{OneshotLaws O (result Res RpcError) K}.
Context `{!FutureOp F K Res} `{!StreamOp S K Res} `{!ConnectionService V K Req F S}.
Context `{MessageLaws Req} `{MessageLaws Res}.
Context `{FuturesUnorderedLaws P (RpcStream F S) (u64 * RpcStreamEvent Res) (list (AbortCell W))}.
Context (streams : Req → Prop).
Abbreviation Sys := (System O W Req Res V P).
Implicit Types y : Sys.

(** [calls streaming m c y y']: the call [m] is made and accepted in [y]; its
    completion has the channel [c]. *)
Inductive calls : bool → Req → nat → Sys → Sys → Prop :=
| calls_unary client m u q' r' y :
    control_code m = Normal → message_id m < 2 ^ 64 → message_id m ∉ sy_used y →
    send_unary client m (w_queue (sy_client y)) (w_reactor (sy_client y)) = Return (Ok u, q', r') →
    calls false m (uc_completion u) y
      (mkSystem (mkWorld q' (w_receiver (sy_client y)) (w_connected (sy_client y)) r')
        (sy_requests y) (sy_server y) (sy_responses y) (called_log y m))
| calls_streaming client m x q' r' y :
    control_code m = Normal → message_id m < 2 ^ 64 → message_id m ∉ sy_used y → streams m →
    send_streaming client m (w_queue (sy_client y)) (w_reactor (sy_client y)) = Return (Ok x, q', r') →
    calls true m (sc_completion x) y
      (mkSystem (mkWorld q' (w_receiver (sy_client y)) (w_connected (sy_client y)) r')
        (sy_requests y) (sy_server y) (sy_responses y) (called_log y m)).

Lemma calls_step streaming m c y y' :
  calls streaming m c y y' → system_step (K:=K) (F:=F) (S:=S) streams y y'.
Proof. by intros [client m' u q' r' y1 ????|client m' x q' r' y1 ?????]; [eapply sys_call_unary|eapply sys_call_streaming]. Qed.

Lemma patient_run c m y y' :
  rtc (patient (K:=K) (F:=F) (S:=S) streams c m) y y' →
  (system_reachable (K:=K) (F:=F) (S:=S) streams y → system_reachable (K:=K) (F:=F) (S:=S) streams y') ∧
  (∀ e, e ∈ log_calls (sy_log y) → e ∈ log_calls (sy_log y')).
Proof.
  induction 1 as [y|y y1 y' [Hstep _] _ (IH1 & IH2)]; [done|]. split.
  - intros Hr. apply IH1. by eapply system_next.
  - intros e He. apply IH2. destruct Hstep; simpl; try done; by right.
Qed.

Lemma calls_code streaming m c y y' : calls streaming m c y y' → control_code m = Normal.
Proof. by destruct 1. Qed.

(** What an accepted call adds: a channel, which is open, and a notification. *)
Lemma calls_effect streaming m c y y' :
  calls streaming m c y y' → world_ok (sy_client y) →
  c = length (cells (w_reactor (sy_client y))) ∧ open_cell c (cells (w_reactor (sy_client y'))) ∧
  rpc_registry (w_reactor (sy_client y')) = rpc_registry (w_reactor (sy_client y)) ∧
  (∃ x, its c streaming x ∧
    notifications (sy_client y') ≡ₚ New (mkCompletableRpc (message_id m) x m) :: notifications (sy_client y)) ∧
  sy_requests y' = sy_requests y ∧ sy_server y' = sy_server y ∧ sy_responses y' = sy_responses y ∧
  sy_log y' = called_log y m ∧ (message_id m ∉ sy_used y).
Proof.
  intros [client m' u q' r' y1 Hc Hl Hf He|client m' x q' r' y1 Hc Hl Hf Hs He] [Hun _]; simpl.
  - unfold send_unary in He. apply run_bind_Return in He as ([[sent q1] r1] & Hs & He).
    destruct (send_message_queued _ _ _ _ (w_receiver (sy_client y1)) _ _ _ _ Hun Hs) as [_ Hr]. simpl in Hr.
    destruct (is_alive (w_reactor (sy_client y1))); cycle 1.
    { destruct Hr as (-> & _). discriminate He. }
    destruct Hr as (g & -> & -> & _ & _ & Hw & _). injection He as <- <- <-. simpl. split; [done|]. split.
    { intros o. simpl. rewrite list_lookup_middle by done. intros [= <-]. apply os_channel_law. }
    split; [done|]. split; [|by split_and!]. by eexists (Unary _).
  - unfold send_streaming in He. apply run_bind_Return in He as ([[sender receiver] s] & _ & He).
    apply run_bind_Return in He as ([[sent q1] r1] & Hsm & He).
    destruct (send_message_queued _ _ _ _ (w_receiver (sy_client y1)) _ _ _ _ Hun Hsm) as [_ Hr]. simpl in Hr.
    destruct (is_alive (w_reactor (sy_client y1))); cycle 1.
    { destruct Hr as (-> & _). discriminate He. }
    destruct Hr as (g & -> & -> & _ & _ & Hw & _). injection He as <- <- <-. simpl. split; [done|]. split.
    { intros o. simpl. by rewrite list_lookup_middle. }
    split; [done|]. split; [|by split_and!]. by eexists (RemoteStreaming sender _).
Qed.
End calls.

Section in_full.
Context {O V K Req Res F S P W : Type}.
Context `{AtomicWaker W K} `{OneshotLaws O (result Res RpcError) K}.
Context `{!FutureOp F K Res} `{!StreamOp S K Res} `{!ConnectionService V K Req F S}.
Context `{MessageLaws Req} `{MessageLaws Res} `{!ServiceHistory F S K Res} `{!ServiceAnswers F S K Res}.
Context `{FuturesUnorderedLaws P (RpcStream F S) (u64 * RpcStreamEvent Res) (list (AbortCell W))}.
Context (streams : Req → Prop).
Context (Hservice : ∀ (v : V) m, streams m →
  match (new_rpc (F:=F) (S:=S) v m).1 with RpcUnary _ => False | _ => True end).
Abbreviation Sys := (System O W Req Res V P).
Abbreviation sys_tells := (tells (K:=K) (F:=F) (S:=S)).
Implicit Types y : Sys.

(** A call that has just been made. *)
Lemma calls_followed streaming m c y y' h :
  system_ok (K:=K) (F:=F) (S:=S) streams y → sys_tells y h → calls (K:=K) streams streaming m c y y' →
  follows (K:=K) (F:=F) (S:=S) c m streaming y' h.
Proof.
  intros Hok Ht Hcall.
  destruct (calls_effect _ _ _ _ _ _ Hcall (so_world _ _ Hok))
    as (-> & Hopen & Hreg & (x & Hits & Hns) & Hrq & Hsv & Hrs & Hlog & Hfresh).
  split.
  - rewrite Hlog. by left.
  - rewrite Hns. intros [Hin|Hin]%elem_of_cons; [done|].
    pose proof (so_queue _ _ Hok) as Hq. rewrite Forall_forall in Hq. by apply Hq in Hin.
  - rewrite Hrq. intros m' Hm' Hid. pose proof (so_requests _ _ Hok) as Hr. rewrite Forall_forall in Hr.
    apply Hr in Hm'. by rewrite Hid in Hm'.
  - rewrite Hsv. intros r Hr Hid. pose proof (so_tags _ _ Hok) as Htg. rewrite Forall_forall in Htg.
    destruct Hfresh. rewrite <-Hid. apply Htg. unfold tags. rewrite <-list_fmap_compose.
    by apply (list_elem_of_fmap_2 (λ r, (tag r).1)).
  - apply (stage_queued _ _ _ _ _ x); rewrite ?Hsv, ?Hrs, ?Hreg; try done.
    + rewrite Hns. by left.
    + destruct (rpc_registry (w_reactor (sy_client y)) !! message_id m) as [x'|] eqn:Hx; [|done].
      destruct (tl_registered _ _ Ht _ _ Hx) as (m' & Hm' & Hid & _). destruct Hfresh.
      unfold sy_used, log_used. apply list_elem_of_fmap. by exists (completion_cell x', m').
    + intros Hin. pose proof (so_rejections _ _ Hok) as Hj. rewrite Forall_forall in Hj. by apply Hfresh, Hj.
    + eapply Forall_impl; [apply Hok|]. simpl. intros m' Hm' Hid. by rewrite Hid in Hm'.
Qed.

Lemma calls_tells streaming m c y y' h :
  system_ok (K:=K) (F:=F) (S:=S) streams y → sys_tells y h → calls (K:=K) streams streaming m c y y' → sys_tells y' h.
Proof.
  intros Hok Ht Hcall. pose proof (so_world _ _ Hok) as Hw.
  destruct Hcall as [client m u q' r' y Hc Hl Hf He|client m x q' r' y Hc Hl Hf Hs He].
  - destruct (call_unary_cells _ _ _ _ _ _ _ He). apply (tells_called streams y h _ m false); try done.
    by eapply call_unary_effect.
  - destruct (call_streaming_cells _ _ _ _ _ _ _ He). apply (tells_called streams y h _ m true); try done.
    by eapply call_streaming_effect.
Qed.

(** When it is quiet, a call that is followed has been answered in full. *)
Lemma followed_quiet streaming m c y h :
  follows (K:=K) (F:=F) (S:=S) c m streaming y h → quiet y →
  full_says (F:=F) (S:=S) (K:=K) (message_id m) (received y c).
Proof.
  intros Hf (Hn & Hrq & Hrs & Hp & Hj).
  destruct (fo_stage _ _ _ _ _ Hf) as [x Hx _ _ _ _ _|x _ _ _ Hu|_ _ Hfull Hgot]; [exfalso|exfalso|by rewrite Hgot].
  - rewrite Hn in Hx. by apply not_elem_of_nil in Hx.
  - destruct Hu as [Hs _ _|Ht _ _|_ Hr _ _ _|_ (pre & m' & post & Hend & _) _].
    + rewrite Hrq in Hs. by apply not_elem_of_nil in Hs.
    + unfold tags in Ht. rewrite Hp in Ht. by apply not_elem_of_nil in Ht.
    + rewrite Hj in Hr. by apply not_elem_of_nil in Hr.
    + rewrite Hrs in Hend. by destruct pre.
Qed.

Lemma patient_keeps c m y y' :
  rtc (patient (K:=K) (F:=F) (S:=S) streams c m) y y' →
  calls_keep (V:=V) (K:=K) (F:=F) (S:=S) (sy_log y') → calls_keep (V:=V) (K:=K) (F:=F) (S:=S) (sy_log y).
Proof. induction 1 as [y|y y1 y' [Hstep _] _ IH]; [done|]. intros Hk. by eapply step_calls, IH. Qed.

(** The caller of a call that is kept gets all of it. *)
Lemma calls_in_full streaming m c y0 y1 y2 :
  system_reachable (K:=K) (F:=F) (S:=S) streams y0 → calls (K:=K) streams streaming m c y0 y1 →
  rtc (patient (K:=K) (F:=F) (S:=S) streams c m) y1 y2 → calls_keep (V:=V) (K:=K) (F:=F) (S:=S) (sy_log y2) →
  (∀ v : V, match (new_rpc (F:=F) (S:=S) v m).1 with
            | RpcUnary _ => streaming = false
            | RpcStreaming _ => streaming = true
            | RpcCancelled => full_says (F:=F) (S:=S) (K:=K) (Res:=Res) (message_id m) []
            end) →
  quiet y2 → full_says (F:=F) (S:=S) (K:=K) (message_id m) (received y2 c).
Proof.
  intros Hr0 Hcall Hrun Hkeep Hkind Hquiet. pose proof (calls_code _ _ _ _ _ _ Hcall) as Hcode.
  pose proof (calls_step (F:=F) (S:=S) _ _ _ _ _ _ Hcall) as Hstep.
  pose proof (system_reachable_ok streams Hservice y0 Hr0) as Hok0.
  assert (system_reachable (K:=K) (F:=F) (S:=S) streams y1) as Hr1 by (by eapply system_next).
  pose proof (step_calls _ _ _ Hstep (patient_keeps _ _ _ _ Hrun Hkeep)) as Hkeep0.
  destruct (system_reachable_tells streams Hservice y0 Hr0 Hkeep0) as [h0 Ht0].
  assert (∃ h, sys_tells y1 h ∧ follows (K:=K) (F:=F) (S:=S) c m streaming y1 h) as Hfirst.
  { exists h0. split; [by eapply calls_tells|by eapply calls_followed]. }
  assert (∃ h, follows (K:=K) (F:=F) (S:=S) c m streaming y2 h) as [h Hf]; [|by eapply followed_quiet].
  clear Hquiet Hcall Hstep Hr0 Ht0 Hok0 Hkeep0 h0 y0.
  induction Hrun as [y|y y1 y' Hp Hrun IH]; [destruct Hfirst as (h & _ & Hf); by exists h|].
  assert (system_reachable (K:=K) (F:=F) (S:=S) streams y1) as Hr by (eapply system_next; [exact Hr1|apply Hp]).
  apply IH; [done|done|]. destruct Hfirst as (h & Ht & Hf).
  eapply follows_step; [..|exact Ht|exact Hf]; try done; [by eapply system_reachable_ok..|].
  eapply patient_keeps; [|exact Hkeep]. by eapply rtc_l.
Qed.
End in_full.

(** Messages and polls are no drop of a completion. *)
Section io.
Context {O V K Req Res F S P W : Type} `{AtomicWaker W K} `{OneshotLaws O (result Res RpcError) K}.
Context `{!FutureOp F K Res} `{!StreamOp S K Res} `{!ConnectionService V K Req F S} `{MessageLaws Req} `{MessageLaws Res}.
Context `{FuturesUnorderedLaws P (RpcStream F S) (u64 * RpcStreamEvent Res) (list (AbortCell W))}.
Context (streams : Req → Prop).
Implicit Types y : System O W Req Res V P.

Lemma io_patient c m y y' :
  system_io (K:=K) (F:=F) (S:=S) y y' → patient (K:=K) (F:=F) (S:=S) streams c m y y'.
Proof.
  intros Hio. split; [by apply system_io_step|]. intros w' Hd Heq. apply drops_senders in Hd. apply Hd.
  apply (f_equal sy_client) in Heq. simpl in Heq. rewrite <-Heq.
  destruct Hio as [got sent rest w2 Hr Hs|]; [|done]. by eapply client_io_senders.
Qed.

Lemma moves_patient c m y y' :
  message_moves (K:=K) (F:=F) (S:=S) y y' → patient (K:=K) (F:=F) (S:=S) streams c m y y'.
Proof.
  intros [got sent rest w' Hr Hs _|got sent rest s' Hr Hs _]; apply io_patient; [by eapply io_client|by eapply io_server].
Qed.
End io.

(** ** Services whose answers are a function of the request *)

Section answers.
Context {Req V F K : Type} `{MessageLaws Req} `{!FutureOp F K Response} `{!ConnectionService V K Req F (list Response)}.
Context (answers : Req → list Response) (wants_stream : Req → Prop).
Context (Hown : own_answers answers) (Hgives : gives_answers (V:=V) (F:=F) (K:=K) answers wants_stream).

(** All that they say. *)
Definition answer_full (ms : list Req) :
  ServiceAnswers F (list Response) K Response (H2:=answer_history answers Hown ms).
Proof.
  refine {| full_says (id : u64) l := ∃ m, m ∈ ms ∧ id = message_id m ∧ l = answers m |}.
  - intros id f k (m & Hm & -> & Hf). destruct (Hf k) as (r & Hr & Ha).
    destruct (poll_future f k) as [p f']. simpl in Hr. subst p. exists m. split; [done|]. split; [done|].
    destruct (Hown m r) as [_ Hid]; [rewrite Ha; by left|]. by rewrite Ha, (set_own_id _ r Hid).
  - intros id l [|r items] k (m & Hm & -> & Ha); unfold poll_stream, iter_stream; [|done].
    exists m. by rewrite Ha, app_nil_r.
Defined.

(** At rest, a call that is kept has its whole answer. *)
Lemma answered_in_full {O W P} `{AtomicWakerLaws W K} `{OneshotLaws O (result Response RpcError) K}
  `{FuturesUnorderedLaws P (RpcStream F (list Response)) (u64 * RpcStreamEvent Response) (list (AbortCell W))}
  (streaming : bool) (m : Req) (c : nat) (y0 y1 y2 : System O W Req Response V P) :
  system_reachable (K:=K) (F:=F) (S:=list Response) wants_stream y0 →
  calls (K:=K) wants_stream streaming m c y0 y1 → (streaming = false → ¬ wants_stream m) →
  rtc (patient (K:=K) (F:=F) (S:=list Response) wants_stream c m) y1 y2 → quiet y2 →
  received y2 c = answers m.
Proof.
  intros Hreach Hcall Hkind Hrun Hquiet. pose proof (gives_streams answers wants_stream Hgives) as Hstreams.
  assert (system_reachable (K:=K) (F:=F) (S:=list Response) wants_stream y1) as Hr1
    by (eapply system_next; [exact Hreach|by eapply calls_step]).
  destruct (patient_run _ _ _ _ _ Hrun) as [Hr2 Hlog]. specialize (Hr2 Hr1). set (ms := (log_calls (sy_log y2)).*2).
  assert (m ∈ ms) as Hm.
  { apply list_elem_of_fmap. exists (c, m). split; [done|]. apply Hlog.
    pose proof (so_world _ _ (system_reachable_ok wants_stream Hstreams y0 Hreach)) as Hw.
    destruct (calls_effect _ _ _ _ _ _ Hcall Hw) as (Hc & _ & _ & _ & _ & _ & _ & Hl & _). rewrite Hl, Hc. by left. }
  destruct (calls_in_full (ServiceHistory0:=answer_history answers Hown ms) (ServiceAnswers0:=answer_full ms)
    wants_stream Hstreams streaming m c y0 y1 y2 Hreach Hcall Hrun (answers_keep _ _ Hgives _ _))
    as (m' & Hm' & Hid & ->); [|exact Hquiet|].
  - intros v. pose proof (Hgives v m) as He. destruct (new_rpc v m).1 as [f|items|].
    + destruct Hcall as [client m u q' r' y _ _ _ _|client m x q' r' y _ _ _ Hs _]; [done|by destruct He].
    + destruct He as [Hs _]. destruct streaming; [done|by destruct (Hkind eq_refl)].
    + by exists m.
  - f_equal. by apply (calls_determined wants_stream y2).
Qed.
End answers.

(** ** The echo service *)

Module Answered.
Import WakerCell RpcClients RpcReactor Systems Progresses Histories.

(** At rest, a call that is kept has its whole answer. *)
Lemma echo_calls_in_full {O W K P} `{AtomicWakerLaws W K} `{OneshotLaws O (result Response RpcError) K}
  `{FuturesUnorderedLaws P (RpcStream Response (list Response)) (u64 * RpcStreamEvent Response) (list (AbortCell W))}
  (streaming : bool) (m : Request) (c : nat) (y0 y1 y3 : System O W Request Response unit P) :
  system_reachable (K:=K) (F:=Response) (S:=list Response) wants_stream y0 →
  calls (K:=K) wants_stream streaming m c y0 y1 → (streaming = false → ¬ wants_stream m) →
  rtc (patient (K:=K) (F:=Response) (S:=list Response) wants_stream c m) y1 y3 → quiet y3 →
  received y3 c = echo_answers m.
Proof. exact (answered_in_full echo_answers wants_stream echo_answers_own echo_gives streaming m c y0 y1 y3). Qed.

(** Calls are answered in full: when a caller of the echo service keeps the
    completion of a call, then whatever else happens before and meanwhile (other
    calls, drops and cancellations of others, polls, messages in any order), the
    messages that are left come to rest, and at rest the caller has received all
    that the service answers to its request, each item once and in order: the words
    of a unary call, every letter of a stream, or nothing for a call without a
    body. *)
Theorem echo_calls_are_answered (streaming : bool) (m : Request) (c : nat) (y0 y1 y2 : EchoSystem)
  (Hreach : echo_reachable y0) (Hcall : calls (K:=nat) wants_stream streaming m c y0 y1)
  (Hkind : streaming = false → ¬ wants_stream m)
  (Hkept : rtc (patient (K:=nat) (F:=Response) (S:=list Response) wants_stream c m) y1 y2) :
  (∃ y3, rtc (message_moves (K:=nat) (F:=Response) (S:=list Response)) y2 y3 ∧ quiet y3) ∧
  ∀ y3, rtc (message_moves (K:=nat) (F:=Response) (S:=list Response)) y2 y3 → quiet y3 →
    received (K:=nat) y3 c = echo_answers m.
Proof.
  assert (echo_reachable y1) as Hr1 by (eapply system_next; [exact Hreach|by eapply calls_step]).
  split.
  { eapply (moves_to_quiet echo_immediate wants_stream length); [exact 0%nat|exact echo_finite|exact echo_streams|].
    by eapply patient_run. }
  intros y3 Hmoves Hquiet. apply (echo_calls_in_full streaming m c y0 y1 y3 Hreach Hcall Hkind); [|done].
  etrans; [exact Hkept|]. eapply rtc_subrel; [|exact Hmoves]. intros. by apply moves_patient.
Qed.

(** Witness: a call that the server has taken up. *)
Lemma echo_asked_called :
  calls (K:=nat) wants_stream false echo_call 0 echo_start (do_call echo_start echo_call).
Proof.
  destruct (send_unary demo_client echo_call (w_queue (sy_client echo_start)) (w_reactor (sy_client echo_start)))
    as [[[[u|e] q'] r']| |] eqn:He; [|by vm_compute in He..].
  assert (uc_completion u = 0%nat) as Hu by (vm_compute in He; by injection He as <- _ _).
  assert (do_call echo_start echo_call = mkSystem (mkWorld q' (w_receiver (sy_client echo_start))
    (w_connected (sy_client echo_start)) r') [] echo_new [] (called_log echo_start echo_call)) as ->
    by (unfold do_call; by rewrite He).
  rewrite <-Hu. eapply (calls_unary wants_stream demo_client echo_call u q' r' echo_start); [done|done| |exact He].
  apply not_elem_of_nil.
Qed.

Lemma echo_asked_kept :
  rtc (patient (K:=nat) (F:=Response) (S:=list Response) wants_stream 0 echo_call) (do_call echo_start echo_call) echo_asked.
Proof.
  eapply rtc_l; [|eapply rtc_once]; apply moves_patient.
  - eapply (moves_client _ [] [echo_call] []); [done| |by right].
    by eapply (client_takes _ 5%nat (Ready (Some (New (mkCompletableRpc 7 (RpcClient.Unary 0) echo_call))))).
  - eapply (moves_server _ [echo_call] []); [done| |by left]. apply server_request.
Qed.

Lemma echo_calls_are_answered_witness :
  ∃ y : EchoSystem, quiet y ∧ received (K:=nat) y 0 = [echo_request 7 (mkEchoRequest [104; 105] 42)].
Proof.
  destruct (echo_calls_are_answered false echo_call 0 echo_start (do_call echo_start echo_call) echo_asked)
    as [(y & Hm & Hq) Hall].
  - by apply (system_start _ (mkSender 0)).
  - exact echo_asked_called.
  - intros _. discriminate.
  - exact echo_asked_kept.
  - exists y. split; [exact Hq|]. exact (Hall y Hm Hq).
Defined.
End Answered.
