(* ===== verification/EndToEnd.v ===== *)
(** * Two connections and a network

    A connection that hosts the rpc client and a connection that hosts the rpc
    server, joined by a network that gives each of them what the other one wrote,
    in order and in whatever pieces.  Their runs are runs of the system of
    [System], so that what is shown of it holds for them: no call is lost. *)

From S2P Require Import Prelude Spillway Encoding Connection ConnectionSpec RpcMessage ExampleService.
From S2P Require Import RpcServer RpcServerSpec RpcClient RpcClientSpec ClientConnection ServerConnection System.
From S2P Require Import Progress ServiceHistory.
Local Open Scope N_scope.
Local Open Scope run_scope.

(** ** What the bytes between two connections mean *)

Section transit.
Context {M : Type} (bytes_of : M → bytes).
Implicit Types sent received unread queued read : bytes.
Implicit Types ms out : list M.

(** The bytes that one side has sent and the other has not decoded are those of
    the messages [ms]: unread by the receiver, in the network, or queued. *)
Definition in_transit sent received unread queued ms : Prop :=
  ∃ net, sent = received ++ net ∧ unread ++ net ++ queued = concat (bytes_of <$> ms).

Lemma transit_sends sent received unread queued ms sent' queued' out :
  in_transit sent received unread queued ms → sent `prefix_of` sent' →
  sent' ++ queued' = sent ++ queued ++ concat (bytes_of <$> out) →
  in_transit sent' received unread queued' (ms ++ out).
Proof.
  intros (net & -> & Hms) [more ->] Hout. exists (net ++ more). split; [by rewrite <-app_assoc|].
  rewrite <-!app_assoc in Hout. do 2 apply app_inv_head in Hout.
  rewrite fmap_app, concat_app, <-Hms, <-!app_assoc, <-Hout. done.
Qed.

Lemma transit_receives {D} {limit : usize} `{DecoderLaws D M limit} (fits : M → Prop)
  sent received unread queued ms read ms1 rest live :
  (∀ m v, fits m → frame (bytes_of m ++ v) = Ok (len (bytes_of m), m)) → Forall fits ms →
  in_transit sent received unread queued ms → (received ++ read) `prefix_of` sent →
  frames (unread ++ read) = (ms1, rest, live) →
  ∃ ms2, ms = ms1 ++ ms2 ∧ in_transit sent (received ++ read) rest queued ms2.
Proof.
  intros Hw Hfit (net & -> & Hms) [net' Hnet] Hf. rewrite <-app_assoc in Hnet. apply app_inv_head in Hnet as ->.
  assert ((unread ++ read) ++ net' ++ queued = concat (bytes_of <$> ms)) as Hv
    by (by rewrite <-Hms, <-!app_assoc).
  destruct (frames_prefix bytes_of fits ms _ _ _ _ _ Hw Hfit Hv Hf) as (ms2 & -> & Hr).
  exists ms2. split; [done|]. exists net'. by rewrite <-app_assoc.
Qed.

(** Nothing in the network or the queue, and no whole message unread: nothing is
    on its way. *)
Lemma transit_idle {D} {limit : usize} `{DecoderLaws D M limit} (fits : M → Prop) sent unread ms :
  (∀ m v, fits m → frame (bytes_of m ++ v) = Ok (len (bytes_of m), m)) → Forall fits ms →
  in_transit sent sent unread [] ms → frames unread = ([], unread, true) → ms = [].
Proof.
  intros Hw Hfit (net & Hnet & Hms) Hst. rewrite <-(app_nil_r sent) in Hnet at 1.
  apply app_inv_head in Hnet as <-. simpl in Hms. rewrite app_nil_r in Hms.
  pose proof (frames_encoded bytes_of fits ms [] Hw Hfit) as Hfr.
  rewrite app_nil_r, <-Hms, Hst in Hfr. unfold frames in Hfr. simpl in Hfr. injection Hfr as Hm _.
  by rewrite app_nil_r in Hm.
Qed.
End transit.

(** ** The two of them *)

Record Pair (S1 C1 B1 S2 C2 B2 O W Req Res V P : Type) := mkPair {
  pr_client : Connection S1 (Shared W (RpcNotification Req) * Receiver (RpcNotification Req)) C1 B1
                (RpcCompletionReactor O W Res);
  pr_server : Connection S2 (Shared W Res * Receiver Res) C2 B2 (RpcSubmitter V P W);
  pr_log : Log Req Res;
}.
Arguments mkPair {S1 C1 B1 S2 C2 B2 O W Req Res V P} _ _ _.
Arguments pr_client {S1 C1 B1 S2 C2 B2 O W Req Res V P} _.
Arguments pr_server {S1 C1 B1 S2 C2 B2 O W Req Res V P} _.
Arguments pr_log {S1 C1 B1 S2 C2 B2 O W Req Res V P} _.

Section pair.
Context {S1 C1 B1 S2 C2 B2 O W K Req Res V F S P : Type} {limit1 limit2 : usize}.
Context `{AtomicWakerLaws W K} `{OneshotLaws O (result Res RpcError) K}.
Context `{!FutureOp F K Res} `{!StreamOp S K Res} `{!ConnectionService V K Req F S}.
Context `{MessageLaws Req} `{MessageLaws Res}.
Context `{FuturesUnorderedLaws P (RpcStream F S) (u64 * RpcStreamEvent Res) (list (AbortCell W))}.
Context `{!AsyncStream S1 K} `{!AsyncStreamLaws S1 K} `{!AsyncStream S2 K} `{!AsyncStreamLaws S2 K}.
Context `{CL1 : CodecLaws C1 Res Req B1 limit1} `{!BufWhole B1}.
Context `{CL2 : CodecLaws C2 Req Res B2 limit2} `{!BufWhole B2}.
Context (streams : Req → Prop).
Abbreviation ThePair := (Pair S1 C1 B1 S2 C2 B2 O W Req Res V P).
Abbreviation Sys := (System O W Req Res V P).
Abbreviation ClientConn :=
  (Connection S1 (Shared W (RpcNotification Req) * Receiver (RpcNotification Req)) C1 B1
     (RpcCompletionReactor O W Res)).
Abbreviation ServerConn := (Connection S2 (Shared W Res * Receiver Res) C2 B2 (RpcSubmitter V P W)).
Abbreviation client_ok := (conn_ok (In:=Res) (Out:=Req) (L:=RpcNotification Req) (limit:=limit1)).
Abbreviation server_ok := (conn_ok (In:=Req) (Out:=Res) (L:=Res) (limit:=limit2)).
Abbreviation client_poll := (poll (In:=Res) (Out:=Req) (L:=RpcNotification Req)).
Abbreviation server_poll := (poll (In:=Req) (Out:=Res) (L:=Res)).
Abbreviation SystemStep := (system_step (K:=K) (F:=F) (S:=S) streams).
Abbreviation SystemIo := (system_io (K:=K) (F:=F) (S:=S)).
Implicit Types pr : ThePair.
Implicit Types y : Sys.

Definition pr_used pr : list u64 := log_used (pr_log pr).

(** A call opens the next channel. *)
Definition pair_called pr (m : Req) : Log Req Res :=
  log_call (length (cells (w_reactor (world_of (pr_client pr))))) m (pr_log pr).

(** The connection with what a caller made of its queue and its reactor. *)
Definition with_world (c : ClientConn) (w : ClientWorld O W Req Res) : ClientConn :=
  set_outbound c (w_queue w, w_receiver w) (send_buffer c) (codec c) (w_reactor w).

(** Calls with fresh ids, what callers do with what they hold, and polls of either
    connection after which it goes on; the network has given it no more than the
    front of what the other one wrote. *)
Inductive pair_step pr : ThePair → Prop :=
| pair_call_unary cl request res q' r' :
    control_code request = Normal → message_id request < 2 ^ 64 → message_id request ∉ pr_used pr →
    let w := world_of (pr_client pr) in
    send_unary cl request (w_queue w) (w_reactor w) = Return (res, q', r') →
    pair_step pr (mkPair (with_world (pr_client pr) (mkWorld q' (w_receiver w) true r'))
      (pr_server pr) (pair_called pr request))
| pair_call_streaming cl request res q' r' :
    control_code request = Normal → message_id request < 2 ^ 64 → message_id request ∉ pr_used pr →
    streams request →
    let w := world_of (pr_client pr) in
    send_streaming cl request (w_queue w) (w_reactor w) = Return (res, q', r') →
    pair_step pr (mkPair (with_world (pr_client pr) (mkWorld q' (w_receiver w) true r'))
      (pr_server pr) (pair_called pr request))
| pair_caller heard w' :
    caller_step (K:=K) (pr_used pr) (world_of (pr_client pr)) heard w' →
    pair_step pr (mkPair (with_world (pr_client pr) w') (pr_server pr) (log_hear heard (pr_log pr)))
| pair_poll_client fuel k c' :
    (patience (stream (pr_client pr)) < fuel)%nat → client_poll fuel (pr_client pr) k = Return (Pending, c') →
    inbound (stream c') `prefix_of` outbound (stream (pr_server pr)) →
    pair_step pr (mkPair c' (pr_server pr) (pr_log pr))
| pair_poll_server fuel k d' :
    (patience (stream (pr_server pr)) < fuel)%nat → server_poll fuel (pr_server pr) k = Return (Pending, d') →
    inbound (stream d') `prefix_of` outbound (stream (pr_client pr)) →
    pair_step pr (mkPair (pr_client pr) d' (pr_log pr)).

(** A new client and a new server on new streams, as [connect] and the accept loop
    make them. *)
Record new_pair pr : Prop := {
  np_client : client_ok (pr_client pr);
  np_server : server_ok (pr_server pr);
  np_world : ∃ x v q, channel = Return (x, v, q) ∧ world_of (pr_client pr) = world_new q v;
  np_submitter : ∃ service, reactor (pr_server pr) = submitter_new service;
  np_queue : queue_waiting (outbound_messages (pr_server pr)) = [];
  np_sent : send_buffer (pr_client pr) = [] ∧ send_buffer (pr_server pr) = [];
  np_unread : unread_bytes (pr_client pr) = [] ∧ unread_bytes (pr_server pr) = [];
  np_in : inbound (stream (pr_client pr)) = [] ∧ inbound (stream (pr_server pr)) = [];
  np_out : outbound (stream (pr_client pr)) = [] ∧ outbound (stream (pr_server pr)) = [];
  np_log : pr_log pr = mkLog [] [];
}.

Inductive pair_reachable : ThePair → Prop :=
| pair_start pr : new_pair pr → pair_reachable pr
| pair_next pr pr' : pair_reachable pr → pair_step pr pr' → pair_reachable pr'.

(** What a pair is as a system: the connections are in order, their reactors are
    the system's, and the bytes between them its messages. *)
Record carries pr y : Prop := {
  ca_client : client_ok (pr_client pr);
  ca_server : server_ok (pr_server pr);
  ca_world : world_of (pr_client pr) = sy_client y;
  ca_submitter : reactor (pr_server pr) = sy_server y;
  ca_log : pr_log pr = sy_log y;
  ca_queue : queue_waiting (outbound_messages (pr_server pr)) = [];
  ca_requests : in_transit (wire (E:=C1)) (outbound (stream (pr_client pr))) (inbound (stream (pr_server pr)))
    (unread_bytes (pr_server pr)) (queued_bytes (send_buffer (pr_client pr))) (sy_requests y);
  ca_responses : in_transit (wire (E:=C2)) (outbound (stream (pr_server pr))) (inbound (stream (pr_client pr)))
    (unread_bytes (pr_client pr)) (queued_bytes (send_buffer (pr_server pr))) (sy_responses y);
}.

(** Runs of one side are runs of the system in which no caller moves. *)
Lemma client_run_lifts w got sent w' y rest :
  io_run (client_io (K:=K)) w got sent w' → sy_client y = w → sy_responses y = got ++ rest →
  rtc SystemIo y (mkSystem w' (sy_requests y ++ sent) (sy_server y) rest (sy_log y)).
Proof.
  intros Hrun. revert y rest. induction Hrun as [w|w i o w1 i' o' w2 Hs _ IH]; intros y rest Hw Hr.
  { rewrite app_nil_r. simpl in Hr. subst. by destruct y. }
  rewrite <-app_assoc in Hr. subst w. eapply rtc_l; [by eapply io_client|].
  rewrite (app_assoc (sy_requests y)).
  by apply (IH (mkSystem w1 (sy_requests y ++ o) (sy_server y) (i' ++ rest) (sy_log y))).
Qed.

Lemma server_run_lifts s got sent s' y rest :
  io_run (server_io (K:=K)) s got sent s' → sy_server y = s → sy_requests y = got ++ rest →
  rtc SystemIo y (mkSystem (sy_client y) rest s' (sy_responses y ++ sent) (sy_log y)).
Proof.
  intros Hrun. revert y rest. induction Hrun as [s|s i o s1 i' o' s2 Hs _ IH]; intros y rest Hw Hr.
  { rewrite app_nil_r. simpl in Hr. subst. by destruct y. }
  rewrite <-app_assoc in Hr. subst s. eapply rtc_l; [by eapply io_server|].
  rewrite (app_assoc (sy_responses y)).
  by apply (IH (mkSystem (sy_client y) (i' ++ rest) s1 (sy_responses y ++ o) (sy_log y))).
Qed.

(** The messages that the codecs are for: when the requests that are called are such
    messages, so is all that the two sides send. *)
Context (fits1 : Req → Prop) (fits2 : Res → Prop).

Definition calls_fit (l : Log Req Res) : Prop := Forall (λ e, fits1 e.2) (log_calls l).

Definition messages_fit : Prop := ∀ y,
  system_reachable (K:=K) (F:=F) (S:=S) streams y → calls_fit (sy_log y) →
  Forall fits1 (sy_requests y) ∧ Forall fits2 (sy_responses y).

Lemma pair_step_calls_fit pr pr' : pair_step pr pr' → calls_fit (pr_log pr') → calls_fit (pr_log pr).
Proof. destruct 1; simpl; try done; unfold calls_fit; simpl; by intros [_ ?]%Forall_cons. Qed.

Context (Hservice : ∀ (v : V) m, streams m →
  match (new_rpc (F:=F) (S:=S) v m).1 with RpcUnary _ => False | _ => True end).
Context (Hto : ∀ (m : Req) v, fits1 m →
  frame (D:=C2) (wire (E:=C1) m ++ v) = Ok (len (wire (E:=C1) m), m)).
Context (Hback : ∀ (m : Res) v, fits2 m →
  frame (D:=C1) (wire (E:=C2) m ++ v) = Ok (len (wire (E:=C2) m), m)).
Context (Hfits : messages_fit).

Lemma carries_world c d log y w' requests :
  carries (mkPair c d log) y → world_ok w' → w_connected w' = true → requests = sy_requests y → ∀ log',
  carries (mkPair (with_world c w') d log')
    (mkSystem w' requests (sy_server y) (sy_responses y) log').
Proof.
  intros [Hc Hd Hw Hs Hu Hq Hr1 Hr2] Hok Hconn -> log'. split; try done; simpl in *.
  - destruct Hc as [Hr Hse]. split; [by apply (recv_ok_same c); destruct Hr|].
    destruct Hse as [T1 T2 T3 T4 T5]. split; try done. apply Hok.
  - unfold world_of. simpl. rewrite <-Hconn. by destruct w'.
Qed.

Lemma poll_client_refines c d log y fuel k c' :
  carries (mkPair c d log) y → system_reachable (K:=K) (F:=F) (S:=S) streams y → calls_fit log →
  (patience (stream c) < fuel)%nat → client_poll fuel c k = Return (Pending, c') →
  inbound (stream c') `prefix_of` outbound (stream d) →
  ∃ y', rtc SystemIo y y' ∧ carries (mkPair c' d log) y'.
Proof.
  intros [Hc Hd Hw Hs Hu Hq Hr1 Hr2] Hreach Hcf Hf He Hnet. simpl in *.
  pose proof (system_reachable_ok streams Hservice y Hreach) as Hok.
  destruct (Hfits y Hreach) as [_ Hfit]; [by rewrite <-Hu|].
  assert (world_ok (world_of c)) as Hwok by (rewrite Hw; apply Hok).
  destruct (client_poll_runs c fuel k Hc Hwok Hf) as (p & c2 & read & He2 & Hin & Hp).
  rewrite He in He2. injection He2 as <- <-.
  destruct (frames (unread_bytes c ++ read)) as [[ms rest] live] eqn:Hfr.
  destruct Hp as (out & Hrun & Hp). destruct (Hp eq_refl) as (Hc' & _ & Hun & Hpre & Hout).
  rewrite Hin in Hnet.
  destruct (transit_receives _ _ _ _ _ _ _ _ _ _ _ Hback Hfit Hr2 Hnet Hfr) as (ms2 & Hms & Hr2').
  eexists. split; [by eapply client_run_lifts|]. split; try done; simpl.
  - by eapply transit_sends.
  - by rewrite Hin, Hun.
Qed.

Lemma poll_server_refines c d log y fuel k d' :
  carries (mkPair c d log) y → system_reachable (K:=K) (F:=F) (S:=S) streams y → calls_fit log →
  (patience (stream d) < fuel)%nat → server_poll fuel d k = Return (Pending, d') →
  inbound (stream d') `prefix_of` outbound (stream c) →
  ∃ y', rtc SystemIo y y' ∧ carries (mkPair c d' log) y'.
Proof.
  intros [Hc Hd Hw Hs Hu Hq Hr1 Hr2] Hreach Hcf Hf He Hnet. simpl in *.
  destruct (Hfits y Hreach) as [Hfit _]; [by rewrite <-Hu|].
  destruct (server_poll_runs d fuel k Hd Hq Hf) as (p & d2 & read & He2 & Hin & Hp).
  rewrite He in He2. injection He2 as <- <-.
  destruct (frames (unread_bytes d ++ read)) as [[ms rest] live] eqn:Hfr.
  destruct Hp as (out & Hrun & Hp). destruct (Hp eq_refl) as (Hd' & _ & Hun & Hq' & Hpre & Hout).
  rewrite Hin in Hnet.
  destruct (transit_receives _ _ _ _ _ _ _ _ _ _ _ Hto Hfit Hr1 Hnet Hfr) as (ms2 & Hms & Hr1').
  eexists. split; [by eapply server_run_lifts|]. split; try done; simpl.
  - by rewrite Hin, Hun.
  - by eapply transit_sends.
Qed.

(** What a step of a pair is to the system: a run of its two sides, a call, or the
    same step of a caller. *)
Inductive mirrors pr pr' y : Sys → Prop :=
| mirrors_io y' : rtc SystemIo y y' → mirrors pr pr' y y'
| mirrors_call e y' :
    SystemStep y y' → log_calls (sy_log y') = e :: log_calls (sy_log y) → mirrors pr pr' y y'
| mirrors_caller heard w' :
    caller_step (K:=K) (sy_used y) (sy_client y) heard w' →
    pr' = mkPair (with_world (pr_client pr) w') (pr_server pr) (log_hear heard (pr_log pr)) →
    mirrors pr pr' y (mkSystem w' (sy_requests y) (sy_server y) (sy_responses y) (log_hear heard (sy_log y))).

Lemma mirrors_steps pr pr' y y' : mirrors pr pr' y y' → rtc SystemStep y y'.
Proof.
  intros [y1 Hr|e y1 Hs _|heard w' Hs _]; [|by apply rtc_once|apply rtc_once; by eapply sys_caller].
  eapply rtc_subrel; [|exact Hr]. intros. by apply system_io_step.
Qed.

Lemma pair_step_refines pr pr' y :
  pair_step pr pr' → system_reachable (K:=K) (F:=F) (S:=S) streams y → calls_fit (pr_log pr) → carries pr y →
  ∃ y', mirrors pr pr' y y' ∧ carries pr' y'.
Proof.
  intros Hstep Hreach Hcf Hca. destruct pr as [c d log]. pose proof (system_reachable_ok streams Hservice y Hreach) as Hok.
  pose proof (ca_world _ _ Hca) as Hw. pose proof (ca_log _ _ Hca) as Hus. simpl in Hw, Hus.
  pose proof (so_world _ _ Hok) as Hwok. pose proof (so_connected _ _ Hok) as Hconn.
  destruct Hstep as [cl m res q' r' Hcode Hwd Hfresh w He|cl m res q' r' Hcode Hwd Hfresh Hst w He|heard w' Hstep
    |fuel k c' Hf He Hnet|fuel k d' Hf He Hnet]; cbn [pr_client pr_server pr_log] in *.
  - subst w log. rewrite Hw in He |- *. unfold pair_called. cbn [pr_client]. rewrite Hw. eexists. split.
    + eapply mirrors_call; [by eapply sys_call_unary|done].
    + simpl. rewrite Hconn. eapply carries_world; try done.
      rewrite <-Hconn. eapply client_step_ok; [|exact Hwok]. by eapply (step_send_unary (K:=K)).
  - subst w log. rewrite Hw in He |- *. unfold pair_called. cbn [pr_client]. rewrite Hw. eexists. split.
    + eapply mirrors_call; [by eapply sys_call_streaming|done].
    + simpl. rewrite Hconn. eapply carries_world; try done.
      rewrite <-Hconn. eapply client_step_ok; [|exact Hwok]. by eapply (step_send_streaming (K:=K)).
  - subst log. cbn [pr_client pr_log] in *. rewrite Hw in Hstep. eexists. split.
    + by eapply mirrors_caller.
    + simpl. eapply carries_world; try done.
      * eapply client_step_ok; [|exact Hwok]. by eapply caller_client_step.
      * destruct (caller_effect streams _ _ _ _ Hstep Hwok) as (_ & -> & _). done.
  - destruct (poll_client_refines c d log y fuel k c' Hca Hreach Hcf Hf He Hnet) as (y' & Hr & Hca').
    exists y'. split; [by apply mirrors_io|done].
  - destruct (poll_server_refines c d log y fuel k d' Hca Hreach Hcf Hf He Hnet) as (y' & Hr & Hca').
    exists y'. split; [by apply mirrors_io|done].
Qed.

Lemma steps_reachable y y' :
  rtc SystemStep y y' → system_reachable (K:=K) (F:=F) (S:=S) streams y →
  system_reachable (K:=K) (F:=F) (S:=S) streams y'.
Proof. induction 1; [done|]. eauto using system_next. Qed.

Lemma pair_refines pr :
  pair_reachable pr → calls_fit (pr_log pr) →
  ∃ y, system_reachable (K:=K) (F:=F) (S:=S) streams y ∧ carries pr y.
Proof.
  induction 1 as [[c d log] [Hc Hd (x & v & q & Hch & Hw) (service & Hs) Hq [Hb1 Hb2] [Hu1 Hu2] [Hi1 Hi2] [Ho1 Ho2] Hus]
    |pr pr' _ IH Hstep]; intros Hcf.
  { exists (mkSystem (world_new q v) [] (submitter_new service) [] (mkLog [] [])). split; [by eapply system_start|].
    simpl in *. split; simpl; try done; rewrite ?Hb1, ?Hb2, ?Hu1, ?Hu2, ?Hi1, ?Hi2, ?Ho1, ?Ho2; by exists []. }
  pose proof (pair_step_calls_fit _ _ Hstep Hcf) as Hcf0. destruct (IH Hcf0) as (y & Hreach & Hca).
  destruct (pair_step_refines pr pr' y Hstep Hreach Hcf0 Hca) as (y' & Hm & Hca').
  exists y'. split; [|done]. eapply steps_reachable; [by eapply mirrors_steps|done].
Qed.

(** A pair is idle: nothing is queued or in the network, and the server is done. *)
Record idle pr : Prop := {
  id_calls : queue_waiting (outbound_messages (pr_client pr)) = [];
  id_queued : send_buffer (pr_client pr) = [] ∧ send_buffer (pr_server pr) = [];
  id_read : inbound (stream (pr_server pr)) = outbound (stream (pr_client pr)) ∧
            inbound (stream (pr_client pr)) = outbound (stream (pr_server pr));
  id_pool : pool_contents (rpcs (reactor (pr_server pr))) = [];
  id_rejections : rejections (reactor (pr_server pr)) = [];
}.

Lemma idle_quiet pr y :
  system_reachable (K:=K) (F:=F) (S:=S) streams y → calls_fit (pr_log pr) → carries pr y → idle pr → quiet y.
Proof.
  intros Hreach Hcf [Hc Hd Hw Hs Hu _ Hr1 Hr2] [Hcalls [Hq1 Hq2] [Hi1 Hi2] Hpool Hrejections].
  rewrite Hq1, Hi1 in Hr1. rewrite Hq2, Hi2 in Hr2.
  destruct (Hfits y Hreach) as [Hfit1 Hfit2]; [by rewrite <-Hu|]. rewrite Hs in Hpool, Hrejections. split.
  { apply Permutation_nil_r. rewrite <-Hw. unfold notifications. simpl in *. by rewrite <-pending_waiting, Hcalls. }
  split; [eapply transit_idle; [exact Hto|exact Hfit1|exact Hr1|apply Hd]|].
  split; [eapply transit_idle; [exact Hback|exact Hfit2|exact Hr2|apply Hc]|]. done.
Qed.
End pair.

(** Messages whose ids are words are sent when such requests are called. *)
Lemma messages_fit_ids {O W K Req Res V F S P : Type} `{AtomicWakerLaws W K} `{OneshotLaws O (result Res RpcError) K}
  `{!FutureOp F K Res} `{!StreamOp S K Res} `{!ConnectionService V K Req F S} `{MessageLaws Req} `{MessageLaws Res}
  `{FuturesUnorderedLaws P (RpcStream F S) (u64 * RpcStreamEvent Res) (list (AbortCell W))} (streams : Req → Prop) :
  (∀ (v : V) m, streams m → match (new_rpc (F:=F) (S:=S) v m).1 with RpcUnary _ => False | _ => True end) →
  messages_fit (O:=O) (W:=W) (K:=K) (Res:=Res) (V:=V) (F:=F) (S:=S) (P:=P) streams
    (λ m, message_id m < 2 ^ 64) (λ m, message_id m < 2 ^ 64).
Proof.
  intros Hservice y Hreach _. pose proof (system_reachable_ok streams Hservice y Hreach) as Hok.
  pose proof (so_width _ _ Hok) as Hwd. rewrite Forall_forall in Hwd.
  split; (eapply Forall_impl; [apply Hok|]); intros m Hm; by apply Hwd.
Qed.

(** ** Pairs that run

    The steps of a pair as functions: a call, a poll of a completion, and a poll of
    a side, which is a step when the network allows it and the connection goes on. *)
Section drive.
Context {S1 C1 B1 S2 C2 B2 O W K Req Res V F S P : Type} {limit1 limit2 : usize}.
Context `{AtomicWakerLaws W K} `{OneshotLaws O (result Res RpcError) K}.
Context `{!FutureOp F K Res} `{!StreamOp S K Res} `{!ConnectionService V K Req F S}.
Context `{MessageLaws Req} `{MessageLaws Res}.
Context `{FuturesUnorderedLaws P (RpcStream F S) (u64 * RpcStreamEvent Res) (list (AbortCell W))}.
Context `{!AsyncStream S1 K} `{!AsyncStreamLaws S1 K} `{!AsyncStream S2 K} `{!AsyncStreamLaws S2 K}.
Context `{CL1 : CodecLaws C1 Res Req B1 limit1} `{!BufWhole B1}.
Context `{CL2 : CodecLaws C2 Req Res B2 limit2} `{!BufWhole B2}.
Context (streams : Req → Prop).
Abbreviation ThePair := (Pair S1 C1 B1 S2 C2 B2 O W Req Res V P).
Abbreviation PairStep := (pair_step (K:=K) (F:=F) (S:=S) streams).
Abbreviation PairReachable := (pair_reachable (K:=K) (limit1:=limit1) (limit2:=limit2) (F:=F) (S:=S) streams).
Implicit Types pr : ThePair.

Definition call_unary_side (cl : RpcClient) (m : Req) pr : ThePair :=
  let w := world_of (pr_client pr) in
  match send_unary cl m (w_queue w) (w_reactor w) with
  | Return (_, q, r) =>
      mkPair (with_world (pr_client pr) (mkWorld q (w_receiver w) true r)) (pr_server pr) (pair_called pr m)
  | _ => pr
  end.
Definition call_streaming_side (cl : RpcClient) (m : Req) pr : ThePair :=
  let w := world_of (pr_client pr) in
  match send_streaming cl m (w_queue w) (w_reactor w) with
  | Return (_, q, r) =>
      mkPair (with_world (pr_client pr) (mkWorld q (w_receiver w) true r)) (pr_server pr) (pair_called pr m)
  | _ => pr
  end.

Definition hear_unary_side (u : UnaryCompletion) (k : K) pr : ThePair :=
  let w := world_of (pr_client pr) in
  match unary_poll u k (cells (w_reactor w)) with
  | Return (p, _, cs) =>
      mkPair (with_world (pr_client pr) (mkWorld (w_queue w) (w_receiver w) (w_connected w) (set_cells (w_reactor w) cs)))
        (pr_server pr) (log_hear match p with Ready (Ok m) => [(uc_completion u, m)] | _ => [] end (pr_log pr))
  | _ => pr
  end.
Definition hear_streaming_side (x : StreamingCompletion) (k : K) pr : ThePair :=
  let w := world_of (pr_client pr) in
  match streaming_poll_next x k (cells (w_reactor w)) with
  | Return (p, _, cs) =>
      mkPair (with_world (pr_client pr) (mkWorld (w_queue w) (w_receiver w) (w_connected w) (set_cells (w_reactor w) cs)))
        (pr_server pr) (log_hear match p with Ready (Some (Ok m)) => [(sc_completion x, m)] | _ => [] end (pr_log pr))
  | _ => pr
  end.

Definition poll_client_side (fuel : nat) (k : K) pr : ThePair :=
  match poll (In:=Res) (Out:=Req) (L:=RpcNotification Req) fuel (pr_client pr) k with
  | Return (_, c) => mkPair c (pr_server pr) (pr_log pr)
  | _ => pr
  end.
Definition poll_server_side (fuel : nat) (k : K) pr : ThePair :=
  match poll (In:=Req) (Out:=Res) (L:=Res) fuel (pr_server pr) k with
  | Return (_, d) => mkPair (pr_client pr) d (pr_log pr)
  | _ => pr
  end.

Definition client_goes_on (fuel : nat) (k : K) pr : bool :=
  match poll (In:=Res) (Out:=Req) (L:=RpcNotification Req) fuel (pr_client pr) k with
  | Return (Pending, c) =>
      bool_decide (inbound (stream c) `prefix_of` outbound (stream (pr_server pr))) &&
      (patience (stream (pr_client pr)) <? fuel)%nat
  | _ => false
  end.
Definition server_goes_on (fuel : nat) (k : K) pr : bool :=
  match poll (In:=Req) (Out:=Res) (L:=Res) fuel (pr_server pr) k with
  | Return (Pending, d) =>
      bool_decide (inbound (stream d) `prefix_of` outbound (stream (pr_client pr))) &&
      (patience (stream (pr_server pr)) <? fuel)%nat
  | _ => false
  end.

Lemma client_side_step fuel k pr : client_goes_on fuel k pr = true → PairStep pr (poll_client_side fuel k pr).
Proof.
  unfold client_goes_on, poll_client_side. destruct (poll _ (pr_client pr) _) as [[[u|] c]| |] eqn:He; try done.
  intros [Hp%bool_decide_eq_true Hf%Nat.ltb_lt]%andb_true_iff. by eapply pair_poll_client.
Qed.

Lemma server_side_step fuel k pr : server_goes_on fuel k pr = true → PairStep pr (poll_server_side fuel k pr).
Proof.
  unfold server_goes_on, poll_server_side. destruct (poll _ (pr_server pr) _) as [[[u|] c]| |] eqn:He; try done.
  intros [Hp%bool_decide_eq_true Hf%Nat.ltb_lt]%andb_true_iff. by eapply pair_poll_server.
Qed.

Lemma client_side_reachable fuel k pr :
  PairReachable pr → client_goes_on fuel k pr = true → PairReachable (poll_client_side fuel k pr).
Proof. intros Hr Hgo. eapply pair_next; [exact Hr|by apply client_side_step]. Qed.

Lemma server_side_reachable fuel k pr :
  PairReachable pr → server_goes_on fuel k pr = true → PairReachable (poll_server_side fuel k pr).
Proof. intros Hr Hgo. eapply pair_next; [exact Hr|by apply server_side_step]. Qed.

Lemma call_unary_reachable cl m pr :
  PairReachable pr → control_code m = Normal → message_id m < 2 ^ 64 → message_id m ∉ pr_used pr →
  PairReachable (call_unary_side cl m pr).
Proof.
  intros Hr Hc Hw Hf. unfold call_unary_side.
  destruct (send_unary _ _ _ _) as [[[res q] r]| |] eqn:He; [|done..].
  eapply pair_next; [exact Hr|]. by apply (pair_call_unary _ pr cl m res).
Qed.

Lemma call_streaming_reachable cl m pr :
  PairReachable pr → control_code m = Normal → message_id m < 2 ^ 64 → message_id m ∉ pr_used pr →
  streams m → PairReachable (call_streaming_side cl m pr).
Proof.
  intros Hr Hc Hw Hf Hs. unfold call_streaming_side.
  destruct (send_streaming _ _ _ _) as [[[res q] r]| |] eqn:He; [|done..].
  eapply pair_next; [exact Hr|]. by apply (pair_call_streaming _ pr cl m res).
Qed.

Lemma hear_unary_reachable u k pr : PairReachable pr → PairReachable (hear_unary_side u k pr).
Proof.
  intros Hr. unfold hear_unary_side. destruct (unary_poll _ _ _) as [[[p u'] cs]| |] eqn:He; [|done..].
  eapply pair_next; [exact Hr|]. eapply pair_caller. by eapply (caller_poll_unary _ _ u k).
Qed.

Lemma hear_streaming_reachable x k pr : PairReachable pr → PairReachable (hear_streaming_side x k pr).
Proof.
  intros Hr. unfold hear_streaming_side. destruct (streaming_poll_next _ _ _) as [[[p x'] cs]| |] eqn:He; [|done..].
  eapply pair_next; [exact Hr|]. eapply pair_caller. by eapply (caller_poll_streaming _ _ x k).
Qed.
End drive.

(** ** The properties *)

Module EndToEnds.

Section claims.
Context {S1 C1 B1 S2 C2 B2 O W K Req Res V F S P : Type} {limit1 limit2 : usize}.
Context `{AtomicWakerLaws W K} `{OneshotLaws O (result Res RpcError) K}.
Context `{!FutureOp F K Res} `{!StreamOp S K Res} `{!ConnectionService V K Req F S}.
Context `{MessageLaws Req} `{MessageLaws Res}.
Context `{FuturesUnorderedLaws P (RpcStream F S) (u64 * RpcStreamEvent Res) (list (AbortCell W))}.
Context `{!AsyncStream S1 K} `{!AsyncStreamLaws S1 K} `{!AsyncStream S2 K} `{!AsyncStreamLaws S2 K}.
Context `{CL1 : CodecLaws C1 Res Req B1 limit1} `{!BufWhole B1}.
Context `{CL2 : CodecLaws C2 Req Res B2 limit2} `{!BufWhole B2}.
Context (streams : Req → Prop).
Abbreviation ThePair := (Pair S1 C1 B1 S2 C2 B2 O W Req Res V P).
Implicit Types pr : ThePair.

(** The service starts no unary rpc for the requests that are called as streams. *)
Definition streams_agree : Prop := ∀ (v : V) m, streams m →
  match (new_rpc (F:=F) (S:=S) v m).1 with RpcUnary _ => False | _ => True end.

(** Each side frames what the other one encodes, if the message fits. *)
Context (fits1 : Req → Prop) (fits2 : Res → Prop).

Definition codecs_agree : Prop :=
  (∀ (m : Req) v, fits1 m → frame (D:=C2) (wire (E:=C1) m ++ v) = Ok (len (wire (E:=C1) m), m)) ∧
  (∀ (m : Res) v, fits2 m → frame (D:=C1) (wire (E:=C2) m ++ v) = Ok (len (wire (E:=C2) m), m)).
Abbreviation all_fit :=
  (messages_fit (O:=O) (W:=W) (K:=K) (V:=V) (F:=F) (S:=S) (P:=P) streams fits1 fits2).

(** C3: a client's and a server's connections, joined by a network that gives each
    what the other one wrote, in order and in any pieces, refine the system of a
    client and a submitter: in every state they reach, whatever was called,
    dropped and polled in whatever order, there is a reachable state of the system
    with their reactors, whose messages on the way are exactly those in the bytes
    that one has queued or written and the other has not decoded.  The codecs need
    to agree on the messages that the two sides exchange only. *)
Theorem connections_refine_the_system pr
  (Hstreams : streams_agree) (Hcodecs : codecs_agree) (Hfits : all_fit) (Hcf : calls_fit fits1 (pr_log pr))
  (Hreach : pair_reachable (K:=K) (limit1:=limit1) (limit2:=limit2) (F:=F) (S:=S) streams pr) :
  ∃ y, system_reachable (K:=K) (F:=F) (S:=S) streams y ∧ carries (limit1:=limit1) (limit2:=limit2) pr y.
Proof. destruct Hcodecs. by apply (pair_refines streams fits1 fits2). Qed.

(** C1: no call is left without its answer: when a client's and a server's
    connections have nothing queued, all that was written has been read, and the
    server has no rpc in its pool and no rejection to send, then no caller has
    anything left to wait for: every completion that was ever handed out has its
    response or knows that none will come. *)
Theorem idle_connections_have_no_waiters pr
  (Hstreams : streams_agree) (Hcodecs : codecs_agree) (Hfits : all_fit) (Hcf : calls_fit fits1 (pr_log pr))
  (Hreach : pair_reachable (K:=K) (limit1:=limit1) (limit2:=limit2) (F:=F) (S:=S) streams pr)
  (Hcalls : queue_waiting (outbound_messages (pr_client pr)) = [])
  (Hqueued : send_buffer (pr_client pr) = [] ∧ send_buffer (pr_server pr) = [])
  (Hread : inbound (stream (pr_server pr)) = outbound (stream (pr_client pr)) ∧
           inbound (stream (pr_client pr)) = outbound (stream (pr_server pr)))
  (Hpool : pool_contents (rpcs (reactor (pr_server pr))) = [])
  (Hrejections : rejections (reactor (pr_server pr)) = []) :
  rpc_registry (reactor (pr_client pr)) = ∅ ∧
  ∀ i cell, cells (reactor (pr_client pr)) !! i = Some cell → ¬ RpcClients.cell_waits cell.
Proof.
  destruct Hcodecs as [Hto Hback].
  destruct (pair_refines streams fits1 fits2 Hstreams Hto Hback Hfits pr Hreach Hcf) as (y & Hy & Hca).
  pose proof (system_reachable_ok streams Hstreams y Hy) as Hok.
  destruct (idle_quiet streams fits1 fits2 Hto Hback Hfits pr y Hy Hcf Hca) as (Hns & Hreq & Hres & Hp & Hj); [by split|].
  destruct (system_at_rest streams y Hok Hns Hreq Hres Hp Hj) as [Hreg Hcells].
  by rewrite <-(ca_world _ _ Hca) in Hreg, Hcells.
Qed.

(** C2: callers hear what the service says to them: for a service that answers each
    request with some sequence of responses, whatever callers do and however the
    two connections are polled and the bytes between them are cut, the responses
    that the completion of a call has given its caller are, in order and without
    gaps, the first responses of a sequence that the service may give under the
    id of that call. *)
Theorem callers_hear_the_service `{!ServiceHistory F S K Res} pr (c : nat) (m : Req)
  (Hstreams : streams_agree) (Hcodecs : codecs_agree) (Hfits : all_fit) (Hcf : calls_fit fits1 (pr_log pr))
  (Hreach : pair_reachable (K:=K) (limit1:=limit1) (limit2:=limit2) (F:=F) (S:=S) streams pr)
  (Hservice : Forall (λ e, request_keeps (V:=V) (K:=K) (F:=F) (S:=S) (Res:=Res) e.2) (log_calls (pr_log pr)))
  (Hcall : (c, m) ∈ log_calls (pr_log pr)) :
  ∃ said, may_say (F:=F) (S:=S) (K:=K) (message_id m) said ∧ heard_from (pr_log pr) c `prefix_of` said.
Proof.
  destruct Hcodecs as [Hto Hback].
  destruct (pair_refines streams fits1 fits2 Hstreams Hto Hback Hfits pr Hreach Hcf) as (y & Hy & Hca).
  rewrite (ca_log _ _ Hca) in *. by eapply callers_hear.
Qed.
End claims.

(** ** Witnesses: a unary and a streaming call of the note service *)

Import WakerCell Demo Notes.
Abbreviation NoteSlot := (OneshotView (result Note RpcError) * bool)%type.
Abbreviation NotePool := (list (RpcStream Note (list Note))).
Abbreviation NotePair :=
  (Pair ScriptedStream (unit * unit) OwnedBuffer ScriptedStream (unit * unit) OwnedBuffer
     NoteSlot (option nat) Note Note unit NotePool).

Definition note_queue : Shared (option nat) (RpcNotification Note) :=
  mkShared (replicate 8 chute_default) None 1 1 0 max_u64 false.

(** What the two sides write, cut up on its way. *)
Definition note_requests : bytes := note_bytes (mkNote 6 Normal) ++ note_bytes (mkNote 7 Normal).
Definition note_responses : bytes :=
  note_bytes (mkNote 6 Normal) ++ note_bytes (mkNote 7 Normal) ++ note_bytes (mkNote 7 Normal)
    ++ note_bytes (mkNote 7 End).

Definition note_start : NotePair := mkPair
  (new (mkScriptedStream [Err WouldBlock; Ok (take 13 note_responses); Ok (drop 13 note_responses)] [Ok 100] [] [])
     (tt, tt) 32 16 8 (note_queue, receiver_new) completion_reactor_new)
  (new (mkScriptedStream [Ok (take 4 note_requests); Ok (drop 4 note_requests)] [Ok 5; Ok 100] [] [])
     (tt, tt) 32 16 8 (mkShared (replicate 8 chute_default) None 0 1 0 max_u64 false, receiver_new)
     (submitter_new (F:=Note) (S:=list Note) (Res:=Note) tt))
  (mkLog [] []).

Abbreviation note_reachable :=
  (pair_reachable (S1:=ScriptedStream) (S2:=ScriptedStream) (K:=nat) (limit1:=32) (limit2:=32)
     (F:=Note) (S:=list Note) odd_note).

Lemma note_start_reachable : note_reachable note_start.
Proof.
  apply pair_start. split; try done.
  - apply new_ok; try done. by apply channel_invb_sound.
  - apply new_ok; try done. by apply channel_invb_sound.
  - by exists (mkSender 0), receiver_new, note_queue.
  - by exists tt.
Qed.

Definition note_client : RpcClient := mkRpcClient (mkSender 0).

Definition note_called : NotePair :=
  call_streaming_side note_client (mkNote 7 Normal) (call_unary_side note_client (mkNote 6 Normal) note_start).
Definition note_asked : NotePair := poll_client_side 90 5%nat note_called.
Definition note_answered : NotePair := poll_server_side 90 6%nat note_asked.
Definition note_done : NotePair := poll_client_side 90 5%nat note_answered.

Lemma note_called_reachable : note_reachable note_called.
Proof.
  apply call_streaming_reachable; [|done|done|change (7 ∉ [6]); by intros ?%list_elem_of_singleton|done].
  apply call_unary_reachable; [exact note_start_reachable|done|done|apply not_elem_of_nil].
Qed.

Lemma note_done_reachable : note_reachable note_done.
Proof.
  apply client_side_reachable; [|vm_compute; reflexivity].
  apply server_side_reachable; [|vm_compute; reflexivity].
  apply client_side_reachable; [|vm_compute; reflexivity]. exact note_called_reachable.
Qed.

Lemma note_streams_agree : streams_agree (V:=unit) (K:=nat) (F:=Note) (S:=list Note) odd_note.
Proof. unfold streams_agree, odd_note. intros v m Hm. simpl. by rewrite Hm. Qed.

(** The codec of notes is for notes whose ids are words. *)
Definition note_fits (m : Note) : Prop := message_id m < 2 ^ 64.

Lemma note_codecs_agree :
  codecs_agree (C1:=unit * unit) (B1:=OwnedBuffer) (C2:=unit * unit) (B2:=OwnedBuffer)
    (limit1:=32) (limit2:=32) (Req:=Note) (Res:=Note) note_fits note_fits.
Proof. split; intros m v Hm; by apply note_frames. Qed.

Definition note_messages_fit := messages_fit_ids (O:=NoteSlot) (W:=option nat) (K:=nat) (Req:=Note) (Res:=Note)
  (V:=unit) (F:=Note) (S:=list Note) (P:=NotePool) odd_note note_streams_agree.

Lemma note_calls_fit pr :
  forallb (λ e, message_id e.2 <? 2 ^ 64) (log_calls (pr_log (pr : NotePair))) = true → calls_fit note_fits (pr_log pr).
Proof.
  intros Hall. apply Forall_forall. intros e He. apply N.ltb_lt.
  rewrite forallb_forall in Hall. apply Hall. by apply list_elem_of_In.
Qed.

Lemma connections_refine_the_system_witness :
  ∃ y, system_reachable (K:=nat) (F:=Note) (S:=list Note) odd_note y ∧
    carries (limit1:=32) (limit2:=32) note_called y.
Proof.
  exact (connections_refine_the_system odd_note note_fits note_fits note_called note_streams_agree note_codecs_agree
    note_messages_fit (note_calls_fit note_called eq_refl) note_called_reachable).
Defined.

Lemma idle_connections_have_no_waiters_witness :
  rpc_registry (reactor (pr_client note_done)) = ∅ ∧
  ∃ o s v, cells (reactor (pr_client note_done)) = [OneshotCell o; StreamCell s v] ∧
    o.1 = OsValue (Ok (mkNote 6 Normal)) ∧ senders s = 0 ∧
    pending_values s v = [mkNote 7 Normal; mkNote 7 Normal].
Proof.
  destruct (idle_connections_have_no_waiters odd_note note_fits note_fits note_done note_streams_agree note_codecs_agree
    note_messages_fit (note_calls_fit note_done eq_refl) note_done_reachable) as [Hreg Hw];
    [vm_compute; reflexivity|split; vm_compute; reflexivity|split; vm_compute; reflexivity
    |vm_compute; reflexivity..|].
  split; [exact Hreg|]. do 3 eexists. split; [vm_compute; reflexivity|]. split; [reflexivity|].
  split; [|vm_compute; reflexivity]. reflexivity.
Defined.

(** The histories of the note service: an even note comes back once, an odd one at
    most twice. *)
Definition note_answers (id : u64) : list Note := replicate (if N.even id then 1 else 2) (mkNote id Normal).

#[local] Instance note_history : ServiceHistory Note (list Note) nat Note.
Proof.
  refine {|
    may_say id l := l `prefix_of` note_answers id;
    future_says id f := N.even id = true ∧ f = mkNote id Normal;
    stream_says id l items := l ++ items = note_answers id |}.
  - intros id. apply prefix_nil.
  - intros id f k [He ->]. unfold poll_future, note_future, note_answers. by rewrite He.
  - intros id l [|r items] k Ha; unfold poll_stream, note_stream; [done|].
    assert (r = mkNote id Normal) as ->.
    { assert (r ∈ note_answers id) as Hr by (rewrite <-Ha; set_solver).
      unfold note_answers in Hr. by apply elem_of_replicate in Hr as [-> _]. }
    simpl. rewrite <-(assoc_L (++)). split; [done|]. split; [|done]. rewrite <-Ha. exists items. by rewrite <-app_assoc.
Defined.

Definition note_stream_handle : StreamingCompletion :=
  mkStreamingCompletion 1 (mkCompletionGuard false 7 (mkSender 2)) false.
Definition note_heard : NotePair :=
  hear_streaming_side note_stream_handle 9%nat (hear_streaming_side note_stream_handle 9%nat
    (hear_unary_side (mkUnaryCompletion 0 (mkCompletionGuard false 6 (mkSender 1))) 9%nat note_done)).

Lemma callers_hear_the_service_witness :
  heard_from (pr_log note_heard) 0 = [mkNote 6 Normal] ∧
  heard_from (pr_log note_heard) 1 = [mkNote 7 Normal; mkNote 7 Normal] ∧
  ∃ said, said `prefix_of` note_answers 7 ∧ heard_from (pr_log note_heard) 1 `prefix_of` said.
Proof.
  split; [vm_compute; reflexivity|]. split; [vm_compute; reflexivity|].
  apply (callers_hear_the_service (ServiceHistory0:=note_history) odd_note note_fits note_fits note_heard 1 (mkNote 7 Normal)
    note_streams_agree note_codecs_agree note_messages_fit (note_calls_fit note_heard eq_refl)).
  - do 2 apply hear_streaming_reachable. apply hear_unary_reachable, note_done_reachable.
  - assert (log_calls (pr_log note_heard) = [(1%nat, mkNote 7 Normal); (0%nat, mkNote 6 Normal)]) as ->
      by (vm_compute; reflexivity).
    repeat constructor; by intros _ v.
  - assert (log_calls (pr_log note_heard) = [(1%nat, mkNote 7 Normal); (0%nat, mkNote 6 Normal)]) as ->
      by (vm_compute; reflexivity).
    by left.
Defined.
End EndToEnds.
