(* ===== verification/EndToEndAnswers.v ===== *)
(** * Calls over two connections are answered in full

    [Answers] follows a call through the system of a client and a server, and
    [EndToEnd] shows that two connections over a network are that system.  Here the
    call is made on a connection and the answer arrives in bytes: when the
    connections are idle, a caller that has kept its completion has received all
    that the service has to say to its call. *)

From S2P Require Import Prelude Spillway Encoding Connection ConnectionSpec RpcMessage ExampleService.
From S2P Require Import RpcServer RpcServerSpec RpcClient RpcClientSpec ClientConnection ServerConnection System.
From S2P Require Import Progress ServiceHistory ServerAnswers Answers EndToEnd.
Local Open Scope N_scope.
Local Open Scope run_scope.

Section pair.
Context {S1 C1 B1 S2 C2 B2 O W K Req Res V F S P : Type} {limit1 limit2 : usize}.
Context `{AtomicWakerLaws W K} `{OneshotLaws O (result Res RpcError) K}.
Context `{!FutureOp F K Res} `{!StreamOp S K Res} `{!ConnectionService V K Req F S}.
Context `{MessageLaws Req} `{MessageLaws Res}.
Context `{FuturesUnorderedLaws P (RpcStream F S) (u64 * RpcStreamEvent Res) (list (AbortCell W))}.
Context `{!AsyncStream S1 K} `{!AsyncStreamLaws S1 K} `{!AsyncStream S2 K} `{!AsyncStreamLaws S2 K}.
Context `{CL1 : CodecLaws C1 Res Req B1 limit1} `{!BufWhole B1}.
Context `{CL2 : CodecLaws C2 Req Res B2 limit2} `{!BufWhole B2}.
Context (streams : Req → Prop).
Abbreviation ThePair := (Pair S1 C1 B1 S2 C2 B2 O W Req Res V P).
Abbreviation Sys := (System O W Req Res V P).
Abbreviation PairStep := (pair_step (K:=K) (F:=F) (S:=S) streams).
Abbreviation Carries := (carries (limit1:=limit1) (limit2:=limit2)).
Implicit Types pr : ThePair.
Implicit Types y : Sys.

(** [pair_calls streaming m c pr pr']: the call [m] is made and accepted; its
    completion has the channel [c]. *)
Inductive pair_calls : bool → Req → nat → ThePair → ThePair → Prop :=
| pair_calls_unary cl m u q' r' pr :
    control_code m = Normal → message_id m < 2 ^ 64 → message_id m ∉ pr_used pr →
    let w := world_of (pr_client pr) in
    send_unary cl m (w_queue w) (w_reactor w) = Return (Ok u, q', r') →
    pair_calls false m (uc_completion u) pr
      (mkPair (with_world (pr_client pr) (mkWorld q' (w_receiver w) true r')) (pr_server pr) (pair_called pr m))
| pair_calls_streaming cl m x q' r' pr :
    control_code m = Normal → message_id m < 2 ^ 64 → message_id m ∉ pr_used pr → streams m →
    let w := world_of (pr_client pr) in
    send_streaming cl m (w_queue w) (w_reactor w) = Return (Ok x, q', r') →
    pair_calls true m (sc_completion x) pr
      (mkPair (with_world (pr_client pr) (mkWorld q' (w_receiver w) true r')) (pr_server pr) (pair_called pr m)).

Lemma pair_calls_step streaming m c pr pr' : pair_calls streaming m c pr pr' → PairStep pr pr'.
Proof.
  by intros [cl m' u q' r' pr1 ??? w He|cl m' x q' r' pr1 ???? w He];
    [eapply pair_call_unary|eapply pair_call_streaming].
Qed.

(** A step in which the completion of the call is not dropped. *)
Definition pair_patient (c : nat) (m : Req) pr pr' : Prop :=
  PairStep pr pr' ∧
  ∀ w', drops (K:=K) c (message_id m) (world_of (pr_client pr)) w' →
    pr' ≠ mkPair (with_world (pr_client pr) w') (pr_server pr) (log_hear [] (pr_log pr)).

(** A step that leaves the senders of the queue alone drops no completion. *)
Lemma same_senders_patient c m pr pr' :
  PairStep pr pr' → senders (w_queue (world_of (pr_client pr'))) = senders (w_queue (world_of (pr_client pr))) →
  pair_patient c m pr pr'.
Proof. intros Hstep Hs. split; [done|]. intros w' Hd ->. by apply drops_senders in Hd. Qed.

(** What the caller has heard, and what is there for it to hear. *)
Definition pair_received pr (c : nat) : list Res :=
  heard_from (pr_log pr) c ++ values (cells (reactor (pr_client pr))) c.

Context (fits1 : Req → Prop) (fits2 : Res → Prop).
Context (Hservice : ∀ (v : V) m, streams m →
  match (new_rpc (F:=F) (S:=S) v m).1 with RpcUnary _ => False | _ => True end).
Context (Hto : ∀ (m : Req) v, fits1 m → frame (D:=C2) (wire (E:=C1) m ++ v) = Ok (len (wire (E:=C1) m), m)).
Context (Hback : ∀ (m : Res) v, fits2 m → frame (D:=C1) (wire (E:=C2) m ++ v) = Ok (len (wire (E:=C2) m), m)).
Context (Hfits : messages_fit (O:=O) (W:=W) (K:=K) (V:=V) (F:=F) (S:=S) (P:=P) streams fits1 fits2).

Lemma pair_calls_refines streaming m c pr pr' y :
  pair_calls streaming m c pr pr' → system_reachable (K:=K) (F:=F) (S:=S) streams y → Carries pr y →
  ∃ y', calls (K:=K) streams streaming m c y y' ∧ Carries pr' y'.
Proof.
  intros Hcall Hreach Hca. pose proof (system_reachable_ok streams Hservice y Hreach) as Hok.
  pose proof (ca_world _ _ Hca) as Hw. pose proof (ca_log _ _ Hca) as Hus.
  pose proof (so_world _ _ Hok) as Hwok. pose proof (so_connected _ _ Hok) as Hconn.
  destruct Hcall as [cl m u q' r' [cc d log] Hcode Hwd Hfresh w He|cl m x q' r' [cc d log] Hcode Hwd Hfresh Hst w He];
    cbn [pr_client pr_server pr_log] in *; subst w log; rewrite Hw in He |- *; unfold pair_called; cbn [pr_client];
    rewrite Hw; eexists.
  - split; [by eapply (calls_unary streams cl)|]. simpl. rewrite Hconn. eapply carries_world; try done.
    rewrite <-Hconn. eapply client_step_ok; [|exact Hwok]. by eapply (step_send_unary (K:=K)).
  - split; [by eapply (calls_streaming streams cl)|]. simpl. rewrite Hconn. eapply carries_world; try done.
    rewrite <-Hconn. eapply client_step_ok; [|exact Hwok]. by eapply (step_send_streaming (K:=K)).
Qed.

(** The system that a pair carries drops the completion only when the pair does. *)
Lemma patient_refines c m pr pr' y :
  pair_patient c m pr pr' → system_reachable (K:=K) (F:=F) (S:=S) streams y →
  calls_fit fits1 (pr_log pr) → Carries pr y →
  ∃ y', rtc (patient (K:=K) (F:=F) (S:=S) streams c m) y y' ∧ Carries pr' y'.
Proof.
  intros [Hstep Hkeep] Hreach Hcf Hca.
  destruct (pair_step_refines streams fits1 fits2 Hservice Hto Hback Hfits pr pr' y Hstep Hreach Hcf Hca) as (y' & Hm & Hca').
  exists y'. split; [|done]. destruct Hm as [y' Hr|e y' Hs Hlog|heard w' Hs ->].
  - eapply rtc_subrel; [|exact Hr]. intros. by apply io_patient.
  - apply rtc_once. split; [done|]. intros w' _ ->. simpl in Hlog. apply (f_equal length) in Hlog. simpl in Hlog. lia.
  - apply rtc_once. split; [by eapply sys_caller|]. intros w2 Hd Heq.
    pose proof (f_equal sy_client Heq) as Hc2. pose proof (f_equal (λ y, log_heard (sy_log y)) Heq) as Hh. simpl in Hc2, Hh.
    subst w2. apply app_inv_head in Hh. subst heard. rewrite <-(ca_world _ _ Hca) in Hd. by apply (Hkeep w' Hd).
Qed.

Lemma patients_calls_fit c m pr pr' :
  rtc (pair_patient c m) pr pr' → calls_fit fits1 (pr_log pr') → calls_fit fits1 (pr_log pr).
Proof. induction 1 as [|pr pr1 pr' [Hs _] _ IH]; [done|]. intros Hcf. by eapply pair_step_calls_fit, IH. Qed.

Lemma patients_refine c m pr pr' y :
  rtc (pair_patient c m) pr pr' → system_reachable (K:=K) (F:=F) (S:=S) streams y →
  calls_fit fits1 (pr_log pr') → Carries pr y →
  ∃ y', rtc (patient (K:=K) (F:=F) (S:=S) streams c m) y y' ∧ Carries pr' y'.
Proof.
  intros Hr. revert y. induction Hr as [pr|pr pr1 pr' Hs Hr IH]; intros y Hreach Hcf Hca; [by exists y|].
  assert (calls_fit fits1 (pr_log pr)) as Hcf0 by (eapply patients_calls_fit; [by eapply rtc_l|exact Hcf]).
  destruct (patient_refines c m pr pr1 y Hs Hreach Hcf0 Hca) as (y1 & Hr1 & Hca1).
  destruct (IH y1) as (y' & Hr' & Hca'); [by eapply patient_run|done..|]. exists y'. split; [by etrans|done].
Qed.

(** Two connections that are idle after a call that was kept are a system at rest
    after that call. *)
Lemma pair_calls_system streaming m c pr0 pr1 pr2 :
  pair_reachable (K:=K) (limit1:=limit1) (limit2:=limit2) (F:=F) (S:=S) streams pr0 →
  pair_calls streaming m c pr0 pr1 → rtc (pair_patient c m) pr1 pr2 → calls_fit fits1 (pr_log pr2) → idle pr2 →
  ∃ y0 y1 y2, system_reachable (K:=K) (F:=F) (S:=S) streams y0 ∧ calls (K:=K) streams streaming m c y0 y1 ∧
    rtc (patient (K:=K) (F:=F) (S:=S) streams c m) y1 y2 ∧ quiet y2 ∧
    sy_log y2 = pr_log pr2 ∧ received y2 c = pair_received pr2 c.
Proof.
  intros Hreach Hcall Hkept Hcf Hidle.
  pose proof (patients_calls_fit c m pr1 pr2 Hkept Hcf) as Hcf1.
  pose proof (pair_step_calls_fit streams fits1 pr0 pr1 (pair_calls_step streaming m c pr0 pr1 Hcall) Hcf1) as Hcf0.
  destruct (pair_refines streams fits1 fits2 Hservice Hto Hback Hfits pr0 Hreach Hcf0) as (y0 & Hy0 & Hca0).
  destruct (pair_calls_refines streaming m c pr0 pr1 y0 Hcall Hy0 Hca0) as (y1 & Hc1 & Hca1).
  assert (system_reachable (K:=K) (F:=F) (S:=S) streams y1) as Hy1 by (eapply system_next; [exact Hy0|by eapply calls_step]).
  destruct (patients_refine c m pr1 pr2 y1 Hkept Hy1 Hcf Hca1) as (y2 & Hr2 & Hca2).
  pose proof (proj1 (patient_run _ _ _ _ _ Hr2) Hy1) as Hy2. exists y0, y1, y2. split_and!; try done.
  - by eapply (idle_quiet streams fits1 fits2 Hto Hback Hfits pr2).
  - symmetry. apply Hca2.
  - unfold received, pair_received. rewrite (ca_log _ _ Hca2). by rewrite <-(ca_world _ _ Hca2).
Qed.

(** Polls of either side drop nothing. *)
Lemma client_poll_patient c m fuel k pr :
  client_goes_on fuel k pr = true →
  senders (w_queue (world_of (pr_client (poll_client_side fuel k pr)))) = senders (w_queue (world_of (pr_client pr))) →
  pair_patient c m pr (poll_client_side fuel k pr).
Proof. intros Hgo Hs. apply same_senders_patient; [by apply client_side_step|done]. Qed.

Lemma server_poll_patient c m fuel k pr :
  server_goes_on fuel k pr = true → pair_patient c m pr (poll_server_side fuel k pr).
Proof.
  intros Hgo. apply same_senders_patient; [by apply server_side_step|]. unfold poll_server_side.
  by destruct (poll _ _ _) as [[p d]| |].
Qed.
End pair.

(** ** The property *)

Module EndToEndAnswered.

Section claims.
Context {S1 C1 B1 S2 C2 B2 O W K Req Res V F S P : Type} {limit1 limit2 : usize}.
Context `{AtomicWakerLaws W K} `{OneshotLaws O (result Res RpcError) K}.
Context `{!FutureOp F K Res} `{!StreamOp S K Res} `{!ConnectionService V K Req F S}.
Context `{MessageLaws Req} `{MessageLaws Res} `{!ServiceHistory F S K Res} `{!ServiceAnswers F S K Res}.
Context `{FuturesUnorderedLaws P (RpcStream F S) (u64 * RpcStreamEvent Res) (list (AbortCell W))}.
Context `{!AsyncStream S1 K} `{!AsyncStreamLaws S1 K} `{!AsyncStream S2 K} `{!AsyncStreamLaws S2 K}.
Context `{CL1 : CodecLaws C1 Res Req B1 limit1} `{!BufWhole B1}.
Context `{CL2 : CodecLaws C2 Req Res B2 limit2} `{!BufWhole B2}.
Context (streams fits1 : Req → Prop) (fits2 : Res → Prop).
Abbreviation ThePair := (Pair S1 C1 B1 S2 C2 B2 O W Req Res V P).

(** The service treats a call as what it was called, a unary or a streaming one, or
    says nothing to it. *)
Definition served_as_called (streaming : bool) (m : Req) : Prop := ∀ v : V,
  match (new_rpc (F:=F) (S:=S) v m).1 with
  | RpcUnary _ => streaming = false
  | RpcStreaming _ => streaming = true
  | RpcCancelled => full_says (F:=F) (S:=S) (K:=K) (Res:=Res) (message_id m) []
  end.

(** C5: calls are answered in full, over the wire: a call is made and accepted on a
    client's connection in any state that it and the server's connection can reach;
    then anything happens (other calls and their drops, cancellations, polls of
    either connection, however the network cuts the bytes), but its caller does
    not drop its completion.  Whenever the two connections are idle after that,
    the caller has received exactly what the service says in full to the call,
    each response once and in order. *)
Theorem calls_are_answered_in_full (streaming : bool) (m : Req) (c : nat) (pr0 pr1 pr2 : ThePair)
  (Hstreams : EndToEnds.streams_agree (V:=V) (K:=K) (F:=F) (S:=S) streams)
  (Hcodecs : EndToEnds.codecs_agree (C1:=C1) (B1:=B1) (C2:=C2) (B2:=B2) (limit1:=limit1) (limit2:=limit2)
     (Req:=Req) (Res:=Res) fits1 fits2)
  (Hfits : messages_fit (O:=O) (W:=W) (K:=K) (V:=V) (F:=F) (S:=S) (P:=P) streams fits1 fits2)
  (Hcf : calls_fit fits1 (pr_log pr2))
  (Hreach : pair_reachable (K:=K) (limit1:=limit1) (limit2:=limit2) (F:=F) (S:=S) streams pr0)
  (Hcall : pair_calls streams streaming m c pr0 pr1)
  (Hkept : rtc (pair_patient (K:=K) (F:=F) (S:=S) streams c m) pr1 pr2)
  (Hservice : Forall (λ e, request_keeps (V:=V) (K:=K) (F:=F) (S:=S) (Res:=Res) e.2) (log_calls (pr_log pr2)))
  (Hkind : served_as_called streaming m) (Hidle : idle pr2) :
  full_says (F:=F) (S:=S) (K:=K) (message_id m) (pair_received pr2 c).
Proof.
  destruct Hcodecs as [Hto Hback].
  destruct (pair_calls_system streams fits1 fits2 Hstreams Hto Hback Hfits streaming m c pr0 pr1 pr2 Hreach Hcall Hkept
    Hcf Hidle) as (y0 & y1 & y2 & Hy0 & Hc1 & Hr2 & Hquiet & Hlog & <-).
  rewrite <-Hlog in Hservice.
  by apply (calls_in_full streams Hstreams streaming m c y0 y1 y2 Hy0 Hc1 Hr2).
Qed.
End claims.

(** ** Witness: the stream of the note service *)

Import WakerCell Demo Notes EndToEnds.

#[local] Existing Instance note_history.

(** All that the note service says: an even note once, an odd one twice. *)
#[local] Instance note_full : ServiceAnswers Note (list Note) nat Note.
Proof.
  refine {| full_says id l := l = note_answers id |}.
  - intros id f k [He ->]. unfold poll_future, note_future, note_answers. by rewrite He.
  - intros id l [|r items] k Ha; unfold poll_stream, note_stream; [|done]. by rewrite <-Ha, app_nil_r.
Defined.

(** The pair before and after the streaming call, and when it is done. *)
Definition note_before : NotePair := call_unary_side note_client (mkNote 6 Normal) note_start.

Lemma note_before_reachable : note_reachable note_before.
Proof. apply call_unary_reachable; [exact note_start_reachable|done|done|apply not_elem_of_nil]. Qed.

Lemma note_streaming_called :
  pair_calls (K:=nat) odd_note true (mkNote 7 Normal) 1 note_before note_called.
Proof.
  unfold note_called. fold note_before. unfold call_streaming_side.
  destruct (send_streaming note_client (mkNote 7 Normal) (w_queue (world_of (pr_client note_before)))
    (w_reactor (world_of (pr_client note_before)))) as [[[[x|e] q'] r']| |] eqn:He; [|by vm_compute in He..].
  assert (sc_completion x = 1%nat) as <- by (vm_compute in He; by injection He as <- _ _).
  eapply (pair_calls_streaming odd_note note_client (mkNote 7 Normal) x q' r'); [done|done| |done|exact He].
  change (7 ∉ [6]). by intros ?%list_elem_of_singleton.
Qed.

Abbreviation NotePatient :=
  (pair_patient (S1:=ScriptedStream) (S2:=ScriptedStream) (K:=nat) (F:=Note) (S:=list Note) odd_note 1 (mkNote 7 Normal)).

Lemma note_done_patient : rtc NotePatient note_called note_done.
Proof.
  apply (rtc_l _ _ note_asked); [apply client_poll_patient; vm_compute; reflexivity|].
  apply (rtc_l _ _ note_answered); [apply server_poll_patient; vm_compute; reflexivity|].
  apply rtc_once, client_poll_patient; vm_compute; reflexivity.
Qed.

Lemma calls_are_answered_in_full_witness :
  idle note_done ∧ pair_received (K:=nat) note_done 1 = [mkNote 7 Normal; mkNote 7 Normal].
Proof.
  assert (idle note_done) as Hidle
    by (split; [vm_compute; reflexivity|split; vm_compute; reflexivity|split; vm_compute; reflexivity
       |vm_compute; reflexivity..]).
  split; [exact Hidle|].
  pose proof (calls_are_answered_in_full (ServiceHistory0:=note_history) (ServiceAnswers0:=note_full)
    odd_note note_fits note_fits true (mkNote 7 Normal) 1 note_before note_called note_done
    note_streams_agree note_codecs_agree note_messages_fit (note_calls_fit note_done eq_refl) note_before_reachable note_streaming_called note_done_patient) as Hfull.
  assert (log_calls (pr_log note_done) = [(1%nat, mkNote 7 Normal); (0%nat, mkNote 6 Normal)]) as Hlog
    by (vm_compute; reflexivity).
  rewrite Hlog in Hfull. apply Hfull; [repeat constructor; by intros _ v|by intros v|exact Hidle].
Defined.
End EndToEndAnswered.
