(* ===== verification/MessagePackEcho.v ===== *)
(** * The echo service of example-messagepack over its own codec

    [EndToEndAnswers] is about any codecs that agree on the messages that are sent,
    and any service.  Here they are those of [example-messagepack]: the
    MessagePack serializer, in the server's pooled encoder and as it is in the
    client, the MessagePack decoder, and the echo service.  The codec keeps a length in four bytes, so what is sent must not be
    too long for that; it is shown that nothing is when the texts of the calls are
    not. *)

From stdpp Require Import countable.
From S2P Require Import Prelude Spillway Encoding Connection ConnectionSpec RpcMessage ExampleService.
From S2P Require Import RpcServer RpcServerSpec RpcClient RpcClientSpec Codecs ClientConnection ServerConnection.
From S2P Require Import ServiceContent System Progress ServiceHistory ServerAnswers Answers EndToEnd EndToEndAnswers.
Local Open Scope N_scope.
Local Open Scope run_scope.

(** ** What is sent when calls fit

    For a service whose responses to requests that fit are good, and control
    messages that fit: whatever the two sides send fits. *)
Section fitting.
Context {O W K Req Res V F S P : Type} `{AtomicWakerLaws W K} `{OneshotLaws O (result Res RpcError) K}.
Context `{!FutureOp F K Res} `{!StreamOp S K Res} `{!ConnectionService V K Req F S} `{!ServiceContent F S K Res}.
Context `{MessageLaws Req} `{MessageLaws Res}.
Context `{FuturesUnorderedLaws P (RpcStream F S) (u64 * RpcStreamEvent Res) (list (AbortCell W))}.
Context (streams fits1 : Req → Prop) (fits2 : Res → Prop).
Context (Hservice : ∀ (v : V) m, streams m →
  match (new_rpc (F:=F) (S:=S) v m).1 with RpcUnary _ => False | _ => True end).
Context (Hcancel : ∀ id, fits1 (cancelled id)).
Context (Hcontrol : ∀ id, fits2 (cancelled id) ∧ fits2 (ended id)).
Context (Hgood : ∀ id r, good (F:=F) (S:=S) (K:=K) id r → fits2 (set_message_id r id)).
Context (Hkinds : ∀ m, fits1 m → control_code m = Normal → ∀ v : V,
  kind_good (F:=F) (S:=S) (K:=K) (Res:=Res) (message_id m) (new_rpc v m).1).
Abbreviation Sys := (System O W Req Res V P).
Implicit Types y : Sys.

Definition queued_fits (n : RpcNotification Req) : Prop :=
  match n with New rpc => fits1 (cr_request rpc) | CancelRpc _ => True end.

Record sends_fit y : Prop := {
  sf_queue : Forall queued_fits (notifications (sy_client y));
  sf_requests : Forall fits1 (sy_requests y);
  sf_server : sub_good (K:=K) (Res:=Res) (sy_server y);
  sf_responses : Forall fits2 (sy_responses y);
}.

Lemma said_fits m : said (F:=F) (S:=S) (K:=K) m → fits2 m.
Proof. by intros [->|[->|(r & Hr & ->)]]; [apply Hcontrol..|apply Hgood]. Qed.

Lemma no_new_fits (ns : list (RpcNotification Req)) : new_ids ns = [] → Forall queued_fits ns.
Proof.
  unfold new_ids. induction ns as [|[rpc|id] ns IH]; simpl; [constructor|done|]. intros Hn. by constructor; [|apply IH].
Qed.

Lemma called_fits y w' request streaming :
  sends_fit y → called request streaming (sy_client y) w' → fits1 request →
  sends_fit (mkSystem w' (sy_requests y) (sy_server y) (sy_responses y) (called_log y request)).
Proof.
  intros Hs (_ & _ & Hn) Hf. split; simpl; try apply Hs.
  destruct Hn as [->|(x & _ & _ & ->)]; [apply Hs|]. constructor; [done|apply Hs].
Qed.

Lemma client_io_fits y got sent rest w' :
  sends_fit y → system_ok (K:=K) (F:=F) (S:=S) streams y → sy_responses y = got ++ rest →
  client_io (K:=K) (sy_client y) got sent w' →
  sends_fit (mkSystem w' (sy_requests y ++ sent) (sy_server y) rest (sy_log y)).
Proof.
  intros Hs Hok Hr Hio. pose proof (sf_responses _ Hs) as Hf. rewrite Hr in Hf. apply Forall_app in Hf as [_ Hf].
  destruct Hio as [k p q' v' Hc He|m status r' Hc He]; [|split; simpl; rewrite ?app_nil_r; try apply Hs; done].
  destruct (poll_unbounded _ _ _ _ _ _ (proj1 (so_world _ _ Hok)) He) as (_ & _ & _ & Hp).
  assert (∀ w : ClientWorld O W Req Res, notifications w ≡ₚ pending_values (w_queue w) (w_receiver w)) as Hnp
    by (intros w; unfold notifications; by rewrite pending_waiting).
  pose proof (sf_queue _ Hs) as Hq. rewrite Hnp in Hq.
  destruct p as [[n|]|]; cycle 1.
  1, 2: destruct Hp as (_ & Hp & _); split; simpl; rewrite ?app_nil_r;
    [rewrite Hnp; simpl; rewrite Hp; constructor|apply Hs|apply Hs|done].
  rewrite Hp in Hq. apply Forall_cons in Hq as [Hn Hq]. split; simpl; [by rewrite Hnp| |apply Hs|done].
  apply Forall_app. split; [apply Hs|]. constructor; [|done]. destruct n as [rpc|id]; [done|apply Hcancel].
Qed.

Lemma server_io_fits y got sent rest s' :
  sends_fit y → sy_requests y = got ++ rest → server_io (K:=K) (F:=F) (S:=S) (sy_server y) got sent s' →
  sends_fit (mkSystem (sy_client y) rest s' (sy_responses y ++ sent) (sy_log y)).
Proof.
  intros Hs Hr Hio. pose proof (sf_requests _ Hs) as Hf. rewrite Hr in Hf. apply Forall_app in Hf as [Hgot Hrest].
  destruct (server_io_good _ _ _ _ Hio) as [Hg Hsaid]; [|apply Hs|].
  { eapply Forall_impl; [exact Hgot|]. intros m Hm. by apply Hkinds. }
  split; simpl; try done; [apply Hs|]. apply Forall_app. split; [apply Hs|].
  eapply Forall_impl; [exact Hsaid|apply said_fits].
Qed.

Lemma system_step_fits y y' :
  system_step (K:=K) (F:=F) (S:=S) streams y y' → system_ok (K:=K) (F:=F) (S:=S) streams y →
  calls_fit fits1 (sy_log y') → sends_fit y → sends_fit y'.
Proof.
  intros Hstep Hok Hcf Hs. pose proof (so_world _ _ Hok) as Hw.
  destruct Hstep as [c m res q' r' Hcode Hwd Hfresh He|c m res q' r' Hcode Hwd Hfresh Hst He|heard w' He
    |got sent rest w' Hr Hio|got sent rest s' Hr Hio].
  - apply (called_fits y _ m false Hs); [by eapply call_unary_effect|]. by apply Forall_cons in Hcf as [Hm _].
  - apply (called_fits y _ m true Hs); [by eapply call_streaming_effect|]. by apply Forall_cons in Hcf as [Hm _].
  - destruct (caller_effect streams _ _ _ _ He Hw) as (_ & _ & ns & Hn & _ & Hnew).
    split; simpl; try apply Hs. rewrite Hn. apply Forall_app. split; [by apply no_new_fits|apply Hs].
  - by eapply client_io_fits.
  - by apply (server_io_fits y got).
Qed.

Lemma step_calls_fit y y' :
  system_step (K:=K) (F:=F) (S:=S) streams y y' → calls_fit fits1 (sy_log y') → calls_fit fits1 (sy_log y).
Proof. destruct 1; simpl; try done; unfold calls_fit; simpl; by intros [_ ?]%Forall_cons. Qed.

Lemma contents_fit : messages_fit (O:=O) (W:=W) (K:=K) (V:=V) (F:=F) (S:=S) (P:=P) streams fits1 fits2.
Proof.
  intros y Hreach Hcf. assert (sends_fit y) as Hs; [|split; apply Hs].
  induction Hreach as [x v q service Hq|y y' Hreach IH Hstep].
  - split; simpl; try constructor.
    + rewrite (notifications_new x v q Hq). constructor.
    + unfold sub_good. simpl. rewrite pool_contents_default. constructor.
  - eapply system_step_fits; [exact Hstep|by eapply system_reachable_ok|exact Hcf|]. apply IH. by eapply step_calls_fit.
Qed.
End fitting.

(** ** The messages of the example on the wire *)

Definition request_text (m : Request) : bytes :=
  match req_body m with Some echo => er_message echo | None => [] end.

Definition response_text (r : Response) : bytes :=
  match res_kind r with
  | Some (Echo response) => es_message response
  | Some (EchoStreamed item) => et_message item
  | None => []
  end.

(** The format: the texts are written as they are, and everything else of a message
    takes a few bytes: a tag and at most eight bytes for each number, the tags of
    the records and the names of the variants. *)
Class RmpSizes `{Rmp Request} `{Rmp Response} := {
  request_size (m : Request) : len (encode_write m) ≤ 64 + len (request_text m);
  response_size (r : Response) : len (encode_write r) ≤ 64 + len (response_text r);
}.

(** The texts that the length prefix has room for. *)
Definition request_fits (m : Request) : Prop := len (request_text m) < 2 ^ 31.
Definition response_fits (r : Response) : Prop := len (response_text r) < 2 ^ 31.

(** The echo service answers with the text, or with its characters one by one. *)
Definition sized_content {K} : ServiceContent Response (list Response) K Response.
Proof.
  refine {| good _ r := response_fits r; good_future _ r := response_fits r;
            good_stream _ items := Forall response_fits items |}.
  - by intros id f k.
  - intros id [|r items] k Hall; simpl; [done|]. by apply Forall_cons in Hall.
Defined.

Lemma latin1_to_utf8_len c : len (latin1_to_utf8 c) ≤ 2.
Proof. unfold latin1_to_utf8. by destruct (c <? 128). Qed.

Lemma echo_stream_fits id echo : Forall response_fits (echo_stream id echo).
Proof.
  apply Forall_forall. intros r (i & Hi)%list_elem_of_lookup. unfold echo_stream in Hi.
  rewrite list_lookup_imap in Hi. destruct (er_message echo !! i) as [c|]; simplify_eq/=.
  unfold response_fits, response_text. simpl. pose proof (latin1_to_utf8_len c). lia.
Qed.

Lemma echo_kind_fits {K} (v : unit) m :
  request_fits m →
  kind_good (F:=Response) (S:=list Response) (K:=K) (Res:=Response) (ServiceContent0:=sized_content)
    (message_id m) (new_rpc (K:=K) v m).1.
Proof.
  intros Hm. simpl. unfold request_fits, request_text in Hm. destruct (req_body m) as [echo|]; [|done].
  destruct (req_response_behavior m); [done|apply echo_stream_fits].
Qed.

Lemma messagepack_messages_fit {O W K P} `{AtomicWakerLaws W K} `{OneshotLaws O (result Response RpcError) K}
  `{FuturesUnorderedLaws P (RpcStream Response (list Response)) (u64 * RpcStreamEvent Response) (list (AbortCell W))} :
  messages_fit (O:=O) (W:=W) (K:=K) (V:=unit) (F:=Response) (S:=list Response) (P:=P) Systems.wants_stream
    request_fits response_fits.
Proof.
  apply (contents_fit (ServiceContent0:=sized_content)); try done; [apply Systems.echo_streams|].
  intros m Hm _ v. by apply echo_kind_fits.
Qed.

(** The codecs of the two sides, as [client.rs] and [server.rs] name them: the
    server's encoder is pooled. *)
Abbreviation ClientCodec := (MessagePackSerializer * MessagePackDecoder)%type.
Abbreviation ServerCodec := (PooledEncoder MessagePackSerializer * MessagePackDecoder)%type.

Section codecs.
Context `{RmpLaws Request} `{RmpLaws Response} `{!RmpSizes} {limit1 limit2 : usize}.

Lemma messagepack_codecs_agree :
  EndToEnds.codecs_agree (C1:=ClientCodec) (B1:=OwnedBuffer) (C2:=ServerCodec) (B2:=Reusable)
    (limit1:=limit1) (limit2:=limit2) (Req:=Request) (Res:=Response) request_fits response_fits.
Proof.
  split; intros m v Hm; apply messagepack_frame_wire.
  - pose proof (request_size m). unfold request_fits in Hm. lia.
  - pose proof (response_size m). unfold response_fits in Hm. lia.
Qed.
End codecs.

(** ** The property *)

Module MessagePackEchoes.
Import Systems Histories Answered EndToEnds.

Section claims.
Context {S1 S2 O W K P : Type} {limit1 limit2 : usize}.
Context `{AtomicWakerLaws W K} `{OneshotLaws O (result Response RpcError) K}.
Context `{FuturesUnorderedLaws P (RpcStream Response (list Response)) (u64 * RpcStreamEvent Response) (list (AbortCell W))}.
Context `{!AsyncStream S1 K} `{!AsyncStreamLaws S1 K} `{!AsyncStream S2 K} `{!AsyncStreamLaws S2 K}.
Context `{RmpLaws Request} `{RmpLaws Response} `{!RmpSizes}.
Abbreviation EchoPair :=
  (Pair S1 ClientCodec OwnedBuffer S2 ServerCodec Reusable O W Request Response unit P).

(** C4: the example of messagepack, from the callers of its client to its service
    and back over MessagePack and two connections: a call is made in any state that
    the two connections can reach, and its completion is not dropped.  Whatever
    else is called, dropped, cancelled and polled, and however the network cuts the
    bytes, once the connections are idle the caller has received the whole answer
    to its own request: its text, every byte of it as a character when it called
    for a stream, or nothing when the call has no body.  No text may be longer than
    the four bytes of a length have room for. *)
Theorem messagepack_calls_are_echoed (streaming : bool) (m : Request) (c : nat) (pr0 pr1 pr2 : EchoPair)
  (Htexts : Forall (λ e, request_fits e.2) (log_calls (pr_log pr2)))
  (Hreach : pair_reachable (K:=K) (limit1:=limit1) (limit2:=limit2) (F:=Response) (S:=list Response) wants_stream pr0)
  (Hcall : pair_calls (K:=K) wants_stream streaming m c pr0 pr1)
  (Hkind : streaming = false → ¬ wants_stream m)
  (Hkept : rtc (pair_patient (K:=K) (F:=Response) (S:=list Response) wants_stream c m) pr1 pr2)
  (Hidle : idle pr2) :
  pair_received (K:=K) pr2 c = echo_answers m.
Proof.
  destruct (messagepack_codecs_agree (limit1:=limit1) (limit2:=limit2)) as [Hto Hback].
  destruct (pair_calls_system wants_stream request_fits response_fits echo_streams Hto Hback messagepack_messages_fit
    streaming m c pr0 pr1 pr2 Hreach Hcall Hkept Htexts Hidle) as (y0 & y1 & y2 & Hy0 & Hc1 & Hr2 & Hquiet & _ & <-).
  by apply (echo_calls_in_full streaming m c y0 y1 y2).
Qed.
End claims.

(** ** Witness: a text comes back in characters

    A format that writes a message as one number behind its tag, which is enough
    for a call. *)

Import WakerCell RpcReactor RpcClients Demo Formats.

(** Messages as tuples. *)
Definition request_parts (m : Request) : u64 * u32 * option (bytes * u64) * bool :=
  (req_request_id m, req_code m, (λ e, (er_message e, er_nanotime e)) <$> req_body m,
   match req_response_behavior m with ExampleService.Unary => true | Stream => false end).
Definition request_of (p : u64 * u32 * option (bytes * u64) * bool) : Request :=
  let '(id, code, body, unary) := p in
  mkRequest id code ((λ e, mkEchoRequest e.1 e.2) <$> body) (if unary then ExampleService.Unary else Stream).

Definition response_parts (r : Response) : u64 * u32 * option (bytes * u64 * option u64) :=
  (res_request_id r, res_code r,
   (λ k, match k with
         | Echo e => (es_message e, es_nanotime e, None)
         | EchoStreamed i => (et_message i, et_nanotime i, Some (et_sequence i))
         end) <$> res_kind r).
Definition response_of (p : u64 * u32 * option (bytes * u64 * option u64)) : Response :=
  let '(id, code, kind) := p in
  mkResponse id code
    ((λ k, match k.2 with
           | None => Echo (mkEchoResponse k.1.1 k.1.2)
           | Some q => EchoStreamed (mkEchoStream k.1.1 k.1.2 q)
           end) <$> kind).

#[local] Instance request_countable : Countable Request.
Proof. refine (inj_countable' request_parts request_of _). by intros [id code [[t n]|] []]. Defined.

#[local] Instance response_countable : Countable Response.
Proof. refine (inj_countable' response_parts response_of _). by intros [id code [[[]|[]]|]]. Defined.

(** One number for a message. *)
#[local] Instance rmp_number {T} `{Countable T} : Rmp T := {|
  write_u32 := tagged_u32;
  read_u32 := read_tagged_u32;
  encode_write m := [N.pos (countable.encode m)];
  from_read u :=
    match u with
    | N.pos p :: rest => match countable.decode p with Some m => Ok (m, rest) | None => Err tt end
    | _ => Err tt
    end;
|}.

#[local] Instance rmp_number_laws {T} `{Countable T} : RmpLaws T.
Proof.
  split; [done|apply read_tagged| |done|apply read_tagged_front|].
  - intros m rest. simpl. by rewrite decode_encode.
  - intros [|[|p] u] m rest; simpl; [done..|]. destruct (countable.decode p); [|done]. intros [= <- <-].
    split; [by exists [N.pos p]|done].
Qed.

#[local] Instance rmp_number_sizes : RmpSizes.
Proof. split; intros m; change (len (encode_write m)) with 1; lia. Qed.

Abbreviation DemoPair :=
  (Pair ScriptedStream ClientCodec OwnedBuffer ScriptedStream ServerCodec Reusable DemoSlot (option nat)
     Request Response unit (list EchoRpc)).

(** The text "hi", called for as a stream. *)
Definition hi : Request := echo_msg 7 [104; 105] Stream.
Definition hi_request : bytes := messagepack_wire hi.
Definition hi_responses : bytes :=
  concat (messagepack_wire (T:=Response) <$> echo_answers hi ++ [ended 7]).

(** What they write, cut up on its way. *)
Definition hi_start : DemoPair := mkPair
  (new (mkScriptedStream [Err WouldBlock; Ok (take 8 hi_responses); Ok (drop 8 hi_responses)] [Ok 100] [] [])
     (mkMessagePackSerializer, messagepack_decoder_default) 64 16 8
     (mkShared (replicate 8 chute_default) None 1 1 0 max_u64 false, receiver_new) completion_reactor_new)
  (new (mkScriptedStream [Ok (take 3 hi_request); Ok (drop 3 hi_request)] [Ok 5; Ok 100] [] [])
     (pooled_new mkMessagePackSerializer, messagepack_decoder_default) 64 16 8
     (mkShared (replicate 8 chute_default) None 0 1 0 max_u64 false, receiver_new)
     (submitter_new (F:=Response) (S:=list Response) (Res:=Response) tt))
  (mkLog [] []).

Definition hi_client : RpcClient := mkRpcClient (mkSender 0).

Definition hi_called : DemoPair := call_streaming_side hi_client hi hi_start.
Definition hi_asked : DemoPair := poll_client_side 90 5%nat hi_called.
Definition hi_answered : DemoPair := poll_server_side 90 6%nat hi_asked.
Definition hi_done : DemoPair := poll_client_side 90 5%nat hi_answered.

Abbreviation HiReachable :=
  (pair_reachable (S1:=ScriptedStream) (S2:=ScriptedStream) (K:=nat) (limit1:=64) (limit2:=64)
     (F:=Response) (S:=list Response) wants_stream).
Abbreviation HiPatient :=
  (pair_patient (S1:=ScriptedStream) (S2:=ScriptedStream) (K:=nat) (F:=Response) (S:=list Response) wants_stream 0 hi).

Lemma hi_start_reachable : HiReachable hi_start.
Proof.
  apply pair_start. split; try done.
  - apply new_ok; try done. by apply channel_invb_sound.
  - apply new_ok; try done. by apply channel_invb_sound.
  - by exists (mkSender 0), receiver_new, (outbound_messages (pr_client hi_start)).1.
  - by exists tt.
Qed.

Lemma hi_streaming_called : pair_calls (K:=nat) wants_stream true hi 0 hi_start hi_called.
Proof.
  unfold hi_called, call_streaming_side.
  destruct (send_streaming hi_client hi (w_queue (world_of (pr_client hi_start)))
    (w_reactor (world_of (pr_client hi_start)))) as [[[[x|e] q'] r']| |] eqn:He; [|by vm_compute in He..].
  assert (sc_completion x = 0%nat) as <- by (vm_compute in He; by injection He as <- _ _).
  eapply (pair_calls_streaming wants_stream hi_client hi x q' r'); [done|done|apply not_elem_of_nil|done|exact He].
Qed.

Lemma hi_done_patient : rtc HiPatient hi_called hi_done.
Proof.
  apply (rtc_l _ _ hi_asked); [apply client_poll_patient; vm_compute; reflexivity|].
  apply (rtc_l _ _ hi_answered); [apply server_poll_patient; vm_compute; reflexivity|].
  apply rtc_once, client_poll_patient; vm_compute; reflexivity.
Qed.

Lemma messagepack_calls_are_echoed_witness :
  idle hi_done ∧ pair_received (K:=nat) hi_done 0 =
    [mkResponse 7 0 (Some (EchoStreamed (mkEchoStream [104] 42 0)));
     mkResponse 7 0 (Some (EchoStreamed (mkEchoStream [105] 42 1)))].
Proof.
  assert (idle hi_done) as Hidle
    by (split; [vm_compute; reflexivity|split; vm_compute; reflexivity|split; vm_compute; reflexivity
       |vm_compute; reflexivity..]).
  split; [exact Hidle|].
  assert (log_calls (pr_log hi_done) = [(0%nat, hi)]) as Hlog by (vm_compute; reflexivity).
  apply (messagepack_calls_are_echoed (limit1:=64) (limit2:=64) true hi 0 hi_start hi_called hi_done); [|exact hi_start_reachable
    |exact hi_streaming_called|done|exact hi_done_patient|exact Hidle].
  rewrite Hlog. by repeat constructor.
Defined.
End MessagePackEchoes.
