(* ===== verification/DecoderTwin.v ===== *)
(** * A decoder that is as good as its twin

    The specification of a connection asks its decoder for laws on all bytes.  A
    decoder that breaks them may still decode, from the beginnings of a stream of
    messages, what a lawful twin decodes.  Then a connection with the one does what
    a connection with the other does as long as it reads such beginnings, and a
    pair of connections that only read what the other one wrote never reads
    anything else: what [EndToEndAnswers] shows for lawful decoders holds for it. *)

From S2P Require Import Prelude Spillway Encoding Connection ConnectionSpec RpcMessage ExampleService.
From S2P Require Import RpcServer RpcServerSpec RpcClient RpcClientSpec ClientConnection ServerConnection System.
From S2P Require Import Progress ServiceHistory ServerAnswers Answers EndToEnd EndToEndAnswers.
Local Open Scope N_scope.
Local Open Scope run_scope.

(** ** Beginnings of messages *)

Section beginnings.
Context {D M : Type} {limit : usize} `{DecoderLaws D M limit} (bytes_of : M → bytes) (fits : M → Prop).
Implicit Types u v w : bytes.

(** [v] is the front of the bytes of some messages. *)
Definition begins v : Prop := ∃ ms w, Forall fits ms ∧ v ++ w = concat (bytes_of <$> ms).

Lemma begins_front u v : begins (u ++ v) → begins u.
Proof. intros (ms & w & Hms & Hw). exists ms, (v ++ w). by rewrite app_assoc. Qed.

Context (Hwire : ∀ m v, fits m → frame (bytes_of m ++ v) = Ok (len (bytes_of m), m)).

(** What is decoded at the front of such bytes is a message, and such bytes follow. *)
Lemma begins_message v n m :
  begins v → v ≠ [] → frame v = Ok (n, m) → n ≤ len v ∧ begins (drop (N.to_nat n) v).
Proof.
  intros (ms & w & Hms & Hw) Hv Hf. pose proof (frame_message _ _ _ Hf) as [_ Hn]. split; [done|].
  destruct ms as [|m' ms]; [by destruct v|]. apply Forall_cons in Hms as [Hm Hms].
  pose proof (Hwire m' (concat (bytes_of <$> ms)) Hm) as He.
  change (v ++ w = bytes_of m' ++ concat (bytes_of <$> ms)) in Hw.
  rewrite <-Hw, (frame_extend v w _ Hv Hf) in He by done. injection He as -> _.
  exists ms, w. split; [done|]. rewrite <-drop_app_le_N by done. rewrite Hw. apply drop_app_length'. unfold len. lia.
Qed.

Lemma begins_no_skip v n : begins v → v ≠ [] → frame v ≠ Err (SkipMessage n).
Proof.
  intros (ms & w & Hms & Hw) Hv Hf. destruct ms as [|m ms]; [by destruct v|].
  apply Forall_cons in Hms as [Hm _]. pose proof (Hwire m (concat (bytes_of <$> ms)) Hm) as He.
  change (v ++ w = bytes_of m ++ concat (bytes_of <$> ms)) in Hw. by rewrite <-Hw, (frame_extend v w _ Hv Hf) in He.
Qed.

Lemma begins_rest v w ms rest live : begins (v ++ w) → frames v = (ms, rest, live) → begins (rest ++ w).
Proof.
  intros (all & x & Hall & Hw) Hf. rewrite <-app_assoc in Hw.
  destruct (frames_prefix bytes_of fits all v (w ++ x) ms rest live Hwire Hall Hw Hf) as (ms2 & -> & Hr).
  apply Forall_app in Hall as [_ Hall]. exists ms2, x. by rewrite <-app_assoc.
Qed.
End beginnings.

(** ** What any connection reads, whatever decodes it *)

Section reads.
Context {S Q C B R K In Out L : Type}.
Context `{AsyncStreamLaws S K} `{OutboundQueue Q K L}.
Context `{Buf B} `{!Encoder C Out B} `{!Decoder C In} `{!MessageReactor R K C B In Out L}.
Abbreviation Conn := (Connection S Q C B R).
Implicit Types c : Conn.

Lemma decode_loop_stream fuel c cursor exit c' cursor' :
  decode_loop fuel c cursor = Return (exit, c', cursor') → stream c' = stream c.
Proof.
  revert c cursor. induction fuel as [|fuel IH]; intros c cursor; [done|]. cbn [decode_loop].
  destruct (cursor =? _); [by intros [= _ <- _]|]. destruct (_ <? cursor); [by intros [= _ <- _]|].
  destruct (_ <? _); [done|]. destruct (decode _ _) as [[[n m]|[n| |n]] co].
  - destruct (on_inbound_message _ m) as [[|] r]; [by intros ->%IH|by intros [= _ <- _]].
  - destruct (_ <? n); by intros [= _ <- _].
  - by intros [= _ <- _].
  - destruct (_ <? n); [by intros [= _ <- _]|by intros ->%IH].
Qed.

Lemma read_react_stream fuel c st c' :
  read_inbound_messages_and_react fuel c = Return (st, c') → stream c' = stream c.
Proof.
  unfold read_inbound_messages_and_react. intros ([[exit c1] cursor] & He & Hr)%run_bind_Return.
  apply decode_loop_stream in He as <-. destruct exit as [st'|st']; [by injection Hr as _ <-|].
  apply run_bind_Return in Hr as (c2 & Hs & [= _ <-]). revert Hs. unfold shift_consumed.
  destruct (_ && _); [by intros [= <-]|]. destruct (negb _); [|by intros [= <-]].
  by intros (b & _ & [= <-])%run_bind_Return.
Qed.

Lemma poll_read_inbound_grows c k st c' :
  poll_read_inbound c k = Return (st, c') → inbound (stream c) `prefix_of` inbound (stream c').
Proof.
  unfold poll_read_inbound, poll_read_from_stream. set (c1 := if _ && _ then _ else c).
  assert (stream c1 = stream c) as <- by (unfold c1; by destruct (_ && _)).
  destruct (0 <? _); [|intros [= _ <-]; reflexivity].
  destruct (len (receive_buffer c1) <? receive_buffer_unread_index c1); [discriminate|].
  pose proof (read_law (stream c1) k (len (receive_buffer c1) - receive_buffer_unread_index c1)) as Hread.
  destruct (poll_read _ _ _) as [[[bs|e]|] s]; destruct Hread as [_ Hread].
  - destruct Hread as (_ & Hin & _). destruct (len bs =? 0); intros [= _ <-]; simpl; rewrite Hin; by eexists.
  - destruct Hread as [Hin _]. destruct (would_block e); [|destruct (interrupted e)];
      intros [= _ <-]; simpl; rewrite Hin; reflexivity.
  - destruct Hread as [Hin _]. intros [= _ <-]. simpl. rewrite Hin. reflexivity.
Qed.

Lemma poll_receive_grows fuel c k p c' :
  poll_receive fuel c k = Return (p, c') → inbound (stream c) `prefix_of` inbound (stream c').
Proof.
  revert c. induction fuel as [|fuel IH]; intros c; [done|]. cbn [poll_receive].
  intros ([st c1] & Hread%poll_read_inbound_grows & He)%run_bind_Return. etrans; [exact Hread|].
  destruct st; try (injection He as _ <-; reflexivity).
  apply run_bind_Return in He as ([st c2] & Hreact%read_react_stream & He). rewrite <-Hreact.
  destruct st; try (injection He as _ <-; reflexivity); by eapply IH.
Qed.

Lemma serialize_outbound_stream c k p c' :
  poll_serialize_outbound_messages c k = Return (p, c') → stream c' = stream c.
Proof.
  assert (∀ fuel c start m q c', serialize_from_queue fuel c k start m = Return (q, c') → stream c' = stream c) as Hq.
  { induction fuel as [|fuel IH]; intros c0 start m q c1; [done|]. cbn [serialize_from_queue].
    destruct (_ <? m); [|by intros [= _ <-]].
    intros ([[[l|]|] q'] & _ & He)%run_bind_Return; try (by injection He as _ <-).
    destruct (on_outbound_message _ l) as [o r]. destruct (encode _ o) as [b co]. by apply IH in He. }
  unfold poll_serialize_outbound_messages. destruct (_ =? 0); [by intros [= _ <-]|].
  intros ([closed c1] & <-%Hq & He)%run_bind_Return. destruct (0 <? _); [|by injection He as _ <-].
  destruct (poll_outbound_many _ _ _) as [[[[]|] r] b]; by injection He as _ <-.
Qed.

Lemma poll_writev_inbound fuel c k res c' :
  poll_writev_buffers fuel c k = Return (res, c') → inbound (stream c') = inbound (stream c).
Proof.
  revert c. induction fuel as [|fuel IH]; intros c; [done|]. cbn [poll_writev_buffers].
  intros ([p c1] & <-%serialize_outbound_stream & He)%run_bind_Return. destruct p; [by injection He as _ <-|].
  destruct (send_buffer c1) as [|b bs].
  - pose proof (flush_law (stream c1) k) as Hf.
    destruct (poll_flush (stream c1) k) as [[[|e]|] s]; destruct Hf as [Hin _]; rewrite <-Hin.
    + by injection He as _ <-.
    + destruct (_ || _); [by apply IH in He|by injection He as _ <-].
    + by injection He as _ <-.
  - pose proof (write_law (stream c1) k (fill_slices (b :: bs) 0)) as Hwr.
    destruct (poll_write_vectored _ _ _) as [[[n|e]|] s]; destruct Hwr as [Hin _]; rewrite <-Hin.
    + destruct (n =? 0); [by injection He as _ <-|]. apply run_bind_Return in He as ([co bufs] & _ & He).
      by apply IH in He.
    + destruct (would_block e); [by apply IH in He|]. destruct (interrupted e); [by apply IH in He|by injection He as _ <-].
    + by injection He as _ <-.
Qed.

Lemma poll_grows fuel c k c' :
  poll (Out:=Out) (L:=L) fuel c k = Return (Pending, c') → inbound (stream c) `prefix_of` inbound (stream c').
Proof.
  unfold poll. intros ([p c1] & Hr%poll_receive_grows & He)%run_bind_Return. destruct p; [done|].
  destruct (reactor_poll _ k) as [[|] r]; [|done]. apply run_bind_Return in He as ([res c2] & Hwr%poll_writev_inbound & He).
  simpl in Hwr. rewrite <-Hwr in Hr. destruct res as [[|]|]; [done| |done]. by injection He as <-.
Qed.
End reads.

(** ** One connection *)

Section twin.
Context {S Q C B R K In Out L : Type} {limit : usize}.
Context `{AsyncStreamLaws S K} `{OutboundQueue Q K L}.
Context `{CodecLaws C In Out B limit} `{MR : !MessageReactor R K C B In Out L}.
Abbreviation Conn := (Connection S Q C B R).
Implicit Types c : Conn.

(** The other decoder of the codec agrees with the lawful one on beginnings. *)
Context (other : Decoder C In) (bytes_of : In → bytes) (fits : In → Prop).

Record twins : Prop := {
  tw_wire m v : fits m → frame (bytes_of m ++ v) = Ok (len (bytes_of m), m);
  tw_decode (co : C) v : begins bytes_of fits v → v ≠ [] → len v < 2 ^ 63 →
    decode (Decoder:=other) co v = decode (Decoder:=Decoder0) co v;
}.
Context (Htwins : twins).
Abbreviation Begins := (begins bytes_of fits).

Lemma decode_loop_twin fuel c cursor :
  params_ok (limit:=limit) c → receive_buffer_unread_index c ≤ len (receive_buffer c) → len (receive_buffer c) < 2 ^ 63 →
  cursor ≤ receive_buffer_unread_index c → dec_ok (codec c) (drop (N.to_nat cursor) (unread_bytes c)) →
  Begins (drop (N.to_nat cursor) (unread_bytes c)) →
  decode_loop (Decoder0:=other) fuel c cursor = decode_loop (Decoder0:=Decoder0) fuel c cursor.
Proof.
  revert c cursor. induction fuel as [|fuel IH]; intros c cursor Hpar Hun Hlen Hcur Hdec Hbeg; [done|].
  pose proof (cursor_moves c cursor) as Hmove. set (v := drop (N.to_nat cursor) (unread_bytes c)) in *.
  cbv zeta in Hmove. destruct (Hmove 0) as [Hlv _]; [done..|lia|]. cbn [decode_loop].
  destruct (N.eqb_spec cursor (receive_buffer_unread_index c)) as [Heq|Hneq]; [done|].
  destruct (N.ltb_spec (receive_buffer_unread_index c) cursor); [done|].
  destruct (N.ltb_spec (len (receive_buffer c)) (receive_buffer_unread_index c)); [done|].
  assert (v ≠ []) as Hv by (rewrite <-len_zero; lia). fold (unread_bytes c). fold v.
  rewrite (tw_decode Htwins (codec c) v Hbeg Hv ltac:(lia)).
  destruct (decode_frame (codec c) v Hdec Hv ltac:(lia)) as [Hf Hst].
  destruct (decode (codec c) v) as [res co]. simpl in Hf, Hst. subst res.
  destruct (frame v) as [[n m]|[n| |n]] eqn:Hfr; [|done..|by destruct (begins_no_skip _ _ (tw_wire Htwins) v n Hbeg Hv)].
  destruct (begins_message _ _ (tw_wire Htwins) v n m Hbeg Hv Hfr) as [Hle Hbeg'].
  destruct (Hmove n) as (_ & -> & Hdrop & Hcn); [done..|]. rewrite Hdrop in Hst, Hbeg'.
  destruct (on_inbound_message _ m) as [[|] r1]; [|done].
  apply IH; try done. by apply (params_ok_same c).
Qed.

Lemma read_react_twin fuel c :
  params_ok (limit:=limit) c → receive_buffer_unread_index c ≤ len (receive_buffer c) → len (receive_buffer c) < 2 ^ 63 →
  dec_ok (codec c) (unread_bytes c) → Begins (unread_bytes c) →
  read_inbound_messages_and_react (Decoder0:=other) fuel c = read_inbound_messages_and_react (Decoder0:=Decoder0) fuel c.
Proof.
  intros. unfold read_inbound_messages_and_react. rewrite decode_loop_twin; try done. lia.
Qed.
(** A [poll_receive] that read a beginning is the lawful one's. *)
Lemma poll_receive_twin fuel c k p c' read :
  recv_ok (limit:=limit) c → poll_receive (Decoder0:=other) fuel c k = Return (p, c') →
  inbound (stream c') = inbound (stream c) ++ read → Begins (unread_bytes c ++ read) →
  poll_receive (Decoder0:=Decoder0) fuel c k = Return (p, c').
Proof.
  revert c read. induction fuel as [|fuel IH]; intros c read Hok; [done|].
  destruct (poll_read_inbound_spec c k Hok)
    as (st & s1 & i1 & b1 & read1 & He1 & Hi1 & Hb1 & Hu1 & Hin1 & _ & _ & _ & Hnone).
  pose proof Hok as [Hpar _ _ _ Hdec _]. pose proof (pa_width _ Hpar) as Hw.
  cbn [poll_receive]. rewrite He1. simpl run_bind. set (c1 := set_receive (set_stream c s1) i1 b1).
  destruct st; [done| |done..]. change (receive_buffer_unread_index c1) with i1.
  intros ([st c2] & Hr & He)%run_bind_Return Hin Hbeg.
  change (unread_bytes c1 = unread_bytes c ++ read1) in Hu1.
  assert (∃ read2, read = read1 ++ read2 ∧ inbound (stream c') = inbound (stream c2) ++ read2) as (read2 & -> & Hin2).
  { pose proof (read_react_stream (Decoder0:=other) _ _ _ _ Hr) as Hs. simpl in Hs.
    assert (inbound (stream c2) `prefix_of` inbound (stream c')) as [read2 Hread2].
    { destruct st; try (injection He as _ <-; reflexivity); by eapply (poll_receive_grows (Decoder0:=other)). }
    exists read2. split; [|done]. apply (app_inv_head (inbound (stream c))).
    by rewrite <-Hin, Hread2, Hs, Hin1, app_assoc. }
  rewrite app_assoc in Hbeg.
  rewrite read_react_twin in Hr; [|by apply (params_ok_same c)|done|simpl; lia
    |rewrite Hu1; by apply dec_ok_extend|rewrite Hu1; by eapply begins_front].
  pose proof (react_extended c s1 i1 b1 read1 Hok Hi1 Hb1 Hu1) as Hreact. rewrite Hr. simpl run_bind.
  pose proof (begins_rest bytes_of fits (tw_wire Htwins) (unread_bytes c ++ read1) read2) as Hrest.
  destruct (frames (unread_bytes c ++ read1)) as [[ms1 rest1] live1] eqn:Hfr1.
  destruct (deliver (reactor c) ms1) as [r1 go1].
  destruct Hreact as (st2 & co & i2 & b2 & He2 & _ & _ & Hcase). fold c1 in He2. rewrite Hr in He2.
  fold c1 in Hcase. injection He2 as -> ->. destruct (go1 && live1); [|by subst st2].
  destruct Hcase as (-> & Hok2 & Hu2). eapply IH; [exact Hok2|exact He|exact Hin2|]. rewrite Hu2.
  by eapply Hrest.
Qed.

(** So is a [poll]. *)
Lemma poll_twin fuel c k c' read :
  recv_ok (limit:=limit) c → poll (Out:=Out) (L:=L) (Decoder0:=other) fuel c k = Return (Pending, c') →
  inbound (stream c') = inbound (stream c) ++ read → Begins (unread_bytes c ++ read) →
  poll (Out:=Out) (L:=L) (Decoder0:=Decoder0) fuel c k = Return (Pending, c').
Proof.
  intros Hok He Hin Hbeg. unfold poll in *. apply run_bind_Return in He as ([p c1] & Hr & He).
  destruct p; [done|]. rewrite (poll_receive_twin fuel c k Pending c1 read Hok Hr); [done| |done].
  destruct (reactor_poll _ k) as [[|] r]; [|done]. apply run_bind_Return in He as ([res c2] & Hwr & He).
  apply poll_writev_inbound in Hwr. simpl in Hwr. rewrite <-Hwr. destruct res as [[|]|]; [done| |done].
  by injection He as <-.
Qed.
End twin.

(** ** Two connections *)

Section pair.
Context {S1 C1 B1 S2 C2 B2 O W K Req Res V F S P : Type} {limit1 limit2 : usize}.
Context `{AtomicWakerLaws W K} `{OneshotLaws O (result Res RpcError) K}.
Context `{!FutureOp F K Res} `{!StreamOp S K Res} `{!ConnectionService V K Req F S}.
Context `{MessageLaws Req} `{MessageLaws Res}.
Context `{FuturesUnorderedLaws P (RpcStream F S) (u64 * RpcStreamEvent Res) (list (AbortCell W))}.
Context `{!AsyncStream S1 K} `{!AsyncStreamLaws S1 K} `{!AsyncStream S2 K} `{!AsyncStreamLaws S2 K}.
Context `{CL1 : CodecLaws C1 Res Req B1 limit1} `{!BufWhole B1}.
Context `{CL2 : CodecLaws C2 Req Res B2 limit2} `{!BufWhole B2}.
Context (streams : Req → Prop) (fits1 : Req → Prop) (fits2 : Res → Prop).
Context (other1 : Decoder C1 Res) (other2 : Decoder C2 Req).
Abbreviation ThePair := (Pair S1 C1 B1 S2 C2 B2 O W Req Res V P).
Abbreviation Sys := (System O W Req Res V P).
Abbreviation PairStep := (pair_step (K:=K) (F:=F) (S:=S) (Decoder0:=Decoder0) (Decoder1:=Decoder1) streams).
Abbreviation OtherStep := (pair_step (K:=K) (F:=F) (S:=S) (Decoder0:=other1) (Decoder1:=other2) streams).
Abbreviation Patient := (pair_patient (K:=K) (F:=F) (S:=S) (Decoder0:=Decoder0) (Decoder1:=Decoder1) streams).
Abbreviation OtherPatient := (pair_patient (K:=K) (F:=F) (S:=S) (Decoder0:=other1) (Decoder1:=other2) streams).
Abbreviation NewPair := (new_pair (K:=K) (limit1:=limit1) (limit2:=limit2) (F:=F) (S:=S)).
Abbreviation Reachable := (pair_reachable (K:=K) (limit1:=limit1) (limit2:=limit2) (F:=F) (S:=S) streams).
Abbreviation Carries := (carries (limit1:=limit1) (limit2:=limit2)).
Implicit Types pr : ThePair.
Implicit Types y : Sys.

(** A pair with the other decoders: it starts as a new pair. *)
Inductive other_reachable : ThePair → Prop :=
| other_start pr : NewPair pr → other_reachable pr
| other_next pr pr' : other_reachable pr → OtherStep pr pr' → other_reachable pr'.

Context (Hservice : ∀ (v : V) m, streams m →
  match (new_rpc (F:=F) (S:=S) v m).1 with RpcUnary _ => False | _ => True end).
Context (Hto : twins (Decoder0:=Decoder1) other2 (wire (E:=C1)) fits1).
Context (Hback : twins (Decoder0:=Decoder0) other1 (wire (E:=C2)) fits2).
Context (Hfits : messages_fit (O:=O) (W:=W) (K:=K) (V:=V) (F:=F) (S:=S) (P:=P) streams fits1 fits2).

(** What is on its way to a side begins with messages, and so do all its parts. *)
Lemma transit_begins {M} (bytes_of : M → bytes) fits sent received unread queued (ms : list M) received' :
  in_transit bytes_of sent received unread queued ms → Forall fits ms →
  received `prefix_of` received' → received' `prefix_of` sent →
  ∃ read, received' = received ++ read ∧ begins bytes_of fits (unread ++ read).
Proof.
  intros (net & -> & Hms) Hfit [read ->] [more Hnet]. rewrite <-app_assoc in Hnet. apply app_inv_head in Hnet as ->.
  exists read. split; [done|]. exists ms, (more ++ queued). split; [done|]. by rewrite <-Hms, <-!app_assoc.
Qed.

Lemma step_twin pr pr' y :
  OtherStep pr pr' → system_reachable (K:=K) (F:=F) (S:=S) streams y → calls_fit fits1 (pr_log pr) →
  Carries pr y → PairStep pr pr'.
Proof.
  intros Hstep Hreach Hcf [Hc Hd _ _ Hlog _ Hr1 Hr2]. destruct (Hfits y Hreach) as [Hfit1 Hfit2]; [by rewrite <-Hlog|].
  destruct Hstep as [cl m res q' r' ??? w He|cl m res q' r' ???? w He|heard w' Hs|fuel k c' Hf He Hnet|fuel k d' Hf He Hnet];
    [by eapply pair_call_unary|by eapply pair_call_streaming|by eapply pair_caller|..].
  - assert (inbound (stream (pr_client pr)) `prefix_of` inbound (stream c')) as Hgrow by (by eapply (poll_grows (Decoder0:=other1))).
    destruct (transit_begins _ _ _ _ _ _ _ _ Hr2 Hfit2 Hgrow Hnet) as (read & Hin & Hbeg).
    eapply pair_poll_client; [exact Hf| |exact Hnet]. eapply poll_twin; [exact Hback|apply Hc|exact He|exact Hin|exact Hbeg].
  - assert (inbound (stream (pr_server pr)) `prefix_of` inbound (stream d')) as Hgrow by (by eapply (poll_grows (Decoder0:=other2))).
    destruct (transit_begins _ _ _ _ _ _ _ _ Hr1 Hfit1 Hgrow Hnet) as (read & Hin & Hbeg).
    eapply pair_poll_server; [exact Hf| |exact Hnet]. eapply poll_twin; [exact Hto|apply Hd|exact He|exact Hin|exact Hbeg].
Qed.
Lemma other_step_calls_fit pr pr' : OtherStep pr pr' → calls_fit fits1 (pr_log pr') → calls_fit fits1 (pr_log pr).
Proof. by apply (pair_step_calls_fit (Decoder0:=other1) (Decoder1:=other2)). Qed.

Lemma step_twin_reachable pr pr' : OtherStep pr pr' → Reachable pr → calls_fit fits1 (pr_log pr) → PairStep pr pr'.
Proof.
  intros Hstep Hreach Hcf.
  destruct (pair_refines streams fits1 fits2 Hservice (tw_wire _ _ _ Hto) (tw_wire _ _ _ Hback) Hfits pr Hreach Hcf) as (y & Hy & Hca).
  by apply (step_twin pr pr' y).
Qed.

(** What such a pair reaches, and what it does without a drop of the completion, the
    lawful one does. *)
Lemma reachable_twin pr : other_reachable pr → calls_fit fits1 (pr_log pr) → Reachable pr.
Proof.
  induction 1 as [pr Hnew|pr pr' _ IH Hstep]; intros Hcf; [by apply pair_start|].
  pose proof (other_step_calls_fit _ _ Hstep Hcf) as Hcf0. eapply pair_next; [by apply IH|].
  by apply step_twin_reachable; [|apply IH|].
Qed.

Lemma patient_twin c m pr pr' :
  rtc (OtherPatient c m) pr pr' → Reachable pr → calls_fit fits1 (pr_log pr') → rtc (Patient c m) pr pr'.
Proof.
  induction 1 as [|pr pr1 pr' [Hstep Hkeep] Hrun IH]; intros Hreach Hcf; [done|].
  assert (calls_fit fits1 (pr_log pr1)) as Hcf1.
  { clear -Hrun Hcf. induction Hrun as [|pr pr1 pr' [Hstep _] _ IH]; [done|]. by eapply other_step_calls_fit, IH. }
  pose proof (step_twin_reachable pr pr1 Hstep Hreach (other_step_calls_fit _ _ Hstep Hcf1)) as Hs.
  eapply rtc_l; [by split|]. apply IH; [by eapply pair_next|done].
Qed.

(** A call that is kept, seen in the system. *)
Lemma twin_calls_system streaming m c pr0 pr1 pr2 :
  other_reachable pr0 → pair_calls (K:=K) streams streaming m c pr0 pr1 → rtc (OtherPatient c m) pr1 pr2 →
  calls_fit fits1 (pr_log pr2) → idle pr2 →
  ∃ y0 y1 y2, system_reachable (K:=K) (F:=F) (S:=S) streams y0 ∧ calls (K:=K) streams streaming m c y0 y1 ∧
    rtc (patient (K:=K) (F:=F) (S:=S) streams c m) y1 y2 ∧ quiet y2 ∧
    sy_log y2 = pr_log pr2 ∧ received y2 c = pair_received (K:=K) pr2 c.
Proof.
  intros Hreach Hcall Hkept Hcf Hidle.
  assert (calls_fit fits1 (pr_log pr1)) as Hcf1
    by (by eapply (patients_calls_fit (Decoder0:=other1) (Decoder1:=other2))).
  assert (PairStep pr0 pr1) as Hs by (by eapply pair_calls_step).
  pose proof (reachable_twin pr0 Hreach (pair_step_calls_fit streams fits1 pr0 pr1 Hs Hcf1)) as Hr0.
  apply (pair_calls_system streams fits1 fits2 Hservice (tw_wire _ _ _ Hto) (tw_wire _ _ _ Hback) Hfits streaming m c pr0 pr1 pr2
    Hr0 Hcall); [|done..]. apply patient_twin; [done| |done]. by eapply pair_next.
Qed.
End pair.
