(* ===== verification/ProstEcho.v ===== *)
(** * The echo services over prost

    The decoder of [protosocket-prost] is none of the lawful decoders of
    [Encoding]: bytes that are no delimiter make it ask for ten bytes for ever.  Its
    twin here calls such bytes invalid.  The two agree on the beginnings of encoded
    messages, and a peer that encodes with prost sends nothing else, so that
    [DecoderTwin] gives the calls over prost their answers. *)

From stdpp Require Import countable.
From S2P Require Import Prelude Spillway Encoding Connection ConnectionSpec RpcMessage ExampleService.
From S2P Require Import RpcServer RpcServerSpec RpcClient RpcClientSpec Codecs Server ExampleProto.
From S2P Require Import ClientConnection ServerConnection System Progress ServiceHistory ServerAnswers Answers.
From S2P Require Import EndToEnd EndToEndAnswers MessagePackEcho DecoderTwin.
Local Open Scope N_scope.
Local Open Scope run_scope.

(** ** The twin of the decoder *)

Section twin.
Context {T : Type} `{ProstLaws T}.
Implicit Types u v : bytes.

(** What prost says, unless it is nonsense: more bytes are asked for than there are,
    and a message is what its encoding stands for. *)
Definition checked_frame u : result (usize * T) DeserializeError :=
  match decode_length_delimiter u with
  | Ok n =>
      if len u <? n + length_delimiter_len n then Err (IncompleteBuffer (n + length_delimiter_len n))
      else match decode_length_delimited u with
           | Ok (m, rest) =>
               if decide (u = prost_wire m ++ rest) then Ok (len (prost_wire m), m) else Err InvalidBuffer
           | Err _ => Err InvalidBuffer
           end
  | Err _ => if len u <? 10 then Err (IncompleteBuffer 10) else Err InvalidBuffer
  end.

Definition checked_decoder : Decoder ProstDecoder T := {| decode d u := (checked_frame u, d) |}.

Lemma checked_frame_wire m v : checked_frame (prost_wire m ++ v) = Ok (len (prost_wire m), m).
Proof.
  destruct (prost_wire_len m) as [Hwl Hw].
  assert (prost_wire m ++ v = prost_delimiter (len (prost_body m)) ++ prost_body m ++ v) as Hu
    by (unfold prost_wire; by rewrite <-app_assoc).
  pose proof (prost_read_delimiter m (prost_body m ++ v)) as Hdl. pose proof (prost_decode m v) as Hd.
  cbv zeta in Hdl. rewrite <-Hu in Hdl, Hd. unfold checked_frame. rewrite Hdl, Hd, Hwl.
  rewrite len_app, (proj2 (N.ltb_ge _ _)) by lia. by rewrite decide_True.
Qed.

Lemma checked_frame_Ok u n m :
  checked_frame u = Ok (n, m) → n = len (prost_wire m) ∧ ∃ rest, u = prost_wire m ++ rest.
Proof.
  unfold checked_frame. destruct (decode_length_delimiter u) as [l|]; [|by destruct (_ <? _)].
  destruct (_ <? _); [done|]. destruct (decode_length_delimited u) as [[m' rest]|]; [|done].
  destruct (decide _) as [Hu|]; [|done]. intros [= <- <-]. by eauto.
Qed.

Lemma checked_frame_Err u e :
  checked_frame u = Err e → e = InvalidBuffer ∨ ∃ n, e = IncompleteBuffer n ∧ len u < n.
Proof.
  unfold checked_frame. destruct (decode_length_delimiter u) as [l|].
  - destruct (N.ltb_spec (len u) (l + length_delimiter_len l)); [intros [= <-]; by eauto|].
    destruct (decode_length_delimited u) as [[m' rest]|]; [destruct (decide _)|]; intros [= <-]; by left.
  - destruct (N.ltb_spec (len u) 10); intros [= <-]; by eauto.
Qed.

Lemma checked_decoder_laws (limit : usize) : DecoderLaws (H:=checked_decoder) ProstDecoder T limit.
Proof.
  refine {| frame := checked_frame; dec_ok _ _ := True |}; try done.
  - intros d u _ _ _. split; [done|]. simpl. by destruct (checked_frame u) as [[n m]|[n| |n]].
  - intros u n m (-> & rest & ->)%checked_frame_Ok. rewrite len_app. pose proof (prost_wire_len m). lia.
  - intros u n Hf _. destruct (checked_frame_Err _ _ Hf) as [|(n' & [= <-] & Hl)]; done.
  - intros u n Hf. destruct (checked_frame_Err _ _ Hf) as [|(n' & ? & Hl)]; done.
  - intros u v [[n m]|e] _ Hf Hi Hb.
    + destruct (checked_frame_Ok _ _ _ Hf) as (-> & rest & ->). rewrite <-app_assoc. apply checked_frame_wire.
    + destruct (checked_frame_Err _ _ Hf) as [->|(n & -> & _)]; [done|by destruct (Hi n)].
Defined.

(** The two agree on what encoded messages begin with. *)
Lemma prost_checked v :
  (∃ (ms : list T) w, v ++ w = concat (prost_wire <$> ms)) → v ≠ [] → len v < 2 ^ 63 →
  prost_decode_buffer v = checked_frame v.
Proof.
  intros (ms & w & Hw) Hv Hl. destruct ms as [|m ms]; [by destruct v|]. rewrite fmap_cons in Hw. cbn [concat] in Hw.
  destruct (decide (len v < len (prost_wire m))) as [Hs|Hs].
  - assert (strict_prefix v (prost_wire m)) as Hsp.
    { split; [|done]. destruct (prefix_weak_total v (prost_wire m) (v ++ w)) as [|[x ->]];
        [by eexists|rewrite Hw; by eexists|done|]. rewrite len_app in Hs. lia. }
    destruct (prost_wire_len m) as [Hwl Hwb]. unfold prost_decode_buffer, checked_frame.
    destruct (prost_short_message m v Hsp) as [[-> H10]|[-> _]]; [by rewrite (proj2 (N.ltb_lt _ _))|].
    rewrite wadd_small by lia. by rewrite Hwl, (proj2 (N.ltb_lt _ _)).
  - destruct (prefix_weak_total (prost_wire m) v (v ++ w)) as [[x ->]|[x Hx]];
      [rewrite Hw; by eexists|by eexists| |].
    + rewrite checked_frame_wire. rewrite len_app in Hl. apply prost_complete. lia.
    + rewrite Hx, len_app in Hs. assert (x = []) as -> by (apply len_zero; lia).
      rewrite app_nil_r in Hx. rewrite <-Hx, <-(app_nil_r (prost_wire m)).
      rewrite checked_frame_wire. by apply prost_complete.
Qed.
End twin.

(** The codec of a connection: an encoder and the decoder, or its twin. *)
Section codec.
Context {E T : Type} `{ProstLaws T}.

Definition checked_codec : Decoder (E * ProstDecoder) T := pair_decoder (H:=checked_decoder).

Lemma checked_codec_laws (limit : usize) : DecoderLaws (H:=checked_codec) (E * ProstDecoder) T limit.
Proof. exact (pair_decoder_laws limit (H0:=checked_decoder_laws limit)). Defined.

Lemma prost_twins (limit : usize) :
  twins (DecoderLaws0:=checked_codec_laws limit) (pair_decoder (E:=E)) prost_wire (λ _, True).
Proof.
  split.
  - intros m v _. apply checked_frame_wire.
  - intros [e d] v (ms & w & _ & Hw) Hv Hl. simpl. rewrite prost_checked; [done| |done..]. by exists ms, w.
Qed.
End codec.

(** The codecs of the examples, whose encoder is pooled. *)
Lemma proto_codec_twins {T} `{ProstLaws T} (limit : usize) :
  twins (DecoderLaws0:=checked_codec_laws (E:=PooledEncoder ProstSerializer) (T:=T) limit) pair_decoder
    (wire (E:=ProtoCodec) (M:=T) (B:=Reusable)) (λ _, True).
Proof. exact (prost_twins limit). Qed.

(** ** Services that echo *)

(** What a service of the examples answers to a request. *)
Definition proto_answers (m : ProtoRequest) : list Response := Histories.echo_answers (to_request m).

Definition proto_wants_stream (m : ProtoRequest) : Prop := response_behavior m = Stream.

Lemma proto_answers_own : own_answers proto_answers.
Proof. intros m r. apply (Histories.echo_answers_own (to_request m)). Qed.

(** The services of the two servers give them. *)
Lemma proto_gives {K} : gives_answers (V:=SocketAddr) (F:=Response) (K:=K) proto_answers proto_wants_stream.
Proof.
  intros v m. simpl. unfold proto_answers, Histories.echo_answers, proto_wants_stream. simpl.
  destruct (pq_body m) as [echo|]; [|done]. destruct (response_behavior m); split; try done. intros k. by eexists.
Qed.

Lemma tls_gives {K} : gives_answers (V:=unit) (F:=AsyncEcho) (K:=K) proto_answers proto_wants_stream.
Proof.
  intros v m. simpl. unfold tls_new_rpc, proto_answers, Histories.echo_answers, proto_wants_stream. simpl.
  destruct (pq_body m) as [echo|]; [|done]. destruct (response_behavior m); split; try done. intros k. by eexists.
Qed.

(** ** The property *)

Module ProstEchoes.
Import Systems Histories Answered EndToEnds.

Section claims.
Context {S1 S2 O W K V F P : Type} {limit1 limit2 : usize}.
Context `{AtomicWakerLaws W K} `{OneshotLaws O (result Response RpcError) K}.
Context `{!FutureOp F K Response} `{!ConnectionService V K ProtoRequest F (list Response)}.
Context `{FuturesUnorderedLaws P (RpcStream F (list Response)) (u64 * RpcStreamEvent Response) (list (AbortCell W))}.
Context `{!AsyncStream S1 K} `{!AsyncStreamLaws S1 K} `{!AsyncStream S2 K} `{!AsyncStreamLaws S2 K}.
Context `{ProstLaws ProtoRequest} `{ProstLaws Response}.
Abbreviation ProtoPair :=
  (Pair S1 ProtoCodec Reusable S2 ProtoCodec Reusable O W ProtoRequest Response V P).

(** What a new pair of connections with prost codecs reaches. *)
Definition prost_reachable : ProtoPair → Prop :=
  other_reachable (K:=K) (F:=F) (S:=list Response) (DecoderLaws0:=checked_codec_laws limit1)
    (DecoderLaws1:=checked_codec_laws limit2) proto_wants_stream pair_decoder pair_decoder.

(** C6: the examples over prost, TCP or TLS, from the callers of their clients to
    their service and back: a call is made in any state that the two connections can
    reach, and its completion is not dropped.  Whatever else is called, dropped,
    cancelled and polled, and however the network cuts the bytes, once the
    connections are idle the caller has received the whole answer to its own
    request: its text, every byte of it as a character when it called for a stream,
    or nothing when the call has no body.  The decoder need not be lawful on bytes
    that nobody sends. *)
Theorem prost_calls_are_echoed (streaming : bool) (m : ProtoRequest) (c : nat) (pr0 pr1 pr2 : ProtoPair)
  (Hgives : gives_answers (V:=V) (F:=F) (K:=K) proto_answers proto_wants_stream)
  (Hreach : prost_reachable pr0)
  (Hcall : pair_calls (K:=K) proto_wants_stream streaming m c pr0 pr1)
  (Hkind : streaming = false → ¬ proto_wants_stream m)
  (Hkept : rtc (pair_patient (K:=K) (F:=F) (S:=list Response) proto_wants_stream c m) pr1 pr2)
  (Hidle : idle pr2) :
  pair_received (K:=K) pr2 c = proto_answers m.
Proof.
  destruct (twin_calls_system (C1:=ProtoCodec) (B1:=Reusable) (C2:=ProtoCodec) (B2:=Reusable)
    (limit1:=limit1) (limit2:=limit2)
    (DecoderLaws0:=checked_codec_laws limit1) (DecoderLaws1:=checked_codec_laws limit2)
    (CL1:=pair_codec_laws limit1 (H4:=checked_decoder_laws limit1))
    (CL2:=pair_codec_laws limit2 (H4:=checked_decoder_laws limit2))
    proto_wants_stream (λ _, True) (λ _, True) pair_decoder pair_decoder
    (gives_streams _ _ Hgives) (proto_codec_twins limit2) (proto_codec_twins limit1)
    (λ _ _ _, conj (Forall_true _ _ (λ _, I)) (Forall_true _ _ (λ _, I)))
    streaming m c pr0 pr1 pr2 Hreach Hcall Hkept (Forall_true _ _ (λ _, I)) Hidle)
    as (y0 & y1 & y2 & Hy0 & Hc1 & Hr2 & Hquiet & _ & <-).
  by apply (answered_in_full proto_answers proto_wants_stream proto_answers_own Hgives streaming m c y0 y1 y2).
Qed.
End claims.

(** ** Witness: a text comes back in characters from the TLS server's service

    A format that writes a message as one number behind its length, which is enough
    for a call. *)

Import WakerCell RpcReactor RpcClients Demo.

Definition proto_parts (m : ProtoRequest) : u64 * u32 * option (bytes * u64) * Z :=
  (pq_request_id m, pq_code m, (λ e, (er_message e, er_nanotime e)) <$> pq_body m, pq_response_behavior m).
Definition proto_of (p : u64 * u32 * option (bytes * u64) * Z) : ProtoRequest :=
  let '(id, code, body, behavior) := p in
  mkProtoRequest id code ((λ e, mkEchoRequest e.1 e.2) <$> body) behavior.

#[local] Instance proto_countable : Countable ProtoRequest.
Proof. refine (inj_countable' proto_parts proto_of _). by intros [id code [[t n]|] b]. Defined.
#[local] Existing Instance MessagePackEchoes.response_countable.

#[local] Instance prost_number {T} `{Countable T} : Prost T := {|
  encode_length_delimited m buffer := Ok (buffer ++ [1; N.pos (countable.encode m)]);
  decode_length_delimiter u := match u with n :: _ => Ok n | [] => Err tt end;
  length_delimiter_len _ := 1;
  decode_length_delimited u :=
    match u with
    | 1 :: N.pos p :: rest => match countable.decode p with Some m => Ok (m, rest) | None => Err tt end
    | _ => Err tt
    end;
|}.

#[local] Instance prost_number_laws {T} `{Countable T} : ProstLaws T.
Proof.
  refine {| prost_delimiter n := [n]; prost_body m := [N.pos (countable.encode m)] |}; try done.
  - intros m u [[v Hv] Hl]. destruct u as [|x u]; [done|]. rewrite len_cons in Hl. change (len [_]) with 1 in Hl. lia.
  - intros m rest. change (len [_]) with 1. simpl. by rewrite decode_encode.
Defined.

Abbreviation EchoStreamRpc := (RpcStream AsyncEcho (list Response)).
Abbreviation DemoPair :=
  (Pair ScriptedStream ProtoCodec Reusable ScriptedStream ProtoCodec Reusable DemoSlot (option nat)
     ProtoRequest Response unit (list EchoStreamRpc)).

(** The text "hi", called for as a stream, and what the two write, cut up on its
    way. *)
Definition hi : ProtoRequest := mkProtoRequest 7 0 (Some (mkEchoRequest [104; 105] 42)) 1.
Definition hi_request : bytes := prost_wire hi.
Definition hi_responses : bytes := concat (prost_wire (T:=Response) <$> proto_answers hi ++ [ended 7]).

Definition hi_start : DemoPair := mkPair
  (new (mkScriptedStream [Err WouldBlock; Ok (take 3 hi_responses); Ok (drop 3 hi_responses)] [Ok 100] [] [])
     (pooled_new mkProstSerializer, mkProstDecoder) 64 16 8
     (mkShared (replicate 8 chute_default) None 1 1 0 max_u64 false, receiver_new) completion_reactor_new)
  (new (mkScriptedStream [Ok (take 1 hi_request); Ok (drop 1 hi_request)] [Ok 5; Ok 100] [] [])
     (pooled_new mkProstSerializer, mkProstDecoder) 64 16 8
     (mkShared (replicate 8 chute_default) None 0 1 0 max_u64 false, receiver_new)
     (submitter_new (F:=AsyncEcho) (S:=list Response) (Res:=Response) tt))
  (mkLog [] []).

Definition hi_client : RpcClient := mkRpcClient (mkSender 0).

Definition hi_called : DemoPair := call_streaming_side hi_client hi hi_start.
Definition hi_asked : DemoPair := poll_client_side 90 5%nat hi_called.
Definition hi_answered : DemoPair := poll_server_side 90 6%nat hi_asked.
Definition hi_done : DemoPair := poll_client_side 90 5%nat hi_answered.

Abbreviation HiReachable :=
  (prost_reachable (S1:=ScriptedStream) (S2:=ScriptedStream) (K:=nat) (V:=unit) (F:=AsyncEcho) (limit1:=64) (limit2:=64)).
Abbreviation HiPatient :=
  (pair_patient (S1:=ScriptedStream) (S2:=ScriptedStream) (K:=nat) (F:=AsyncEcho) (S:=list Response) proto_wants_stream 0 hi).

Lemma prost_hi_start_reachable : HiReachable hi_start.
Proof.
  apply other_start. split; try done.
  - apply new_ok; try done. by apply channel_invb_sound.
  - apply new_ok; try done. by apply channel_invb_sound.
  - by exists (mkSender 0), receiver_new, (outbound_messages (pr_client hi_start)).1.
  - by exists tt.
Qed.

Lemma prost_hi_streaming_called : pair_calls (K:=nat) proto_wants_stream true hi 0 hi_start hi_called.
Proof.
  unfold hi_called, call_streaming_side.
  destruct (send_streaming hi_client hi (w_queue (world_of (pr_client hi_start)))
    (w_reactor (world_of (pr_client hi_start)))) as [[[[x|e] q'] r']| |] eqn:He; [|by vm_compute in He..].
  assert (sc_completion x = 0%nat) as <- by (vm_compute in He; by injection He as <- _ _).
  eapply (pair_calls_streaming proto_wants_stream hi_client hi x q' r'); [done|done|apply not_elem_of_nil|done|exact He].
Qed.

Lemma prost_hi_done_patient : rtc HiPatient hi_called hi_done.
Proof.
  apply (rtc_l _ _ hi_asked); [apply client_poll_patient; vm_compute; reflexivity|].
  apply (rtc_l _ _ hi_answered); [apply server_poll_patient; vm_compute; reflexivity|].
  apply rtc_once, client_poll_patient; vm_compute; reflexivity.
Qed.

Lemma prost_calls_are_echoed_witness :
  idle hi_done ∧ pair_received (K:=nat) hi_done 0 =
    [mkResponse 7 0 (Some (EchoStreamed (mkEchoStream [104] 42 0)));
     mkResponse 7 0 (Some (EchoStreamed (mkEchoStream [105] 42 1)))].
Proof.
  assert (idle hi_done) as Hidle
    by (split; [vm_compute; reflexivity|split; vm_compute; reflexivity|split; vm_compute; reflexivity
       |vm_compute; reflexivity..]).
  split; [exact Hidle|].
  exact (prost_calls_are_echoed (limit1:=64) (limit2:=64) true hi 0 hi_start hi_called hi_done tls_gives prost_hi_start_reachable
    prost_hi_streaming_called (λ H, False_ind _ (diff_true_false H)) prost_hi_done_patient Hidle).
Defined.
End ProstEchoes.
