(* ===== verification/Programs.v ===== *)
(** * The example programs

    The main functions of the examples: what a server listens on and how it is
    configured, what a client connects to and how many tasks share a connection.
    The environment gives the answers of the system calls and the address that its
    variable, or the default, parses to.  The pair of connections that the two
    programs of [example-messagepack] have is a new pair of [EndToEnd], for which
    [MessagePackEcho] says what the callers receive; the programs of [example-proto]
    are put together in [ProstPrograms]. *)

From S2P Require Import Prelude Spillway Encoding Connection ConnectionSpec RpcMessage ExampleService.
From S2P Require Import RpcServer RpcServerSpec RpcClient RpcClientSpec Codecs Text LevelRuntime LevelThreads Server.
From S2P Require Import TlsListener TextServers ExampleProto SpawnServices ClientConnection ServerConnection.
From S2P Require Import System EndToEnd MessagePackEcho.
Local Open Scope N_scope.
Local Open Scope run_scope.

(** What a main function can fail with: an address that does not parse, the system,
    or the rpc library. *)
Inductive MainError (AE : Type) :=
| BadAddress (e : AE)
| MainIo (e : IoError)
| MainRpc (e : RpcError).
Arguments BadAddress {AE} _.
Arguments MainIo {AE} _.
Arguments MainRpc {AE} _.

(** ** Servers *)

(** [DemoRpcSocketService] of [example-messagepack]: the default codec; the service
    of a connection only logs its address. *)
Inductive MessagePackSocketService := TheMessagePackSocketService.

#[export] Instance messagepack_socket_service {S}
  : SocketService MessagePackSocketService unit ServerCodec (StreamWithAddress S) := {|
  service_codec v := ((pooled_new mkMessagePackSerializer, messagepack_decoder_default), v);
  new_stream_service v _ := (tt, v);
|}.

(** Of [example-proto-spawn]: each connection has its own slots; and of
    [example-proto-spawn-stream]. *)
Inductive SpawnSocketService := TheSpawnSocketService.

#[export] Instance spawn_socket_service {Sm S} `{Semaphore Sm}
  : SocketService SpawnSocketService (SpawnServer Sm) ProtoCodec (StreamWithAddress S) := {|
  service_codec v := ((pooled_new mkProstSerializer, mkProstDecoder), v);
  new_stream_service v _ := (spawn_service_new, v);
|}.

Inductive SpawnStreamSocketService := TheSpawnStreamSocketService.

#[export] Instance spawn_stream_socket_service {S}
  : SocketService SpawnStreamSocketService SocketAddr ProtoCodec (StreamWithAddress S) := {|
  service_codec v := ((pooled_new mkProstSerializer, mkProstDecoder), v);
  new_stream_service v stream := (address stream, v);
|}.

Section servers.
Context {AE : Type}.
Implicit Types sys : SocketCall → result unit IoError.
Implicit Types host : result SocketAddr AE.

(** [run_main] of a server up to the server that it spawns and waits for: it listens
    and makes the server; the calls that were made are in the result. *)
Definition listening_server {V0} sys host (service : V0)
  : list SocketCall * result (SocketRpcServer V0) (MainError AE) :=
  match host with
  | Err e => ([], Err (BadAddress e))
  | Ok address =>
      let '(calls, listening) := tcp_listen sys address 1024 None in
      (calls, match listening with
              | Err e => Err (MainIo e)
              | Ok _ =>
                  let server := rpc_server_new service (N.shiftl 4 20) (N.shiftl 1 20) 128 in
                  Ok (set_max_queued_outbound_messages 512 server)
              end)
  end.

Definition messagepack_server_main sys host := listening_server sys host TheMessagePackSocketService.
Definition spawn_server_main sys host := listening_server sys host TheSpawnSocketService.
Definition spawn_stream_server_main sys host := listening_server sys host TheSpawnStreamSocketService.

(** [example-proto]: the address is expected to parse, and each worker listens on it
    with a server of its own. *)
Definition proto_worker_main sys host : run (list SocketCall * result (SocketRpcServer unit) IoError) :=
  match host with
  | Err _ => Panic
  | Ok address =>
      let '(calls, listening) := tcp_listen sys address 1 None in
      Return (calls, match listening with Err e => Err e | Ok _ => Ok (proto_server tt) end)
  end.

(** Its [main]: the runtime is the process's default, runs [run_main] on a worker
    that is drawn with two random numbers, and its threads start; and [run_main],
    which runs a server on each worker. *)
Definition proto_main (a b : nat) : run Process :=
  let* builder := set_thread_name_prefix [115; 101; 114; 118; 101; 114] builder_default in
  let runtime := build (enable_all (global_queue_interval 7 (event_interval 3 (set_worker_threads 2 builder)))) in
  let* p := set_default runtime in
  let* r := spawn_balanced (pc_runtime p) a b in
  Return (start (set_runtime p r)).
Definition proto_run_main (p : Process) : run Process := process_spawn_on_each p.

(** [example-proto-stream] has the same two functions, over the same service. *)
Definition proto_stream_worker_main sys host : run (list SocketCall * result (SocketRpcServer unit) IoError) :=
  proto_worker_main sys host.
Definition proto_stream_main (a b : nat) : run Process := proto_main a b.

(** [example-proto-tls]: the keys of a certificate that has just been made, the last
    of which is taken.  [rustls_pemfile] reads the items, [rustls] makes the
    configuration. *)
Inductive PemItem (Key : Type) :=
| X509Certificate
| Pkcs1Key (key : Key)
| Pkcs8Key (key : Key)
| Sec1Key (key : Key)
| OtherItem.
Arguments X509Certificate {Key}.
Arguments Pkcs1Key {Key} _.
Arguments Pkcs8Key {Key} _.
Arguments Sec1Key {Key} _.
Arguments OtherItem {Key}.

Inductive PrivateKeyDer (Key : Type) := Pkcs1 (key : Key) | Pkcs8 (key : Key) | Sec1 (key : Key).
Arguments Pkcs1 {Key} _.
Arguments Pkcs8 {Key} _.
Arguments Sec1 {Key} _.

Definition private_key {Key} (item : result (PemItem Key) IoError) : option (PrivateKeyDer Key) :=
  match item with
  | Ok (Pkcs1Key key) => Some (Pkcs1 key)
  | Ok (Pkcs8Key key) => Some (Pkcs8 key)
  | Ok (Sec1Key key) => Some (Sec1 key)
  | Ok X509Certificate | Ok OtherItem | Err _ => None
  end.

(** [collect] of results: all of them, or the first error. *)
Fixpoint collect_results {A E} (rs : list (result A E)) : result (list A) E :=
  match rs with
  | [] => Ok []
  | Ok a :: rs => match collect_results rs with Ok l => Ok (a :: l) | Err e => Err e end
  | Err e :: _ => Err e
  end.

(** Where the setup of TLS fails. *)
Inductive TlsMainError (GE CE : Type) :=
| NoCertificate (e : GE)
| BadCertificate (e : IoError)
| BadConfig (e : CE)
| TlsMain (e : MainError AE).
Arguments NoCertificate {GE CE} _.
Arguments BadCertificate {GE CE} _.
Arguments BadConfig {GE CE} _.
Arguments TlsMain {GE CE} _.

(** [run_main]: [generated] are the items in the texts of the certificate and of its
    key; without a key it panics. *)
Definition tls_server_main {GE CE Cert Key Cfg Li J}
  (generated : result (list (result Cert IoError) * list (result (PemItem Key) IoError)) GE)
  (with_single_cert : list Cert → PrivateKeyDer Key → result Cfg CE)
  (tcp : Li) (no_tasks : J) sys host
  : run (list SocketCall * result (SocketRpcServer TlsSocketService * TlsSocketListener Li Cfg J) (TlsMainError GE CE)) :=
  match generated with
  | Err e => Return ([], Err (NoCertificate e))
  | Ok (certs, items) =>
      match collect_results certs with
      | Err e => Return ([], Err (BadCertificate e))
      | Ok certs =>
          let keys := omap private_key items in
          let* key := expect (last keys) in
          match with_single_cert certs key with
          | Err e => Return ([], Err (BadConfig e))
          | Ok server_config =>
              let '(calls, server) := listening_server sys host TheTlsSocketService in
              Return (calls, match server with
                             | Err e => Err (TlsMain e)
                             | Ok server => Ok (server, tls_wrap no_tasks tcp server_config)
                             end)
          end
      end
  end.

(** The text servers: [ProtosocketServerConfig::default] on 127.0.0.1:9000. *)
Definition text_address : SocketAddr := AddrV4 2130706433 9000.
Definition pool_main sys : result (ProtosocketServer PoolContext) IoError :=
  bind_tcp sys server_config_default text_address ThePoolContext.
Definition telnet_main sys : result (ProtosocketServer unit) IoError :=
  bind_tcp sys server_config_default text_address tt.
End servers.

(** ** Clients *)

Section clients.
Context {AE X T S C B Os W K Req Res : Type} `{AtomicWaker W K} `{StreamConnector X T S}.
Abbreviation ClientConn :=
  (Connection S (Shared W (RpcNotification Req) * Receiver (RpcNotification Req)) C B
     (RpcCompletionReactor Os W Res)).

(** A connection of a program, and the clients of the tasks that generate traffic
    on it. *)
Record Connected := mkConnected {
  cn_connection : ClientConn;
  cn_clients : list RpcClient;
}.

(** One task, which gets the client itself. *)
Definition one_task (client : RpcClient) (connection : ClientConn) : run Connected :=
  Return (mkConnected connection [client]).

(** So many tasks, each with a clone of the client, which is dropped after that.  The
    connection has been spawned by then; here it is not polled in between. *)
Fixpoint clone_client (tasks : nat) (client : RpcClient) (q : Shared W (RpcNotification Req))
  : run (list RpcClient * Shared W (RpcNotification Req)) :=
  match tasks with
  | O => Return ([], q)
  | Datatypes.S tasks =>
      let* '(clone, q) := client_clone client q in
      let* '(clones, q) := clone_client tasks client q in
      Return (clone :: clones, q)
  end.

Definition many_tasks (tasks : nat) (client : RpcClient) (connection : ClientConn) : run Connected :=
  let '(q, v) := outbound_messages connection in
  let* '(clients, q) := clone_client tasks client q in
  Return (mkConnected
    (set_outbound connection (client_drop client q, v) (send_buffer connection) (codec connection) (reactor connection))
    clients).

(** The loop of [run_main]: connections that are made one after the other, each with
    its tasks; the first that fails ends the program.  [tcp_connect] and [sys] are
    what the attempt of this number meets; an address that does not parse panics. *)
Fixpoint connect_loop (connections i : nat) (spawn_tasks : RpcClient → ClientConn → run Connected)
  (codec_default : C) (tcp_connect : nat → SocketAddr → result T IoError)
  (sys : nat → SocketCall → result unit IoError) (endpoint : result SocketAddr AE) (configuration : Configuration X)
  : run (list Connected * result unit (MainError AE)) :=
  match connections with
  | O => Return ([], Ok tt)
  | Datatypes.S connections =>
      match endpoint with
      | Err _ => Panic
      | Ok address =>
          let* '(_, made) := connect codec_default (tcp_connect i) (sys i) address configuration in
          match made with
          | Err e => Return ([], Err (MainRpc e))
          | Ok (client, connection) =>
              let* this := spawn_tasks client connection in
              let* '(others, res) :=
                connect_loop connections (Datatypes.S i) spawn_tasks codec_default tcp_connect sys endpoint configuration in
              Return (this :: others, res)
          end
      end
  end.
End clients.

Section client_mains.
Context {AE T Os W K : Type} `{AtomicWaker W K}.
Implicit Types tcp_connect : nat → SocketAddr → result T IoError.
Implicit Types sys : nat → SocketCall → result unit IoError.
Implicit Types endpoint : result SocketAddr AE.

(** [example-messagepack]: two connections. *)
Definition messagepack_client_main tcp_connect sys endpoint
  : run (list (Connected (S:=T) (C:=ClientCodec) (B:=OwnedBuffer) (Os:=Os) (W:=W) (Req:=Request) (Res:=Response))
         * result unit (MainError AE)) :=
  connect_loop 2 0 one_task (mkMessagePackSerializer, messagepack_decoder_default) tcp_connect sys endpoint
    (configuration_new mkTcpStreamConnector).

(** [example-proto]: 256 tasks on four connections, whose queues are short. *)
Definition proto_client_main tcp_connect sys endpoint
  : run (list (Connected (S:=T) (C:=ProtoCodec) (B:=Reusable) (Os:=Os) (W:=W) (Req:=ProtoRequest) (Res:=Response))
         * result unit (MainError AE)) :=
  let concurrency := 256%nat in
  let connections := 4%nat in
  let configuration := configure_max_queued_outbound_messages 64 (configuration_new mkTcpStreamConnector) in
  connect_loop connections 0 (many_tasks (concurrency / connections)) (pooled_new mkProstSerializer, mkProstDecoder)
    tcp_connect sys endpoint configuration.

(** [example-proto-stream], whose loop is the same. *)
Definition proto_stream_client_main tcp_connect sys endpoint :=
  proto_client_main tcp_connect sys endpoint.

(** [example-proto-spawn] and [example-proto-spawn-stream], with their messages. *)
Definition spawn_client_main tcp_connect sys endpoint
  : run (list (Connected (S:=T) (C:=ProtoCodec) (B:=Reusable) (Os:=Os) (W:=W) (Req:=SpawnRequest) (Res:=SpawnResponse))
         * result unit (MainError AE)) :=
  let concurrency := 256%nat in
  let connections := 4%nat in
  let configuration := configure_max_queued_outbound_messages 64 (configuration_new mkTcpStreamConnector) in
  connect_loop connections 0 (many_tasks (concurrency / connections)) (pooled_new mkProstSerializer, mkProstDecoder)
    tcp_connect sys endpoint configuration.

Definition spawn_stream_client_main tcp_connect sys endpoint
  : run (list (Connected (S:=T) (C:=ProtoCodec) (B:=Reusable) (Os:=Os) (W:=W) (Req:=SpawnRequest) (Res:=StreamedResponse))
         * result unit (MainError AE)) :=
  let concurrency := 256%nat in
  let connections := 4%nat in
  let configuration := configure_max_queued_outbound_messages 64 (configuration_new mkTcpStreamConnector) in
  connect_loop connections 0 (many_tasks (concurrency / connections)) (pooled_new mkProstSerializer, mkProstDecoder)
    tcp_connect sys endpoint configuration.

(** [example-proto-tls]: eight connections, over TLS without a look at the server's
    certificate, to "localhost". *)
Definition tls_client_main {Tls} `{TlsConnect T Tls} tcp_connect sys endpoint
  : run (list (Connected (S:=Tls) (C:=ProtoCodec) (B:=Reusable) (Os:=Os) (W:=W) (Req:=ProtoRequest) (Res:=Response))
         * result unit (MainError AE)) :=
  let configuration := configuration_new (unverified_connector_new [108; 111; 99; 97; 108; 104; 111; 115; 116]) in
  let configuration := configure_max_queued_outbound_messages 32 configuration in
  connect_loop 8 0 one_task (pooled_new mkProstSerializer, mkProstDecoder) tcp_connect sys endpoint configuration.
End client_mains.

(** ** What the programs start with *)

Module ExamplePrograms.

Section starting.
Context {AE X T S C B Os W K Req Res : Type} {limit : usize} `{StreamConnector X T S}.
Context `{AsyncStreamLaws S K} `{AtomicWakerLaws W K} `{OneshotLaws Os (result Res RpcError) K}.
Context `{CodecLaws C Res Req B limit} `{!BufWhole B}.
Context `{!Message Req} `{!Message Res}.
Abbreviation TheConnected := (Connected (S:=S) (C:=C) (B:=B) (Os:=Os) (W:=W) (Req:=Req) (Res:=Res)).

(** A connection in order that runs the client model, with as many senders as it has
    tasks, and nothing to do yet. *)
Definition started (tasks : nat) (d : TheConnected) : Prop :=
  let c := cn_connection d in
  conn_ok (In:=Res) (Out:=Req) (L:=RpcNotification Req) (limit:=limit) c ∧
  client_reachable (K:=K) (world_of c) ∧ is_alive (reactor c) = true ∧ rpc_registry (reactor c) = ∅ ∧
  queue_waiting (outbound_messages c) = [] ∧ senders (outbound_messages c).1 = N.of_nat tasks ∧
  length (cn_clients d) = tasks.

Lemma clone_client_spec tasks (cl : RpcClient) (q : Shared W (RpcNotification Req)) v (r : RpcCompletionReactor Os W Res) :
  client_reachable (K:=K) (mkWorld q v true r) → senders q + N.of_nat tasks < 2 ^ 64 →
  ∃ clients q', clone_client tasks cl q = Return (clients, q') ∧ length clients = tasks ∧
    client_reachable (K:=K) (mkWorld q' v true r) ∧ chutes q' = chutes q ∧ senders q' = senders q + N.of_nat tasks.
Proof.
  revert q. induction tasks as [|tasks IH]; intros q Hr Hs; simpl.
  { exists [], q. split_and!; try done. lia. }
  destruct (client_reachable_ok _ Hr) as [Hun _]. simpl in Hun.
  destruct (sender_clone (submission_queue cl) q) as [[x q1]| |] eqn:Hcl.
  2-3: pose proof (ok_cursor _ _ (inv_ok _ _ (proj1 Hun))) as Hc; unfold sender_clone, choose_chute in Hcl; simpl in Hcl;
    destruct (N.eqb_spec (len (chutes q)) 0); simpl in Hcl; first [done|lia].
  destruct (sender_clone_spec _ _ _ _ _ Hun Hcl) as (_ & Hch & Hse & _).
  rewrite wadd_small in Hse by lia.
  destruct (IH q1) as (clients & q' & He & Hl & Hr' & Hch' & Hse').
  - eapply client_next; [exact Hr|]. eapply (step_clone (mkWorld q v true r) cl). unfold client_clone. simpl. by rewrite Hcl.
  - lia.
  - unfold client_clone. rewrite Hcl. simpl. rewrite He. simpl. do 2 eexists. split; [done|].
    split_and!; [simpl; by rewrite Hl|done|by rewrite Hch'|lia].
Qed.

Lemma many_tasks_start tasks s cl c :
  ClientConnections.new_client (K:=K) (limit:=limit) s cl c → N.of_nat tasks < 2 ^ 63 →
  ∃ d, many_tasks tasks cl c = Return d ∧ started tasks d.
Proof.
  intros (Hs & Hok & _ & _ & Hreach & Halive & Hreg & Hq & Hb & _ & Hse) Ht. unfold many_tasks.
  destruct (outbound_messages c) as [q v] eqn:Ho. simpl in Hq, Hse.
  assert (world_of c = mkWorld q v true (reactor c)) as Hw by (unfold world_of; by rewrite Ho). rewrite Hw in Hreach.
  destruct (clone_client_spec tasks cl q v (reactor c) Hreach) as (clients & q1 & He & Hl & Hr1 & Hch & Hse1); [lia|].
  rewrite He. cbn [run_bind]. eexists. split; [done|].
  pose proof (client_reachable_ok _ Hr1) as [Hun1 _]. simpl in Hun1.
  destruct (sender_drop_spec (submission_queue cl) q1 v Hun1) as (Hun2 & Hch2 & Hse2).
  unfold started. cbn [cn_connection cn_clients set_outbound outbound_messages reactor fst snd]. split_and!; try done.
  - destruct Hok as [Hr [T1 T2 T3 T4 T5]]. split; [by apply (recv_ok_same c); destruct Hr|]. split; try done. exact (proj1 Hun2).
  - eapply client_next; [exact Hr1|]. exact (step_drop_client (mkWorld q1 v true (reactor c)) cl).
  - change (pending_values (client_drop cl q1) v = []). unfold client_drop, pending_values in *. by rewrite Hch2, Hch.
  - unfold client_drop. rewrite Hse2, Hse1, Hse, wsub_small by lia. lia.
Qed.

Lemma one_task_starts s cl c :
  ClientConnections.new_client (K:=K) (limit:=limit) s cl c → ∃ d, one_task cl c = Return d ∧ started 1 d.
Proof.
  intros (Hs & Hok & _ & _ & Hreach & Halive & Hreg & Hq & Hb & _ & Hse). eexists. split; [done|]. by split_and!.
Qed.

(** The loop makes its connections until one fails, whose error it ends with. *)
Lemma connect_loop_spec (good : TheConnected → Prop) (spawn_tasks : RpcClient → _ → run TheConnected)
  connections i (codec_default : C) (tcp_connect : nat → SocketAddr → result T IoError) sys address
  (cfg : Configuration X) :
  cl_max_buffer_length cfg = limit → 0 < limit → 0 < cl_buffer_allocation_increment cfg →
  limit + cl_buffer_allocation_increment cfg < 2 ^ 63 → cl_max_queued_outbound_messages cfg < 2 ^ 63 →
  dec_ok codec_default [] ∧ enc_ok codec_default →
  (∀ s cl c, ClientConnections.new_client (K:=K) (limit:=limit) s cl c → ∃ d, spawn_tasks cl c = Return d ∧ good d) →
  ∃ ds res, connect_loop (AE:=AE) connections i spawn_tasks codec_default tcp_connect sys (Ok address) cfg
      = Return (ds, res) ∧ Forall good ds ∧
    match res with
    | Ok _ => length ds = connections
    | Err e => (length ds < connections)%nat ∧ ∃ calls e',
        connect (B:=B) (O:=Os) (K:=K) (Req:=Req) (Res:=Res) codec_default (tcp_connect (i + length ds)%nat)
          (sys (i + length ds)%nat) address cfg = Return (calls, Err e') ∧ e = MainRpc e'
    end.
Proof.
  intros Hlimit Hpos Hincrement Hwidth Hqueue Hcodec Hspawn. revert i.
  induction connections as [|n IH]; intros i; [by exists [], (Ok tt)|]. cbn [connect_loop].
  destruct (ClientConnections.connect_makes_a_client (B:=B) (K:=K) (O:=Os) codec_default (tcp_connect i) (sys i)
    address cfg Hlimit Hpos Hincrement Hwidth Hqueue Hcodec) as (calls & res & He & Hres).
  rewrite He. cbn [run_bind]. destruct res as [[cl c]|e].
  - assert (∃ s, ClientConnections.new_client (K:=K) (limit:=limit) s cl c) as [s Hnew].
    { destruct (tcp_connect i address) as [t|e]; [|by destruct Hres].
      destruct Hres as [(made & call & rest & e & _ & _ & _ & _ & Hr)|(_ & _ & Hr)]; [done|].
      destruct (connect_stream (stream_connector cfg) t) as [s|e]; [|done].
      destruct Hr as (cl' & c' & [= <- <-] & Hnew). by exists s. }
    destruct (Hspawn s cl c Hnew) as (d & -> & Hd). cbn [run_bind].
    destruct (IH (Datatypes.S i)) as (ds & res & -> & Hds & Hres'). cbn [run_bind].
    exists (d :: ds), res. split; [done|]. split; [by constructor|]. destruct res as [u|e]; simpl; [by rewrite Hres'|].
    destruct Hres' as (Hlt & calls' & e' & Hc & ->). split; [lia|]. exists calls', e'. split; [|done].
    by replace (i + Datatypes.S (length ds))%nat with (Datatypes.S i + length ds)%nat by lia.
  - exists [], (Err (MainRpc e)). split; [done|]. split; [done|]. split; [simpl; lia|]. exists calls, e.
    split; [|done]. simpl. by rewrite Nat.add_0_r.
Qed.

(** When everything is granted, all connections are made. *)
Lemma connect_loop_granted (good : TheConnected → Prop) (spawn_tasks : RpcClient → _ → run TheConnected)
  connections (codec_default : C) (tcp_connect : nat → SocketAddr → result T IoError)
  (sys : nat → SocketCall → result unit IoError) address (cfg : Configuration X) :
  cl_max_buffer_length cfg = limit → 0 < limit → 0 < cl_buffer_allocation_increment cfg →
  limit + cl_buffer_allocation_increment cfg < 2 ^ 63 → cl_max_queued_outbound_messages cfg < 2 ^ 63 →
  dec_ok codec_default [] ∧ enc_ok codec_default →
  (∀ s cl c, ClientConnections.new_client (K:=K) (limit:=limit) s cl c → ∃ d, spawn_tasks cl c = Return d ∧ good d) →
  (∀ i call, sys i call = Ok tt) →
  (∀ i, ∃ t s, tcp_connect i address = Ok t ∧ connect_stream (stream_connector cfg) t = Ok s) →
  ∃ ds, connect_loop (AE:=AE) connections 0 spawn_tasks codec_default tcp_connect sys (Ok address) cfg
      = Return (ds, Ok tt) ∧ length ds = connections ∧ Forall good ds.
Proof.
  intros Hlimit Hpos Hincrement Hwidth Hqueue Hcodec Hspawn Hsys Hconnect.
  destruct (connect_loop_spec good spawn_tasks connections 0 codec_default tcp_connect sys address cfg)
    as (ds & [[]|e] & He & Hds & Hres); [done..|by exists ds|].
  exfalso. destruct Hres as (_ & calls & e' & Hc & _). simpl in Hc.
  destruct (ClientConnections.connect_makes_a_client (B:=B) (K:=K) (O:=Os) (Req:=Req) (Res:=Res) codec_default
    (tcp_connect (length ds)) (sys (length ds)) address cfg) as (calls' & res & Hc' & Hres); [done..|].
  rewrite Hc in Hc'. injection Hc' as <- <-. destruct (Hconnect (length ds)) as (t & s & Ht & Hstream).
  rewrite Ht in Hres. destruct Hres as [(made & call & rest & e0 & _ & Hcall & _)|(_ & _ & Hr)]; [by rewrite Hsys in Hcall|].
  rewrite Hstream in Hr. by destruct Hr as (cl & c & Hr & _).
Qed.
End starting.

(** ** The two ends of a pair *)

(** A stream on which nothing has been read or written. *)
Definition untouched {S} `{AsyncStreamLaws S K} (s : S) : Prop := inbound s = [] ∧ outbound s = [].

Section ends.
Context {S1 C1 B1 S2 C2 B2 Os W K Req Res V F S P : Type} {limit1 limit2 : usize}.
Context `{AtomicWakerLaws W K} `{OneshotLaws Os (result Res RpcError) K}.
Context `{!FutureOp F K Res} `{!StreamOp S K Res} `{!ConnectionService V K Req F S}.
Context `{MessageLaws Req} `{MessageLaws Res}.
Context `{FuturesUnorderedLaws P (RpcStream F S) (u64 * RpcStreamEvent Res) (list (AbortCell W))}.
Context `{!AsyncStream S1 K} `{!AsyncStreamLaws S1 K} `{!AsyncStream S2 K} `{!AsyncStreamLaws S2 K}.
Context `{CL1 : CodecLaws C1 Res Req B1 limit1} `{!BufWhole B1}.
Context `{CL2 : CodecLaws C2 Req Res B2 limit2} `{!BufWhole B2}.

(** What [connect] makes and what the server makes of a stream. *)
Lemma ends_make_a_pair s1 cl (c : Connection S1 _ C1 B1 (RpcCompletionReactor Os W Res)) s2
  (d : Connection S2 _ C2 B2 (RpcSubmitter V P W)) :
  ClientConnections.new_client (K:=K) (limit:=limit1) s1 cl c →
  fresh_connection (limit:=limit2) (F:=F) (S:=S) (Req:=Req) (Res:=Res) s2 d →
  untouched (stream c) → untouched (stream d) →
  new_pair (K:=K) (limit1:=limit1) (limit2:=limit2) (F:=F) (S:=S) (mkPair c d (mkLog [] [])).
Proof.
  intros (_ & Hc & (x & v & q & Hch & _ & Hw) & Hu & _ & _ & _ & _ & Hb & _).
  intros (_ & Hdok & _ & _ & Hq & _ & Hb2 & Hu2 & v2 & Hsub) [Hin1 Hout1] [Hin2 Hout2].
  split; simpl; try done; [by exists x, v, q|by exists v2].
Qed.
End ends.

(** ** The programs of example-messagepack *)

Section pair.
Context {AE T Li Os W K P : Type}.
Context `{AtomicWakerLaws W K} `{OneshotLaws Os (result Response RpcError) K}.
Context `{FuturesUnorderedLaws P (RpcStream Response (list Response)) (u64 * RpcStreamEvent Response) (list (AbortCell W))}.
Context `{!AsyncStream T K} `{!AsyncStreamLaws T K} `{SocketListenerLaws Li K (StreamWithAddress T)}.
Context `{RmpLaws Request} `{RmpLaws Response}.

(** When everything it asks for is granted, the client connects. *)
Definition alone (d : Connected (S:=T) (C:=ClientCodec) (B:=OwnedBuffer) (Os:=Os) (W:=W) (Req:=Request) (Res:=Response))
  : Prop :=
  ∃ s cl, ClientConnections.new_client (K:=K) (limit:=4194304) s cl (cn_connection d) ∧ cn_clients d = [cl].

Lemma messagepack_client_connects (peer : SocketAddr) (tcp_connect : nat → SocketAddr → result T IoError)
  (sys : nat → SocketCall → result unit IoError) :
  (∀ i call, sys i call = Ok tt) → (∀ i, ∃ t, tcp_connect i peer = Ok t) →
  ∃ e1 e2, messagepack_client_main (AE:=AE) (K:=K) tcp_connect sys (Ok peer) = Return ([e1; e2], Ok tt) ∧
    alone e1 ∧ alone e2.
Proof.
  intros Hsys Hconnect.
  destruct (connect_loop_granted (AE:=AE) (K:=K) (limit:=4194304) alone one_task 2
    (mkMessagePackSerializer, messagepack_decoder_default) tcp_connect sys peer (configuration_new mkTcpStreamConnector))
    as (ds & He & Hlen & Hds); try done.
  { intros s cl c Hnew. eexists. split; [done|]. by exists s, cl. }
  { intros i. destruct (Hconnect i) as [t Ht]. by exists t, t. }
  destruct ds as [|e1 [|e2 [|]]]; try done. exists e1, e2. split; [exact He|].
  apply Forall_cons in Hds as [H1' Hds]. by apply Forall_cons in Hds as [H2' _].
Qed.

(** When its address is right and everything it asks for is granted, the server
    listens. *)
Lemma messagepack_server_listens (address : SocketAddr) (sys : SocketCall → result unit IoError) :
  (∀ call, sys call = Ok tt) →
  ∃ srv, messagepack_server_main (AE:=AE) sys (Ok address) = (listen_calls address 1024 None, Ok srv) ∧
    server_ok (limit:=4194304) srv.
Proof.
  intros Hsys. unfold messagepack_server_main, listening_server, tcp_listen.
  destruct (perform_spec sys (listen_calls address 1024 None)) as [[_ ->]|(made & call & rest & e & _ & _ & He & _)];
    [|by rewrite Hsys in He].
  eexists. split; [done|]. by split; vm_compute.
Qed.

(** C29: the programs of example-messagepack are the two sides of a new pair: when the
    address of the server parses and the system grants its calls, it makes them in
    order and has a server, whose poll returns after accepting all the streams that
    its listener has; when the client's attempts succeed, it has two connections
    with a client each.  Any of these connections and any that the server spawned,
    on streams that are still untouched, are a new pair with the limits of the two
    programs: all that is proved of the pairs that can be reached holds for them. *)
Theorem messagepack_programs_make_a_pair (address peer : SocketAddr) (fuel : nat) (l : Li) (k : K)
  (server_sys : SocketCall → result unit IoError) (client_sys : nat → SocketCall → result unit IoError)
  (tcp_connect : nat → SocketAddr → result T IoError)
  (Hserver : ∀ call, server_sys call = Ok tt) (Hclient : ∀ i call, client_sys i call = Ok tt)
  (Hconnect : ∀ i, ∃ t, tcp_connect i peer = Ok t) (Hfuel : (backlog l < fuel)%nat) :
  ∃ srv closed srv' l' ss spawned e1 e2,
    messagepack_server_main (AE:=AE) server_sys (Ok address) = (listen_calls address 1024 None, Ok srv) ∧
    rpc_server_poll (P:=P) (F:=Response) (S:=list Response) fuel srv l k
      = Return (if closed : bool then Ready (Ok tt) else Pending, srv', l', spawned) ∧
    accepts k l ss l' closed ∧ Forall2 (λ s d, stream d = s) ss spawned ∧
    messagepack_client_main (AE:=AE) (K:=K) (Os:=Os) (W:=W) tcp_connect client_sys (Ok peer)
      = Return ([e1; e2], Ok tt) ∧
    ∀ e d, e ∈ [e1; e2] → d ∈ spawned → untouched (stream (cn_connection e)) → untouched (stream d) →
      length (cn_clients e) = 1%nat ∧
      new_pair (limit1:=4194304) (limit2:=4194304) (mkPair (cn_connection e) d (mkLog [] [])).
Proof.
  destruct (messagepack_server_listens address server_sys Hserver) as (srv & Hmain & Hok).
  destruct (rpc_server_poll_spec (limit:=4194304) (Req:=Request) (Res:=Response) (P:=P) (F:=Response) (S:=list Response) srv l fuel k Hok)
    as (closed & srv' & l' & ss & spawned & Hpoll & Hacc & Hfresh & _); [done|done|].
  destruct (messagepack_client_connects peer tcp_connect client_sys Hclient Hconnect) as (e1 & e2 & Hcl & He1 & He2).
  exists srv, closed, srv', l', ss, spawned, e1, e2. split_and!; try done.
  { eapply Forall2_impl; [exact Hfresh|]. by intros s d [Hs _]. }
  intros e d He Hd Hun1 Hun2.
  assert (alone e) as (s & cl & Hnew & Hcls)
    by (apply elem_of_cons in He as [->|He%list_elem_of_singleton]; [done|by subst e]).
  split; [by rewrite Hcls|]. apply list_elem_of_lookup in Hd as [i Hi].
  destruct (Forall2_lookup_r _ _ _ _ _ Hfresh Hi) as (s2 & _ & Hd).
  by apply (ends_make_a_pair _ _ _ _ _ Hnew Hd).
Qed.
End pair.

(** ** The other programs *)

(** The runtime of [example-proto]: two threads, named after it, and the task of
    [run_main]; its turn puts a server on each worker. *)
Lemma proto_main_starts a b :
  (a < 2)%nat → (b < 2)%nat →
  ∃ p p', proto_main a b = Return p ∧ global_runtime p = true ∧
    th_name <$> pc_threads p = [[115; 101; 114; 118; 101; 114; 45; 48; 48]; [115; 101; 114; 118; 101; 114; 45; 48; 49]] ∧
    length (live_tasks (pc_runtime p)) = 1%nat ∧ proto_run_main p = Return p' ∧
    live_tasks (pc_runtime p') = live_tasks (pc_runtime p) ++ [Some (mkConcurrencyTracker 0); Some (mkConcurrencyTracker 1)].
Proof.
  intros Ha Hb. destruct a as [|[|a]], b as [|[|b]]; [| |lia| | |lia|lia..];
    (do 2 eexists; split; [vm_compute; reflexivity|split_and!; vm_compute; reflexivity]).
Qed.

(** Tasks that share a connection: whatever the codec, the loop of the clients ends
    with all connections, or with the first failure and those before it, and each
    connection has as many senders as it has tasks. *)
Theorem clients_share_their_connections {AE X T S C B Os W K Req Res : Type} {limit : usize} `{StreamConnector X T S}
  `{AsyncStreamLaws S K} `{AtomicWakerLaws W K} `{OneshotLaws Os (result Res RpcError) K}
  `{CodecLaws C Res Req B limit} `{!BufWhole B} `{!Message Req} `{!Message Res}
  (connections tasks : nat) (codec_default : C) (tcp_connect : nat → SocketAddr → result T IoError)
  (sys : nat → SocketCall → result unit IoError) (peer : SocketAddr) (cfg : Configuration X)
  (Hlimit : cl_max_buffer_length cfg = limit) (Hpos : 0 < limit) (Hincrement : 0 < cl_buffer_allocation_increment cfg)
  (Hwidth : limit + cl_buffer_allocation_increment cfg < 2 ^ 63) (Hqueue : cl_max_queued_outbound_messages cfg < 2 ^ 63)
  (Hcodec : dec_ok codec_default [] ∧ enc_ok codec_default) (Htasks : N.of_nat tasks < 2 ^ 63) :
  ∃ ds res, connect_loop (AE:=AE) connections 0 (many_tasks tasks) codec_default tcp_connect sys (Ok peer) cfg
      = Return (ds, res) ∧
    Forall (started (K:=K) (limit:=limit) (Os:=Os) (Req:=Req) (Res:=Res) tasks) ds ∧
    match res with
    | Ok _ => length ds = connections
    | Err e => (length ds < connections)%nat ∧ ∃ calls e',
        connect (B:=B) (O:=Os) (K:=K) (Req:=Req) (Res:=Res) codec_default (tcp_connect (length ds)) (sys (length ds))
          peer cfg = Return (calls, Err e') ∧ e = MainRpc e'
    end.
Proof.
  apply (connect_loop_spec (K:=K) (limit:=limit) (started tasks) (many_tasks tasks) connections 0); [done..|]. intros s cl c Hnew. by eapply many_tasks_start.
Qed.

(** The TLS server does not start without a key of a kind it knows: it panics exactly
    when the certificates are read and no item is such a key. *)
Lemma tls_server_needs_a_key {AE GE CE Cert Key Cfg Li J : Type} certs (items : list (result (PemItem Key) IoError))
  (with_single_cert : list Cert → PrivateKeyDer Key → result Cfg CE) (tcp : Li) (no_tasks : J) sys
  (host : result SocketAddr AE) :
  tls_server_main (GE:=GE) (Ok (certs, items)) with_single_cert tcp no_tasks sys host = Panic ↔
  (∃ l, collect_results certs = Ok l) ∧ omap private_key items = [].
Proof.
  unfold tls_server_main. destruct (collect_results certs) as [l|e]; [|split; [done|by intros [[? ?] _]]].
  destruct (last (omap private_key items)) as [key|] eqn:Hl; simpl.
  - destruct (with_single_cert l key) as [cfg|e]; simpl.
    + destruct (listening_server sys host _) as [calls server]. split; [done|]. intros [_ Hn]. by rewrite Hn in Hl.
    + split; [done|]. intros [_ Hn]. by rewrite Hn in Hl.
  - apply last_None in Hl. split; [|done]. intros _. split; [by exists l|done].
Qed.

(** ** Witness: a client and a server on streams that say nothing yet *)

Import WakerCell RpcReactor RpcClients Demo Formats Servers.
#[local] Existing Instances request_eq response_eq
  MessagePackEchoes.request_countable MessagePackEchoes.response_countable
  MessagePackEchoes.rmp_number MessagePackEchoes.rmp_number_laws.

Definition silent : ScriptedStream := mkScriptedStream [] [] [] [].

Lemma messagepack_programs_make_a_pair_witness :
  ∃ (e : Connected (S:=ScriptedStream) (C:=ClientCodec) (B:=OwnedBuffer) (Os:=DemoSlot) (W:=option nat) (Req:=Request)
           (Res:=Response))
    (d : Connection (StreamWithAddress ScriptedStream) (Shared (option nat) Response * Receiver Response) ServerCodec
           Reusable (RpcSubmitter unit (list EchoRpc) (option nat))),
    stream d = mkStreamWithAddress silent (AddrV4 0 5000) ∧
    new_pair (K:=nat) (limit1:=4194304) (limit2:=4194304) (mkPair (cn_connection e) d (mkLog [] [])).
Proof.
  destruct (messagepack_programs_make_a_pair (AE:=unit) (Os:=DemoSlot) (W:=option nat) (P:=list EchoRpc)
    (AddrV4 0 9000) (AddrV4 2130706433 9000) 9 [Ok (silent, AddrV4 0 5000)] 5%nat (λ _, Ok tt) (λ _ _, Ok tt)
    (λ _ _, Ok silent)) as (srv & closed & srv' & l' & ss & spawned & e1 & e2 & _ & _ & Ha & Hs & He & Hp);
    [done|done|by intros i; exists silent|vm_compute; lia|].
  inversion Ha as [| |a l1 b s0 ss1 c Hacc Ha1]; subst; [discriminate..|]. simpl in Hacc. injection Hacc as <- <-.
  apply Forall2_cons_inv_l in Hs as (d & ds & Hd & _ & ->). exists e1, d. split; [by rewrite Hd|].
  apply Hp; [by left|by left| |by rewrite Hd].
  assert (stream (cn_connection e1) = silent) as ->; [|done].
  vm_compute in He. by injection He as <- _.
Defined.
End ExamplePrograms.
