(* ===== verification/ProstPrograms.v ===== *)
(** * The programs of example-proto

    The server of a worker and the client of [example-proto], granted what they ask
    for: each of the client's four connections, shared by sixty-four tasks, and any
    that the server spawned are a pair that [ProstEcho] answers for.  The tasks'
    clones of a client are steps of its callers, so such a pair is one that a new
    pair reaches. *)

From S2P Require Import Prelude Spillway Encoding Connection ConnectionSpec RpcMessage ExampleService.
From S2P Require Import RpcServer RpcServerSpec RpcClient RpcClientSpec Codecs Server ExampleProto ClientConnection.
From S2P Require Import System Answers EndToEnd DecoderTwin ProstEcho Programs.
Local Open Scope N_scope.
Local Open Scope run_scope.

Module ProstPrograms.
Import Systems Answered EndToEnds ProstEchoes ExamplePrograms.

(** ** The tasks of a connection *)

Section tasks.
Context {S C B Os W K Req Res : Type}.
Context `{AtomicWaker W K} `{Oneshot Os (result Res RpcError) K} `{!Message Req} `{!Message Res}.
Abbreviation Conn :=
  (Connection S (Shared W (RpcNotification Req) * Receiver (RpcNotification Req)) C B
     (RpcCompletionReactor Os W Res)).
Abbreviation TheConnected := (Connected (S:=S) (C:=C) (B:=B) (Os:=Os) (W:=W) (Req:=Req) (Res:=Res)).
Implicit Types w : ClientWorld Os W Req Res.

(** Callers move and hear nothing, whatever has been called. *)
Definition unheard w w' : Prop := w_connected w' = w_connected w ∧ ∀ used, caller_step (K:=K) used w [] w'.

Lemma clone_client_unheard tasks cl (q : Shared W (RpcNotification Req)) v (r : RpcCompletionReactor Os W Res) clients q' :
  clone_client tasks cl q = Return (clients, q') → rtc unheard (mkWorld q v true r) (mkWorld q' v true r).
Proof.
  revert q clients. induction tasks as [|tasks IH]; intros q clients He; simpl in He; [by injection He as _ <-|].
  apply run_bind_Return in He as ([clone q1] & Hc & He). apply run_bind_Return in He as ([clones q2] & Hrest & He).
  injection He as _ <-. apply (rtc_l _ _ (mkWorld q1 v true r)); [|by eapply IH].
  split; [done|]. intros used. by apply (caller_clone used (mkWorld q v true r) cl clone q1).
Qed.

Lemma many_tasks_unheard tasks cl (c : Conn) (d : TheConnected) :
  many_tasks tasks cl c = Return d →
  cn_connection d = with_world c (world_of (cn_connection d)) ∧ rtc unheard (world_of c) (world_of (cn_connection d)).
Proof.
  intros He. unfold many_tasks in He. destruct (outbound_messages c) as [q v] eqn:Ho.
  apply run_bind_Return in He as ([clients q'] & Hc & He). injection He as <-. split; [done|].
  unfold world_of at 1. rewrite Ho. eapply rtc_r; [by eapply clone_client_unheard|].
  split; [done|]. intros used. apply (caller_drop_client used (mkWorld q' v true (reactor c)) cl).
Qed.
End tasks.

(** ** Where they are is reached *)

Section pair.
Context {AE T Li Os W K P : Type}.
Context `{AtomicWakerLaws W K} `{OneshotLaws Os (result Response RpcError) K}.
Context `{FuturesUnorderedLaws P (RpcStream Response (list Response)) (u64 * RpcStreamEvent Response) (list (AbortCell W))}.
Context `{!AsyncStream T K} `{!AsyncStreamLaws T K} `{SocketListenerLaws Li K (StreamWithAddress T)}.
Context `{ProstLaws ProtoRequest} `{ProstLaws Response}.
Abbreviation ProtoPair :=
  (Pair T ProtoCodec Reusable (StreamWithAddress T) ProtoCodec Reusable Os W ProtoRequest Response SocketAddr P).
Abbreviation ProtoConnected :=
  (Connected (S:=T) (C:=ProtoCodec) (B:=Reusable) (Os:=Os) (W:=W) (Req:=ProtoRequest) (Res:=Response)).
Abbreviation ProstReachable := (prost_reachable (K:=K) (F:=Response) (limit1:=4194304) (limit2:=4194304)).
Implicit Types pr : ProtoPair.

Lemma unheard_reachable pr w :
  ProstReachable pr → rtc (unheard (K:=K)) (world_of (pr_client pr)) w →
  ProstReachable (mkPair (with_world (pr_client pr) w) (pr_server pr) (pr_log pr)).
Proof.
  intros Hr Hw. enough (w_connected w = true ∧
    ProstReachable (mkPair (with_world (pr_client pr) w) (pr_server pr) (pr_log pr))) as [_ Hw'] by done.
  revert w Hw. apply rtc_ind_r.
  - split; [done|]. destruct pr as [c d l]. destruct c as [s [q v] sb cd rb ?]. exact Hr.
  - intros w1 w2 _ [Hc Hs] [Hc1 Hr1]. split; [by rewrite Hc|]. eapply other_next; [exact Hr1|].
    destruct w1 as [q1 v1 a1 r1]. simpl in Hc1. subst a1.
    assert (log_hear [] (pr_log pr) = pr_log pr) as Hlog by (destruct (pr_log pr); unfold log_hear; simpl; by rewrite app_nil_r).
    pose proof (pair_caller (F:=Response) (S:=list Response) (Decoder0:=pair_decoder) (Decoder1:=pair_decoder)
      proto_wants_stream
      (mkPair (with_world (pr_client pr) (mkWorld q1 v1 true r1)) (pr_server pr) (pr_log pr)) [] w2 (Hs _)) as Hstep.
    simpl in Hstep. rewrite Hlog in Hstep. exact Hstep.
Qed.

(** The codecs keep themselves in order with either decoder. *)
#[local] Instance checked_proto_codec {In Out} `{ProstLaws In} `{ProstLaws Out} (limit : usize) :
  CodecLaws ProtoCodec In Out Reusable limit (DecoderLaws0:=checked_codec_laws limit) :=
  pair_codec_laws limit (H4:=checked_decoder_laws limit).

(** A connection of the client: what [connect] made, shared by the tasks. *)
Definition shared (d : ProtoConnected) : Prop :=
  ∃ s cl c, ClientConnections.new_client (K:=K) (limit:=4194304) (DecoderLaws0:=checked_codec_laws 4194304) s cl c ∧
    many_tasks 64 cl c = Return d ∧ length (cn_clients d) = 64%nat.

Lemma proto_client_connects (peer : SocketAddr) (tcp_connect : nat → SocketAddr → result T IoError)
  (sys : nat → SocketCall → result unit IoError) :
  (∀ i call, sys i call = Ok tt) → (∀ i, ∃ t, tcp_connect i peer = Ok t) →
  ∃ ds, proto_client_main (AE:=AE) (K:=K) tcp_connect sys (Ok peer) = Return (ds, Ok tt) ∧
    length ds = 4%nat ∧ Forall shared ds.
Proof.
  intros Hsys Hconnect.
  eapply (connect_loop_granted (AE:=AE) (K:=K) (limit:=4194304) (DecoderLaws0:=checked_codec_laws 4194304) shared (many_tasks 64) 4
    (pooled_new mkProstSerializer, mkProstDecoder) tcp_connect sys peer
    (configure_max_queued_outbound_messages 64 (configuration_new mkTcpStreamConnector))); try done.
  - intros s cl c Hnew. destruct (many_tasks_start 64 s cl c Hnew) as (d & Hd & Hst); [done|].
    exists d. split; [done|]. exists s, cl, c. split_and!; [done..|]. by destruct_and! Hst.
  - intros i. destruct (Hconnect i) as [t Ht]. by exists t, t.
Qed.

(** The programs of example-proto are the two sides of a pair that is reached: when
    the system grants the calls of a worker's server and the client's attempts
    succeed, the server accepts all the streams that its listener has, and the client
    has four connections, each with the clients of sixty-four tasks.  Any of them and
    any that the server spawned, on streams that are still untouched, are a pair for
    which [prost_calls_are_echoed] says what every caller hears. *)
Theorem proto_programs_make_a_pair (address peer : SocketAddr) (fuel : nat) (l : Li) (k : K)
  (server_sys : SocketCall → result unit IoError) (client_sys : nat → SocketCall → result unit IoError)
  (tcp_connect : nat → SocketAddr → result T IoError)
  (Hserver : ∀ call, server_sys call = Ok tt) (Hclient : ∀ i call, client_sys i call = Ok tt)
  (Hconnect : ∀ i, ∃ t, tcp_connect i peer = Ok t) (Hfuel : (backlog l < fuel)%nat) :
  ∃ srv closed srv' l' ss spawned ds,
    proto_worker_main (AE:=AE) server_sys (Ok address) = Return (listen_calls address 1 None, Ok srv) ∧
    rpc_server_poll (C:=ProtoCodec) (V:=SocketAddr) (P:=P) (F:=Response) (S:=list Response) fuel srv l k
      = Return (if closed : bool then Ready (Ok tt) else Pending, srv', l', spawned) ∧
    accepts k l ss l' closed ∧ Forall2 (λ s d, stream d = s) ss spawned ∧
    proto_client_main (AE:=AE) (K:=K) (Os:=Os) (W:=W) tcp_connect client_sys (Ok peer) = Return (ds, Ok tt) ∧
    length ds = 4%nat ∧
    ∀ e d, e ∈ ds → d ∈ spawned → untouched (stream (cn_connection e)) → untouched (stream d) →
      length (cn_clients e) = 64%nat ∧ ProstReachable (mkPair (cn_connection e) d (mkLog [] [])).
Proof.
  assert (proto_worker_main (AE:=AE) server_sys (Ok address)
    = Return (listen_calls address 1 None, Ok (proto_server tt))) as Hmain.
  { unfold proto_worker_main, tcp_listen.
    destruct (perform_spec server_sys (listen_calls address 1 None)) as [[_ ->]|(made & call & rest & e & _ & _ & He & _)];
      [done|by rewrite Hserver in He]. }
  destruct (rpc_server_poll_spec (limit:=4194304) (Req:=ProtoRequest) (Res:=Response) (P:=P) (F:=Response)
    (S:=list Response) (C:=ProtoCodec) (V:=SocketAddr) (DecoderLaws0:=checked_codec_laws 4194304)
    (proto_server tt) l fuel k (proto_server_ok tt))
    as (closed & srv' & l' & ss & spawned & Hpoll & Hacc & Hfresh & _); [done|done|].
  destruct (proto_client_connects peer tcp_connect client_sys Hclient Hconnect) as (ds & Hcl & Hlen & Hds).
  exists (proto_server tt), closed, srv', l', ss, spawned, ds. split_and!; try done.
  { eapply Forall2_impl; [exact Hfresh|]. by intros s d [Hs _]. }
  intros e d He Hd Hun1 Hun2. rewrite Forall_forall in Hds.
  destruct (Hds e He) as (s & cl & c & Hnew & Htasks & Hclients). split; [done|].
  apply list_elem_of_lookup in Hd as [i Hi]. destruct (Forall2_lookup_r _ _ _ _ _ Hfresh Hi) as (s2 & _ & Hd).
  destruct (many_tasks_unheard (K:=K) _ _ _ _ Htasks) as [Hc Hw]. rewrite Hc in Hun1 |- *.
  apply (unheard_reachable (mkPair c d (mkLog [] []))); [|exact Hw].
  apply other_start. by eapply ends_make_a_pair.
Qed.
End pair.
End ProstPrograms.
