(* ===== verification/UnitTests.v ===== *)
(** * The unit tests of the crates, on the model

    The tests in [spillway/src/receiver.rs], [protosocket-connection/src/connection.rs]
    and [protosocket-rpc/src/client/rpc_client.rs]: each is a definition that runs
    what the test runs and gives what it observes, and an example says that these
    are the values which the test asserts. *)

From S2P Require Import Prelude Spillway Encoding Connection ConnectionSpec RpcMessage.
From S2P Require Import RpcClient ServerConnection ConnectionPool.
Local Open Scope N_scope.
Local Open Scope run_scope.

(** ** The channel ([receiver.rs]) *)

Module ReceiverTests.
Import WakerCell.

Abbreviation TestShared := (Shared (option nat) Z).
Implicit Types s : TestShared.

(** What an assertion looks at. *)
Inductive Observed :=
| Lanes (n : usize)
| IsClean (lane : nat) (b : bool)
| Polled (p : Poll (option Z))
| Batch (items : list Z).

(** [poll], with a waker that does nothing. *)
Definition test_poll s (r : Receiver Z) : run (Observed * TestShared * Receiver Z) :=
  let* '(p, s, r) := poll_next s r 0%nat in Return (Polled p, s, r).

Definition lane_clean s (i : nat) : Observed :=
  IsClean i (match chutes s !! i with Some c => clean c | None => false end).

(** [sender.send(value).expect("sends")]. *)
Definition expect_send (x : Sender) s (value : Z) : run TestShared :=
  let* '(sent, s, _) := sender_send x s value in
  match sent with Ok _ => Return s | Err _ => Panic end.

Definition test_channel : run (list Observed) :=
  let* '(sender, receiver, s) := channel_with_concurrency 1 in
  let o1 := [Lanes (len (chutes s)); lane_clean s 0] in
  let* '(p1, s, receiver) := test_poll s receiver in
  let* '(p2, s, receiver) := test_poll s receiver in
  let* s := expect_send sender s 1 in
  let o2 := lane_clean s 0 in
  let* '(p3, s, receiver) := test_poll s receiver in
  Return (o1 ++ [p1; p2; o2; p3; lane_clean s 0]).

Definition test_channel_immediate : run (list Observed) :=
  let* '(sender, receiver, s) := channel_with_concurrency 1 in
  let* s := expect_send sender s 1 in
  let* '(p, _, _) := test_poll s receiver in
  Return [p].

Definition test_channel_two : run (list Observed) :=
  let* '(sender, receiver, s) := channel_with_concurrency 2 in
  let* '(sender2, s) := sender_clone sender s in
  let* s := expect_send sender s 0 in
  let* s := expect_send sender s 1 in
  let* s := expect_send sender2 s 2 in
  let* s := expect_send sender2 s 3 in
  let o1 := [lane_clean s 0; lane_clean s 1] in
  let* '(p1, s, receiver) := test_poll s receiver in
  let o2 := [lane_clean s 0; lane_clean s 1] in
  let* '(p2, s, receiver) := test_poll s receiver in
  let* '(p3, s, receiver) := test_poll s receiver in
  let o3 := [lane_clean s 0; lane_clean s 1] in
  let* s := expect_send sender s 4 in
  let o4 := [lane_clean s 0] in
  let* '(p4, s, receiver) := test_poll s receiver in
  let* '(p5, s, receiver) := test_poll s receiver in
  let* '(p6, s, receiver) := test_poll s receiver in
  Return (o1 ++ [p1] ++ o2 ++ [p2; p3] ++ o3 ++ o4 ++ [p4; p5; p6]).

(** [next_batch().now_or_never().expect(..).expect(..).collect()]: the drain is
    iterated to its end and dropped. *)
Definition collect_batch s (receiver : Receiver Z) : run (Observed * TestShared * Receiver Z) :=
  let* '(p, s, receiver) := next_batch_poll s receiver 0%nat in
  match p with
  | Ready (Some drain) =>
      let '(items, receiver) := drain_many (length (buffer receiver)) receiver in
      Return (Batch items, drain_drop drain s receiver, receiver)
  | _ => Panic
  end.

Definition test_channel_batch : run (list Observed) :=
  let* '(sender, receiver, s) := channel_with_concurrency 2 in
  let* '(sender2, s) := sender_clone sender s in
  let* s := expect_send sender s 0 in
  let* s := expect_send sender s 1 in
  let* s := expect_send sender2 s 2 in
  let* s := expect_send sender2 s 3 in
  let* '(batch1, s, receiver) := collect_batch s receiver in
  let* '(batch2, s, receiver) := collect_batch s receiver in
  Return [batch1; batch2].

Example test_channel_passes :
  test_channel = Return [Lanes 1; IsClean 0 true; Polled Pending; Polled Pending; IsClean 0 false;
    Polled (Ready (Some 1%Z)); IsClean 0 true].
Proof. vm_compute. reflexivity. Qed.

Example test_channel_immediate_passes : test_channel_immediate = Return [Polled (Ready (Some 1%Z))].
Proof. vm_compute. reflexivity. Qed.

Example test_channel_two_passes :
  test_channel_two = Return [IsClean 0 false; IsClean 1 false;
    Polled (Ready (Some 0%Z)); IsClean 0 true; IsClean 1 false;
    Polled (Ready (Some 1%Z)); Polled (Ready (Some 2%Z)); IsClean 0 true; IsClean 1 true; IsClean 0 false;
    Polled (Ready (Some 3%Z)); Polled (Ready (Some 4%Z)); Polled Pending].
Proof. vm_compute. reflexivity. Qed.

Example test_channel_batch_passes : test_channel_batch = Return [Batch [0%Z; 1%Z]; Batch [2%Z; 3%Z]].
Proof. vm_compute. reflexivity. Qed.
End ReceiverTests.

(** ** The connection ([connection.rs]) *)

Module ConnectionTests.
Import WakerCell.

Definition BUFFER_ALLOCATION_INCREMENT : usize := 8.

(** [ScriptedStream]: the chunks to come. *)
Record ScriptedChunks := mkScriptedChunks { chunks_inbound : list bytes }.

(** [AsyncRead]: a chunk must fit; without one the stream is parked. *)
Definition chunks_poll_read (s : ScriptedChunks) (room : usize) : run (Poll (result bytes IoError) * ScriptedChunks) :=
  match chunks_inbound s with
  | chunk :: rest =>
      if len chunk <=? room then Return (Ready (Ok chunk), mkScriptedChunks rest) else Panic
  | [] => Return (Pending, s)
  end.

(** [AsyncWrite]: everything is taken ([poll_write_vectored] is the trait's, which
    writes the first slice that is not empty). *)
Definition chunks_poll_write (s : ScriptedChunks) (slices : list bytes) : Poll (result usize IoError) * ScriptedChunks :=
  (Ready (Ok (len (default [] (head (filter (λ slice, slice ≠ []) slices))))), s).

(** The chunks of the tests fit, so that the last case is not met. *)
#[export] Instance scripted_chunks : AsyncStream ScriptedChunks nat := {|
  poll_read s _ room := match chunks_poll_read s room with Return x => x | _ => (Pending, s) end;
  poll_write_vectored s _ slices := chunks_poll_write s slices;
  poll_flush s _ := (Ready (Ok tt), s);
|}.

(** [IncompleteCodec], with its counter. *)
Record IncompleteCodec := mkIncompleteCodec {
  announced_size : usize;
  decode_calls : usize;
}.

Definition incomplete_encode (c : IncompleteCodec) (_ : unit) : OwnedBuffer * IncompleteCodec := (owned_new [], c).

(** [decode]: it counts its calls, and a thousandth is a panic. *)
Definition incomplete_decode (c : IncompleteCodec) (_ : bytes)
  : run (result (usize * unit) DeserializeError * IncompleteCodec) :=
  let calls := 1 + decode_calls c in
  let c := mkIncompleteCodec (announced_size c) (usize_add (decode_calls c) 1) in
  if calls <? 1000 then Return (Err (IncompleteBuffer (announced_size c)), c) else Panic.

#[export] Instance incomplete_encoder : Encoder IncompleteCodec unit OwnedBuffer :=
  {| encode := incomplete_encode; return_buffer c _ := c |}.

(** The counter of a poll is far from a thousand; after that the model answers as
    before. *)
#[export] Instance incomplete_decoder : Decoder IncompleteCodec unit :=
  {| decode c u := match incomplete_decode c u with
                   | Return x => x
                   | _ => (Err (IncompleteBuffer (announced_size c)), c)
                   end |}.

(** [NoopReactor]. *)
Inductive NoopReactor := TheNoopReactor.

#[export] Instance noop_reactor : MessageReactor NoopReactor nat IncompleteCodec OwnedBuffer unit unit unit := {|
  on_inbound_message r _ := (StatusContinue, r);
  reactor_poll := reactor_poll_default;
  on_outbound_message r message := (message, r);
  poll_outbound_many := poll_outbound_many_default;
|}.

Abbreviation TestQueue := (Shared (option nat) unit * Receiver unit)%type.
Abbreviation TestConnection := (Connection ScriptedChunks TestQueue IncompleteCodec OwnedBuffer NoopReactor).

(** [connection]: the sender is kept by the test. *)
Definition connection (inbound : bytes) (max_buffer_length next_message_size : usize) : run (Sender * TestConnection) :=
  let* '(sender, receiver, s) := channel in
  Return (sender, new (mkScriptedChunks [inbound]) (mkIncompleteCodec next_message_size 0)
    max_buffer_length BUFFER_ALLOCATION_INCREMENT 1 (s, receiver) TheNoopReactor).

(** One poll, with fuel, and the calls of the decoder. *)
Definition polled (fuel : nat) (c : TestConnection) : run (Poll unit * usize) :=
  let* '(p, c) := poll (In:=unit) (Out:=unit) (L:=unit) fuel c 0%nat in Return (p, decode_calls (codec c)).

Definition oversized_next_message_disconnects : run (Poll unit * usize) :=
  let* '(_sender, c) := connection (replicate 8 0) BUFFER_ALLOCATION_INCREMENT (BUFFER_ALLOCATION_INCREMENT + 1) in
  polled 10 c.

Definition incomplete_next_message_parks : run (Poll unit * usize) :=
  let* '(_sender, c) := connection [0; 0] 64 4 in polled 10 c.

Example oversized_next_message_disconnects_passes : oversized_next_message_disconnects = Return (Ready tt, 1).
Proof. vm_compute. reflexivity. Qed.

Example incomplete_next_message_parks_passes : incomplete_next_message_parks = Return (Pending, 1).
Proof. vm_compute. reflexivity. Qed.
End ConnectionTests.

(** ** The client and the pool ([rpc_client.rs]) *)

Module ClientTests.
Import WakerCell Notes.

(** *** Messages *)

(** [impl Message for u64]: the code is above the lower 32 bits, which are the id;
    there are no other codes. *)
Definition word_message_id (m : u64) : u64 := N.land m (N.ones 32).

Definition word_control_code (m : u64) : run ProtosocketControlCode :=
  match N.shiftr m 32 with
  | 0 => Return Normal
  | 1 => Return Cancel
  | 2 => Return End
  | _ => Panic
  end.

Definition word_set_message_id (m id : u64) : u64 := N.lor (N.land m (N.shiftl 15 32)) id.
Definition word_cancelled (id : u64) : u64 := N.lor (N.shiftl 1 32) id.
Definition word_ended (id : u64) : u64 := N.lor (N.shiftl 2 32) id.

(** The tests have messages with a code only, so that the last case is not met. *)
#[export] Instance word_message : Message N := {|
  message_id := word_message_id;
  control_code m := match word_control_code m with Return c => c | _ => Cancel end;
  set_message_id := word_set_message_id;
  cancelled := word_cancelled;
  ended := word_ended;
|}.

(** [TestCodec]. *)
Inductive TestCodec := TheTestCodec.

Definition test_encode (c : TestCodec) (message : u64) : OwnedBuffer * TestCodec := (owned_new (le_bytes 8 message), c).

Definition test_decode (c : TestCodec) (buffer : bytes) : result (usize * u64) DeserializeError * TestCodec :=
  (if len buffer <? 8 then Err (IncompleteBuffer 8) else Ok (8, le_number (take 8 buffer)), c).

#[export] Instance test_encoder : Encoder TestCodec N OwnedBuffer := {| encode := test_encode; return_buffer c _ := c |}.
#[export] Instance test_decoder : Decoder TestCodec N := {| decode := test_decode |}.

(** The two halves agree. *)
Lemma test_codec_roundtrip c (m : u64) rest :
  m < 2 ^ 64 → (test_decode c (le_bytes 8 m ++ rest)).1 = Ok (8, m).
Proof.
  intros Hm. unfold test_decode. rewrite len_app.
  assert (len (le_bytes 8 m) = 8) as -> by (unfold len; by rewrite length_le_bytes).
  rewrite (proj2 (N.ltb_ge _ _)) by lia. rewrite take_app_length' by (by rewrite length_le_bytes).
  cbn [fst]. by rewrite le_number_bytes by exact Hm.
Qed.

(** *** The client *)

Abbreviation TestSlot := (OneshotView (result N RpcError) * bool)%type.
Abbreviation Queue := (Shared (option nat) (RpcNotification N)).
Abbreviation RemoteEnd := (Receiver (RpcNotification N)).
Abbreviation TestReactor := (RpcCompletionReactor TestSlot (option nat) N).

(** [get_client]. *)
Definition get_client : run (RemoteEnd * Queue * RpcClient * TestReactor) :=
  let* '(sender, remote_end, q) := channel in
  let rpc_reactor := completion_reactor_new in
  Return (remote_end, q, mkRpcClient sender, rpc_reactor).

(** [drive_future(remote_end.next())]: the receiver is polled until it is ready. *)
Fixpoint drive_next (fuel : nat) (q : Queue) (remote_end : RemoteEnd) : run (option (RpcNotification N) * Queue * RemoteEnd) :=
  match fuel with
  | O => OutOfFuel
  | S fuel =>
      let* '(p, q, remote_end) := poll_next q remote_end 0%nat in
      match p with
      | Ready result => Return (result, q, remote_end)
      | Pending => drive_next fuel q remote_end
      end
  end.

Definition unary_drop_cancel : run (list (option (RpcNotification N))) :=
  let* '(remote_end, q, client, reactor) := get_client in
  let* '(sent, q, reactor) := send_unary client 4 q reactor in
  match sent with
  | Err _ => Panic
  | Ok response =>
      let* '(notification, q, remote_end) := drive_next 1 q remote_end in
      let* '(q, _) := unary_drop response q (cells reactor) in
      let* '(cancellation, _, _) := drive_next 1 q remote_end in
      Return [notification; cancellation]
  end.

Definition streaming_drop_cancel : run (list (option (RpcNotification N))) :=
  let* '(remote_end, q, client, reactor) := get_client in
  let* '(sent, q, reactor) := send_streaming client 4 q reactor in
  match sent with
  | Err _ => Panic
  | Ok response =>
      let* '(notification, q, remote_end) := drive_next 1 q remote_end in
      let* q := streaming_drop response q in
      let* '(cancellation, _, _) := drive_next 1 q remote_end in
      Return [notification; cancellation]
  end.

(** [matches!(.., RpcNotification::New(CompletableRpc { message_id, .. }))] and
    [matches!(.., RpcNotification::Cancel(..))]. *)
Definition matched (n : option (RpcNotification N)) : option (bool * u64) :=
  match n with
  | Some (New rpc) => Some (true, cr_message_id rpc)
  | Some (CancelRpc id) => Some (false, id)
  | None => None
  end.

Definition all_matched (r : run (list (option (RpcNotification N)))) : run (list (option (bool * u64))) :=
  let* ns := r in Return (matched <$> ns).

Example unary_drop_cancel_passes : all_matched unary_drop_cancel = Return [Some (true, 4); Some (false, 4)].
Proof. vm_compute. reflexivity. Qed.

Example streaming_drop_cancel_passes : all_matched streaming_drop_cancel = Return [Some (true, 4); Some (false, 4)].
Proof. vm_compute. reflexivity. Qed.

(** *** The pool *)

(** A client that the connector made: the remote end, the clone and the reactor that
    it keeps; the pool has the client itself, under its number. *)
Record MadeClient := mkMadeClient {
  mc_remote_end : RemoteEnd;
  mc_queue : Queue;
  mc_client : RpcClient;
  mc_kept : RpcClient;
  mc_reactor : TestReactor;
}.

(** [TestConnector] and the pool of a test. *)
Record TestConnector := mkTestConnector {
  made_clients : list MadeClient;
  fail_connections : bool;
}.

Record PoolTest := mkPoolTest {
  pt_pool : Pool;
  pt_connector : TestConnector;
}.

Definition simulated_connection_failure : RpcError := IoFailure (OtherIo 1).

(** [ClientConnector::connect]. *)
Definition test_connect (t : TestConnector) : run (result nat RpcError * TestConnector) :=
  if fail_connections t then Return (Err simulated_connection_failure, t)
  else
    let* '(remote_end, q, client, reactor) := get_client in
    let* '(kept, q) := client_clone client q in
    Return (Ok (length (made_clients t)),
      mkTestConnector (made_clients t ++ [mkMadeClient remote_end q client kept reactor]) (fail_connections t)).

Definition pool_test (connection_count : usize) : PoolTest :=
  mkPoolTest (pool_new connection_count) (mkTestConnector [] false).

Definition set_fail (b : bool) (t : PoolTest) : PoolTest :=
  mkPoolTest (pt_pool t) (mkTestConnector (made_clients (pt_connector t)) b).

(** [is_alive.store(false)], on the flag that the client shares with its reactor. *)
Definition kill (c : nat) (t : PoolTest) : option PoolTest :=
  p ← pool_exec (ClientDies c) (pt_pool t);
  Some (mkPoolTest p (mkTestConnector
    (alter (λ x, mkMadeClient (mc_remote_end x) (mc_queue x) (mc_client x) (mc_kept x)
                   (mkReactor (rpc_registry (mc_reactor x)) false (cells (mc_reactor x)))) c
       (made_clients (pt_connector t))) (fail_connections (pt_connector t)))).

(** A task is run to its end; an attempt that it waits for is the connector's. *)
Fixpoint run_task (fuel : nat) (i : nat) (t : PoolTest) : run (result nat RpcError * PoolTest) :=
  match fuel with
  | O => OutOfFuel
  | S fuel =>
      match tasks (pt_pool t) !! i with
      | Some (Done _ r) => Return (r, t)
      | Some task =>
          match pool_exec (TaskStep i) (pt_pool t), task with
          | Some p, _ => run_task fuel i (mkPoolTest p (pt_connector t))
          | None, Awaiting _ j =>
              let* '(r, connector) := test_connect (pt_connector t) in
              match pool_exec (AttemptDone j (Ok r)) (pt_pool t) with
              | Some p => run_task fuel i (mkPoolTest p connector)
              | None => Panic
              end
          | None, _ => Panic
          end
      | None => Panic
      end
  end.

(** [pool.get_connection().await]: of a pool of one slot, whatever is drawn. *)
Definition get_connection (t : PoolTest) : run (result nat RpcError * PoolTest) :=
  let* slot := random_slot (pt_pool t) 0 in
  match pool_exec (CallSlot slot) (pt_pool t) with
  | Some p => run_task 10 (length (tasks (pt_pool t))) (mkPoolTest p (pt_connector t))
  | None => Panic
  end.

Definition expect_connection (t : PoolTest) : run (nat * PoolTest) :=
  let* '(r, t) := get_connection t in
  match r with Ok c => Return (c, t) | Err _ => Panic end.

Definition expect_err (t : PoolTest) : run (RpcError * PoolTest) :=
  let* '(r, t) := get_connection t in
  match r with Ok _ => Panic | Err e => Return (e, t) end.

Definition expect_some {A} (x : option A) : run A := match x with Some a => Return a | None => Panic end.

(** The numbers of connections that were made after the first and the second call,
    whether the two are the same, and the two requests that its remote end gets. *)
Definition connection_pool : run (nat * nat * bool * list (option (bool * u64))) :=
  let* '(rpc_client_a, t) := expect_connection (pool_test 1) in
  let n1 := length (made_clients (pt_connector t)) in
  let* '(rpc_client_b, t) := expect_connection t in
  let n2 := length (made_clients (pt_connector t)) in
  let* a := expect_some (made_clients (pt_connector t) !! rpc_client_a) in
  let* '(_reply_a, q, reactor) := send_unary (mc_client a) 42 (mc_queue a) (mc_reactor a) in
  let* '(_reply_b, q, reactor) := send_unary (mc_client a) 43 q reactor in
  let* '(request_a, q, remote_end) := drive_next 1 q (mc_remote_end a) in
  let* '(request_b, q, remote_end) := drive_next 1 q remote_end in
  Return (n1, n2, bool_decide (rpc_client_a = rpc_client_b), matched <$> [request_a; request_b]).

Definition connection_pool_reconnect : run (nat * nat * bool) :=
  let* '(rpc_client_a, t) := expect_connection (pool_test 1) in
  let n1 := length (made_clients (pt_connector t)) in
  let* t := expect_some (kill rpc_client_a t) in
  let* '(rpc_client_b, t) := expect_connection t in
  Return (n1, length (made_clients (pt_connector t)), bool_decide (rpc_client_a = rpc_client_b)).

Definition connection_pool_failure : run RpcError :=
  let* '(e, _) := expect_err (set_fail true (pool_test 1)) in Return e.

Definition connection_pool_reconnect_failure_recovery : run (RpcError * bool) :=
  let* '(rpc_client_a, t) := expect_connection (pool_test 1) in
  let* t := expect_some (kill rpc_client_a t) in
  let* '(e, t) := expect_err (set_fail true t) in
  let* '(rpc_client_b, t) := expect_connection (set_fail false t) in
  Return (e, bool_decide (rpc_client_a = rpc_client_b)).

Example connection_pool_passes :
  connection_pool = Return (1%nat, 1%nat, true, [Some (true, 42); Some (true, 43)]).
Proof. vm_compute. reflexivity. Qed.

Example connection_pool_reconnect_passes : connection_pool_reconnect = Return (1%nat, 2%nat, false).
Proof. vm_compute. reflexivity. Qed.

Example connection_pool_failure_passes : connection_pool_failure = Return simulated_connection_failure.
Proof. vm_compute. reflexivity. Qed.

Example connection_pool_reconnect_failure_recovery_passes :
  connection_pool_reconnect_failure_recovery = Return (simulated_connection_failure, false).
Proof. vm_compute. reflexivity. Qed.
End ClientTests.
